(** * DrupalSite operator: the reconcile loop and its helpers

    A shallow embedding of the controller of the DrupalSite operator
    (controllers/drupalsite_controller.go, controllers/drupalsite_resources.go
    and the status helpers) together with the properties of its
    reconciliation state machine.

    Conventions.
    - Go strings are [string]; Go maps are [gmap string string].  A nil map
      and an empty map are identified: they agree on [len], on reads, on
      [delete] and on [range], and the two places of the controller that
      write to a map first replace a zero-length map by a fresh one.
    - A pointer to the DrupalSite that a function mutates becomes an
      argument and a returned value.
    - Every call that leaves the process (cluster client, exec channel,
      clock, validator) is a constructor of [Call]; a function that makes
      such calls is a tree of type [Prog], run against any [Handler]. *)

From Stdlib Require Import ZArith QArith Lia.
From stdpp Require Import base strings gmap list.

Local Open Scope string_scope.
Local Open Scope Z_scope.

(** ** Go errors and Kubernetes API errors *)

(** metav1.StatusReason, as far as the controller tells reasons apart. *)
Inductive StatusReason : Type :=
| StatusReasonUnknown
| StatusReasonNotFound
| StatusReasonAlreadyExists
| StatusReasonConflict
| StatusReasonInvalid.

(** The sentinel error values [Err...] that classify a [reconcileError]. *)
Inductive ErrorCondition : Type :=
| ErrClientK8s
| ErrInvalidSpec
| ErrFunctionDomain
| ErrTemporary
| ErrPodExec
| ErrDBOD
| ErrBuildFailed
| ErrDeploymentUpdateFailed
| ErrPodNotRunning
| ErrDBUpdateFailed
| ErrFilesystemIO.

(** A Go [error] value. *)
#[warnings="-register-all"]
Inductive error : Type :=
| errorsNew (text : string)
| StatusError (reason : StatusReason) (text : string)
| Sentinel (c : ErrorCondition)
| Errorf_STDERR (stderr : string) (wrapped : option error)
(** [fmt.Errorf(prefix + "%w", err)] *)
| Errorf (prefix : string) (wrapped : error).

Definition ReasonForError (err : error) : StatusReason :=
  match err with
  | StatusError reason _ => reason
  | _ => StatusReasonUnknown
  end.

Definition IsNotFound (err : error) : bool :=
  match ReasonForError err with StatusReasonNotFound => true | _ => false end.

Definition IsConflict (err : error) : bool :=
  match ReasonForError err with StatusReasonConflict => true | _ => false end.

(** ** operator-lib [status.Conditions] *)

Module status.

Definition ConditionType := string.
Definition ConditionStatus := string.
Definition ConditionReason := string.

(** [LastTransitionTime] is left out: no code of the controller reads it,
    and [SetCondition] reports a change from [Status], [Reason] and
    [Message] alone. *)
Record Condition : Type := mkCondition {
  Type_ : ConditionType;
  Status : ConditionStatus;
  Reason : ConditionReason;
  Message : string
}.

Definition Conditions := list Condition.

Fixpoint GetCondition (conditions : Conditions) (t : ConditionType) : option Condition :=
  match conditions with
  | [] => None
  | condition :: rest =>
      if String.eqb (Type_ condition) t then Some condition else GetCondition rest t
  end.

(** Returns the new set and whether the condition is new or changed. *)
Fixpoint SetCondition (conditions : Conditions) (newCond : Condition) : bool * Conditions :=
  match conditions with
  | [] => (true, [newCond])
  | condition :: rest =>
      if String.eqb (Type_ condition) (Type_ newCond) then
        let changed :=
          negb (String.eqb (Status condition) (Status newCond))
          || negb (String.eqb (Reason condition) (Reason newCond))
          || negb (String.eqb (Message condition) (Message newCond)) in
        (changed, newCond :: rest)
      else
        let '(changed, rest') := SetCondition rest newCond in
        (changed, condition :: rest')
  end.

Fixpoint RemoveCondition (conditions : Conditions) (t : ConditionType) : bool * Conditions :=
  match conditions with
  | [] => (false, [])
  | condition :: rest =>
      if String.eqb (Type_ condition) t then (true, rest)
      else
        let '(removed, rest') := RemoveCondition rest t in
        (removed, condition :: rest')
  end.

End status.

Definition ConditionTrue_ : status.ConditionStatus := "True".
Definition ConditionFalse_ : status.ConditionStatus := "False".
Definition ConditionUnknown_ : status.ConditionStatus := "Unknown".

(** ** API types *)

(** [time.Time] as nanoseconds since the epoch, [time.Duration] as int64
    nanoseconds. *)
Definition Time := Z.
Definition Duration := Z.

Definition minDuration : Duration := - 2 ^ 63.
Definition maxDuration : Duration := 2 ^ 63 - 1.
Definition Minute : Duration := 60 * 1000000000.

(** [t.Sub(u)]: the difference, saturated to the range of a Duration. *)
Definition Sub (t u : Time) : Duration :=
  let d := t - u in
  if d <? minDuration then minDuration
  else if maxDuration <? d then maxDuration
  else d.

(** [d.Minutes()].  Go computes [float64(min) + float64(nsec)/(60*1e9)]
    with [min := d / Minute] and [nsec := d % Minute] (truncated division);
    the same expression is evaluated here in the rationals.  Both integers
    are exactly representable as float64 and the two roundings cannot move
    the sum across the integer 3, so the comparison below agrees with the
    one the program performs. *)
Definition Minutes (d : Duration) : Q :=
  (inject_Z (Z.quot d Minute) + inject_Z (Z.rem d Minute) / inject_Z Minute)%Q.

Definition Qltb (x y : Q) : bool := negb (Qle_bool y x).

Record Version : Type := mkVersion {
  Version_Name : string;
  ReleaseSpec : string
}.

Record Configuration : Type := mkConfiguration {
  CloneFrom : string;
  WebDAVPassword : string;
  ExtraConfigurationRepo : string;
  QoSClass : string;
  DatabaseClass : string;
  DiskSize : string
}.

Record DrupalSiteSpec : Type := mkDrupalSiteSpec {
  Publish : bool;
  MainSite : bool;
  SiteURL : string;
  Spec_Version : Version;
  Spec_Configuration : Configuration
}.

Record ReleaseID : Type := mkReleaseID {
  Current : string;
  Failsafe : string
}.

(** webservicesv1a1.Backup *)
Record Backup : Type := mkBackup {
  Backup_Name : string;
  Date : option Time;
  Expires : option Time
}.

Record DrupalSiteStatus : Type := mkDrupalSiteStatus {
  Conditions : status.Conditions;
  Status_ReleaseID : ReleaseID;
  ServingPodImage : string;
  AvailableBackups : list Backup
}.

Record DrupalSite : Type := mkDrupalSite {
  Name : string;
  Namespace : string;
  Labels : gmap string string;
  Annotations : gmap string string;
  Finalizers : list string;
  DeletionTimestamp : option Time;
  Spec : DrupalSiteSpec;
  Status : DrupalSiteStatus
}.

(** velerov1.Backup *)
Inductive BackupPhase : Type :=
| BackupPhaseNew
| BackupPhaseInProgress
| BackupPhaseCompleted
| BackupPhaseFailed
| BackupPhaseDeleting.

Record VeleroBackup : Type := mkVeleroBackup {
  Velero_Name : string;
  Velero_Phase : BackupPhase;
  CompletionTimestamp : option Time;
  Expiration : option Time
}.

(** The package-level function is written [backupListUpdateNeeded] below;
    record updates are written like the assignments of the source. *)
Definition set_Conditions (d : DrupalSite) (c : status.Conditions) : DrupalSite :=
  mkDrupalSite (Name d) (Namespace d) (Labels d) (Annotations d) (Finalizers d)
    (DeletionTimestamp d) (Spec d)
    (mkDrupalSiteStatus c (Status_ReleaseID (Status d)) (ServingPodImage (Status d))
       (AvailableBackups (Status d))).

Definition set_Annotations (d : DrupalSite) (a : gmap string string) : DrupalSite :=
  mkDrupalSite (Name d) (Namespace d) (Labels d) a (Finalizers d)
    (DeletionTimestamp d) (Spec d) (Status d).

(** ** Status helpers *)

(** [drp.ConditionTrue(condition)] *)
Definition ConditionTrue (drp : DrupalSite) (condition : status.ConditionType) : bool :=
  match status.GetCondition (Conditions (Status drp)) condition with
  | Some init => String.eqb (status.Status init) ConditionTrue_
  | None => false
  end.

(** Go's [m[k]] on a string map: the zero value when the key is absent. *)
Definition index (m : gmap string string) (k : string) : string :=
  default "" (m !! k).

(** setUpdateInProgress sets the 'updateInProgress' annotation. *)
Definition setUpdateInProgress (drp : DrupalSite) : bool * DrupalSite :=
  let drp :=
    if (size (Annotations drp) =? 0)%nat then set_Annotations drp ∅ else drp in
  if String.eqb (index (Annotations drp) "updateInProgress") "true" then (false, drp)
  else (true, set_Annotations drp (<["updateInProgress" := "true"]> (Annotations drp))).

(** unsetUpdateInProgress removes the 'updateInProgress' annotation. *)
Definition unsetUpdateInProgress (drp : DrupalSite) : bool * DrupalSite :=
  if negb (size (Annotations drp) =? 0)%nat then
    match Annotations drp !! "updateInProgress" with
    | Some _ => (true, set_Annotations drp (delete "updateInProgress" (Annotations drp)))
    | None => (false, drp)
    end
  else (false, drp).

(** ** Backup list helpers *)

(** The loop of backupListUpdateNeeded from index [i] on; [None] stands
    for the run-time panic of an index out of range. *)
Fixpoint backupNamesDiffer (i : nat) (veleroBackupsList : list VeleroBackup)
    (statusBackupsList : list Backup) : option bool :=
  match veleroBackupsList with
  | [] => Some false
  | v :: rest =>
      match statusBackupsList !! i with
      | None => None
      | Some s =>
          if negb (String.eqb (Velero_Name v) (Backup_Name s)) then Some true
          else backupNamesDiffer (S i) rest statusBackupsList
      end
  end.

Definition backupListUpdateNeeded (veleroBackupsList : list VeleroBackup)
    (statusBackupsList : list Backup) : option bool :=
  if negb (length veleroBackupsList =? length statusBackupsList)%nat then Some true
  else backupNamesDiffer 0 veleroBackupsList statusBackupsList.

(** The loop of updateBackupListStatus appends to an accumulator. *)
Fixpoint updateBackupListStatus_loop (statusBackupsList : list Backup)
    (veleroBackupsList : list VeleroBackup) : list Backup :=
  match veleroBackupsList with
  | [] => statusBackupsList
  | v :: rest =>
      updateBackupListStatus_loop
        (statusBackupsList ++ [mkBackup (Velero_Name v) (CompletionTimestamp v) (Expiration v)])
        rest
  end.

Definition updateBackupListStatus (veleroBackupsList : list VeleroBackup) : list Backup :=
  updateBackupListStatus_loop [] veleroBackupsList.

(** ** Cluster objects read by the controller *)

Record NamespacedName : Type := mkNamespacedName {
  key_Namespace : string;
  key_Name : string
}.

Inductive PodPhase : Type :=
| PodPhaseEmpty
| PodPending
| PodRunning
| PodSucceeded
| PodFailed
| PodUnknown.

Record Pod : Type := mkPod {
  Pod_Name : string;
  Pod_Annotations : gmap string string;
  Pod_Phase : PodPhase;
  Pod_CreationTimestamp : Time
}.

(** [corev1.Pod{}] *)
Definition emptyPod : Pod := mkPod "" ∅ PodPhaseEmpty 0.

Record Job : Type := mkJob {
  Succeeded : Z
}.

Record Deployment : Type := mkDeployment {
  ReadyReplicas : Z;
  Template_Annotations : gmap string string
}.

Record Database : Type := mkDatabase {
  DbodInstance : string
}.

Inductive Kind : Type :=
| KImageStream
| KBuildConfig
| KSecret
| KDeployment
| KService
| KPersistentVolumeClaim
| KRoute
| KOidcReturnURI
| KJob
| KConfigMap
| KDatabase
| KSchedule.

(** The object-shaping functions handed to [CreateOrUpdate], named with
    the arguments they close over.  What they write into the object is
    outside the reconciliation logic, except that
    [deploymentForDrupalSite] stamps its [releaseID] argument on the pod
    template (annotation "releaseID").

    Four of them do more than shape the object they are given: the three
    [updateConfigMapFor...] read a file and, for a config map that exists,
    get the Deployment of the site and create-or-update it; and
    [persistentVolumeClaimForDrupalSite] panics on a new claim whose size
    does not parse.  Their calls and the panic are written out as programs
    (module [callback] below), which ensureResourceX runs between the read
    and the write of the library call.

    [updateDeploymentAnnotations] is the closure of the same name in the
    three config-map functions: it stamps the digest of the entry [file] of
    the config map [currentobject] on the pod template of the Deployment,
    under the key [annotation].  The Deployments of the cluster are taken
    to be as the operator writes them, with annotations on the pod template
    and an init container, which is what this closure and
    [deploymentForDrupalSite] rely on when they write to an object that
    exists. *)
Inductive MutateFn : Type :=
| imageStreamForDrupalSiteBuilderS2I (d : DrupalSite)
| buildConfigForDrupalSiteBuilderS2I (d : DrupalSite)
| secretForWebDAV (d : DrupalSite)
| deploymentForDrupalSite (databaseSecret : string) (d : DrupalSite) (releaseID : string)
| serviceForDrupalSite (d : DrupalSite)
| persistentVolumeClaimForDrupalSite (d : DrupalSite)
| routeForDrupalSite (d : DrupalSite)
| newOidcReturnURI (d : DrupalSite)
| routeForWebDAV (d : DrupalSite)
| jobForDrupalSiteInstallation (databaseSecret : string) (d : DrupalSite)
| jobForDrupalSiteClone (databaseSecret : string) (d : DrupalSite)
| updateConfigMapForPHPFPM (d : DrupalSite)
| updateConfigMapForNginx (d : DrupalSite)
| updateConfigMapForSiteSettings (d : DrupalSite)
| dbodForDrupalSite (d : DrupalSite)
| scheduledBackupsForDrupalSite (d : DrupalSite)
| updateDeploymentAnnotations (currentobject : NamespacedName) (file annotation : string).

Inductive OperationResult : Type :=
| OperationResultNone
| OperationResultCreated
| OperationResultUpdated.

(** ctrl.Result *)
Record Result : Type := mkResult {
  Requeue : bool;
  RequeueAfter : Duration
}.

Definition emptyResult : Result := mkResult false 0.
Definition requeueResult : Result := mkResult true 0.

(** ** Calls that leave the process *)

Inductive Call : Type -> Type :=
| GetDrupalSite (key : NamespacedName) : Call (DrupalSite + error)
| GetJob (key : NamespacedName) : Call (Job + error)
| GetDeployment (key : NamespacedName) : Call (Deployment + error)
| GetDatabase (key : NamespacedName) : Call (Database + error)
| GetObject (k : Kind) (key : NamespacedName) : Call (option error)
| Delete (k : Kind) (key : NamespacedName) : Call (option error)
| ListPods (namespace : string) (matchLabels : list (string * string)) : Call (list Pod + error)
| ListDrupalSites (namespace : string) (matchLabels : list (string * string))
    : Call (list DrupalSite + error)
| ListBackups (namespace : string) (matchLabels : list (string * string))
    : Call (list VeleroBackup + error)
| CreateOrUpdate (k : Kind) (key : NamespacedName) (f : MutateFn) : Call (OperationResult + error)
| Update (d : DrupalSite) : Call (option error)
| StatusUpdate (d : DrupalSite) : Call (option error)
| execToPodThroughAPI (containerName podName namespace : string) (command : list string)
    : Call (string * string * option error)
| ReadFile (filename : string) : Call (string + error)
| timeNow : Call Time.

(** A function of the controller: a finite tree of calls, branching on the
    answers.  [Panic] is a Go run-time panic (an index out of range). *)
Inductive Prog (A : Type) : Type :=
| Ret (a : A)
| Panic
| Vis {R : Type} (c : Call R) (k : R -> Prog A).

Arguments Ret {A} a.
Arguments Panic {A}.
Arguments Vis {A R} c k.

Fixpoint bind {A B : Type} (m : Prog A) (f : A -> Prog B) : Prog B :=
  match m with
  | Ret a => f a
  | Panic => Panic
  | Vis c k => Vis c (fun r => bind (k r) f)
  end.

Definition call {R : Type} (c : Call R) : Prog R := Vis c Ret.

Declare Scope prog_scope.
Delimit Scope prog_scope with prog.
Bind Scope prog_scope with Prog.

Notation "x <- m ;; k" := (bind m (fun x => k))
  (at level 100, m at next level, right associativity) : prog_scope.

(** One call with its answer, and the run of a program against a world. *)
Inductive Event : Type :=
| Ev {R : Type} (c : Call R) (r : R).

Definition Handler (W : Type) : Type := forall R : Type, Call R -> W -> R * W.

Fixpoint run {W A : Type} (h : Handler W) (p : Prog A) (w : W)
    : option A * W * list Event :=
  match p with
  | Ret a => (Some a, w, [])
  | Panic => (None, w, [])
  | Vis c k =>
      let '(r, w1) := h _ c w in
      let '(a, w2, tr) := run h (k r) w1 in
      (a, w2, Ev c r :: tr)
  end.

(** [wp p Q]: whatever the calls answer, [p] does not panic and its trace
    and result satisfy [Q]. *)
Fixpoint wp {A : Type} (p : Prog A) (Q : list Event -> A -> Prop) : Prop :=
  match p with
  | Ret a => Q [] a
  | Panic => False
  | Vis c k => forall r, wp (k r) (fun tr a => Q (Ev c r :: tr) a)
  end.

(** [wpp p Q N], for a program that may panic: whatever the calls answer,
    the trace and the result of [p] satisfy [Q] if [p] returns, and the
    trace up to the panic satisfies [N] if [p] panics. *)
Fixpoint wpp {A : Type} (p : Prog A) (Q : list Event -> A -> Prop) (N : list Event -> Prop)
    : Prop :=
  match p with
  | Ret a => Q [] a
  | Panic => N []
  | Vis c k =>
      forall r, wpp (k r) (fun tr a => Q (Ev c r :: tr) a) (fun tr => N (Ev c r :: tr))
  end.

(** ** What the controller takes from outside src/

    The declarations of errors.go ([reconcileError], its constructor and
    methods, the [Err...] sentinels), the constant [CloneFromNothing] of the
    API package, the package-level configuration and the library functions
    are parameters of the development: every theorem holds for each
    implementation of this interface.  Values of [reconcileError] are taken
    to be immutable, as Go errors are: [Wrap] returns the wrapped error and
    leaves its receiver alone. *)
Class Externals : Type := {
  reconcileError : Type;
  newApplicationError : option error -> error -> reconcileError;
  Wrap : reconcileError -> string -> reconcileError;
  Unwrap : reconcileError -> error;
  Temporary : reconcileError -> bool;
  Error : reconcileError -> string;
  concat : list reconcileError -> reconcileError;
  (** a [reconcileError] used where an [error] is expected *)
  asError : reconcileError -> error;
  (** [err.Error()] of a plain error *)
  errorString : error -> string;
  CloneFromNothing : string;
  DefaultDomain : string;
  SiteBuilderImage : string;
  (** govalidator.ValidateStruct, metav1.LabelSelectorAsSelector, md5+hex,
      time.Time.String *)
  ValidateStruct : DrupalSiteSpec -> option error;
  LabelSelectorAsSelector : list (string * string) -> option error;
  md5Hex : string -> string;
  TimeString : Time -> string;
  (** resource.Quantity and resource.ParseQuantity; resource.MustParse
      panics where ParseQuantity returns an error *)
  Quantity : Type;
  ParseQuantity : string -> Quantity + error
}.

Definition finalizerStr : string := "controller.drupalsite.webservices.cern.ch".
Definition veleroNamespace : string := "openshift-cern-clusterstatebackup".

Definition set_Status (d : DrupalSite) (s : DrupalSiteStatus) : DrupalSite :=
  mkDrupalSite (Name d) (Namespace d) (Labels d) (Annotations d) (Finalizers d)
    (DeletionTimestamp d) (Spec d) s.

Definition set_Spec (d : DrupalSite) (s : DrupalSiteSpec) : DrupalSite :=
  mkDrupalSite (Name d) (Namespace d) (Labels d) (Annotations d) (Finalizers d)
    (DeletionTimestamp d) s (Status d).

Definition set_Labels (d : DrupalSite) (l : gmap string string) : DrupalSite :=
  mkDrupalSite (Name d) (Namespace d) l (Annotations d) (Finalizers d)
    (DeletionTimestamp d) (Spec d) (Status d).

Definition set_Finalizers (d : DrupalSite) (f : list string) : DrupalSite :=
  mkDrupalSite (Name d) (Namespace d) (Labels d) (Annotations d) f
    (DeletionTimestamp d) (Spec d) (Status d).

Definition set_Current (d : DrupalSite) (v : string) : DrupalSite :=
  set_Status d
    (mkDrupalSiteStatus (Conditions (Status d))
       (mkReleaseID v (Failsafe (Status_ReleaseID (Status d))))
       (ServingPodImage (Status d)) (AvailableBackups (Status d))).

Definition set_Failsafe (d : DrupalSite) (v : string) : DrupalSite :=
  set_Status d
    (mkDrupalSiteStatus (Conditions (Status d))
       (mkReleaseID (Current (Status_ReleaseID (Status d))) v)
       (ServingPodImage (Status d)) (AvailableBackups (Status d))).

Definition set_ServingPodImage (d : DrupalSite) (v : string) : DrupalSite :=
  set_Status d
    (mkDrupalSiteStatus (Conditions (Status d)) (Status_ReleaseID (Status d)) v
       (AvailableBackups (Status d))).

Definition set_AvailableBackups (d : DrupalSite) (v : list Backup) : DrupalSite :=
  set_Status d
    (mkDrupalSiteStatus (Conditions (Status d)) (Status_ReleaseID (Status d))
       (ServingPodImage (Status d)) v).

Definition set_SiteURL (d : DrupalSite) (v : string) : DrupalSite :=
  set_Spec d
    (mkDrupalSiteSpec (Publish (Spec d)) (MainSite (Spec d)) v (Spec_Version (Spec d))
       (Spec_Configuration (Spec d))).

Definition set_WebDAVPassword (d : DrupalSite) (v : string) : DrupalSite :=
  let c := Spec_Configuration (Spec d) in
  set_Spec d
    (mkDrupalSiteSpec (Publish (Spec d)) (MainSite (Spec d)) (SiteURL (Spec d))
       (Spec_Version (Spec d))
       (mkConfiguration (CloneFrom c) v (ExtraConfigurationRepo c) (QoSClass c)
          (DatabaseClass c) (DiskSize c))).

Definition set_CloneFrom (d : DrupalSite) (v : string) : DrupalSite :=
  let c := Spec_Configuration (Spec d) in
  set_Spec d
    (mkDrupalSiteSpec (Publish (Spec d)) (MainSite (Spec d)) (SiteURL (Spec d))
       (Spec_Version (Spec d))
       (mkConfiguration v (WebDAVPassword c) (ExtraConfigurationRepo c) (QoSClass c)
          (DatabaseClass c) (DiskSize c))).

(** [drp.Status.Conditions.SetCondition(c)] and [RemoveCondition(t)] on the
    site's own condition set. *)
Definition SetCondition (drp : DrupalSite) (c : status.Condition) : bool * DrupalSite :=
  let '(changed, cs) := status.SetCondition (Conditions (Status drp)) c in
  (changed, set_Conditions drp cs).

Definition RemoveCondition (drp : DrupalSite) (t : status.ConditionType) : bool * DrupalSite :=
  let '(removed, cs) := status.RemoveCondition (Conditions (Status drp)) t in
  (removed, set_Conditions drp cs).

(** releaseID is the image tag to use depending on the version and releaseSpec. *)
Definition releaseID (d : DrupalSite) : string :=
  Version_Name (Spec_Version (Spec d)) +:+ "-" +:+ ReleaseSpec (Spec_Version (Spec d)).

Definition databaseSecretName (d : DrupalSite) : string := "dbcredentials-" +:+ Name d.

Definition siteKey (d : DrupalSite) : NamespacedName :=
  mkNamespacedName (Namespace d) (Name d).

(** The exec commands. *)
Definition checkUpdbStatus : list string := ["/operations/check-updb-status.sh"].
Definition runUpDBCommand : list string := ["/operations/run-updb.sh"].
Definition takeBackup (filename : string) : list string :=
  ["/operations/database-backup.sh"; "-f"; filename].
Definition restoreBackup (filename : string) : list string :=
  ["/operations/database-restore.sh"; "-f"; filename].
Definition checkIfSiteIsInstalled : list string := ["/operations/check-if-installed.sh"].
Definition cacheReload : list string := ["/operations/clear-cache.sh"].

(** controllerutil finalizer helpers. *)
Definition ContainsFinalizer (d : DrupalSite) (finalizer : string) : bool :=
  existsb (String.eqb finalizer) (Finalizers d).

Definition AddFinalizer (d : DrupalSite) (finalizer : string) : DrupalSite :=
  if ContainsFinalizer d finalizer then d
  else set_Finalizers d (Finalizers d ++ [finalizer]).

Definition RemoveFinalizer (d : DrupalSite) (finalizer : string) : DrupalSite :=
  set_Finalizers d (List.filter (fun e => negb (String.eqb e finalizer)) (Finalizers d)).

Definition setReady (drp : DrupalSite) : bool * DrupalSite :=
  SetCondition drp (status.mkCondition "Ready" "True" "" "").

Definition setInitialized (drp : DrupalSite) : bool * DrupalSite :=
  SetCondition drp (status.mkCondition "Initialized" "True" "" "").

Definition setNotInitialized (drp : DrupalSite) : bool * DrupalSite :=
  SetCondition drp (status.mkCondition "Initialized" "False" "" "").

(** setDBUpdatesPending sets the 'DBUpdatesPending' status. *)
Definition setDBUpdatesPending (drp : DrupalSite) : bool * DrupalSite :=
  SetCondition drp (status.mkCondition "DBUpdatesPending" "True" "" "").

(** Go's [x != nil] on a value that may be nil. *)
Definition notNil {A : Type} (x : option A) : bool :=
  match x with Some _ => true | None => false end.

(** ** Callbacks that call out or panic

    The functions of drupalsite_resources.go that ensureResourceX hands to
    [controllerruntime.CreateOrUpdate] and that do more than shape their
    object.  Of [currentobject] they take its key and whether its creation
    timestamp is zero, which is the case exactly for an object that the
    library did not find. *)
Module callback.

Section Callbacks.

Context {E : Externals}.

Local Open Scope prog_scope.

(** updateConfigMapForPHPFPM modifies the configmap to include the php-fpm
    settings file.  If the file contents change, it rolls out a new
    deployment. *)
Definition updateConfigMapForPHPFPM (currentobject : NamespacedName) (isZero : bool)
    (d : DrupalSite) : Prog (option reconcileError) :=
  let configPath :=
    "/tmp/runtime-config/qos-" +:+ QoSClass (Spec_Configuration (Spec d)) +:+ "/php-fpm.conf" in
  r <- call (ReadFile configPath) ;;
  match r with
  | inr err =>
      Ret (Some (newApplicationError (Some (Errorf "reading PHP-FPM configMap failed: " err))
                   (Sentinel ErrFilesystemIO)))
  | inl content =>
      if negb isZero then
        (* Roll out a new deployment *)
        r <- call (GetDeployment (mkNamespacedName (Namespace d) (Name d))) ;;
        match r with
        | inr err =>
            Ret (Some (newApplicationError
                         (Some (Errorf "failed to roll out new deployment while updating the PHP-FPM configMap (deployment not found): " err))
                         (Sentinel ErrClientK8s)))
        | inl deploy =>
            r <- call (CreateOrUpdate KDeployment (mkNamespacedName (Namespace d) (Name d))
                         (updateDeploymentAnnotations currentobject "zz-docker.conf"
                            "phpfpm-configmap/hash")) ;;
            match r with
            | inr err =>
                Ret (Some (newApplicationError
                             (Some (Errorf "failed to roll out new deployment while updating the PHP-FPM configMap: " err))
                             (Sentinel ErrClientK8s)))
            | inl _ => Ret None
            end
        end
      else Ret None
  end.

(** updateConfigMapForNginx modifies the configmap to include the Nginx
    settings file.  If the file contents change, it rolls out a new
    deployment. *)
Definition updateConfigMapForNginx (currentobject : NamespacedName) (isZero : bool)
    (d : DrupalSite) : Prog (option reconcileError) :=
  let configPath :=
    "/tmp/runtime-config/qos-" +:+ QoSClass (Spec_Configuration (Spec d)) +:+ "/nginx.conf" in
  r <- call (ReadFile configPath) ;;
  match r with
  | inr err =>
      Ret (Some (newApplicationError (Some (Errorf "reading Nginx configuration failed: " err))
                   (Sentinel ErrFilesystemIO)))
  | inl content =>
      if negb isZero then
        (* Roll out a new deployment *)
        r <- call (GetDeployment (mkNamespacedName (Namespace d) (Name d))) ;;
        match r with
        | inr err =>
            Ret (Some (newApplicationError
                         (Some (Errorf "failed to roll out new deployment while updating the Nginx configMap (deployment not found): " err))
                         (Sentinel ErrClientK8s)))
        | inl deploy =>
            r <- call (CreateOrUpdate KDeployment (mkNamespacedName (Namespace d) (Name d))
                         (updateDeploymentAnnotations currentobject "custom.conf"
                            "nginx-configmap/hash")) ;;
            match r with
            | inr err =>
                Ret (Some (newApplicationError
                             (Some (Errorf "failed to roll out new deployment while updating the Nginx configMap: " err))
                             (Sentinel ErrClientK8s)))
            | inl _ => Ret None
            end
        end
      else Ret None
  end.

(** updateConfigMapForSiteSettings modifies the configmap to include the
    file settings.php. *)
Definition updateConfigMapForSiteSettings (currentobject : NamespacedName) (isZero : bool)
    (d : DrupalSite) : Prog (option reconcileError) :=
  let configPath := "/tmp/runtime-config/sitebuilder/settings.php" in
  r <- call (ReadFile configPath) ;;
  match r with
  | inr err =>
      Ret (Some (newApplicationError (Some (Errorf "reading settings.php failed: " err))
                   (Sentinel ErrFilesystemIO)))
  | inl content =>
      if negb isZero then
        (* Roll out a new deployment *)
        r <- call (GetDeployment (mkNamespacedName (Namespace d) (Name d))) ;;
        match r with
        | inr err =>
            Ret (Some (newApplicationError
                         (Some (Errorf "failed to roll out new deployment while updating the settings.php configMap (deployment not found): " err))
                         (Sentinel ErrClientK8s)))
        | inl deploy =>
            r <- call (CreateOrUpdate KDeployment (mkNamespacedName (Namespace d) (Name d))
                         (updateDeploymentAnnotations currentobject "settings.php"
                            "settings.php-configmap/hash")) ;;
            match r with
            | inr err =>
                Ret (Some (newApplicationError
                             (Some (Errorf "failed to roll out new deployment while updating the settings.php configMap: " err))
                             (Sentinel ErrClientK8s)))
            | inl _ => Ret None
            end
        end
      else Ret None
  end.

(** persistentVolumeClaimForDrupalSite returns a PVC object: the spec of a
    new claim asks for [resource.MustParse(d.Spec.Configuration.DiskSize)]. *)
Definition persistentVolumeClaimForDrupalSite (isZero : bool) (d : DrupalSite)
    : Prog (option reconcileError) :=
  if isZero then
    match ParseQuantity (DiskSize (Spec_Configuration (Spec d))) with
    | inr _ => Panic
    | inl _ => Ret None
    end
  else Ret None.

End Callbacks.

End callback.

Section Controller.

Context {E : Externals}.

Local Open Scope prog_scope.

Definition sentinel (c : ErrorCondition) : error := Sentinel c.

Definition setConditionStatus (drp : DrupalSite) (conditionType : status.ConditionType)
    (statusFlag : bool) (err : option reconcileError) (statusUnknown : bool)
    : bool * DrupalSite :=
  let statusStr :=
    if statusUnknown then ConditionUnknown_
    else if statusFlag then ConditionTrue_ else ConditionFalse_ in
  let condition :=
    match err with
    | Some err =>
        status.mkCondition conditionType statusStr (errorString (Unwrap err)) (Error err)
    | None => status.mkCondition conditionType statusStr "" ""
    end in
  SetCondition drp condition.

Definition setNotReady (drp : DrupalSite) (transientErr : option reconcileError)
    : bool * DrupalSite :=
  setConditionStatus drp "Ready" false transientErr false.

Definition setErrorCondition (drp : DrupalSite) (err : reconcileError) : bool * DrupalSite :=
  setConditionStatus drp "Error" true (Some err) false.

(** updateCRorFailReconcile tries to update the Custom Resource. *)
Definition updateCRorFailReconcile (drp : DrupalSite) : Prog (Result * option error) :=
  r <- call (Update drp) ;;
  match r with
  | Some err =>
      if IsConflict err then Ret (requeueResult, None)
      else Ret (emptyResult, Some err)
  | None => Ret (emptyResult, None)
  end.

(** updateCRStatusOrFailReconcile tries to update the Custom Resource Status. *)
Definition updateCRStatusOrFailReconcile (drp : DrupalSite) : Prog (Result * option error) :=
  r <- call (StatusUpdate drp) ;;
  match r with
  | Some err =>
      if IsConflict err then Ret (requeueResult, None)
      else Ret (emptyResult, Some err)
  | None => Ret (emptyResult, None)
  end.

Definition podLabels (d : DrupalSite) : list (string * string) :=
  [("drupalSite", Name d); ("app", "drupal")].

(** The loop of getPodForVersion over the listed pods; after the loop
    [err] is nil. *)
Fixpoint getPodForVersion_loop (items : list Pod) (releaseID : string)
    : Pod * option reconcileError :=
  match items with
  | [] => (emptyPod, Some (newApplicationError None (sentinel ErrClientK8s)))
  | v :: rest =>
      if String.eqb (index (Pod_Annotations v) "releaseID") releaseID then (v, None)
      else getPodForVersion_loop rest releaseID
  end.

(** getPodForVersion fetches the pods of the deployment and returns the
    first one that carries the release. *)
Definition getPodForVersion (d : DrupalSite) (releaseID : string)
    : Prog (Pod * option reconcileError) :=
  match LabelSelectorAsSelector (podLabels d) with
  | Some err => Ret (emptyPod, Some (newApplicationError (Some err) (sentinel ErrFunctionDomain)))
  | None =>
      r <- call (ListPods (Namespace d) (podLabels d)) ;;
      match r with
      | inr err => Ret (emptyPod, Some (newApplicationError (Some err) (sentinel ErrClientK8s)))
      | inl items =>
          if (length items =? 0)%nat then
            Ret (emptyPod,
                 Some (newApplicationError
                         (Some (errorsNew "No pod found with given labels"))
                         (sentinel ErrTemporary)))
          else Ret (getPodForVersion_loop items releaseID)
      end
  end.

Fixpoint getRunningPodForVersion_loop (items : list Pod) (releaseID : string)
    : Pod * option reconcileError :=
  match items with
  | [] => (emptyPod, Some (newApplicationError None (sentinel ErrClientK8s)))
  | v :: rest =>
      if String.eqb (index (Pod_Annotations v) "releaseID") releaseID then
        match Pod_Phase v with
        | PodRunning => (v, None)
        | _ => (v, Some (newApplicationError None (sentinel ErrPodNotRunning)))
        end
      else getRunningPodForVersion_loop rest releaseID
  end.

(** getRunningPodForVersion: as above, and the pod must be running. *)
Definition getRunningPodForVersion (d : DrupalSite) (releaseID : string)
    : Prog (Pod * option reconcileError) :=
  match LabelSelectorAsSelector (podLabels d) with
  | Some err => Ret (emptyPod, Some (newApplicationError (Some err) (sentinel ErrFunctionDomain)))
  | None =>
      r <- call (ListPods (Namespace d) (podLabels d)) ;;
      match r with
      | inr err => Ret (emptyPod, Some (newApplicationError (Some err) (sentinel ErrClientK8s)))
      | inl items =>
          if (length items =? 0)%nat then
            Ret (emptyPod,
                 Some (newApplicationError
                         (Some (errorsNew "No pod found with given labels"))
                         (sentinel ErrTemporary)))
          else Ret (getRunningPodForVersion_loop items releaseID)
      end
  end.

(** execToServerPod executes a command in the first running server pod. *)
Definition execToServerPod (d : DrupalSite) (containerName : string) (command : list string)
    : Prog (string * string * option error) :=
  p <- getRunningPodForVersion d (releaseID d) ;;
  let '(pod, err) := p in
  match err with
  | Some err => Ret ("", "", Some (asError err))
  | None => call (execToPodThroughAPI containerName (Pod_Name pod) (Namespace d) command)
  end.

(** execToServerPodErrOnStderr puts the contents of stderr in the error. *)
Definition execToServerPodErrOnStderr (d : DrupalSite) (containerName : string)
    (command : list string) : Prog (string * option error) :=
  r <- execToServerPod d containerName command ;;
  let '(stdout, stderr, err) := r in
  if notNil err || negb (String.eqb stderr "") then
    Ret ("", Some (Errorf_STDERR stderr err))
  else Ret (stdout, None).

(** isInstallJobCompleted checks if the drush job is successfully completed. *)
Definition isInstallJobCompleted (d : DrupalSite) : Prog bool :=
  r <- call (GetJob (mkNamespacedName (Namespace d) ("site-install-" +:+ Name d))) ;;
  match r with
  | inl found => Ret (negb (Succeeded found =? 0))
  | inr _ => Ret false
  end.

(** isCloneJobCompleted checks if the clone job is successfully completed. *)
Definition isCloneJobCompleted (d : DrupalSite) : Prog bool :=
  r <- call (GetJob (mkNamespacedName (Namespace d) ("clone-" +:+ Name d))) ;;
  match r with
  | inr _ => Ret false
  | inl cloneJob => Ret (negb (Succeeded cloneJob =? 0))
  end.

(** isDrupalSiteReady checks if the site is ready to serve requests. *)
Definition isDrupalSiteReady (d : DrupalSite) : Prog bool :=
  r <- call (GetDeployment (siteKey d)) ;;
  match r with
  | inl deployment => Ret (negb (ReadyReplicas deployment =? 0))
  | inr _ => Ret false
  end.

(** isDrupalSiteInstalled checks if the site is initialized by running the
    drush status command in the PHP pod. *)
Definition isDrupalSiteInstalled (d : DrupalSite) : Prog bool :=
  ready <- isDrupalSiteReady d ;;
  if ready then
    r <- execToServerPodErrOnStderr d "php-fpm" checkIfSiteIsInstalled ;;
    match snd r with
    | Some _ => Ret false
    | None => Ret true
    end
  else Ret false.

(** isDBODProvisioned checks the status of the DBOD custom resource. *)
Definition isDBODProvisioned (d : DrupalSite) : Prog bool :=
  r <- call (GetDatabase (siteKey d)) ;;
  match r with
  | inr _ => Ret false
  | inl database => Ret (0 <? String.length (DbodInstance database))%nat
  end.

(** The pattern repeated by every case of ensureResourceX: create or
    update, and turn a client error into an application error. *)
Definition createOrUpdate (k : Kind) (key : NamespacedName) (f : MutateFn)
    : Prog (option reconcileError) :=
  r <- call (CreateOrUpdate k key f) ;;
  match r with
  | inr err => Ret (Some (newApplicationError (Some err) (sentinel ErrClientK8s)))
  | inl _ => Ret None
  end.

(** The same, for a callback [mutate] that calls out or panics:
    [controllerutil.CreateOrUpdate] gets the object under [key]; on an
    error other than not-found it returns the error; otherwise it runs the
    callback, on a new object when nothing was found, returns the error of
    the callback if there is one, and creates the object or, if the callback
    changed it, updates it.  [GetObject] is that read, and the
    [CreateOrUpdate] call that ends the sequence is what is left of the
    library call once the callback has returned: the write, if any, and
    the answer. *)
Definition createOrUpdateWith (k : Kind) (key : NamespacedName) (f : MutateFn)
    (mutate : bool -> Prog (option reconcileError)) : Prog (option reconcileError) :=
  r <- (r <- call (GetObject k key) ;;
        match r with
        | Some err =>
            if IsNotFound err then
              err <- mutate true ;;
              match err with
              | Some err => Ret (inr (asError err))
              | None => call (CreateOrUpdate k key f)
              end
            else Ret (inr err)
        | None =>
            err <- mutate false ;;
            match err with
            | Some err => Ret (inr (asError err))
            | None => call (CreateOrUpdate k key f)
            end
        end) ;;
  match r with
  | inr err => Ret (Some (newApplicationError (Some err) (sentinel ErrClientK8s)))
  | inl _ => Ret None
  end.

(** nameVersionHash returns a hash using the drupalSite name and version:
    the first 7 bytes of the digest, in hex. *)
Definition nameVersionHash (drp : DrupalSite) : string :=
  String.substring 0 14 (md5Hex (Name drp +:+ releaseID drp)).

(** ensureResourceX ensures the requested resource is created. *)
Definition ensureResourceX (d : DrupalSite) (resType : string) : Prog (option reconcileError) :=
  let named (prefix : string) := mkNamespacedName (Namespace d) (prefix +:+ Name d) in
  if String.eqb resType "is_s2i" then
    createOrUpdate KImageStream (named "sitebuilder-s2i-") (imageStreamForDrupalSiteBuilderS2I d)
  else if String.eqb resType "bc_s2i" then
    createOrUpdate KBuildConfig
      (mkNamespacedName (Namespace d) ("sitebuilder-s2i-" +:+ nameVersionHash d))
      (buildConfigForDrupalSiteBuilderS2I d)
  else if String.eqb resType "webdav_secret" then
    createOrUpdate KSecret (named "webdav-secret-") (secretForWebDAV d)
  else if String.eqb resType "deploy_drupal" then
    r <- call (GetDeployment (siteKey d)) ;;
    let getSucceeded := match r with inl _ => true | inr _ => false end in
    if getSucceeded
       && (String.eqb (index (Annotations d) "updateInProgress") "true"
           || ConditionTrue d "CodeUpdateFailed" || ConditionTrue d "DBUpdatesFailed")
    then Ret None
    else
      let databaseSecret := databaseSecretName d in
      if negb (String.length databaseSecret =? 0)%nat then
        createOrUpdate KDeployment (siteKey d)
          (deploymentForDrupalSite databaseSecret d (releaseID d))
      else Ret None
  else if String.eqb resType "svc_nginx" then
    createOrUpdate KService (siteKey d) (serviceForDrupalSite d)
  else if String.eqb resType "pvc_drupal" then
    createOrUpdateWith KPersistentVolumeClaim (named "pv-claim-")
      (persistentVolumeClaimForDrupalSite d)
      (fun isZero => callback.persistentVolumeClaimForDrupalSite isZero d)
  else if String.eqb resType "route" then
    createOrUpdate KRoute (siteKey d) (routeForDrupalSite d)
  else if String.eqb resType "oidc_return_uri" then
    (* the error is logged and dropped *)
    _ <- call (CreateOrUpdate KOidcReturnURI (siteKey d) (newOidcReturnURI d)) ;;
    Ret None
  else if String.eqb resType "webdav_route" then
    createOrUpdate KRoute (named "webdav-") (routeForWebDAV d)
  else if String.eqb resType "site_install_job" then
    let databaseSecretName := databaseSecretName d in
    if (String.length databaseSecretName =? 0)%nat then Ret None
    else
      createOrUpdate KJob (named "site-install-")
        (jobForDrupalSiteInstallation databaseSecretName d)
  else if String.eqb resType "clone_job" then
    let databaseSecret := databaseSecretName d in
    if negb (String.length databaseSecret =? 0)%nat then
      createOrUpdate KJob (named "clone-") (jobForDrupalSiteClone databaseSecret d)
    else Ret None
  else if String.eqb resType "cm_php" then
    createOrUpdateWith KConfigMap (named "php-fpm-") (updateConfigMapForPHPFPM d)
      (fun isZero => callback.updateConfigMapForPHPFPM (named "php-fpm-") isZero d)
  else if String.eqb resType "cm_nginx" then
    createOrUpdateWith KConfigMap (named "nginx-") (updateConfigMapForNginx d)
      (fun isZero => callback.updateConfigMapForNginx (named "nginx-") isZero d)
  else if String.eqb resType "cm_settings" then
    createOrUpdateWith KConfigMap (named "site-settings-") (updateConfigMapForSiteSettings d)
      (fun isZero => callback.updateConfigMapForSiteSettings (named "site-settings-") isZero d)
  else if String.eqb resType "dbod_cr" then
    createOrUpdate KDatabase (siteKey d) (dbodForDrupalSite d)
  else if String.eqb resType "backup_schedule" then
    createOrUpdate KSchedule (mkNamespacedName veleroNamespace (Name d))
      (scheduledBackupsForDrupalSite d)
  else Ret (Some (newApplicationError None (sentinel ErrFunctionDomain))).

(** The pattern shared by the four ensureNo... functions: get the object
    under [key]; when it is there, delete it. *)
Definition ensureNoObject (k : Kind) (key : NamespacedName) : Prog (option reconcileError) :=
  r <- call (GetObject k key) ;;
  match r with
  | Some err =>
      if IsNotFound err then Ret None
      else Ret (Some (newApplicationError (Some err) (sentinel ErrClientK8s)))
  | None =>
      r <- call (Delete k key) ;;
      match r with
      | Some err => Ret (Some (newApplicationError (Some err) (sentinel ErrClientK8s)))
      | None => Ret None
      end
  end.

Definition ensureNoRoute (d : DrupalSite) : Prog (option reconcileError) :=
  ensureNoObject KRoute (mkNamespacedName (Namespace d) (Name d)).

(** The object is built with [Name: d.Name], as in ensureNoRoute. *)
Definition ensureNoWebDAVRoute (d : DrupalSite) : Prog (option reconcileError) :=
  ensureNoObject KRoute (mkNamespacedName (Namespace d) (Name d)).

(** The object is built as [&authz.OidcReturnURI{}]: empty name and namespace. *)
Definition ensureNoReturnURI (d : DrupalSite) : Prog (option reconcileError) :=
  ensureNoObject KOidcReturnURI (mkNamespacedName "" "").

Definition ensureNoSchedule (d : DrupalSite) : Prog (option reconcileError) :=
  ensureNoObject KSchedule (mkNamespacedName veleroNamespace (Name d)).

(** One step of ensureResources: run [step] and append its error, wrapped
    with [msg], to [transientErrs]. *)
Definition appendErr (transientErrs : list reconcileError) (step : Prog (option reconcileError))
    (msg : string) : Prog (list reconcileError) :=
  transientErr <- step ;;
  match transientErr with
  | Some transientErr => Ret (transientErrs ++ [Wrap transientErr msg])%list
  | None => Ret transientErrs
  end.

(** ensureResources ensures the presence of all the resources that the
    DrupalSite needs to serve content. *)
Definition ensureResources (drp : DrupalSite) : Prog (list reconcileError) :=
  let transientErrs : list reconcileError := [] in
  (* 1. BuildConfigs and ImageStreams *)
  transientErrs <-
    (if (0 <? String.length (ExtraConfigurationRepo (Spec_Configuration (Spec drp))))%nat then
       transientErrs <- appendErr transientErrs (ensureResourceX drp "is_s2i")
                          "%v: for S2I SiteBuilder ImageStream" ;;
       appendErr transientErrs (ensureResourceX drp "bc_s2i")
         "%v: for S2I SiteBuilder BuildConfig"
     else Ret transientErrs) ;;
  (* 2. Data layer *)
  transientErrs <- appendErr transientErrs (ensureResourceX drp "pvc_drupal") "%v: for Drupal PVC" ;;
  transientErrs <- appendErr transientErrs (ensureResourceX drp "dbod_cr") "%v: for DBOD resource" ;;
  transientErrs <- appendErr transientErrs (ensureResourceX drp "webdav_secret")
                     "%v: for WebDAV Secret" ;;
  (* 3. Serving layer *)
  transientErrs <- appendErr transientErrs (ensureResourceX drp "cm_php") "%v: for PHP-FPM CM" ;;
  transientErrs <- appendErr transientErrs (ensureResourceX drp "cm_nginx") "%v: for Nginx CM" ;;
  transientErrs <- appendErr transientErrs (ensureResourceX drp "cm_settings")
                     "%v: for settings.php CM" ;;
  provisioned <- isDBODProvisioned drp ;;
  transientErrs <-
    (if provisioned then
       appendErr transientErrs (ensureResourceX drp "deploy_drupal") "%v: for Drupal DC"
     else Ret transientErrs) ;;
  transientErrs <- appendErr transientErrs (ensureResourceX drp "svc_nginx") "%v: for Nginx SVC" ;;
  provisioned <- isDBODProvisioned drp ;;
  transientErrs <-
    (if provisioned then
       if String.eqb (CloneFrom (Spec_Configuration (Spec drp))) CloneFromNothing then
         appendErr transientErrs (ensureResourceX drp "site_install_job")
           "%v: for site install Job"
       else
         appendErr transientErrs (ensureResourceX drp "clone_job") "%v: for clone Job"
     else Ret transientErrs) ;;
  (* 4. Ingress *)
  transientErrs <-
    (if ConditionTrue drp "Initialized" && Publish (Spec drp) then
       transientErrs <- appendErr transientErrs (ensureResourceX drp "webdav_route")
                          "%v: for WebDAV Route" ;;
       transientErrs <- appendErr transientErrs (ensureResourceX drp "route") "%v: for Route" ;;
       appendErr transientErrs (ensureResourceX drp "oidc_return_uri") "%v: for OidcReturnURI"
     else
       transientErrs <- appendErr transientErrs (ensureNoWebDAVRoute drp)
                          "%v: while deleting the WebDAV Route" ;;
       transientErrs <- appendErr transientErrs (ensureNoRoute drp)
                          "%v: while deleting the Route" ;;
       appendErr transientErrs (ensureNoReturnURI drp) "%v: while deleting the OidcReturnURI") ;;
  (* 5. Backup schedule *)
  if ConditionTrue drp "Initialized" && ConditionTrue drp "Ready" then
    appendErr transientErrs (ensureResourceX drp "backup_schedule") "%v: for Velero Schedule"
  else Ret transientErrs.

Definition backupLabels (d : DrupalSite) : list (string * string) :=
  [("drupal.webservices.cern.ch/drupalSite", md5Hex (Namespace d +:+ "/" +:+ Name d))].

Definition isCompleted (b : VeleroBackup) : bool :=
  match Velero_Phase b with BackupPhaseCompleted => true | _ => false end.

(** checkNewBackups lists the completed backups of the site. *)
Definition checkNewBackups (d : DrupalSite) : Prog (list VeleroBackup * option reconcileError) :=
  match LabelSelectorAsSelector (backupLabels d) with
  | Some err => Ret ([], Some (newApplicationError (Some err) (sentinel ErrFunctionDomain)))
  | None =>
      r <- call (ListBackups veleroNamespace (backupLabels d)) ;;
      match r with
      | inr err => Ret ([], Some (newApplicationError (Some err) (sentinel ErrClientK8s)))
      | inl items =>
          if (length items =? 0)%nat then Ret ([], None)
          else Ret (List.filter isCompleted items, None)
      end
  end.

(** sitebuilderImageRefToUse returns which base image to use: its
    [Kind] and [Name]. *)
Definition sitebuilderImageRefToUse (d : DrupalSite) (releaseID : string) : string * string :=
  if (0 <? String.length (ExtraConfigurationRepo (Spec_Configuration (Spec d))))%nat then
    ("ImageStreamTag", "sitebuilder-s2i-" +:+ Name d +:+ ":" +:+ releaseID)
  else ("DockerImage", SiteBuilderImage +:+ ":" +:+ releaseID).

(** validateSpec validates the spec against the DrupalSiteSpec definition. *)
Definition validateSpec (drpSpec : DrupalSiteSpec) : option reconcileError :=
  match ValidateStruct drpSpec with
  | Some err => Some (newApplicationError (Some err) (sentinel ErrInvalidSpec))
  | None => None
  end.

(** generateWebDAVpassword generates the password for WebDAV. *)
Definition generateWebDAVpassword : Prog string :=
  now <- call timeNow ;;
  Ret (String.substring 0 10 (md5Hex (TimeString now))).

(** ensureSpecFinalizer ensures that the spec is valid, adding extra info if
    necessary, and that the finalizer is there, then returns if it needs to
    be updated. *)
Definition ensureSpecFinalizer (drp : DrupalSite)
    : Prog (DrupalSite * bool * option reconcileError) :=
  let update := false in
  let '(drp, update) :=
    if negb (ContainsFinalizer drp finalizerStr) then (AddFinalizer drp finalizerStr, true)
    else (drp, update) in
  let drp :=
    if String.eqb (SiteURL (Spec drp)) "" then
      if MainSite (Spec drp) then set_SiteURL drp (Namespace drp +:+ "." +:+ DefaultDomain)
      else set_SiteURL drp (Name drp +:+ "-" +:+ Namespace drp +:+ "." +:+ DefaultDomain)
    else drp in
  drp <-
    (if String.eqb (WebDAVPassword (Spec_Configuration (Spec drp))) "" then
       password <- generateWebDAVpassword ;;
       Ret (set_WebDAVPassword drp password)
     else Ret drp) ;;
  let exists_ := notNil (Labels drp !! "production") in
  let drp :=
    if MainSite (Spec drp) && negb exists_ then
      let labels := if (size (Labels drp) =? 0)%nat then ∅ else Labels drp in
      set_Labels drp (<["production" := "true"]> labels)
    else drp in
  let drp :=
    if negb (MainSite (Spec drp)) && exists_ then
      set_Labels drp (delete "production" (Labels drp))
    else drp in
  if String.eqb (CloneFrom (Spec_Configuration (Spec drp))) "" then
    match LabelSelectorAsSelector [("production", "true")] with
    | Some err =>
        Ret (drp, false, Some (newApplicationError (Some err) (sentinel ErrFunctionDomain)))
    | None =>
        r <- call (ListDrupalSites (Namespace drp) [("production", "true")]) ;;
        match r with
        | inr err =>
            Ret (drp, false, Some (newApplicationError (Some err) (sentinel ErrClientK8s)))
        | inl [] => Ret (set_CloneFrom drp CloneFromNothing, update, None)
        | inl (item0 :: _) =>
            if negb (ConditionTrue drp "Initialized") && negb (MainSite (Spec drp)) then
              Ret (set_CloneFrom drp (Name item0), update, None)
            else Ret (set_CloneFrom drp CloneFromNothing, update, None)
        end
    end
  else Ret (drp, update, None).

(** cleanupDrupalSite checks and removes if a finalizer exists on the resource. *)
Definition cleanupDrupalSite (drp : DrupalSite) : Prog (Result * option error) :=
  let drp := RemoveFinalizer drp finalizerStr in
  err <- ensureNoSchedule drp ;;
  match err with
  | Some err => Ret (emptyResult, Some (asError err))
  | None => updateCRorFailReconcile drp
  end.

(** didVersionRollOutSucceed checks if the deployment has rolled out the new
    pods successfully and the new pods are running. *)
Definition didVersionRollOutSucceed (d : DrupalSite) : Prog (bool * option reconcileError) :=
  p <- getPodForVersion d (releaseID d) ;;
  let '(pod, err) := p in
  if match err with Some err => Temporary err | None => false end then
    Ret (false, Some (newApplicationError (option_map asError err) (sentinel ErrClientK8s)))
  else
    match Pod_Phase pod with
    | PodFailed | PodUnknown =>
        Ret (false,
             Some (newApplicationError (Some (errorsNew "Pod did not roll out successfully"))
                     (sentinel ErrDeploymentUpdateFailed)))
    | PodPending =>
        currentTime <- call timeNow ;;
        if Qltb (Minutes (Sub currentTime (Pod_CreationTimestamp pod))) (3 # 1) then
          Ret (true,
               Some (newApplicationError (Some (errorsNew "Waiting for pod to start"))
                       (sentinel ErrPodNotRunning)))
        else
          Ret (false,
               Some (newApplicationError
                       (Some (errorsNew "Pod failed to start after grace period"))
                       (sentinel ErrDeploymentUpdateFailed)))
    | _ => Ret (false, None)
    end.

(** updateNeeded checks if a code or DB update is required based on the
    releaseID in the CR spec and the one of the running deployment. *)
Definition updateNeeded (d : DrupalSite) : Prog (bool * option reconcileError) :=
  if ConditionTrue d "Ready" && ConditionTrue d "Initialized" then
    r <- call (GetDeployment (siteKey d)) ;;
    match r with
    | inr err => Ret (false, Some (newApplicationError (Some err) (sentinel ErrClientK8s)))
    | inl deployment =>
        if negb (String.eqb (index (Template_Annotations deployment) "releaseID") (releaseID d))
           && ConditionTrue d "Ready" && ConditionTrue d "Initialized"
        then Ret (true, None)
        else Ret (false, None)
    end
  else Ret (false, None).

(** ensureUpdatedDeployment runs the logic to do the base update for a new
    Drupal version.  The result is [None] for the empty OperationResult. *)
Definition ensureUpdatedDeployment (d : DrupalSite)
    : Prog (option OperationResult * option reconcileError) :=
  let dbodSecret := databaseSecretName d in
  if negb (String.length dbodSecret =? 0)%nat then
    r <- call (CreateOrUpdate KDeployment (siteKey d)
                 (deploymentForDrupalSite dbodSecret d (releaseID d))) ;;
    match r with
    | inr err => Ret (None, Some (newApplicationError (Some err) (sentinel ErrClientK8s)))
    | inl result => Ret (Some result, None)
    end
  else
    Ret (None,
         Some (newApplicationError (Some (errorsNew "Database secret value empty"))
                 (sentinel ErrDBOD))).

(** rollBackCodeUpdate rolls back the code update process to the previous
    version: it restores the deployment to the 'Failsafe' release of the
    status. *)
Definition rollBackCodeUpdate (d : DrupalSite) : Prog (option reconcileError) :=
  let dbodSecret := databaseSecretName d in
  if negb (String.length dbodSecret =? 0)%nat then
    r <- call (CreateOrUpdate KDeployment (siteKey d)
                 (deploymentForDrupalSite dbodSecret d (Failsafe (Status_ReleaseID (Status d))))) ;;
    match r with
    | inr err => Ret (Some (newApplicationError (Some err) (sentinel ErrClientK8s)))
    | inl _ => Ret None
    end
  else Ret None.

(** rollBackDBUpdate rolls back the DB update process to the previous
    version of the database from the backup. *)
Definition rollBackDBUpdate (d : DrupalSite) (backupFileName : string)
    : Prog (option reconcileError) :=
  r <- execToServerPodErrOnStderr d "php-fpm" (restoreBackup backupFileName) ;;
  match snd r with
  | Some err => Ret (Some (newApplicationError (Some err) (sentinel ErrPodExec)))
  | None => Ret None
  end.

(** The return values of updateDrupalVersion. *)
Record VersionUpdate : Type := mkVersionUpdate {
  vu_update : bool;
  vu_requeue : bool;
  vu_err : option reconcileError;
  vu_errorMessage : string
}.

(** updateDrupalVersion, from the cache reload on: lines after the
    roll-out check. *)
Definition updateDrupalVersion_reload (d : DrupalSite) : Prog (DrupalSite * VersionUpdate) :=
  (* Do a drush cr after the new deployment is rolled out. Try it a second
     time, in case of a failure during the first *)
  r <- execToServerPodErrOnStderr d "php-fpm" cacheReload ;;
  let '(sout, stderr) := r in
  r <-
    (if notNil stderr then
       r <- execToServerPodErrOnStderr d "php-fpm" cacheReload ;;
       let '(sout, stderr) := r in
       if notNil stderr then Ret (inl (mkVersionUpdate true false None ""))
       else Ret (inr sout)
     else Ret (inr sout)) ;;
  match r with
  | inl returned => Ret (d, returned)
  | inr sout =>
      if negb (String.eqb sout "") then
        _ <- rollBackCodeUpdate d ;;
        let '(_, d) :=
          setConditionStatus d "CodeUpdateFailed" true
            (Some (newApplicationError None (errorsNew "Error clearing cache"))) false in
        Ret (d, mkVersionUpdate true false None "")
      else if ConditionTrue d "CodeUpdateFailed" then
        (* When code updating set to false and everything runs fine, remove the status *)
        let '(_, d) := RemoveCondition d "CodeUpdateFailed" in
        Ret (d, mkVersionUpdate true false None "")
      else Ret (d, mkVersionUpdate false false None "")
  end.

(** updateDrupalVersion updates the drupal version of the running site to
    the modified value in the spec. *)
Definition updateDrupalVersion (d : DrupalSite) : Prog (DrupalSite * VersionUpdate) :=
  (* Ensure the new deployment is rolledout *)
  r <- ensureUpdatedDeployment d ;;
  let '(result, err) := r in
  match err with
  | Some err =>
      Ret (d, mkVersionUpdate false false (Some err)
                "%v while deploying the updated Drupal images of version")
  | None =>
      match result with
      | Some OperationResultNone =>
          (* Check if deployment has rolled out *)
          r <- didVersionRollOutSucceed d ;;
          let '(requeue, err) := r in
          match err with
          | Some err =>
              if Temporary err then
                Ret (d, mkVersionUpdate false false (Some err)
                          "Temporary error while checking for version roll out")
              else
                (* the result of [err.Wrap(...)] is dropped *)
                let _ := Wrap err ("%v: Failed to update version " +:+ releaseID d) in
                rollBackErr <- rollBackCodeUpdate d ;;
                match rollBackErr with
                | Some rollBackErr =>
                    Ret (d, mkVersionUpdate false false (Some rollBackErr)
                              "Error while rolling back version")
                | None =>
                    let '(_, d) := setConditionStatus d "CodeUpdateFailed" true (Some err) false in
                    Ret (d, mkVersionUpdate true false None "")
                end
          | None =>
              if requeue then Ret (d, mkVersionUpdate false true None "")
              else updateDrupalVersion_reload d
          end
      | _ =>
          (* If result doesn't return "unchanged" reconcile *)
          Ret (d, mkVersionUpdate false true None "")
      end
  end.

(** updateDBSchema, its last lines: DB update successful, remove conditions. *)
Definition updateDBSchema_done (d : DrupalSite) : DrupalSite * bool :=
  if ConditionTrue d "DBUpdatesPending" then
    let '(_, d) := RemoveCondition d "DBUpdatesPending" in
    let d :=
      if ConditionTrue d "DBUpdatesFailed" then snd (RemoveCondition d "DBUpdatesFailed")
      else d in
    (d, true)
  else (d, false).

(** updateDBSchema updates the drupal schema of the running site after a
    version update. *)
Definition updateDBSchema (d : DrupalSite) : Prog (DrupalSite * bool) :=
  r <- execToServerPodErrOnStderr d "php-fpm" checkUpdbStatus ;;
  let '(sout, err) := r in
  if notNil err then Ret (d, true)
  else if negb (String.eqb sout "") then
    (* Set DBUpdatesPending status *)
    let '(changed, d) := setDBUpdatesPending d in
    if changed then Ret (d, true)
    else
      (* Take backup *)
      let backupFileName := "db_backup_update_rollback.sql" in
      r <- execToServerPodErrOnStderr d "php-fpm" (takeBackup backupFileName) ;;
      match snd r with
      | Some err =>
          let '(_, d) :=
            setConditionStatus d "DBUpdatesFailed" true
              (Some (newApplicationError (Some err) (sentinel ErrPodExec))) false in
          Ret (d, true)
      | None =>
          (* Run updb *)
          r <- execToServerPodErrOnStderr d "php-fpm" runUpDBCommand ;;
          match snd r with
          | Some _ =>
              err <- rollBackDBUpdate d backupFileName ;;
              match err with
              | Some err =>
                  let '(_, d) :=
                    setConditionStatus d "DBUpdatesFailed" true
                      (Some (newApplicationError (Some (asError err))
                               (sentinel ErrDBUpdateFailed))) false in
                  Ret (d, true)
              | None =>
                  let '(_, d) :=
                    setConditionStatus d "DBUpdatesFailed" true
                      (Some (newApplicationError None (sentinel ErrDBUpdateFailed))) false in
                  Ret (d, true)
              end
          | None => Ret (updateDBSchema_done d)
          end
      end
  else Ret (updateDBSchema_done d).

(** *** Reconcile

    The body of Reconcile is cut at the numbered comments of the source;
    each part ends by returning from Reconcile or by entering the next
    part.  [err] is the variable of that name declared by the first
    statement of Reconcile, which the closure handleTransientErr captures. *)

Definition handleTransientErr (err : option error) (drupalSite : DrupalSite)
    (transientErr : reconcileError) (logstrFmt : string) (status : string)
    : Prog (Result * option error) :=
  let drupalSite :=
    if String.eqb status "Ready" then
      snd (setConditionStatus drupalSite "Ready" false (Some transientErr) false)
    else drupalSite in
  _ <- updateCRStatusOrFailReconcile drupalSite ;;
  if Temporary transientErr then
    (* emitting error because the controller can count it in the error metrics *)
    Ret (emptyResult, err)
  else Ret (emptyResult, None).

(** Lines 336-349: synchronise the list of completed backups. *)
Definition Reconcile_backups (drupalSite : DrupalSite) (requeueFlag : option error)
    : Prog (Result * option error) :=
  r <- checkNewBackups drupalSite ;;
  let '(backupList, err) := r in
  match err with
  | Some err => Ret (emptyResult, Some (asError err))
  | None =>
      if negb (length backupList =? 0)%nat then
        match backupListUpdateNeeded backupList (AvailableBackups (Status drupalSite)) with
        | None => Panic
        | Some true =>
            updateCRStatusOrFailReconcile
              (set_AvailableBackups drupalSite (updateBackupListStatus backupList))
        | Some false => Ret (emptyResult, requeueFlag)
        end
      else Ret (emptyResult, requeueFlag)
  end.

(** Lines 321-334: 4. Check DBOD has been provisioned; update the Failsafe
    during the first instantiation and after a successful update. *)
Definition Reconcile_failsafe (drupalSite : DrupalSite) (requeueFlag : option error)
    : Prog (Result * option error) :=
  dbodReady <- isDBODProvisioned drupalSite ;;
  if negb dbodReady then
    let '(update, drupalSite) :=
      setNotReady drupalSite (Some (newApplicationError None (sentinel ErrDBOD))) in
    _ <- (if update then updateCRStatusOrFailReconcile drupalSite
          else Ret (emptyResult, None)) ;;
    Ret (requeueResult, None)
  else if negb (String.eqb (Current (Status_ReleaseID (Status drupalSite)))
                  (Failsafe (Status_ReleaseID (Status drupalSite))))
          && negb (ConditionTrue drupalSite "DBUpdatesFailed")
          && negb (ConditionTrue drupalSite "CodeUpdateFailed") then
    let drupalSite := set_Failsafe drupalSite (releaseID drupalSite) in
    let drupalSite :=
      set_ServingPodImage drupalSite
        (snd (sitebuilderImageRefToUse drupalSite (releaseID drupalSite))) in
    updateCRStatusOrFailReconcile drupalSite
  else Reconcile_backups drupalSite requeueFlag.

(** Lines 284-319: code update, database update, end of the update. *)
Definition Reconcile_update (err : option error) (drupalSite : DrupalSite)
    (isUpdateAnnotationSet : bool) (requeueFlag : option error)
    : Prog (Result * option error) :=
  r <-
    (if isUpdateAnnotationSet && negb (ConditionTrue drupalSite "CodeUpdateFailed")
        && negb (ConditionTrue drupalSite "DBUpdatesPending") then
       r <- updateDrupalVersion drupalSite ;;
       let '(drupalSite, v) := r in
       match vu_err v with
       | Some err' =>
           if Temporary err' then Ret (inl (Ret (emptyResult, Some (asError err'))))
           else
             Ret (inl (handleTransientErr err drupalSite err' (vu_errorMessage v)
                         "CodeUpdateFailed"))
       | None =>
           if vu_update v then Ret (inl (updateCRStatusOrFailReconcile drupalSite))
           else if vu_requeue v then Ret (inl (Ret (requeueResult, None)))
           else Ret (inr drupalSite)
       end
     else Ret (inr drupalSite)) ;;
  match r with
  | inl returned => returned
  | inr drupalSite =>
      r <-
        (if isUpdateAnnotationSet && negb (ConditionTrue drupalSite "DBUpdatesFailed")
            && negb (ConditionTrue drupalSite "CodeUpdateFailed") then
           updateDBSchema drupalSite
         else Ret (drupalSite, false)) ;;
      let '(drupalSite, update) := r in
      if update then updateCRStatusOrFailReconcile drupalSite
      else
        let '(unset, drupalSite) := unsetUpdateInProgress drupalSite in
        if unset then updateCRorFailReconcile drupalSite
        else Reconcile_failsafe drupalSite requeueFlag
  end.

(** Lines 275-282: 3. ensure all resources. *)
Definition Reconcile_resources (err : option error) (drupalSite : DrupalSite)
    (isUpdateAnnotationSet : bool) (requeueFlag : option error)
    : Prog (Result * option error) :=
  transientErrs <- ensureResources drupalSite ;;
  if negb (length transientErrs =? 0)%nat then
    let transientErr := concat transientErrs in
    let '(_, drupalSite) := setNotReady drupalSite (Some transientErr) in
    handleTransientErr err drupalSite transientErr "%v while ensuring the resources" "Ready"
  else Reconcile_update err drupalSite isUpdateAnnotationSet requeueFlag.

(** Lines 261-273: is an update needed? *)
Definition Reconcile_updateNeeded (err : option error) (drupalSite : DrupalSite)
    : Prog (Result * option error) :=
  let requeueFlag : option error := None in
  r <- updateNeeded drupalSite ;;
  let '(updateNeeded, reconcileErr) := r in
  let isUpdateAnnotationSet := notNil (Annotations drupalSite !! "updateInProgress") in
  if negb isUpdateAnnotationSet && negb (ConditionTrue drupalSite "CodeUpdateFailed")
     && negb (ConditionTrue drupalSite "DBUpdatesFailed") then
    match reconcileErr with
    | Some reconcileErr =>
        (* handleNonfatalErr *)
        let requeueFlag := Some (asError reconcileErr) in
        Reconcile_resources err drupalSite isUpdateAnnotationSet requeueFlag
    | None =>
        if updateNeeded then
          let '(set, drupalSite) := setUpdateInProgress drupalSite in
          if set then updateCRorFailReconcile drupalSite
          else Reconcile_resources err drupalSite isUpdateAnnotationSet requeueFlag
        else Reconcile_resources err drupalSite isUpdateAnnotationSet requeueFlag
    end
  else Reconcile_resources err drupalSite isUpdateAnnotationSet requeueFlag.

(** Lines 226-233: check if the site is installed or cloned and mark the
    condition. *)
Definition Reconcile_initialized (drupalSite : DrupalSite) (update : bool)
    : Prog (DrupalSite * bool) :=
  if negb (ConditionTrue drupalSite "Initialized") then
    installed <- isDrupalSiteInstalled drupalSite ;;
    done <- (if installed then Ret true else isCloneJobCompleted drupalSite) ;;
    if done then
      let '(changed, drupalSite) := setInitialized drupalSite in
      Ret (drupalSite, changed || update)
    else
      let '(changed, drupalSite) := setNotInitialized drupalSite in
      Ret (drupalSite, changed || update)
  else Ret (drupalSite, update).

(** Lines 246-254: after a failed update, remove the failure conditions once
    the spec is back on the failsafe release. *)
Definition Reconcile_clearFailures (drupalSite : DrupalSite) (update : bool)
    : DrupalSite * bool :=
  if String.eqb (Failsafe (Status_ReleaseID (Status drupalSite))) (releaseID drupalSite) then
    let '(drupalSite, update) :=
      if ConditionTrue drupalSite "CodeUpdateFailed" then
        let '(removed, drupalSite) := RemoveCondition drupalSite "CodeUpdateFailed" in
        (drupalSite, removed || update)
      else (drupalSite, update) in
    if ConditionTrue drupalSite "DBUpdatesFailed" then
      let '(removed, drupalSite) := RemoveCondition drupalSite "DBUpdatesFailed" in
      (drupalSite, removed || update)
    else (drupalSite, update)
  else (drupalSite, update).

(** Lines 210-259: 2. check all conditions and update if needed. *)
Definition Reconcile_conditions (err : option error) (drupalSite : DrupalSite)
    : Prog (Result * option error) :=
  let update := false in
  (* Set Current version *)
  let '(drupalSite, update) :=
    if negb (String.eqb (Current (Status_ReleaseID (Status drupalSite))) (releaseID drupalSite))
    then (set_Current drupalSite (releaseID drupalSite), true || update)
    else (drupalSite, update) in
  (* Check if the drupal site is ready to serve requests *)
  siteReady <- isDrupalSiteReady drupalSite ;;
  let '(drupalSite, update) :=
    if siteReady then
      let '(changed, drupalSite) := setReady drupalSite in (drupalSite, changed || update)
    else
      let '(changed, drupalSite) := setNotReady drupalSite None in
      (drupalSite, changed || update) in
  r <- Reconcile_initialized drupalSite update ;;
  let '(drupalSite, update) := r in
  (* 'DBUpdatesPending' is set without a 'DBUpdatesFailed' status: remove it
     when there are no db updates *)
  r <-
    (if ConditionTrue drupalSite "DBUpdatesPending"
        && negb (ConditionTrue drupalSite "DBUpdatesFailed") then
       r <- execToServerPodErrOnStderr drupalSite "php-fpm" checkUpdbStatus ;;
       let '(sout, err') := r in
       if notNil err' then Ret (inl (updateCRStatusOrFailReconcile drupalSite))
       else if String.eqb sout "" then
         let '(removed, drupalSite) := RemoveCondition drupalSite "DBUpdatesPending" in
         Ret (inr (drupalSite, removed || update))
       else Ret (inr (drupalSite, update))
     else Ret (inr (drupalSite, update))) ;;
  match r with
  | inl returned => returned
  | inr (drupalSite, update) =>
      let '(drupalSite, update) := Reconcile_clearFailures drupalSite update in
      (* Update status with all the conditions that were checked *)
      if update then updateCRStatusOrFailReconcile drupalSite
      else Reconcile_updateNeeded err drupalSite
  end.

Definition Reconcile (req : NamespacedName) : Prog (Result * option error) :=
  (* Fetch the DrupalSite instance *)
  r <- call (GetDrupalSite req) ;;
  match r with
  | inr err =>
      if IsNotFound err then Ret (emptyResult, None)
      else Ret (emptyResult, Some err)
  | inl drupalSite =>
      let err : option error := None in
      (* Handle deletion *)
      if notNil (DeletionTimestamp drupalSite) then
        if ContainsFinalizer drupalSite finalizerStr then cleanupDrupalSite drupalSite
        else Ret (emptyResult, None)
      else
        (* 1. Init: Check if finalizer is set. If not, set it, validate and
           update CR status *)
        r <- ensureSpecFinalizer drupalSite ;;
        let '(drupalSite, update, specErr) := r in
        match specErr with
        | Some specErr =>
            let '(_, drupalSite) := setErrorCondition drupalSite specErr in
            updateCRStatusOrFailReconcile drupalSite
        | None =>
            if update then updateCRorFailReconcile drupalSite
            else
              match validateSpec (Spec drupalSite) with
              | Some specErr =>
                  let '(_, drupalSite) := setErrorCondition drupalSite specErr in
                  updateCRStatusOrFailReconcile drupalSite
              | None => Reconcile_conditions err drupalSite
              end
        end
  end.

End Controller.

(** ** A reference implementation of the interface and an in-memory cluster

    Used to run the controller on concrete inputs. *)

(** Modelled from the spec: errors.go is not under src/.  The struct keeps
    the two arguments of its constructor and the messages it was wrapped
    with; the split into temporary and permanent conditions follows the
    taxonomy of section 7 (API unreachable, resource not yet ready and exec
    transport failure are temporary; validation, verified roll-out and
    migration failures and programming-domain errors are permanent). *)
Record applicationError : Type := mkApplicationError {
  innerException : option error;
  errorCondition : error;
  wrappedWith : list string
}.

Definition refTemporary (e : applicationError) : bool :=
  match errorCondition e with
  | Sentinel ErrClientK8s | Sentinel ErrTemporary | Sentinel ErrPodNotRunning
  | Sentinel ErrPodExec => true
  | _ => false
  end.

Definition conditionName (c : ErrorCondition) : string :=
  match c with
  | ErrClientK8s => "k8sAPIClientError"
  | ErrInvalidSpec => "invalidSpec"
  | ErrFunctionDomain => "functionDomainError"
  | ErrTemporary => "temporaryError"
  | ErrPodExec => "podExecError"
  | ErrDBOD => "dbodError"
  | ErrBuildFailed => "buildFailed"
  | ErrDeploymentUpdateFailed => "deploymentUpdateFailed"
  | ErrPodNotRunning => "podNotRunning"
  | ErrDBUpdateFailed => "dbUpdateFailed"
  | ErrFilesystemIO => "filesystemIOError"
  end.

Fixpoint refErrorString (e : error) : string :=
  match e with
  | errorsNew text => text
  | StatusError _ text => text
  | Sentinel c => conditionName c
  | Errorf_STDERR stderr _ => "STDERR: " +:+ stderr
  | Errorf prefix wrapped => prefix +:+ refErrorString wrapped
  end.

(** Of the syntax of quantities, the reference keeps that the empty string
    is none. *)
Definition refParseQuantity (s : string) : string + error :=
  if String.eqb s "" then
    inr (errorsNew "quantities must match the regular expression of a quantity")
  else inl s.

#[local] Instance refExternals : Externals := {|
  reconcileError := applicationError;
  newApplicationError inner cond := mkApplicationError inner cond [];
  Wrap e msg := mkApplicationError (innerException e) (errorCondition e) (msg :: wrappedWith e);
  Unwrap := errorCondition;
  Temporary := refTemporary;
  Error e := refErrorString (errorCondition e);
  concat errs :=
    match errs with
    | e :: _ => e
    | [] => mkApplicationError None (errorsNew "") []
    end;
  asError e := errorCondition e;
  errorString := refErrorString;
  CloneFromNothing := "__nothing__";
  DefaultDomain := "webtest.cern.ch";
  SiteBuilderImage := "site-builder";
  ValidateStruct _ := None;
  LabelSelectorAsSelector _ := None;
  md5Hex s := "d41d8cd98f00b204e9800998ecf8427e";
  TimeString _ := "now";
  Quantity := string;
  ParseQuantity := refParseQuantity
|}.

(** The state of a small cluster: the objects the controller reads and
    writes, the answers of the exec channel and the faults to inject. *)
Record Cluster : Type := mkCluster {
  c_sites : list DrupalSite;
  c_jobs : gmap (string * string) Job;
  c_deployments : gmap (string * string) Deployment;
  c_databases : gmap (string * string) Database;
  c_routes : gset (string * string);
  c_oidcReturnURIs : gset (string * string);
  c_pods : list Pod;
  c_backups : list VeleroBackup;
  c_now : Time;
  c_exec : list string -> string * string * option error;
  (** writes of the site answer with a conflict *)
  c_conflict : bool;
  (** create-or-update of these kinds answers with an error *)
  c_failing : Kind -> bool;
  (** create-or-update of a deployment with this release answers with an error *)
  c_failingRelease : string -> bool
}.

Definition keyOf (key : NamespacedName) : string * string :=
  (key_Namespace key, key_Name key).

Definition notFound : error := StatusError StatusReasonNotFound "not found".
Definition conflict : error := StatusError StatusReasonConflict "conflict".
Definition serverError : error := StatusError StatusReasonUnknown "internal error".

Definition with_deployments (w : Cluster) (v : gmap (string * string) Deployment) : Cluster :=
  mkCluster (c_sites w) (c_jobs w) v (c_databases w) (c_routes w) (c_oidcReturnURIs w)
    (c_pods w) (c_backups w) (c_now w) (c_exec w) (c_conflict w) (c_failing w)
    (c_failingRelease w).

Definition with_routes (w : Cluster) (v : gset (string * string)) : Cluster :=
  mkCluster (c_sites w) (c_jobs w) (c_deployments w) (c_databases w) v (c_oidcReturnURIs w)
    (c_pods w) (c_backups w) (c_now w) (c_exec w) (c_conflict w) (c_failing w)
    (c_failingRelease w).

Definition with_oidcReturnURIs (w : Cluster) (v : gset (string * string)) : Cluster :=
  mkCluster (c_sites w) (c_jobs w) (c_deployments w) (c_databases w) (c_routes w) v
    (c_pods w) (c_backups w) (c_now w) (c_exec w) (c_conflict w) (c_failing w)
    (c_failingRelease w).

Definition getFrom {A : Type} (m : gmap (string * string) A) (key : NamespacedName) : A + error :=
  match m !! keyOf key with
  | Some a => inl a
  | None => inr notFound
  end.

(** CreateOrUpdate on the in-memory cluster: deployments record the
    release stamped on their pod template, routes and return URIs their
    existence; the other kinds are not stored. *)
Definition fakeCreateOrUpdate (k : Kind) (key : NamespacedName) (f : MutateFn) (w : Cluster)
    : (OperationResult + error) * Cluster :=
  if c_failing w k then (inr serverError, w)
  else
    match k, f with
    | KDeployment, deploymentForDrupalSite _ _ release =>
        if c_failingRelease w release then (inr serverError, w)
        else
          match c_deployments w !! keyOf key with
          | Some dep =>
              if String.eqb (index (Template_Annotations dep) "releaseID") release then
                (inl OperationResultNone, w)
              else
                (inl OperationResultUpdated,
                 with_deployments w
                   (<[keyOf key :=
                        mkDeployment (ReadyReplicas dep)
                          (<["releaseID" := release]> (Template_Annotations dep))]>
                      (c_deployments w)))
          | None =>
              (inl OperationResultCreated,
               with_deployments w
                 (<[keyOf key := mkDeployment 0 {["releaseID" := release]}]> (c_deployments w)))
          end
    | KRoute, _ =>
        if bool_decide (keyOf key ∈ c_routes w) then (inl OperationResultNone, w)
        else (inl OperationResultCreated, with_routes w ({[keyOf key]} ∪ c_routes w))
    | KOidcReturnURI, _ =>
        if bool_decide (keyOf key ∈ c_oidcReturnURIs w) then (inl OperationResultNone, w)
        else
          (inl OperationResultCreated,
           with_oidcReturnURIs w ({[keyOf key]} ∪ c_oidcReturnURIs w))
    | _, _ => (inl OperationResultNone, w)
    end.

Definition fakeGetObject (k : Kind) (key : NamespacedName) (w : Cluster) : option error :=
  match k with
  | KRoute => if bool_decide (keyOf key ∈ c_routes w) then None else Some notFound
  | KOidcReturnURI =>
      if bool_decide (keyOf key ∈ c_oidcReturnURIs w) then None else Some notFound
  | _ => Some notFound
  end.

Definition fakeDelete (k : Kind) (key : NamespacedName) (w : Cluster) : option error * Cluster :=
  match k with
  | KRoute => (None, with_routes w (c_routes w ∖ {[keyOf key]}))
  | KOidcReturnURI => (None, with_oidcReturnURIs w (c_oidcReturnURIs w ∖ {[keyOf key]}))
  | _ => (None, w)
  end.

Definition fakeGetDrupalSite (key : NamespacedName) (w : Cluster) : DrupalSite + error :=
  match List.find (fun d => String.eqb (Namespace d) (key_Namespace key)
                            && String.eqb (Name d) (key_Name key)) (c_sites w) with
  | Some d => inl d
  | None => inr notFound
  end.

Definition fakeClient : Handler Cluster :=
  fun R c =>
    match c in Call R return Cluster -> R * Cluster with
    | GetDrupalSite key => fun w => (fakeGetDrupalSite key w, w)
    | GetJob key => fun w => (getFrom (c_jobs w) key, w)
    | GetDeployment key => fun w => (getFrom (c_deployments w) key, w)
    | GetDatabase key => fun w => (getFrom (c_databases w) key, w)
    | GetObject k key => fun w => (fakeGetObject k key w, w)
    | Delete k key => fun w => fakeDelete k key w
    | ListPods _ _ => fun w => (inl (c_pods w), w)
    | ListDrupalSites _ _ => fun w => (inl [], w)
    | ListBackups _ _ => fun w => (inl (c_backups w), w)
    | CreateOrUpdate k key f => fun w => fakeCreateOrUpdate k key f w
    | Update _ => fun w => (if c_conflict w then Some conflict else None, w)
    | StatusUpdate _ => fun w => (if c_conflict w then Some conflict else None, w)
    | execToPodThroughAPI _ _ _ command => fun w => (c_exec w command, w)
    | ReadFile filename => fun w => (inl ("# " +:+ filename), w)
    | timeNow => fun w => (c_now w, w)
    end.

(** What a trace shows. *)
Definition persisted (e : Event) : option DrupalSite :=
  match e with
  | Ev c _ =>
      match c with
      | Update d => Some d
      | StatusUpdate d => Some d
      | _ => None
      end
  end.

Definition statusUpdated (e : Event) : option DrupalSite :=
  match e with
  | Ev c _ =>
      match c with
      | StatusUpdate d => Some d
      | _ => None
      end
  end.

(** The answer of a write of the site. *)
Definition persistAnswer (e : Event) : option (option error) :=
  match e with
  | Ev c r =>
      match c in Call R return R -> option (option error) with
      | Update _ => fun r => Some r
      | StatusUpdate _ => fun r => Some r
      | _ => fun _ => None
      end r
  end.

Definition fetched (e : Event) : option DrupalSite :=
  match e with
  | Ev c r =>
      match c in Call R return R -> option DrupalSite with
      | GetDrupalSite _ => fun r => match r with inl d => Some d | inr _ => None end
      | _ => fun _ => None
      end r
  end.

(** The command of an exec call, with its answer. *)
Definition executed (e : Event) : option (list string * (string * string * option error)) :=
  match e with
  | Ev c r =>
      match c in Call R return R -> option (list string * (string * string * option error)) with
      | execToPodThroughAPI _ _ _ command => fun r => Some (command, r)
      | _ => fun _ => None
      end r
  end.

(** Create-or-update calls, with what they would write. *)
Definition converged (e : Event) : option (Kind * NamespacedName * MutateFn) :=
  match e with
  | Ev c _ =>
      match c with
      | CreateOrUpdate k key f => Some (k, key, f)
      | _ => None
      end
  end.

(** A cluster call of the resource convergence that answered with an error. *)
Definition callFailed (e : Event) : bool :=
  match e with
  | Ev c r =>
      match c in Call R return R -> bool with
      | CreateOrUpdate _ _ _ => fun r => match r with inr _ => true | inl _ => false end
      | GetObject _ _ => fun r => notNil r
      | Delete _ _ => fun r => notNil r
      | _ => fun _ => false
      end r
  end.

(** A site and a cluster to start from. *)
Definition site0 : DrupalSite :=
  mkDrupalSite "site" "project" ∅ ∅ [finalizerStr] None
    (mkDrupalSiteSpec true false "site-project.webtest.cern.ch"
       (mkVersion "v8.9-1" "RELEASE-2021.05.31")
       (mkConfiguration "__nothing__" "secret" "" "standard" "standard" "5Gi"))
    (mkDrupalSiteStatus [] (mkReleaseID "" "") "" []).

Definition cluster0 : Cluster :=
  mkCluster [site0] ∅ ∅ ∅ ∅ ∅ [] [] 0 (fun _ => ("", "", None)) false (fun _ => false)
    (fun _ => false).

Definition req0 : NamespacedName := mkNamespacedName "project" "site".

Definition clockRead (e : Event) : bool :=
  match e with
  | Ev c _ =>
      match c with
      | timeNow => true
      | _ => false
      end
  end.

(** A pod of the release of [site0], pending since time 0, and a cluster
    that lists it one minute later. *)
Definition pendingPod : Pod :=
  mkPod "site-1" {["releaseID" := "v8.9-1-RELEASE-2021.05.31"]} PodPending 0.

Definition with_pods (w : Cluster) (v : list Pod) : Cluster :=
  mkCluster (c_sites w) (c_jobs w) (c_deployments w) (c_databases w) (c_routes w)
    (c_oidcReturnURIs w) v (c_backups w) (c_now w) (c_exec w) (c_conflict w) (c_failing w)
    (c_failingRelease w).

Definition with_now (w : Cluster) (v : Time) : Cluster :=
  mkCluster (c_sites w) (c_jobs w) (c_deployments w) (c_databases w) (c_routes w)
    (c_oidcReturnURIs w) (c_pods w) (c_backups w) v (c_exec w) (c_conflict w) (c_failing w)
    (c_failingRelease w).

Definition clusterPending : Cluster := with_now (with_pods cluster0 [pendingPod]) Minute.

(** The install job of [site0] has succeeded, but no deployment serves the
    site and there is no clone job. *)
Definition with_jobs (w : Cluster) (v : gmap (string * string) Job) : Cluster :=
  mkCluster (c_sites w) v (c_deployments w) (c_databases w) (c_routes w)
    (c_oidcReturnURIs w) (c_pods w) (c_backups w) (c_now w) (c_exec w) (c_conflict w)
    (c_failing w) (c_failingRelease w).

Definition clusterInstallJobDone : Cluster :=
  with_jobs cluster0 {[("project", "site-install-site") := mkJob 1]}.

(** [site0] in the middle of an upgrade from an older release: ready,
    initialized, annotated, with the older release as failsafe. *)
Definition release0 : string := "v8.9-1-RELEASE-2021.05.31".
Definition oldRelease : string := "v8.9-0-RELEASE-2021.04.01".

Definition siteUpdating : DrupalSite :=
  set_Status
    (set_Annotations site0 {["updateInProgress" := "true"]})
    (mkDrupalSiteStatus
       [status.mkCondition "Ready" "True" "" ""; status.mkCondition "Initialized" "True" "" ""]
       (mkReleaseID release0 oldRelease) "" []).

Definition runningPod : Pod := mkPod "site-1" {["releaseID" := release0]} PodRunning 0.
Definition failedPod : Pod := mkPod "site-1" {["releaseID" := release0]} PodFailed 0.

Definition reloadFails (command : list string) : string * string * option error :=
  if bool_decide (command = cacheReload) then ("", "drush: cache rebuild failed", None)
  else ("", "", None).

(** The deployment already carries the new release and its pod runs. *)
Definition clusterUpdating (pod : Pod) (exec : list string -> string * string * option error)
    (failingRelease : string -> bool) : Cluster :=
  mkCluster [siteUpdating] ∅
    {[("project", "site") := mkDeployment 1 {["releaseID" := release0]}]}
    {[("project", "site") := mkDatabase "dbod-site"]}
    ∅ ∅ [pod] [] 0 exec false (fun _ => false) failingRelease.

Definition clusterReloadFails : Cluster :=
  clusterUpdating runningPod reloadFails (fun _ => false).

Definition clusterRollOutFailed : Cluster :=
  clusterUpdating failedPod (fun _ => ("", "", None)) (fun _ => false).

Definition clusterRollBackFails : Cluster :=
  clusterUpdating failedPod (fun _ => ("", "", None)) (String.eqb oldRelease).

(** The release stamped on the serving deployment of a site. *)
Definition servingRelease (w : Cluster) (d : DrupalSite) : option string :=
  match c_deployments w !! (Namespace d, Name d) with
  | Some dep => Some (index (Template_Annotations dep) "releaseID")
  | None => None
  end.

(** The create-or-update that rollBackCodeUpdate issues. *)
Definition rollBackCall (d : DrupalSite) : Call (OperationResult + error) :=
  CreateOrUpdate KDeployment (siteKey d)
    (deploymentForDrupalSite (databaseSecretName d) d (Failsafe (Status_ReleaseID (Status d)))).

(** [site0] initialized and ready, with [publish: false], in a cluster that
    still holds the three ingress objects created while it was published. *)
Definition sitePrivate : DrupalSite :=
  set_Spec
    (set_Status site0
       (mkDrupalSiteStatus
          [status.mkCondition "Ready" "True" "" ""; status.mkCondition "Initialized" "True" "" ""]
          (mkReleaseID release0 release0) "" []))
    (mkDrupalSiteSpec false false "site-project.webtest.cern.ch"
       (mkVersion "v8.9-1" "RELEASE-2021.05.31")
       (mkConfiguration "__nothing__" "secret" "" "standard" "standard" "5Gi")).

Definition clusterPublished : Cluster :=
  mkCluster [sitePrivate] ∅
    {[("project", "site") := mkDeployment 1 {["releaseID" := release0]}]}
    {[("project", "site") := mkDatabase "dbod-site"]}
    {[("project", "site"); ("project", "webdav-site")]}
    {[("project", "site")]}
    [runningPod] [] 0 (fun _ => ("", "", None)) false (fun _ => false) (fun _ => false).

(** The calls of a trace on ingress objects: gets and deletes with their
    keys. *)
Definition ingressCall (e : Event) : option (string * Kind * (string * string)) :=
  match e with
  | Ev c _ =>
      match c with
      | GetObject KRoute key => Some ("get", KRoute, keyOf key)
      | GetObject KOidcReturnURI key => Some ("get", KOidcReturnURI, keyOf key)
      | Delete KRoute key => Some ("delete", KRoute, keyOf key)
      | Delete KOidcReturnURI key => Some ("delete", KOidcReturnURI, keyOf key)
      | CreateOrUpdate KRoute key _ => Some ("createOrUpdate", KRoute, keyOf key)
      | CreateOrUpdate KOidcReturnURI key _ => Some ("createOrUpdate", KOidcReturnURI, keyOf key)
      | _ => None
      end
  end.

(** [safe P R p]: whatever the calls answer, [p] does not panic, every
    call it makes satisfies [P] and its result satisfies [R]. *)
Definition safe {A : Type} (P : Event -> Prop) (R : A -> Prop) (p : Prog A) : Prop :=
  wp p (fun tr a => Forall P tr /\ R a).

(** [psafe P R p]: as [safe], for a program that may panic: every call it
    makes, also before a panic, satisfies [P], and its result satisfies [R]
    if it returns. *)
Definition psafe {A : Type} (P : Event -> Prop) (R : A -> Prop) (p : Prog A) : Prop :=
  wpp p (fun tr a => Forall P tr /\ R a) (Forall P).

(** What a step of the pass may change of a site without touching its
    release identifiers or its spec. *)
Definition frame (d d' : DrupalSite) : Prop :=
  Status_ReleaseID (Status d') = Status_ReleaseID (Status d) /\ Spec d' = Spec d
  /\ Name d' = Name d /\ Namespace d' = Namespace d.

(** The rule of the failsafe release, for a site persisted by a pass that
    had fetched [d0]: either the failsafe is the one fetched, or it is the
    current release, which differed from the fetched failsafe, is the
    release of the spec, and neither failure condition is true. *)
Definition failsafeRule (d0 d' : DrupalSite) : Prop :=
  Failsafe (Status_ReleaseID (Status d')) = Failsafe (Status_ReleaseID (Status d0))
  \/ (Failsafe (Status_ReleaseID (Status d')) = Current (Status_ReleaseID (Status d'))
      /\ Current (Status_ReleaseID (Status d')) <> Failsafe (Status_ReleaseID (Status d0))
      /\ Current (Status_ReleaseID (Status d')) = Current (Status_ReleaseID (Status d0))
      /\ Current (Status_ReleaseID (Status d')) = releaseID d0
      /\ ConditionTrue d' "CodeUpdateFailed" = false
      /\ ConditionTrue d' "DBUpdatesFailed" = false).

Definition persistsBy (rule : DrupalSite -> Prop) (e : Event) : Prop :=
  match persisted e with
  | Some d' => rule d'
  | None => True
  end.

(** The site fetched by the first call of a pass. *)
Definition fetchedFirst (tr : list Event) : option DrupalSite :=
  match tr with
  | e :: _ => fetched e
  | [] => None
  end.

(** A step of a pass that fetched [d0] has kept the failsafe release. *)
Definition keepsFailsafe (d0 d : DrupalSite) : Prop :=
  Failsafe (Status_ReleaseID (Status d)) = Failsafe (Status_ReleaseID (Status d0)).

(** The state of a pass that found every condition up to date: the
    release identifiers are those fetched, and the current release is the
    one of the spec. *)
Definition settled (d0 d : DrupalSite) : Prop :=
  keepsFailsafe d0 d
  /\ Current (Status_ReleaseID (Status d)) = Current (Status_ReleaseID (Status d0))
  /\ Current (Status_ReleaseID (Status d)) = releaseID d0
  /\ releaseID d = releaseID d0.

(** [site0] installed and serving its release, before the first commit of
    the failsafe. *)
Definition siteServing : DrupalSite :=
  set_Status site0
    (mkDrupalSiteStatus
       [status.mkCondition "Ready" "True" "" ""; status.mkCondition "Initialized" "True" "" ""]
       (mkReleaseID release0 "") "" []).

Definition clusterServing : Cluster :=
  mkCluster [siteServing] ∅
    {[("project", "site") := mkDeployment 1 {["releaseID" := release0]}]}
    {[("project", "site") := mkDatabase "dbod-site"]}
    ∅ ∅ [runningPod] [] 0 (fun _ => ("", "", None)) false (fun _ => false) (fun _ => false).

(** What the evaluation of the conditions maintains, with the site and the
    flag "update": the failsafe and the release of the spec; and, as long
    as nothing has changed, the current release. *)
Definition evaluating (d0 : DrupalSite) (r : DrupalSite * bool) : Prop :=
  keepsFailsafe d0 r.1 /\ releaseID r.1 = releaseID d0
  /\ (r.2 = false ->
      Current (Status_ReleaseID (Status r.1)) = Current (Status_ReleaseID (Status d0))
      /\ Current (Status_ReleaseID (Status r.1)) = releaseID d0).

(** The commands of the database update that are not a mere check: backup,
    migration and restore. *)
Definition backupOrMigrationCommand (command : list string) : bool :=
  match command with
  | script :: _ =>
      String.eqb script "/operations/database-backup.sh"
      || String.eqb script "/operations/run-updb.sh"
      || String.eqb script "/operations/database-restore.sh"
  | [] => false
  end.

Definition backupOrMigration (e : Event) : bool :=
  match executed e with
  | Some (command, _) => backupOrMigrationCommand command
  | None => false
  end.

(** The schema check ran and reported pending migrations: no error, nothing
    on stderr, something on stdout. *)
Definition reportsPending (e : Event) : bool :=
  match executed e with
  | Some (command, (stdout, stderr, err)) =>
      bool_decide (command = checkUpdbStatus) && negb (notNil err)
      && String.eqb stderr "" && negb (String.eqb stdout "")
  | None => false
  end.

Definition calm (e : Event) : Prop :=
  backupOrMigration e = false /\ reportsPending e = false.

Definition calmCommand (command : list string) : Prop :=
  backupOrMigrationCommand command = false /\ command <> checkUpdbStatus.

(** No backup, migration or restore runs in the pass, and a report of
    pending migrations is followed by one call only, which persists the
    status with DBUpdatesPending true. *)
Definition pendingPersistedFirst (tr : list Event) : Prop :=
  Forall (fun e => backupOrMigration e = false) tr /\
  forall pre e post,
    tr = (pre ++ e :: post)%list -> reportsPending e = true ->
    exists e' d', post = [e'] /\ statusUpdated e' = Some d'
                  /\ ConditionTrue d' "DBUpdatesPending" = true.

(** [siteUpdating] once its new release runs, in a cluster whose schema
    check reports pending migrations. *)
Definition reportPending (command : list string) : string * string * option error :=
  if bool_decide (command = checkUpdbStatus) then ("2 pending updates", "", None)
  else ("", "", None).

Definition clusterPendingUpdates : Cluster :=
  clusterUpdating runningPod reportPending (fun _ => false).
(** ** Write conflicts *)

(** A write of the site answered with an optimistic-concurrency conflict. *)
Definition conflicted (e : Event) : bool :=
  match persistAnswer e with
  | Some (Some err) => IsConflict err
  | _ => false
  end.

(** A call of the resource convergence answered with an error that the
    controller collects: a failed create-or-update, a failed delete, a get
    that failed otherwise than with not-found; and, for the calls of the
    config-map callbacks, a file that could not be read and a Deployment
    that could not be fetched (a failed get of the Deployment is counted
    wherever it is made). *)
Definition clientError (e : Event) : bool :=
  match e with
  | Ev c r =>
      match c in Call R return R -> bool with
      | CreateOrUpdate _ _ _ => fun r => match r with inr _ => true | inl _ => false end
      | GetObject _ _ =>
          fun r => match r with Some err => negb (IsNotFound err) | None => false end
      | Delete _ _ => fun r => notNil r
      | ReadFile _ => fun r => match r with inr _ => true | inl _ => false end
      | GetDeployment _ => fun r => match r with inr _ => true | inl _ => false end
      | _ => fun _ => false
      end r
  end.

Definition noPersist (e : Event) : Prop := persisted e = None.

(** What a pass owes to a write of the site: the write is its last call,
    and when it is answered with a conflict the pass returns a nil error,
    and Requeue unless a client error came before ([failed] stands for the
    client errors seen before the trace starts). *)
Definition conflictRequeues (failed : bool) (tr : list Event) (a : Result * option error)
    : Prop :=
  forall pre e post, tr = (pre ++ e :: post)%list -> persisted e <> None ->
    post = [] /\
    (conflicted e = true ->
     a.2 = None /\ (failed || existsb clientError pre = false -> Requeue a.1 = true)).

(** [tracked failed R p]: [p] does not write the site, and [R] holds of its
    result and of whether a client error has been seen by its end. *)
Definition tracked {A : Type} (failed : bool) (R : bool -> A -> Prop) (p : Prog A) : Prop :=
  wp p (fun tr a => Forall noPersist tr /\ R (failed || existsb clientError tr) a).

(** [ptracked failed R p]: as [tracked], for a program that may panic; it
    does not write the site before a panic either. *)
Definition ptracked {A : Type} (failed : bool) (R : bool -> A -> Prop) (p : Prog A) : Prop :=
  wpp p (fun tr a => Forall noPersist tr /\ R (failed || existsb clientError tr) a)
    (Forall noPersist).

(** The cluster of [siteServing], where the writes of the site conflict;
    nothing else fails. *)
Definition clusterConflict : Cluster :=
  mkCluster [siteServing] ∅
    {[("project", "site") := mkDeployment 1 {["releaseID" := release0]}]}
    {[("project", "site") := mkDatabase "dbod-site"]}
    ∅ ∅ [runningPod] [] 0 (fun _ => ("", "", None)) true (fun _ => false) (fun _ => false).

(** The same, where moreover no create-or-update goes through. *)
Definition clusterConflictFailing : Cluster :=
  mkCluster [siteServing] ∅
    {[("project", "site") := mkDeployment 1 {["releaseID" := release0]}]}
    {[("project", "site") := mkDatabase "dbod-site"]}
    ∅ ∅ [runningPod] [] 0 (fun _ => ("", "", None)) true (fun _ => true) (fun _ => false).

(** The last call of a trace. *)
Definition lastCall (tr : list Event) : Event := List.last tr (Ev timeNow 0%Z).

(** What a step of the resource convergence shows: an error is returned
    only after a client error. *)
Definition blamed {A : Type} (failed : bool) (bad : A -> Prop) (b : bool) (a : A) : Prop :=
  (failed = true -> b = true) /\ (bad a -> b = true).

(** The resource types that ensureResources asks for. *)
Definition knownResources : list string :=
  ["is_s2i"; "bc_s2i"; "webdav_secret"; "deploy_drupal"; "svc_nginx"; "pvc_drupal"; "route";
   "oidc_return_uri"; "webdav_route"; "site_install_job"; "clone_job"; "cm_php"; "cm_nginx";
   "cm_settings"; "dbod_cr"; "backup_schedule"].

(** A create-or-update of an ingress object: a route (also the WebDAV
    route) or an OIDC return URI. *)
Definition ingressCreated (e : Event) : bool :=
  match converged e with
  | Some (KRoute, _, _) => true
  | Some (KOidcReturnURI, _, _) => true
  | _ => false
  end.

(** The resource types of ensureResourceX that are not ingress objects. *)
Definition nonIngressResources : list string :=
  ["is_s2i"; "bc_s2i"; "webdav_secret"; "deploy_drupal"; "svc_nginx"; "pvc_drupal";
   "site_install_job"; "clone_job"; "cm_php"; "cm_nginx"; "cm_settings"; "dbod_cr";
   "backup_schedule"].

(** ** Vocabulary of the further properties *)

(** A call that neither creates or updates an object nor runs a command. *)
Definition readOrWrite (e : Event) : Prop := converged e = None /\ executed e = None.

(** [site0] with a deletion timestamp, and its cluster. *)
Definition siteDeleting : DrupalSite :=
  mkDrupalSite "site" "project" ∅ ∅ [finalizerStr] (Some 1) (Spec site0) (Status site0).

Definition clusterDeleting : Cluster :=
  mkCluster [siteDeleting] ∅ ∅ ∅ ∅ ∅ [] [] 0 (fun _ => ("", "", None)) false (fun _ => false)
    (fun _ => false).

(** The commands of a trace, in order, with their answers. *)
Definition commands (tr : list Event)
    : list (list string * (string * string * option error)) :=
  omap executed tr.

(** The answer of a command that ended without error and wrote nothing to
    stderr: what execToServerPodErrOnStderr lets through. *)
Definition succeeded (a : string * string * option error) : bool :=
  negb (notNil a.2) && String.eqb a.1.2 "".

(** The pod that getRunningPodForVersion and getPodForVersion settle on:
    the first one listed that carries the release. *)
Definition carriesRelease (release : string) (v : Pod) : bool :=
  String.eqb (index (Pod_Annotations v) "releaseID") release.

(** Two pods of the release: the first one listed is still pending. *)
Definition clusterTwoPods : Cluster :=
  with_pods clusterServing [mkPod "site-2" {["releaseID" := release0]} PodPending 0; runningPod].

(** As [refExternals], with a validator of label selectors that refuses
    every selector. *)
Definition selectorRefused : Externals := {|
  reconcileError := applicationError;
  newApplicationError inner cond := mkApplicationError inner cond [];
  Wrap e msg := mkApplicationError (innerException e) (errorCondition e) (msg :: wrappedWith e);
  Unwrap := errorCondition;
  Temporary := refTemporary;
  Error e := refErrorString (errorCondition e);
  concat errs :=
    match errs with
    | e :: _ => e
    | [] => mkApplicationError None (errorsNew "") []
    end;
  asError e := errorCondition e;
  errorString := refErrorString;
  CloneFromNothing := "__nothing__";
  DefaultDomain := "webtest.cern.ch";
  SiteBuilderImage := "site-builder";
  ValidateStruct _ := None;
  LabelSelectorAsSelector _ := Some (errorsNew "invalid label selector");
  md5Hex s := "d41d8cd98f00b204e9800998ecf8427e";
  TimeString _ := "now";
  Quantity := string;
  ParseQuantity := refParseQuantity
|}.

(** The file of the backup that updateDBSchema takes and restores. *)
Definition backupFileName : string := "db_backup_update_rollback.sql".

(** One use of execToServerPodErrOnStderr, as the commands of its trace
    show it: no command when no running pod was found, otherwise the
    command with its answer; [ok] tells whether the caller saw no error. *)
Definition attempt (command : list string)
    (cs : list (list string * (string * string * option error))) (ok : bool) : Prop :=
  (cs = [] /\ ok = false) \/ (exists a, cs = [(command, a)] /\ ok = succeeded a).

(** updateDBSchema ended by recording a failed update. *)
Definition dbUpdateFailed {E : Externals} (d : DrupalSite) (r : DrupalSite * bool) : Prop :=
  exists e, r = ((setConditionStatus d "DBUpdatesFailed" true (Some e) false).2, true).

(** The ways through updateDBSchema: the commands that were run, in order,
    and what is returned. *)
Definition schemaUpdateOutcome {E : Externals} (d : DrupalSite)
    (cs : list (list string * (string * string * option error))) (r : DrupalSite * bool)
    : Prop :=
  exists l0 ok0, attempt checkUpdbStatus l0 ok0 /\
    ((ok0 = false /\ cs = l0 /\ r = (d, true)) \/
     (exists a0, l0 = [(checkUpdbStatus, a0)] /\ succeeded a0 = true /\
        ((a0.1.1 = "" /\ cs = l0 /\ r = updateDBSchema_done d) \/
         (a0.1.1 <> "" /\ (setDBUpdatesPending d).1 = true /\ cs = l0 /\
          r = ((setDBUpdatesPending d).2, true)) \/
         (a0.1.1 <> "" /\ (setDBUpdatesPending d).1 = false /\
          exists l1 ok1, attempt (takeBackup backupFileName) l1 ok1 /\
            ((ok1 = false /\ cs = (l0 ++ l1)%list /\ dbUpdateFailed d r) \/
             (ok1 = true /\
              exists l2 ok2, attempt runUpDBCommand l2 ok2 /\
                ((ok2 = true /\ cs = (l0 ++ l1 ++ l2)%list /\ r = updateDBSchema_done d) \/
                 (ok2 = false /\
                  exists l3 ok3, attempt (restoreBackup backupFileName) l3 ok3 /\
                    cs = (l0 ++ l1 ++ l2 ++ l3)%list /\ dbUpdateFailed d r)))))))).

(** [siteUpdating] once DBUpdatesPending has been recorded. *)
Definition siteMigrating : DrupalSite :=
  set_Status siteUpdating
    (mkDrupalSiteStatus
       [status.mkCondition "Ready" "True" "" ""; status.mkCondition "Initialized" "True" "" "";
        status.mkCondition "DBUpdatesPending" "True" "" ""]
       (mkReleaseID release0 oldRelease) "" []).

(** Migrations are pending and the migration command writes to stderr. *)
Definition migrationFails (command : list string) : string * string * option error :=
  if bool_decide (command = checkUpdbStatus) then ("2 pending updates", "", None)
  else if bool_decide (command = runUpDBCommand) then ("", "updb: failed", None)
  else ("", "", None).

Definition clusterMigrationFails : Cluster :=
  clusterUpdating runningPod migrationFails (fun _ => false).

(** ** Calls and what came before them *)

(** [justified J hist tr]: every call of [tr] satisfies [J] of the calls
    made before it, those of [hist] included. *)
Definition justified (J : list Event -> Event -> Prop) (hist tr : list Event) : Prop :=
  forall pre e post, tr = (pre ++ e :: post)%list -> J (hist ++ pre)%list e.

(** [hwp J hist p R]: started after the calls [hist], [p] does not panic,
    each of its calls is justified by the calls before it, and [R] holds
    of all the calls made and of the result. *)
Definition hwp {A : Type} (J : list Event -> Event -> Prop) (hist : list Event) (p : Prog A)
    (R : list Event -> A -> Prop) : Prop :=
  wp p (fun tr a => justified J hist tr /\ R (hist ++ tr)%list a).

(** [phwp J hist p R N]: as [hwp], for a program that may panic: its calls
    are justified also when it panics, and [N] then holds of all the calls
    made. *)
Definition phwp {A : Type} (J : list Event -> Event -> Prop) (hist : list Event) (p : Prog A)
    (R : list Event -> A -> Prop) (N : list Event -> Prop) : Prop :=
  wpp p (fun tr a => justified J hist tr /\ R (hist ++ tr)%list a)
    (fun tr => justified J hist tr /\ N (hist ++ tr)%list).

(** The call before was the read of a file: this is where a config-map
    callback stands when it fetches the Deployment. *)
Definition afterRead (prev : option Event) : bool :=
  match prev with
  | Some (Ev c _) => match c with ReadFile _ => true | _ => false end
  | None => false
  end.

(** A failed call that ensureResources reports, given the call made before
    it: a create-or-update (but for the one of the OIDC return URI, whose
    error is only logged), a delete, a get that failed otherwise than with
    not-found, the read of a file, and the get of the Deployment made by a
    config-map callback. *)
Definition collected (prev : option Event) (e : Event) : bool :=
  match e with
  | Ev c r =>
      match c in Call R return R -> bool with
      | CreateOrUpdate k _ _ =>
          fun r =>
            match k, r with
            | KOidcReturnURI, _ => false
            | _, inr _ => true
            | _, inl _ => false
            end
      | GetObject _ _ =>
          fun r => match r with Some err => negb (IsNotFound err) | None => false end
      | Delete _ _ => fun r => notNil r
      | ReadFile _ => fun r => match r with inr _ => true | inl _ => false end
      | GetDeployment _ => fun r => match r with inr _ => afterRead prev | inl _ => false end
      | _ => fun _ => false
      end r
  end.

(** The site is in the middle of an update, or an update has failed: the
    states in which ensureResourceX leaves an existing deployment alone. *)
Definition frozen (d : DrupalSite) : bool :=
  String.eqb (index (Annotations d) "updateInProgress") "true"
  || ConditionTrue d "CodeUpdateFailed" || ConditionTrue d "DBUpdatesFailed".

Definition provisionedAnswer (d : DrupalSite) (db : Database) : Event :=
  Ev (GetDatabase (siteKey d)) (inl db).

(** The calls that end with the roll-out made by a config-map callback:
    the config map [cm] was found, the file was read and the Deployment
    was fetched. *)
Definition rollOutCalls (d : DrupalSite) (cm : NamespacedName) (calls : list Event) : Prop :=
  exists filename content deploy,
    calls = [Ev (GetObject KConfigMap cm) None; Ev (ReadFile filename) (inl content);
             Ev (GetDeployment (siteKey d)) (inl deploy)].

(** What must precede a write of the deployment or of a job in
    ensureResources: for a job, the database was just found provisioned;
    for the deployment, either the write is the roll-out of a config-map
    callback, made right after the calls of [rollOutCalls], or it is made
    with deploymentForDrupalSite and the release of the spec: then the
    database was found provisioned and the deployment was looked up, and
    if the site is frozen that look-up failed. *)
Definition databaseFirst (d : DrupalSite) (hist : list Event) (e : Event) : Prop :=
  match converged e with
  | Some (KJob, _, _) =>
      exists hist' db,
        hist = (hist' ++ [provisionedAnswer d db])%list /\
        (0 <? String.length (DbodInstance db))%nat = true
  | Some (KDeployment, _, updateDeploymentAnnotations cm _ _) =>
      exists hist' calls, hist = (hist' ++ calls)%list /\ rollOutCalls d cm calls
  | Some (KDeployment, _, f) =>
      f = deploymentForDrupalSite (databaseSecretName d) d (releaseID d) /\
      exists hist' db r,
        hist = (hist' ++ [provisionedAnswer d db; Ev (GetDeployment (siteKey d)) r])%list /\
        (0 <? String.length (DbodInstance db))%nat = true /\
        (frozen d = true -> exists err, r = inr err)
  | _ => True
  end.

(** A call that writes neither a deployment nor a job. *)
Definition otherKind (e : Event) : Prop :=
  match converged e with
  | Some (KJob, _, _) => False
  | Some (KDeployment, _, _) => False
  | _ => True
  end.

(** The resource types of ensureResourceX apart from the deployment, the
    two jobs and the three config maps. *)
Definition plainResources : list string :=
  ["is_s2i"; "bc_s2i"; "webdav_secret"; "svc_nginx"; "pvc_drupal"; "route";
   "oidc_return_uri"; "webdav_route"; "dbod_cr"; "backup_schedule"].

(** The resource types of the three config maps. *)
Definition configMapResources : list string := ["cm_php"; "cm_nginx"; "cm_settings"].

(** A client that finds every config map it is asked for, and answers the
    other calls as [h] does. *)
Definition withConfigMaps {W : Type} (h : Handler W) : Handler W :=
  fun R c =>
    match c in Call R return W -> R * W with
    | GetObject KConfigMap _ => fun w => (None, w)
    | c => h _ c
    end.

(** The call number [n] of a trace. *)
Definition nthCall (n : nat) (tr : list Event) : Event := List.nth n tr (Ev timeNow 0%Z).

(** The cluster of [siteUpdating] with its database and without its
    deployment. *)
Definition clusterNoDeployment : Cluster :=
  mkCluster [siteUpdating] ∅ ∅ {[("project", "site") := mkDatabase "dbod-site"]}
    ∅ ∅ [] [] 0 (fun _ => ("", "", None)) false (fun _ => false) (fun _ => false).

(** The number of failed calls of a trace that ensureResources reports. *)
Fixpoint collectedFrom (prev : option Event) (tr : list Event) : nat :=
  match tr with
  | [] => 0
  | e :: tr => ((if collected prev e then 1 else 0) + collectedFrom (Some e) tr)%nat
  end.

Definition collectedCount (tr : list Event) : nat := collectedFrom None tr.

(** Where ensureResources panics: the volume claim was looked up and not
    found, and the disk size of the spec is not a quantity. *)
Definition pvcPanic {E : Externals} (d : DrupalSite) (tr : list Event) : Prop :=
  exists pre err e,
    tr = (pre ++ [Ev (GetObject KPersistentVolumeClaim
                        (mkNamespacedName (Namespace d) ("pv-claim-" +:+ Name d)))
                     (Some err)])%list /\
    IsNotFound err = true /\
    ParseQuantity (DiskSize (Spec_Configuration (Spec d))) = inr e.

(** [site0] with a disk size that is not a quantity. *)
Definition siteBadSize : DrupalSite :=
  set_Spec site0
    (mkDrupalSiteSpec true false "site-project.webtest.cern.ch"
       (mkVersion "v8.9-1" "RELEASE-2021.05.31")
       (mkConfiguration "__nothing__" "secret" "" "standard" "standard" "")).

(** A step of ensureResources adds one error exactly when one of its calls
    failed. *)
Definition reportsFailure {A : Type} (hist : list Event) (hist' : list Event)
    (r : option A) : Prop :=
  collectedCount hist' =
    (collectedCount hist + match r with Some _ => 1 | None => 0 end)%nat.

(** ** Build status *)

(** buildv1.Build, with the phases the controller tests for. *)
Definition BuildPhase := string.
Definition BuildPhaseComplete : BuildPhase := "Complete".
Definition BuildPhaseFailed : BuildPhase := "Failed".
Definition BuildPhaseError : BuildPhase := "Error".

Record Build : Type := mkBuild {
  Build_Name : string;
  Build_Phase : BuildPhase
}.

(** The two functions below list builds, a call the reconciliation itself
    never makes; the state of the cluster is threaded through them, with
    the client's [List] on builds as [listBuilds]. *)
Section BuildStatus.
Context {E : Externals} {W : Type}.
Variable listBuilds : string -> list (string * string) -> W -> (list Build + error) * W.

(** getBuildStatus gets the build status from one of the builds for a
    given resources. *)
Definition getBuildStatus (resource : string) (drp : DrupalSite) (w : W)
    : (BuildPhase * option error) * W :=
  let matchLabels := [("openshift.io/build-config.name", resource +:+ nameVersionHash drp)] in
  match LabelSelectorAsSelector matchLabels with
  | Some err =>
      (("", Some (asError (newApplicationError (Some err) (sentinel ErrFunctionDomain)))), w)
  | None =>
      let '(r, w) := listBuilds (Namespace drp) matchLabels w in
      match r with
      | inr err =>
          (("", Some (asError (newApplicationError (Some err) (sentinel ErrClientK8s)))), w)
      | inl items =>
          if (0 <? length items)%nat then
            ((Build_Phase (List.nth (length items - 1) items (mkBuild "" "")), None), w)
          else (("", Some (asError (newApplicationError None (sentinel ErrClientK8s)))), w)
      end
  end.

(** checkBuildstatusForUpdate: the status of the S2i build when the
    extraConfigurationRepo field is set. *)
Definition checkBuildstatusForUpdate (d : DrupalSite) (w : W) : option reconcileError * W :=
  if (0 <? String.length (ExtraConfigurationRepo (Spec_Configuration (Spec d))))%nat then
    let '((status, err), w) := getBuildStatus "sitebuilder-s2i-" d w in
    match err with
    | Some err => (Some (newApplicationError (Some err) (sentinel ErrClientK8s)), w)
    | None =>
        if String.eqb status BuildPhaseFailed || String.eqb status BuildPhaseError then
          (Some (newApplicationError None (sentinel ErrBuildFailed)), w)
        else if negb (String.eqb status BuildPhaseComplete) then
          (Some (newApplicationError None (sentinel ErrTemporary)), w)
        else (None, w)
    end
  else (None, w).

End BuildStatus.

(** ** The object-shaping functions *)

(** What the functions named by [MutateFn] write into the object they are
    handed.  The objects carry the fields of their Kubernetes types that
    the functions read or write, and a few they leave alone. *)
Module shape.

(** metav1.OwnerReference, without the type meta and the UID, which the
    site above does not carry. *)
Record OwnerReference : Type := mkOwnerReference {
  Owner_Name : string;
  Owner_Controller : option bool
}.

(** metav1.ObjectMeta.  [CreationTimestamp] is [None] for the zero time;
    [Meta_Labels] and [Meta_Annotations] are [None] for a nil map. *)
Record ObjectMeta : Type := mkObjectMeta {
  CreationTimestamp : option Time;
  OwnerReferences : list OwnerReference;
  Meta_Labels : option (gmap string string);
  Meta_Annotations : option (gmap string string)
}.

(** An API object: its metadata, and the rest of it. *)
Record Object (B : Type) : Type := mkObject {
  meta : ObjectMeta;
  body : B
}.

Arguments mkObject {B} _ _.
Arguments meta {B} _.
Arguments body {B} _.

(** [CreationTimestamp.IsZero()] *)
Definition IsZero (t : option Time) : bool :=
  match t with
  | None => true
  | Some _ => false
  end.

Definition set_OwnerReferences (m : ObjectMeta) (o : list OwnerReference) : ObjectMeta :=
  mkObjectMeta (CreationTimestamp m) o (Meta_Labels m) (Meta_Annotations m).

Definition set_Meta_Labels (m : ObjectMeta) (l : option (gmap string string)) : ObjectMeta :=
  mkObjectMeta (CreationTimestamp m) (OwnerReferences m) l (Meta_Annotations m).

Definition set_Meta_Annotations (m : ObjectMeta) (a : option (gmap string string))
    : ObjectMeta :=
  mkObjectMeta (CreationTimestamp m) (OwnerReferences m) (Meta_Labels m) a.

(** addOwnerRefToObject appends the desired OwnerReference to the object. *)
Definition addOwnerRefToObject (obj : ObjectMeta) (ownerRef : OwnerReference) : ObjectMeta :=
  set_OwnerReferences obj (OwnerReferences obj ++ [ownerRef])%list.

(** asOwner returns an OwnerReference set as the site. *)
Definition asOwner (d : DrupalSite) : OwnerReference :=
  mkOwnerReference (Name d) (Some true).

(** labelsForDrupalSite returns the labels for selecting the resources
    belonging to the given drupalSite CR name. *)
Definition labelsForDrupalSite (name : string) : gmap string string :=
  {["drupalSite" := name]}.

(** [if obj.Annotations == nil { obj.Annotations = map[string]string{} }] *)
Definition initAnnotations (obj : ObjectMeta) : ObjectMeta :=
  match Meta_Annotations obj with
  | None => set_Meta_Annotations obj (Some ∅)
  | Some _ => obj
  end.

(** [if obj.Labels == nil { obj.Labels = map[string]string{} }] *)
Definition initLabels (obj : ObjectMeta) : ObjectMeta :=
  match Meta_Labels obj with
  | None => set_Meta_Labels obj (Some ∅)
  | Some _ => obj
  end.

(** [for k, v := range ls { obj.Labels[k] = v }], on labels that are not
    nil. *)
Definition copyLabels (obj : ObjectMeta) (ls : gmap string string) : ObjectMeta :=
  set_Meta_Labels obj
    (Some (map_fold (fun k v labels => <[k := v]> labels) (default ∅ (Meta_Labels obj)) ls)).

(** *** Routes *)

Record TLSConfig : Type := mkTLSConfig {
  Termination : string;
  InsecureEdgeTerminationPolicy : string;
  Certificate : string;
  Key : string
}.

Record RouteTargetReference : Type := mkRouteTargetReference {
  Target_Kind : string;
  Target_Name : string;
  Weight : option Z
}.

(** [TargetPort] is an intstr.IntOrString. *)
Record RoutePort : Type := mkRoutePort {
  TargetPort : Z + string
}.

Record RouteSpec : Type := mkRouteSpec {
  Host : string;
  Path : string;
  To : RouteTargetReference;
  Port : option RoutePort;
  TLS : option TLSConfig;
  WildcardPolicy : string
}.

Definition Route : Type := Object RouteSpec.

Definition set_Host (s : RouteSpec) (host : string) : RouteSpec :=
  mkRouteSpec host (Path s) (To s) (Port s) (TLS s) (WildcardPolicy s).

Definition whitelist : string := "haproxy.router.openshift.io/ip_whitelist".

(** routeForDrupalSite returns a route object. *)
Definition routeForDrupalSite (currentobject : Route) (d : DrupalSite)
    : Route * option error :=
  let currentobject :=
    if IsZero (CreationTimestamp (meta currentobject)) then
      mkObject (addOwnerRefToObject (meta currentobject) (asOwner d))
        (mkRouteSpec "" ""
           (mkRouteTargetReference "Service" (Name d) (Some 100))
           (Some (mkRoutePort (inl 8080)))
           (Some (mkTLSConfig "edge" "Redirect" "" ""))
           "")
    else currentobject in
  let currentobject :=
    mkObject (initLabels (initAnnotations (meta currentobject))) (body currentobject) in
  let ls := <["app" := "drupal"]> (labelsForDrupalSite (Name d)) in
  let currentobject := mkObject (copyLabels (meta currentobject) ls) (body currentobject) in
  let currentobject :=
    match Annotations d !! whitelist with
    | Some _ =>
        mkObject
          (set_Meta_Annotations (meta currentobject)
             (Some (<[whitelist := index (Annotations d) whitelist]>
                      (default ∅ (Meta_Annotations (meta currentobject))))))
          (body currentobject)
    | None => currentobject
    end in
  (mkObject (meta currentobject) (set_Host (body currentobject) (SiteURL (Spec d))), None).

(** routeForWebDAV returns a route object. *)
Definition routeForWebDAV (currentobject : Route) (d : DrupalSite)
    : Route * option error :=
  let currentobject :=
    if IsZero (CreationTimestamp (meta currentobject)) then
      mkObject (addOwnerRefToObject (meta currentobject) (asOwner d))
        (mkRouteSpec "" ""
           (mkRouteTargetReference "Service" (Name d) (Some 100))
           (Some (mkRoutePort (inl 8081)))
           (Some (mkTLSConfig "edge" "Redirect" "" ""))
           "")
    else currentobject in
  let currentobject :=
    mkObject (initLabels (initAnnotations (meta currentobject))) (body currentobject) in
  let ls := <["app" := "drupal"]> (labelsForDrupalSite (Name d)) in
  let currentobject := mkObject (copyLabels (meta currentobject) ls) (body currentobject) in
  let currentobject :=
    match Annotations d !! whitelist with
    | Some _ =>
        mkObject
          (set_Meta_Annotations (meta currentobject)
             (Some (<[whitelist := index (Annotations d) whitelist]>
                      (default ∅ (Meta_Annotations (meta currentobject))))))
          (body currentobject)
    | None => currentobject
    end in
  (mkObject (meta currentobject)
     (set_Host (body currentobject) ("webdav-" +:+ SiteURL (Spec d))), None).

(** What both route functions do to a route, for the host and the target
    port they are to give it. *)
Definition routeShaped (f : Route -> DrupalSite -> Route * option error)
    (host : string) (port : Z) (d : DrupalSite) (cur : Route) : Prop :=
  let r := f cur d in
  let labels := default ∅ (Meta_Labels (meta cur)) in
  let annotations := default ∅ (Meta_Annotations (meta cur)) in
  r.2 = None /\
  Host (body r.1) = host /\
  CreationTimestamp (meta r.1) = CreationTimestamp (meta cur) /\
  Meta_Labels (meta r.1) =
    Some (<["drupalSite" := Name d]> (<["app" := "drupal"]> labels)) /\
  Meta_Annotations (meta r.1) =
    Some (match Annotations d !! whitelist with
          | Some v => <[whitelist := v]> annotations
          | None => annotations
          end) /\
  (CreationTimestamp (meta cur) <> None ->
   OwnerReferences (meta r.1) = OwnerReferences (meta cur) /\
   body r.1 = set_Host (body cur) host /\
   f r.1 d = r) /\
  (CreationTimestamp (meta cur) = None ->
   OwnerReferences (meta r.1) = (OwnerReferences (meta cur) ++ [asOwner d])%list /\
   body r.1 =
     mkRouteSpec host "" (mkRouteTargetReference "Service" (Name d) (Some 100))
       (Some (mkRoutePort (inl port))) (Some (mkTLSConfig "edge" "Redirect" "" "")) "").

(** *** Backup schedule *)

Record BackupSpec : Type := mkBackupSpec {
  IncludedNamespaces : list string;
  ExcludedNamespaces : list string;
  IncludedResources : list string;
  LabelSelector : option (gmap string string);
  TTL : Duration
}.

Record ScheduleSpec : Type := mkScheduleSpec {
  Schedule_ : string;
  Template : BackupSpec;
  UseOwnerReferencesInBackup : option bool
}.

Definition Schedule : Type := Object ScheduleSpec.

Definition Hour : Duration := 60 * Minute.

Definition siteLabel : string := "drupal.webservices.cern.ch/drupalSite".

(** scheduledBackupsForDrupalSite returns a velero Schedule object that
    creates scheduled backups. *)
Definition scheduledBackupsForDrupalSite {E : Externals} (currentobject : Schedule)
    (d : DrupalSite) : Schedule * option error :=
  let ls := labelsForDrupalSite (Name d) in
  let currentobject :=
    mkObject (initLabels (initAnnotations (meta currentobject))) (body currentobject) in
  let ls := <[siteLabel := md5Hex (Namespace d +:+ "/" +:+ Name d)]> ls in
  let currentobject := mkObject (copyLabels (meta currentobject) ls) (body currentobject) in
  let currentobject :=
    mkObject
      (set_Meta_Annotations (meta currentobject)
         (Some (<[siteLabel := Namespace d +:+ "/" +:+ Name d]>
                  (default ∅ (Meta_Annotations (meta currentobject))))))
      (body currentobject) in
  (mkObject (meta currentobject)
     (mkScheduleSpec "* 3 * * *"
        (mkBackupSpec [Namespace d] [] ["pods"]
           (Some (<["app" := "drupal"]> {["drupalSite" := Name d]}))
           (168 * Hour))
        (Some true)),
   None).

(** *** Image stream, build config, database, secret, claim, service *)

Record ImageStreamSpec : Type := mkImageStreamSpec {
  LookupPolicyLocal : bool;
  DockerImageRepository : string
}.

Definition ImageStream : Type := Object ImageStreamSpec.

(** imageStreamForDrupalSiteBuilderS2I returns a ImageStream object for
    Drupal SiteBuilder S2I. *)
Definition imageStreamForDrupalSiteBuilderS2I (currentobject : ImageStream)
    (d : DrupalSite) : ImageStream * option error :=
  let currentobject :=
    if IsZero (CreationTimestamp (meta currentobject)) then
      mkObject (addOwnerRefToObject (meta currentobject) (asOwner d))
        (mkImageStreamSpec true (DockerImageRepository (body currentobject)))
    else currentobject in
  let currentobject := mkObject (initLabels (meta currentobject)) (body currentobject) in
  let ls := <["app" := "sitebuilder"]> (labelsForDrupalSite (Name d)) in
  (mkObject (copyLabels (meta currentobject) ls) (body currentobject), None).

Record ObjectReference : Type := mkObjectReference {
  Ref_Kind : string;
  Ref_Name : string
}.

Record GitBuildSource : Type := mkGitBuildSource {
  Git_Ref : string;
  Git_URI : string
}.

(** buildv1.BuildConfigSpec: the common spec flattened, the source and the
    strategy by the one pointer the controller sets in each. *)
Record BuildConfigSpec (Resources : Type) : Type := mkBuildConfigSpec {
  BC_Resources : Resources;
  CompletionDeadlineSeconds : option Z;
  Source_Git : option GitBuildSource;
  SourceStrategy_From : option ObjectReference;
  Output_To : option ObjectReference;
  Triggers : list string;
  RunPolicy : string
}.

Arguments mkBuildConfigSpec {Resources} _ _ _ _ _ _ _.

Definition BuildConfig (Resources : Type) : Type := Object (BuildConfigSpec Resources).

(** buildConfigForDrupalSiteBuilderS2I returns a BuildConfig object for
    Drupal SiteBuilder S2I; [BuildResources] is the package variable. *)
Definition buildConfigForDrupalSiteBuilderS2I {E : Externals} {Resources : Type}
    (BuildResources : Resources) (currentobject : BuildConfig Resources) (d : DrupalSite)
    : BuildConfig Resources * option error :=
  let currentobject :=
    if IsZero (CreationTimestamp (meta currentobject)) then
      mkObject (addOwnerRefToObject (meta currentobject) (asOwner d))
        (mkBuildConfigSpec BuildResources (Some 1200)
           (Some (mkGitBuildSource "master"
                    (ExtraConfigurationRepo (Spec_Configuration (Spec d)))))
           (Some (mkObjectReference "DockerImage"
                    (SiteBuilderImage +:+ ":" +:+ releaseID d)))
           (Some (mkObjectReference "ImageStreamTag"
                    ("sitebuilder-s2i-" +:+ Name d +:+ ":" +:+ releaseID d)))
           ["ConfigChange"]
           "")
    else currentobject in
  let currentobject := mkObject (initLabels (meta currentobject)) (body currentobject) in
  let ls := <["app" := "sitebuilder"]> (labelsForDrupalSite (Name d)) in
  (mkObject (copyLabels (meta currentobject) ls) (body currentobject), None).

Record DatabaseSpec : Type := mkDatabaseSpec {
  Spec_DatabaseClass : string;
  DbName : string;
  DbUser : string;
  ExtraLabels : option (gmap string string)
}.

Definition DBODDatabase : Type := Object DatabaseSpec.

(** dbodForDrupalSite returns a DBOD resource for the the Drupal Site;
    [dbID[1:10]] in hex is characters 2 to 19 of the digest in hex. *)
Definition dbodForDrupalSite {E : Externals} (currentobject : DBODDatabase) (d : DrupalSite)
    : DBODDatabase * option error :=
  let currentobject :=
    if IsZero (CreationTimestamp (meta currentobject)) then
      let dbID := md5Hex (Namespace d +:+ "-" +:+ Name d) in
      mkObject (addOwnerRefToObject (meta currentobject) (asOwner d))
        (mkDatabaseSpec (DatabaseClass (Spec_Configuration (Spec d)))
           (String.substring 2 18 dbID) (String.substring 2 18 dbID)
           (Some {["drupalSite" := Name d]}))
    else currentobject in
  let currentobject := mkObject (initLabels (meta currentobject)) (body currentobject) in
  let ls := <["app" := "dbod"]> (labelsForDrupalSite (Name d)) in
  (mkObject (copyLabels (meta currentobject) ls) (body currentobject), None).

(** The secret without its metadata. *)
Record SecretData : Type := mkSecretData {
  Secret_Type : string;
  StringData : option (gmap string string)
}.

Definition Secret : Type := Object SecretData.

(** encryptBasicAuthPassword encrypts a password for basic authentication.
    [openssl] is the output of the [openssl passwd -apr1] process it runs,
    [Errorf] is [fmt.Errorf] with the format given. *)
Definition encryptBasicAuthPassword {E : Externals} (openssl : string -> string + error)
    (Errorf : string -> error -> error) (password : string) : string * option error :=
  match openssl password with
  | inr err =>
      ("", Some (asError (newApplicationError
                            (Some (Errorf "encrypting password failed: %w" err))
                            (sentinel ErrFunctionDomain))))
  | inl encryptedPassword => (encryptedPassword, None)
  end.

(** secretForWebDAV returns a Secret object. *)
Definition secretForWebDAV {E : Externals} (openssl : string -> string + error)
    (Errorf : string -> error -> error) (currentobject : Secret) (d : DrupalSite)
    : Secret * option error :=
  let labelled (currentobject : Secret) : Secret * option error :=
    let currentobject := mkObject (initLabels (meta currentobject)) (body currentobject) in
    let ls := <["app" := "drupal"]> (labelsForDrupalSite (Name d)) in
    (mkObject (copyLabels (meta currentobject) ls) (body currentobject), None) in
  if IsZero (CreationTimestamp (meta currentobject)) then
    let currentobject :=
      mkObject (addOwnerRefToObject (meta currentobject) (asOwner d))
        (mkSecretData "kubernetes.io/basic-auth" (StringData (body currentobject))) in
    let '(encryptedBasicAuthPassword, err) :=
      encryptBasicAuthPassword openssl Errorf
        (WebDAVPassword (Spec_Configuration (Spec d))) in
    match err with
    | Some err => (currentobject, Some err)
    | None =>
        labelled
          (mkObject (meta currentobject)
             (mkSecretData (Secret_Type (body currentobject))
                (Some {["password" := "admin:" +:+ encryptedBasicAuthPassword]})))
    end
  else labelled currentobject.

Record PersistentVolumeClaimSpec (Quantity : Type) : Type := mkPersistentVolumeClaimSpec {
  StorageClassName : option string;
  AccessModes : list string;
  Resources_Requests : option (gmap string Quantity);
  VolumeName : string
}.

Arguments mkPersistentVolumeClaimSpec {Quantity} _ _ _ _.

Definition PersistentVolumeClaim (Quantity : Type) : Type :=
  Object (PersistentVolumeClaimSpec Quantity).

(** persistentVolumeClaimForDrupalSite returns a PVC object.
    [resource.MustParse] panics where [ParseQuantity] returns an error. *)
Definition persistentVolumeClaimForDrupalSite {Quantity : Type}
    (ParseQuantity : string -> Quantity + error)
    (currentobject : PersistentVolumeClaim Quantity) (d : DrupalSite)
    : Prog (PersistentVolumeClaim Quantity * option error) :=
  (currentobject <-
     (if IsZero (CreationTimestamp (meta currentobject)) then
        match ParseQuantity (DiskSize (Spec_Configuration (Spec d))) with
        | inr _ => Panic
        | inl size =>
            Ret (mkObject (addOwnerRefToObject (meta currentobject) (asOwner d))
                   (mkPersistentVolumeClaimSpec (Some "cephfs-no-backup") ["ReadWriteMany"]
                      (Some {["storage" := size]}) ""))
        end
      else Ret currentobject) ;;
   let currentobject := mkObject (initLabels (meta currentobject)) (body currentobject) in
   let ls := <["app" := "drupal"]> (labelsForDrupalSite (Name d)) in
   Ret (mkObject (copyLabels (meta currentobject) ls) (body currentobject), None))%prog.

Record ServicePort : Type := mkServicePort {
  Port_TargetPort : Z + string;
  Port_Name : string;
  Port_Port : Z;
  Protocol : string
}.

Record ServiceSpec : Type := mkServiceSpec {
  Selector : option (gmap string string);
  Ports : list ServicePort;
  ClusterIP : string
}.

Definition Service : Type := Object ServiceSpec.

(** serviceForDrupalSite returns a service object. *)
Definition serviceForDrupalSite (currentobject : Service) (d : DrupalSite)
    : Service * option error :=
  let currentobject := mkObject (initLabels (meta currentobject)) (body currentobject) in
  let ls := <["app" := "drupal"]> (labelsForDrupalSite (Name d)) in
  let currentobject := mkObject (copyLabels (meta currentobject) ls) (body currentobject) in
  let currentobject :=
    if IsZero (CreationTimestamp (meta currentobject)) then
      mkObject (addOwnerRefToObject (meta currentobject) (asOwner d))
        (mkServiceSpec (Some ls)
           [mkServicePort (inl 8080) "nginx" 80 "TCP";
            mkServicePort (inl 8081) "webdav" 81 "TCP";
            mkServicePort (inl 9253) "php-fpm-exporter" 9253 "TCP"]
           (ClusterIP (body currentobject)))
    else currentobject in
  (currentobject, None).

(** An object with the labels drupalSite and app laid over its own. *)
Definition relabelled {B : Type} (app : string) (d : DrupalSite) (cur : Object B)
    : Object B :=
  mkObject
    (set_Meta_Labels (meta cur)
       (Some (<["drupalSite" := Name d]>
                (<["app" := app]> (default ∅ (Meta_Labels (meta cur)))))))
    (body cur).

(** [f] hands an object that exists back with its labels laid over and
    nothing else changed, and does the same to what it hands back. *)
Definition keepsExisting {B : Type} (f : Object B -> DrupalSite -> Object B * option error)
    (app : string) : Prop :=
  forall (d : DrupalSite) (cur : Object B),
    CreationTimestamp (meta cur) <> None ->
    f cur d = (relabelled app d cur, None) /\
    f (relabelled app d cur) d = (relabelled app d cur, None).

End shape.

(** The route a route function is to return: [host] and [port] tell the
    two functions apart. *)
Definition freshRouteSpec (d : DrupalSite) (port : Z) : shape.RouteSpec :=
  shape.mkRouteSpec "" "" (shape.mkRouteTargetReference "Service" (Name d) (Some 100))
    (Some (shape.mkRoutePort (inl port)))
    (Some (shape.mkTLSConfig "edge" "Redirect" "" "")) "".

Definition shapedRoute (d : DrupalSite) (host : string) (port : Z) (cur : shape.Route)
    : shape.Route :=
  let m := shape.meta cur in
  let fresh := shape.IsZero (shape.CreationTimestamp m) in
  shape.mkObject
    (shape.mkObjectMeta (shape.CreationTimestamp m)
       (if fresh then shape.OwnerReferences m ++ [shape.asOwner d]
        else shape.OwnerReferences m)%list
       (Some (<["drupalSite" := Name d]>
                (<["app" := "drupal"]> (default ∅ (shape.Meta_Labels m)))))
       (Some (match Annotations d !! shape.whitelist with
              | Some v => <[shape.whitelist := v]> (default ∅ (shape.Meta_Annotations m))
              | None => default ∅ (shape.Meta_Annotations m)
              end)))
    (shape.set_Host (if fresh then freshRouteSpec d port else shape.body cur) host).


(** ** The start of an update *)

(** A call that looks at the cluster and changes nothing: a read, the
    clock, or one of the two commands that only report. *)
Definition inspecting (e : Event) : Prop :=
  match e with
  | Ev c _ =>
      match c with
      | CreateOrUpdate _ _ _ | Delete _ _ | Update _ | StatusUpdate _ => False
      | execToPodThroughAPI _ _ _ command =>
          command = checkUpdbStatus \/ command = checkIfSiteIsInstalled
      | _ => True
      end
  end.

(** The site carries no "updateInProgress" annotation. *)
Definition unmarked (d : DrupalSite) : Prop := Annotations d !! "updateInProgress" = None.

(** What holds when a site that carries the annotation is persisted in a
    reconciliation that fetched it without: the call is an update of the
    resource, the site is ready and initialized, the call before it
    fetched the deployment of the site and found another release on its
    pod template, and every call before only inspected the cluster. *)
Definition updateStart (hist : list Event) (e : Event) : Prop :=
  match persisted e with
  | Some d' =>
      ~ unmarked d' ->
      (exists r, e = Ev (Update d') r) /\
      ConditionTrue d' "Ready" = true /\
      ConditionTrue d' "Initialized" = true /\
      (exists hist0 deployment,
         hist = (hist0 ++ [Ev (GetDeployment (siteKey d')) (inl deployment)])%list /\
         index (Template_Annotations deployment) "releaseID" <> releaseID d') /\
      Forall inspecting hist
  | None => True
  end.

(** The cluster of [siteServing] with its deployment still on the old
    release, and the site as an update marks it. *)
Definition clusterOutdated : Cluster :=
  with_deployments clusterServing
    {[("project", "site") := mkDeployment 1 {["releaseID" := oldRelease]}]}.

Definition siteMarked : DrupalSite :=
  set_Annotations siteServing {["updateInProgress" := "true"]}.

(** A site as the API server returns it on creation: no finalizer, no
    status; and a cluster that holds nothing else. *)
Definition siteNew : DrupalSite :=
  mkDrupalSite "site" "project" ∅ ∅ [] None (Spec site0)
    (mkDrupalSiteStatus [] (mkReleaseID "" "") "" []).

Definition clusterNew : Cluster :=
  mkCluster [siteNew] ∅ ∅ ∅ ∅ ∅ [] [] 0 (fun _ => ("", "", None)) false (fun _ => false)
    (fun _ => false).

(** ** The list of backups in the status *)

(** What Reconcile_backups does after the backups of the site were listed
    with [answer]: [rest] are the calls that follow, [r] is the result. *)
Definition backupsSynced {E : Externals} (d : DrupalSite) (requeueFlag : option error)
    (answer : list VeleroBackup + error) (rest : list Event)
    (r : Result * option error) : Prop :=
  match answer with
  | inr _ => rest = [] /\ exists err, r = (emptyResult, Some err)
  | inl items =>
      let completed := List.filter isCompleted items in
      let listed := AvailableBackups (Status d) in
      (completed = [] -> rest = [] /\ r = (emptyResult, requeueFlag)) /\
      (backupListUpdateNeeded completed listed = Some false ->
       rest = [] /\ r = (emptyResult, requeueFlag)) /\
      (forall e, In e rest ->
         completed <> [] /\
         backupListUpdateNeeded completed listed = Some true /\
         exists x,
           e = Ev (StatusUpdate (set_AvailableBackups d (updateBackupListStatus completed))) x)
  end.

(** The cluster of [siteServing], whose status lists no backup, with one
    backup still in progress. *)
Definition clusterBackingUp : Cluster :=
  mkCluster [siteServing] ∅ ∅ ∅ ∅ ∅ []
    [mkVeleroBackup "site-20210601" BackupPhaseInProgress None None]
    0 (fun _ => ("", "", None)) false (fun _ => false) (fun _ => false).

(** ** Environment of a container *)

(** corev1.EnvVar and corev1.EnvFromSource, the latter with its two
    references by name. *)
Record EnvVar : Type := mkEnvVar {
  Env_Name : string;
  Env_Value : string
}.

Record SecretEnvSource : Type := mkSecretEnvSource {
  SecretRef_Name : string;
  SecretRef_Optional : option bool
}.

Record EnvFromSource : Type := mkEnvFromSource {
  Prefix : string;
  ConfigMapRef : option string;
  SecretRef : option SecretEnvSource
}.

(** checkIfEnvVarExists checks if a given EnvVar array has the specific
    variable present or not. *)
Fixpoint checkIfEnvVarExists (envVarArray : list EnvVar) (envVarName : string) : bool :=
  match envVarArray with
  | [] => false
  | item :: rest =>
      if String.eqb (Env_Name item) envVarName then true
      else checkIfEnvVarExists rest envVarName
  end.

(** checkIfEnvFromSourceExists checks if a given EnvFromSource array has
    the specific source variable present or not. *)
Fixpoint checkIfEnvFromSourceExists (envFromSourceArray : list EnvFromSource)
    (envVarName : string) : bool :=
  match envFromSourceArray with
  | [] => false
  | item :: rest =>
      if match SecretRef item with
         | Some ref => String.eqb (SecretRef_Name ref) envVarName
         | None => false
         end
      then true
      else checkIfEnvFromSourceExists rest envVarName
  end.

(** * Properties *)

(** ** Programs, runs and weakest preconditions *)

Lemma wp_mono {A : Type} (p : Prog A) (Q Q' : list Event -> A -> Prop) :
  (forall tr a, Q tr a -> Q' tr a) -> wp p Q -> wp p Q'.
Proof.
  revert Q Q'. induction p as [a | | R c k IH]; simpl; intros Q Q' HQ Hp.
  - auto.
  - exact Hp.
  - intros r. eapply IH; [| apply Hp]. simpl. auto.
Qed.

Lemma wp_bind {A B : Type} (m : Prog A) (f : A -> Prog B) (Q : list Event -> B -> Prop) :
  wp m (fun tr1 a => wp (f a) (fun tr2 b => Q (tr1 ++ tr2)%list b)) -> wp (bind m f) Q.
Proof.
  revert Q. induction m as [a | | R c k IH]; simpl; intros Q Hm.
  - exact Hm.
  - exact Hm.
  - intros r. apply IH. apply Hm.
Qed.

Lemma wp_call {R : Type} (c : Call R) (Q : list Event -> R -> Prop) :
  (forall r, Q [Ev c r] r) -> wp (call c) Q.
Proof. intros H r. simpl. apply H. Qed.

(** What [wp] proves holds of every run, against every handler. *)
Lemma wp_run {W A : Type} (h : Handler W) (p : Prog A) (Q : list Event -> A -> Prop) (w : W) :
  wp p Q -> exists a, (run h p w).1.1 = Some a /\ Q (run h p w).2 a.
Proof.
  revert Q w. induction p as [a | | R c k IH]; simpl; intros Q w Hp.
  - exists a. auto.
  - destruct Hp.
  - destruct (h R c w) as [r w1] eqn:Hh.
    destruct (IH r _ w1 (Hp r)) as (a & Ha & HQ).
    destruct (run h (k r) w1) as [[oa w2] tr]. simpl in *.
    exists a. auto.
Qed.

Lemma wpp_mono {A : Type} (p : Prog A) (Q Q' : list Event -> A -> Prop)
    (N N' : list Event -> Prop) :
  (forall tr a, Q tr a -> Q' tr a) -> (forall tr, N tr -> N' tr) -> wpp p Q N -> wpp p Q' N'.
Proof.
  revert Q Q' N N'. induction p as [a | | R c k IH]; simpl; intros Q Q' N N' HQ HN Hp.
  - auto.
  - auto.
  - intros r. eapply IH; [| | apply Hp]; simpl; auto.
Qed.

Lemma wpp_bind {A B : Type} (m : Prog A) (f : A -> Prog B) (Q : list Event -> B -> Prop)
    (N : list Event -> Prop) :
  wpp m (fun tr1 a => wpp (f a) (fun tr2 b => Q (tr1 ++ tr2)%list b)
                        (fun tr2 => N (tr1 ++ tr2)%list)) N ->
  wpp (bind m f) Q N.
Proof.
  revert Q N. induction m as [a | | R c k IH]; simpl; intros Q N Hm.
  - exact Hm.
  - exact Hm.
  - intros r. apply IH. apply Hm.
Qed.

Lemma wpp_call {R : Type} (c : Call R) (Q : list Event -> R -> Prop) (N : list Event -> Prop) :
  (forall r, Q [Ev c r] r) -> wpp (call c) Q N.
Proof. intros H r. simpl. apply H. Qed.

(** A program that does not panic. *)
Lemma wp_wpp {A : Type} (p : Prog A) (Q : list Event -> A -> Prop) (N : list Event -> Prop) :
  wp p Q -> wpp p Q N.
Proof.
  revert Q N. induction p as [a | | R c k IH]; simpl; intros Q N Hp.
  - exact Hp.
  - destruct Hp.
  - intros r. apply IH. apply Hp.
Qed.

(** What [wpp] proves holds of every run, against every handler. *)
Lemma wpp_run {W A : Type} (h : Handler W) (p : Prog A) (Q : list Event -> A -> Prop)
    (N : list Event -> Prop) (w : W) :
  wpp p Q N ->
  match (run h p w).1.1 with
  | Some a => Q (run h p w).2 a
  | None => N (run h p w).2
  end.
Proof.
  revert Q N w. induction p as [a | | R c k IH]; simpl; intros Q N w Hp.
  - exact Hp.
  - exact Hp.
  - destruct (h R c w) as [r w1] eqn:Hh.
    specialize (IH r _ _ w1 (Hp r)).
    destruct (run h (k r) w1) as [[oa w2] tr]. simpl in *. exact IH.
Qed.

Lemma wpp_bind_assoc {A B C : Type} (m : Prog A) (f : A -> Prog B) (g : B -> Prog C)
    (Q : list Event -> C -> Prop) (N : list Event -> Prop) :
  wpp (bind m (fun x => bind (f x) g)) Q N -> wpp (bind (bind m f) g) Q N.
Proof.
  revert Q N. induction m as [a | | R c k IH]; simpl; intros Q N H.
  - exact H.
  - exact H.
  - intros r. apply IH. apply H.
Qed.

Lemma run_bind {W A B : Type} (h : Handler W) (m : Prog A) (f : A -> Prog B) (w : W) :
  run h (bind m f) w =
  match run h m w with
  | (Some a, w1, tr1) =>
      let '(b, w2, tr2) := run h (f a) w1 in (b, w2, (tr1 ++ tr2)%list)
  | (None, w1, tr1) => (None, w1, tr1)
  end.
Proof.
  revert w. induction m as [a | | R c k IH]; simpl; intros w.
  - destruct (run h (f a) w) as [[b w2] tr2]. reflexivity.
  - reflexivity.
  - destruct (h R c w) as [r w1]. rewrite IH.
    destruct (run h (k r) w1) as [[[a |] w2] tr1]; [| reflexivity].
    destruct (run h (f a) w2) as [[b w3] tr2]. reflexivity.
Qed.

Lemma run_call {W R : Type} (h : Handler W) (c : Call R) (w : W) :
  run h (call c) w = (Some (h R c w).1, (h R c w).2, [Ev c (h R c w).1]).
Proof. simpl. destruct (h R c w). reflexivity. Qed.

(** ** The condition set *)

Lemma eqb_true_iff (s t : string) : String.eqb s t = true <-> s = t.
Proof. apply String.eqb_eq. Qed.

Lemma GetCondition_SetCondition (cs : status.Conditions) (c : status.Condition)
    (t : status.ConditionType) :
  status.GetCondition (status.SetCondition cs c).2 t =
  if String.eqb (status.Type_ c) t then Some c else status.GetCondition cs t.
Proof.
  induction cs as [| x cs IH]; simpl.
  - reflexivity.
  - destruct (String.eqb (status.Type_ x) (status.Type_ c)) eqn:Hx; simpl.
    + apply String.eqb_eq in Hx. rewrite Hx. destruct (String.eqb (status.Type_ c) t); reflexivity.
    + destruct (status.SetCondition cs c) as [ch cs'] eqn:Hs. simpl in *.
      destruct (String.eqb (status.Type_ x) t) eqn:Ht.
      * apply String.eqb_eq in Ht. subst t.
        rewrite String.eqb_sym, Hx. reflexivity.
      * exact IH.
Qed.

Lemma GetCondition_RemoveCondition_ne (cs : status.Conditions) (t t' : status.ConditionType) :
  t <> t' ->
  status.GetCondition (status.RemoveCondition cs t').2 t = status.GetCondition cs t.
Proof.
  intros Hne. induction cs as [| x cs IH]; simpl.
  - reflexivity.
  - destruct (String.eqb (status.Type_ x) t') eqn:Hx; simpl.
    + apply String.eqb_eq in Hx.
      destruct (String.eqb (status.Type_ x) t) eqn:Ht; [| reflexivity].
      apply String.eqb_eq in Ht. congruence.
    + destruct (status.RemoveCondition cs t') as [r cs'] eqn:Hr. simpl in *.
      rewrite IH. reflexivity.
Qed.

(** A [SetCondition] that reports no change leaves the set as it was. *)
Lemma SetCondition_unchanged (cs : status.Conditions) (c : status.Condition) :
  (status.SetCondition cs c).1 = false -> (status.SetCondition cs c).2 = cs.
Proof.
  induction cs as [| x cs IH]; simpl.
  - discriminate.
  - destruct (String.eqb (status.Type_ x) (status.Type_ c)) eqn:Hx; simpl.
    + intros H.
      apply orb_false_iff in H as [H H3]. apply orb_false_iff in H as [H1 H2].
      apply negb_false_iff, String.eqb_eq in H1, H2, H3.
      apply String.eqb_eq in Hx.
      destruct x, c; simpl in *; congruence.
    + destruct (status.SetCondition cs c) as [ch cs'] eqn:Hs. simpl in *.
      intros H. rewrite IH; auto.
Qed.

Lemma SetCondition_unchanged_get (cs : status.Conditions) (c : status.Condition) :
  (status.SetCondition cs c).1 = false -> status.GetCondition cs (status.Type_ c) = Some c.
Proof.
  intros H. rewrite <- (SetCondition_unchanged cs c H) at 1.
  rewrite GetCondition_SetCondition, String.eqb_refl. reflexivity.
Qed.

Lemma RemoveCondition_unchanged (cs : status.Conditions) (t : status.ConditionType) :
  (status.RemoveCondition cs t).1 = false -> (status.RemoveCondition cs t).2 = cs.
Proof.
  induction cs as [| x cs IH]; simpl.
  - reflexivity.
  - destruct (String.eqb (status.Type_ x) t) eqn:Hx; simpl.
    + discriminate.
    + destruct (status.RemoveCondition cs t) as [r cs'] eqn:Hr. simpl in *.
      intros H. rewrite IH; auto.
Qed.

(** ** Backup lists *)

Lemma backupNamesDiffer_spec (vs : list VeleroBackup) (s : list Backup) (i : nat) :
  (i + length vs = length s)%nat ->
  exists b, backupNamesDiffer i vs s = Some b /\
    (b = false <->
     forall j v x, vs !! j = Some v -> s !! (i + j)%nat = Some x -> Velero_Name v = Backup_Name x).
Proof.
  revert i. induction vs as [| v vs IH]; simpl; intros i Hlen.
  - exists false. split; [reflexivity |]. split; [| reflexivity].
    intros _ j v x Hj. rewrite lookup_nil in Hj. discriminate.
  - destruct (s !! i) as [x |] eqn:Hx.
    2: { apply lookup_ge_None in Hx. lia. }
    destruct (String.eqb (Velero_Name v) (Backup_Name x)) eqn:Hn; simpl.
    + apply String.eqb_eq in Hn.
      destruct (IH (S i)) as (b & Hb & Hiff); [lia |].
      exists b. split; [exact Hb |]. rewrite Hiff. split.
      * intros H [| j] v' x' Hv Hx'; simpl in Hv.
        -- inversion Hv; subst v'. rewrite Nat.add_0_r, Hx in Hx'. congruence.
        -- apply (H j v' x' Hv). rewrite <- Hx'. f_equal. lia.
      * intros H j v' x' Hv Hx'. apply (H (S j) v' x'); [exact Hv |].
        rewrite <- Hx'. f_equal. lia.
    + apply String.eqb_neq in Hn.
      exists true. split; [reflexivity |]. split; [discriminate |].
      intros H. exfalso. apply Hn. apply (H 0%nat v x); [reflexivity |].
      rewrite Nat.add_0_r. exact Hx.
Qed.

Lemma updateBackupListStatus_loop_spec (acc : list Backup) (vs : list VeleroBackup) :
  updateBackupListStatus_loop acc vs =
  (acc ++ List.map (fun v => mkBackup (Velero_Name v) (CompletionTimestamp v) (Expiration v)) vs)%list.
Proof.
  revert acc. induction vs as [| v vs IH]; simpl; intros acc.
  - rewrite app_nil_r. reflexivity.
  - rewrite IH, <- app_assoc. reflexivity.
Qed.

Lemma updateBackupListStatus_map (vs : list VeleroBackup) :
  updateBackupListStatus vs =
  List.map (fun v => mkBackup (Velero_Name v) (CompletionTimestamp v) (Expiration v)) vs.
Proof. unfold updateBackupListStatus. rewrite updateBackupListStatus_loop_spec. reflexivity. Qed.

Lemma backupListUpdateNeeded_iff (v : list VeleroBackup) (s : list Backup) :
  exists b, backupListUpdateNeeded v s = Some b /\
    (b = false <->
     length v = length s /\
     forall i x y, v !! i = Some x -> s !! i = Some y -> Velero_Name x = Backup_Name y).
Proof.
  unfold backupListUpdateNeeded.
  destruct (length v =? length s)%nat eqn:Hlen; simpl.
  - apply Nat.eqb_eq in Hlen.
    destruct (backupNamesDiffer_spec v s 0) as (b & Hb & Hiff); [exact Hlen |].
    exists b. split; [exact Hb |]. rewrite Hiff. simpl. split.
    + intros H. split; [exact Hlen | exact H].
    + intros [_ H]. exact H.
  - apply Nat.eqb_neq in Hlen. exists true. split; [reflexivity |].
    split; [discriminate |]. intros [H _]. contradiction.
Qed.

(** C9. backupListUpdateNeeded never panics; it answers false exactly for
    lists of equal length with pairwise equal names, in order; and a list
    converted by updateBackupListStatus needs no update against itself. *)
Theorem backupListUpdateNeeded_spec :
  (forall v : list VeleroBackup,
     backupListUpdateNeeded v (updateBackupListStatus v) = Some false) /\
  (forall (v : list VeleroBackup) (s : list Backup),
     exists b, backupListUpdateNeeded v s = Some b /\
       (b = false <->
        length v = length s /\
        forall i x y, v !! i = Some x -> s !! i = Some y -> Velero_Name x = Backup_Name y)).
Proof.
  split; [| exact backupListUpdateNeeded_iff].
  intros v. destruct (backupListUpdateNeeded_iff v (updateBackupListStatus v)) as (b & Hb & Hiff).
  rewrite Hb. f_equal. apply Hiff. rewrite updateBackupListStatus_map. split.
  - rewrite length_map. reflexivity.
  - intros i x y Hx Hy. rewrite list_lookup_fmap, Hx in Hy. simpl in Hy.
    inversion Hy. reflexivity.
Qed.

(** ** The updateInProgress annotation *)

Lemma size_zero_empty (m : gmap string string) : (size m =? 0)%nat = true -> m = ∅.
Proof. intros H. apply Nat.eqb_eq in H. apply map_size_empty_iff. exact H. Qed.

Lemma set_Annotations_id (d : DrupalSite) : set_Annotations d (Annotations d) = d.
Proof. destruct d. reflexivity. Qed.

Lemma setUpdateInProgress_eq (drp : DrupalSite) :
  setUpdateInProgress drp =
  (negb (String.eqb (index (Annotations drp) "updateInProgress") "true"),
   set_Annotations drp (<["updateInProgress" := "true"]> (Annotations drp))).
Proof.
  destruct drp as [name ns labels ann fin del spec st].
  unfold setUpdateInProgress, set_Annotations, index. simpl.
  destruct (size ann =? 0)%nat eqn:Hsize; simpl.
  - apply size_zero_empty in Hsize. subst ann. rewrite lookup_empty. reflexivity.
  - destruct (ann !! "updateInProgress") as [v |] eqn:Hv; simpl; [| reflexivity].
    destruct (String.eqb v "true") eqn:Htrue; simpl; [| reflexivity].
    apply String.eqb_eq in Htrue. subst v. rewrite insert_id; [reflexivity | exact Hv].
Qed.

Lemma unsetUpdateInProgress_eq (drp : DrupalSite) :
  unsetUpdateInProgress drp =
  (notNil (Annotations drp !! "updateInProgress"),
   set_Annotations drp (delete "updateInProgress" (Annotations drp))).
Proof.
  destruct drp as [name ns labels ann fin del spec st].
  unfold unsetUpdateInProgress, set_Annotations. simpl.
  destruct (size ann =? 0)%nat eqn:Hsize; simpl.
  - apply size_zero_empty in Hsize. subst ann. rewrite lookup_empty, delete_empty. reflexivity.
  - destruct (ann !! "updateInProgress") as [v |] eqn:Hv; simpl; [reflexivity |].
    rewrite delete_id; [reflexivity | exact Hv].
Qed.

(** C10. setUpdateInProgress leaves the annotation at "true", changes no
    other annotation, answers true exactly when the annotation was not
    "true" before, and a second call answers false and changes nothing;
    unsetUpdateInProgress removes the key, changes no other annotation,
    answers true exactly when the key was present, and a second call
    answers false and changes nothing. *)
Theorem updateInProgress_idempotent (drp : DrupalSite) :
  let set := setUpdateInProgress drp in
  let unset := unsetUpdateInProgress drp in
  (Annotations set.2 = <["updateInProgress" := "true"]> (Annotations drp) /\
   set.1 = negb (String.eqb (index (Annotations drp) "updateInProgress") "true") /\
   setUpdateInProgress set.2 = (false, set.2)) /\
  (Annotations unset.2 = delete "updateInProgress" (Annotations drp) /\
   unset.1 = notNil (Annotations drp !! "updateInProgress") /\
   unsetUpdateInProgress unset.2 = (false, unset.2)).
Proof.
  simpl. rewrite !setUpdateInProgress_eq, !unsetUpdateInProgress_eq. simpl.
  unfold index. rewrite lookup_insert_eq, lookup_delete_eq. simpl.
  rewrite insert_insert_eq, delete_delete_eq.
  repeat split; reflexivity.
Qed.

(** ** The roll-out check *)

Lemma Minutes_lt_3 (d : Duration) :
  Qltb (Minutes d) (3 # 1) = true <-> d < 3 * Minute.
Proof.
  unfold Qltb. rewrite negb_true_iff.
  assert (H : Qle_bool (3 # 1) (Minutes d) = true <-> 3 * Minute <= d).
  { rewrite Qle_bool_iff. unfold Minutes, Qle, Qplus, Qdiv, Qmult, Qinv, inject_Z.
    change Minute with 60000000000. simpl Qnum. simpl Qden.
    pose proof (Z.quot_rem' d 60000000000) as Hqr.
    set (q := Z.quot d 60000000000) in *. set (r := Z.rem d 60000000000) in *.
    simpl. lia. }
  destruct (Qle_bool (3 # 1) (Minutes d)).
  - split; [discriminate |]. intros Hlt. destruct H as [H _]. specialize (H eq_refl). lia.
  - split; [intros _ | reflexivity].
    destruct (Z_lt_le_dec d (3 * Minute)) as [Hlt | Hle]; [exact Hlt |].
    apply H in Hle. discriminate.
Qed.

Lemma Sub_lt_3 (t u : Time) : Sub t u < 3 * Minute <-> t - u < 3 * Minute.
Proof.
  unfold Sub, minDuration, maxDuration, Minute.
  destruct (t - u <? - 2 ^ 63) eqn:H1; [apply Z.ltb_lt in H1; lia |].
  destruct (2 ^ 63 - 1 <? t - u) eqn:H2; [apply Z.ltb_lt in H2; lia |].
  reflexivity.
Qed.

Section RollOut.

Context {E : Externals}.

Lemma getPodForVersion_loop_err (items : list Pod) (release : string) pod e :
  getPodForVersion_loop items release = (pod, Some e) -> pod = emptyPod.
Proof.
  induction items as [| v items IH]; simpl.
  - intros H. inversion H. reflexivity.
  - destruct (String.eqb _ _); [discriminate | exact IH].
Qed.

Lemma getPodForVersion_err {W : Type} (h : Handler W) (w w1 : W) d release pod e tr :
  run h (getPodForVersion d release) w = (Some (pod, Some e), w1, tr) -> pod = emptyPod.
Proof.
  unfold getPodForVersion.
  destruct (LabelSelectorAsSelector (podLabels d)); simpl.
  - intros H. inversion H. reflexivity.
  - destruct (h _ _ w) as [[items | err] w'];
      [destruct (length items =? 0)%nat eqn:Hlen |]; simpl; intros H; inversion H; subst;
      try reflexivity.
    eapply getPodForVersion_loop_err. eassumption.
Qed.

Lemma getPodForVersion_noClock (d : DrupalSite) (release : string) :
  wp (getPodForVersion d release) (fun tr _ => Forall (fun e => clockRead e = false) tr).
Proof.
  unfold getPodForVersion.
  destruct (LabelSelectorAsSelector (podLabels d)); simpl; [constructor |].
  intros [items | err]; [destruct (length items =? 0)%nat |]; simpl; repeat constructor.
Qed.

(** C3. A pod of the release in phase Pending: before three minutes have
    passed since its creation the check asks for a requeue with a temporary
    error, from three minutes on it reports a permanent failure; in every
    other phase the check does not read the clock at all. *)
Theorem didVersionRollOutSucceed_grace_period {W : Type} (h : Handler W) (w w1 : W)
    (d : DrupalSite) (pod : Pod) (err : option reconcileError) (tr : list Event) :
  (forall inner, Temporary (newApplicationError inner (sentinel ErrPodNotRunning)) = true) ->
  (forall inner,
     Temporary (newApplicationError inner (sentinel ErrDeploymentUpdateFailed)) = false) ->
  run h (getPodForVersion d (releaseID d)) w = (Some (pod, err), w1, tr) ->
  let now := (h Time timeNow w1).1 in
  let elapsed := now - Pod_CreationTimestamp pod in
  (Pod_Phase pod = PodPending ->
   exists requeue e,
     run h (didVersionRollOutSucceed d) w =
       (Some (requeue, Some e), (h Time timeNow w1).2, (tr ++ [Ev timeNow now])%list) /\
     (elapsed < 3 * Minute -> requeue = true /\ Temporary e = true) /\
     (3 * Minute <= elapsed -> requeue = false /\ Temporary e = false)) /\
  (Pod_Phase pod <> PodPending ->
   (run h (didVersionRollOutSucceed d) w).2 = tr /\
   Forall (fun e => clockRead e = false) tr).
Proof.
  intros Htemp Hperm Hrun now elapsed.
  unfold didVersionRollOutSucceed. rewrite run_bind, Hrun. split.
  - intros Hphase.
    assert (err = None) as ->.
    { destruct err as [e |]; [| reflexivity].
      apply getPodForVersion_err in Hrun. subst pod. discriminate. }
    rewrite Hphase. rewrite run_bind, run_call. fold now.
    destruct (Qltb (Minutes (Sub now (Pod_CreationTimestamp pod))) (3 # 1)) eqn:Hlt; simpl.
    + eexists _, _. split; [reflexivity |].
      apply Minutes_lt_3, Sub_lt_3 in Hlt. split; [auto | intros; unfold elapsed in *; lia].
    + eexists _, _. split; [reflexivity |].
      assert (~ elapsed < 3 * Minute).
      { intros Hc. apply Sub_lt_3, Minutes_lt_3 in Hc. congruence. }
      split; [intros; lia | auto].
  - intros Hphase. split.
    + destruct (match err with Some e => Temporary e | None => false end); simpl.
      * rewrite app_nil_r. reflexivity.
      * destruct (Pod_Phase pod); simpl; try (rewrite app_nil_r; reflexivity).
        contradiction.
    + pose proof (wp_run h _ _ w (getPodForVersion_noClock d (releaseID d))) as (a & _ & H).
      rewrite Hrun in H. exact H.
Qed.

End RollOut.

Lemma didVersionRollOutSucceed_grace_period_witness :
  let now := (fakeClient Time timeNow clusterPending).1 in
  let elapsed := now - Pod_CreationTimestamp pendingPod in
  (Pod_Phase pendingPod = PodPending ->
   exists requeue e,
     run fakeClient (didVersionRollOutSucceed site0) clusterPending =
       (Some (requeue, Some e), (fakeClient Time timeNow clusterPending).2,
        ([Ev (ListPods "project" (podLabels site0)) (inl [pendingPod])] ++ [Ev timeNow now])%list) /\
     (elapsed < 3 * Minute -> requeue = true /\ Temporary e = true) /\
     (3 * Minute <= elapsed -> requeue = false /\ Temporary e = false)) /\
  (Pod_Phase pendingPod <> PodPending ->
   (run fakeClient (didVersionRollOutSucceed site0) clusterPending).2 =
     [Ev (ListPods "project" (podLabels site0)) (inl [pendingPod])] /\
   Forall (fun e => clockRead e = false)
     [Ev (ListPods "project" (podLabels site0)) (inl [pendingPod])]).
Proof.
  apply (didVersionRollOutSucceed_grace_period (E := refExternals) fakeClient clusterPending
           clusterPending site0 pendingPod None).
  - intros inner. reflexivity.
  - intros inner. reflexivity.
  - reflexivity.
Defined.

(** ** The Initialized condition *)

Lemma ConditionTrue_SetCondition (d : DrupalSite) (c : status.Condition)
    (t : status.ConditionType) :
  ConditionTrue (SetCondition d c).2 t =
  if String.eqb (status.Type_ c) t then String.eqb (status.Status c) ConditionTrue_
  else ConditionTrue d t.
Proof.
  unfold ConditionTrue, SetCondition.
  pose proof (GetCondition_SetCondition (Conditions (Status d)) c t) as H.
  destruct (status.SetCondition (Conditions (Status d)) c) as [ch cs]. simpl in *.
  rewrite H. destruct (String.eqb (status.Type_ c) t); reflexivity.
Qed.

Lemma GetCondition_SetCondition_site (d : DrupalSite) (c : status.Condition)
    (t : status.ConditionType) :
  status.GetCondition (Conditions (Status (SetCondition d c).2)) t =
  if String.eqb (status.Type_ c) t then Some c
  else status.GetCondition (Conditions (Status d)) t.
Proof.
  unfold SetCondition.
  pose proof (GetCondition_SetCondition (Conditions (Status d)) c t) as H.
  destruct (status.SetCondition (Conditions (Status d)) c) as [ch cs]. exact H.
Qed.

Section Initialized.

Context {E : Externals}.

(** C7, as the code has it.  For a site whose Initialized condition is not
    true, the evaluation sets Initialized to "True" exactly when
    isDrupalSiteInstalled answers true (a ready deployment and a
    check-if-installed command that ends without error or stderr output) or
    isCloneJobCompleted answers true, and to "False" otherwise; the install
    job is not consulted. *)
Theorem Reconcile_initialized_spec {W : Type} (h : Handler W) (w : W) (d : DrupalSite)
    (update : bool) :
  ConditionTrue d "Initialized" = false ->
  let installed := run h (isDrupalSiteInstalled d) w in
  let cloned := run h (isCloneJobCompleted d) installed.1.2 in
  let initialized :=
    bool_decide (installed.1.1 = Some true \/ cloned.1.1 = Some true) in
  exists d' u,
    (run h (Reconcile_initialized d update) w).1.1 = Some (d', u) /\
    status.GetCondition (Conditions (Status d')) "Initialized" =
      Some (status.mkCondition "Initialized" (if initialized then "True" else "False") "" "") /\
    Forall (fun e => persisted e = None) (run h (Reconcile_initialized d update) w).2.
Proof.
  intros Hnot installed cloned initialized. subst installed cloned initialized.
  unfold Reconcile_initialized. rewrite Hnot. cbn [negb].
  rewrite run_bind.
  assert (Hinst : exists b, (run h (isDrupalSiteInstalled d) w).1.1 = Some b /\
            Forall (fun e => persisted e = None) (run h (isDrupalSiteInstalled d) w).2).
  { apply (wp_run h _ (fun tr _ => Forall (fun e => persisted e = None) tr)).
    unfold isDrupalSiteInstalled, isDrupalSiteReady, execToServerPodErrOnStderr,
      execToServerPod, getRunningPodForVersion. simpl.
    intros [dep | err]; simpl; [| repeat constructor].
    destruct (negb (ReadyReplicas dep =? 0)); simpl; [| repeat constructor].
    destruct (LabelSelectorAsSelector (podLabels d)); simpl; [repeat constructor |].
    intros [items | err]; simpl; [| repeat constructor].
    destruct (length items =? 0)%nat; simpl; [repeat constructor |].
    destruct (getRunningPodForVersion_loop items (releaseID d)) as [pod [e |]]; simpl;
      [repeat constructor |].
    intros [[sout serr] eerr]. simpl.
    destruct (notNil eerr || negb (String.eqb serr "")); simpl; repeat constructor. }
  destruct Hinst as (b & Hb & Htr1).
  destruct (run h (isDrupalSiteInstalled d) w) as [[oi w1] tr1] eqn:Hrun1. simpl in *.
  subst oi. rewrite run_bind.
  destruct b; simpl.
  - try rewrite bool_decide_true by (left; reflexivity).
    unfold setInitialized.
    destruct (SetCondition d _) as [ch d'] eqn:Hset.
    exists d', (ch || update). simpl. split; [reflexivity |]. split.
    + replace d' with (SetCondition d (status.mkCondition "Initialized" "True" "" "")).2
        by (rewrite Hset; reflexivity).
      rewrite GetCondition_SetCondition_site. reflexivity.
    + rewrite !app_nil_r. exact Htr1.
  - try unfold isCloneJobCompleted; simpl.
    destruct (h _ (GetJob _) w1) as [[job | err] w2] eqn:Hjob; simpl.
    + destruct (negb (Succeeded job =? 0)) eqn:Hs; simpl.
      * try rewrite bool_decide_true by (right; reflexivity).
        unfold setInitialized.
        destruct (SetCondition d _) as [ch d'] eqn:Hset.
        exists d', (ch || update). simpl. split; [reflexivity |]. split.
        -- replace d' with (SetCondition d (status.mkCondition "Initialized" "True" "" "")).2
             by (rewrite Hset; reflexivity).
           rewrite GetCondition_SetCondition_site. reflexivity.
        -- apply Forall_app. split; [exact Htr1 | repeat constructor].
      * try rewrite bool_decide_false by (intros [? | ?]; discriminate).
        unfold setNotInitialized.
        destruct (SetCondition d _) as [ch d'] eqn:Hset.
        exists d', (ch || update). simpl. split; [reflexivity |]. split.
        -- replace d' with (SetCondition d (status.mkCondition "Initialized" "False" "" "")).2
             by (rewrite Hset; reflexivity).
           rewrite GetCondition_SetCondition_site. reflexivity.
        -- apply Forall_app. split; [exact Htr1 | repeat constructor].
    + try rewrite bool_decide_false by (intros [? | ?]; discriminate).
      unfold setNotInitialized.
      destruct (SetCondition d _) as [ch d'] eqn:Hset.
      exists d', (ch || update). simpl. split; [reflexivity |]. split.
      * replace d' with (SetCondition d (status.mkCondition "Initialized" "False" "" "")).2
          by (rewrite Hset; reflexivity).
        rewrite GetCondition_SetCondition_site. reflexivity.
      * apply Forall_app. split; [exact Htr1 | repeat constructor].
Qed.

End Initialized.

Lemma Reconcile_initialized_spec_witness :
  let installed := run fakeClient (isDrupalSiteInstalled site0) clusterInstallJobDone in
  let cloned := run fakeClient (isCloneJobCompleted site0) installed.1.2 in
  let initialized :=
    bool_decide (installed.1.1 = Some true \/ cloned.1.1 = Some true) in
  exists d' u,
    (run fakeClient (Reconcile_initialized site0 false) clusterInstallJobDone).1.1
      = Some (d', u) /\
    status.GetCondition (Conditions (Status d')) "Initialized" =
      Some (status.mkCondition "Initialized" (if initialized then "True" else "False") "" "") /\
    Forall (fun e => persisted e = None)
      (run fakeClient (Reconcile_initialized site0 false) clusterInstallJobDone).2.
Proof.
  apply (Reconcile_initialized_spec (E := refExternals) fakeClient clusterInstallJobDone site0
           false).
  reflexivity.
Defined.

(** C7, as stated, fails: the install job of the site has succeeded, the
    site is not initialized, and the pass persists Initialized = "False". *)
Lemma install_job_not_consulted :
  (run fakeClient (isInstallJobCompleted site0) clusterInstallJobDone).1.1 = Some true /\
  (run fakeClient (Reconcile req0) clusterInstallJobDone).1.2 = clusterInstallJobDone /\
  ConditionTrue site0 "Initialized" = false /\
  exists d',
    List.last (List.map persisted (run fakeClient (Reconcile req0) clusterInstallJobDone).2) None
      = Some d' /\
    status.GetCondition (Conditions (Status d')) "Initialized" =
      Some (status.mkCondition "Initialized" "False" "" "").
Proof.
  split; [reflexivity |]. split; [reflexivity |]. split; [reflexivity |].
  eexists. split; reflexivity.
Qed.

(** ** The code-update workflow *)

Section CodeUpdate.

Context {E : Externals}.

Lemma databaseSecretName_nonempty (d : DrupalSite) :
  (String.length (databaseSecretName d) =? 0)%nat = false.
Proof. reflexivity. Qed.

Lemma run_rollBackCodeUpdate {W : Type} (h : Handler W) (w : W) (d : DrupalSite) :
  run h (rollBackCodeUpdate d) w =
  (Some match (h _ (rollBackCall d) w).1 with
        | inr err => Some (newApplicationError (Some err) (sentinel ErrClientK8s))
        | inl _ => None
        end,
   (h _ (rollBackCall d) w).2,
   [Ev (rollBackCall d) (h _ (rollBackCall d) w).1]).
Proof.
  unfold rollBackCodeUpdate, rollBackCall. rewrite databaseSecretName_nonempty. simpl.
  destruct (h _ _ w) as [[res | err] w']; reflexivity.
Qed.

(** C2, as the code has it.  In a pass that runs the code update (the
    annotation is set, neither CodeUpdateFailed nor DBUpdatesPending is
    true), once the deployment is unchanged and the roll-out check ends in
    a permanent error, the next call converges the serving deployment to
    status.releaseID.failsafe.  If that call succeeds, CodeUpdateFailed is
    set to true with the reason and message of the failure and the status
    is persisted by the next, and last, call of the pass.  If that call
    fails, the workflow returns the roll-back error and sets no
    condition. *)
Theorem updateDrupalVersion_rollback {W : Type} (h : Handler W) (w w1 w2 : W)
    (err0 requeueFlag : option error) (d : DrupalSite) (tr1 tr2 : list Event)
    (requeue : bool) (err : reconcileError) :
  ConditionTrue d "CodeUpdateFailed" = false ->
  ConditionTrue d "DBUpdatesPending" = false ->
  run h (ensureUpdatedDeployment d) w = (Some (Some OperationResultNone, None), w1, tr1) ->
  run h (didVersionRollOutSucceed d) w1 = (Some (requeue, Some err), w2, tr2) ->
  Temporary err = false ->
  let rollBack := h _ (rollBackCall d) w2 in
  let failed := (setConditionStatus d "CodeUpdateFailed" true (Some err) false).2 in
  match rollBack.1 with
  | inl res =>
      run h (updateDrupalVersion d) w =
        (Some (failed, mkVersionUpdate true false None ""), rollBack.2,
         (tr1 ++ tr2 ++ [Ev (rollBackCall d) (inl res)])%list) /\
      status.GetCondition (Conditions (Status failed)) "CodeUpdateFailed" =
        Some (status.mkCondition "CodeUpdateFailed" "True" (errorString (Unwrap err)) (Error err)) /\
      (run h (Reconcile_update err0 d true requeueFlag) w).2 =
        (tr1 ++ tr2 ++ [Ev (rollBackCall d) (inl res);
                        Ev (StatusUpdate failed) (h _ (StatusUpdate failed) rollBack.2).1])%list
  | inr e =>
      run h (updateDrupalVersion d) w =
        (Some (d, mkVersionUpdate false false
                    (Some (newApplicationError (Some e) (sentinel ErrClientK8s)))
                    "Error while rolling back version"),
         rollBack.2, (tr1 ++ tr2 ++ [Ev (rollBackCall d) (inr e)])%list)
  end.
Proof.
  intros Hcode Hpending Hensure Hcheck Hperm rollBack failed. subst rollBack.
  assert (Hupd : run h (updateDrupalVersion d) w =
    match (h _ (rollBackCall d) w2).1 with
    | inl res =>
        (Some (failed, mkVersionUpdate true false None ""), (h _ (rollBackCall d) w2).2,
         (tr1 ++ tr2 ++ [Ev (rollBackCall d) (inl res)])%list)
    | inr e =>
        (Some (d, mkVersionUpdate false false
                    (Some (newApplicationError (Some e) (sentinel ErrClientK8s)))
                    "Error while rolling back version"),
         (h _ (rollBackCall d) w2).2, (tr1 ++ tr2 ++ [Ev (rollBackCall d) (inr e)])%list)
    end).
  { unfold updateDrupalVersion. rewrite run_bind, Hensure. cbv beta iota.
    rewrite run_bind, Hcheck. cbv beta iota. rewrite Hperm.
    rewrite run_bind, run_rollBackCodeUpdate.
    remember (h _ (rollBackCall d) w2) as rb eqn:Hrb. destruct rb as [[res | e] w3]; simpl.
    - subst failed. destruct (setConditionStatus d _ _ _ _) as [ch d']. reflexivity.
    - reflexivity. }
  rewrite Hupd.
  remember (h _ (rollBackCall d) w2) as rb eqn:Hrb. symmetry in Hrb.
  destruct rb as [[res | e] w3]; cbn [fst snd]; [| reflexivity].
  split; [reflexivity |]. split.
  - subst failed. unfold setConditionStatus. simpl.
    rewrite GetCondition_SetCondition_site. reflexivity.
  - unfold Reconcile_update. rewrite Hcode, Hpending. cbn [negb andb].
    rewrite run_bind, run_bind, Hupd. cbn [fst snd]. cbv beta iota. cbn [vu_err vu_update].
    cbn [run]. cbv beta iota.
    unfold updateCRStatusOrFailReconcile. rewrite run_bind, run_call. cbv beta iota.
    destruct ((h _ (StatusUpdate failed) w3).1) as [e |]; [destruct (IsConflict e) |];
      simpl; rewrite <- !app_assoc; reflexivity.
Qed.

End CodeUpdate.

Lemma updateDrupalVersion_rollback_witness :
  let d := siteUpdating in
  let w := clusterRollOutFailed in
  let rollBack := fakeClient _ (rollBackCall d) w in
  exists err tr1 tr2,
  let failed := (setConditionStatus d "CodeUpdateFailed" true (Some err) false).2 in
  match rollBack.1 with
  | inl res =>
      run fakeClient (updateDrupalVersion d) w =
        (Some (failed, mkVersionUpdate true false None ""), rollBack.2,
         (tr1 ++ tr2 ++ [Ev (rollBackCall d) (inl res)])%list) /\
      status.GetCondition (Conditions (Status failed)) "CodeUpdateFailed" =
        Some (status.mkCondition "CodeUpdateFailed" "True" (errorString (Unwrap err)) (Error err)) /\
      (run fakeClient (Reconcile_update None d true None) w).2 =
        (tr1 ++ tr2 ++ [Ev (rollBackCall d) (inl res);
                        Ev (StatusUpdate failed) (fakeClient _ (StatusUpdate failed) rollBack.2).1])%list
  | inr e =>
      run fakeClient (updateDrupalVersion d) w =
        (Some (d, mkVersionUpdate false false
                    (Some (newApplicationError (Some e) (sentinel ErrClientK8s)))
                    "Error while rolling back version"),
         rollBack.2, (tr1 ++ tr2 ++ [Ev (rollBackCall d) (inr e)])%list)
  end.
Proof.
  eexists _, _, _.
  apply (updateDrupalVersion_rollback (E := refExternals) fakeClient clusterRollOutFailed
           clusterRollOutFailed clusterRollOutFailed None None siteUpdating _ _ false);
    reflexivity.
Defined.

(** C2, as stated, fails: the roll-out of the new release has failed for
    good (the pod of the release is in phase Failed), the roll-back call is
    refused by the cluster, and the workflow ends with the deployment still
    on the new release and without the CodeUpdateFailed condition. *)
Lemma rollback_refused_no_condition :
  let out := run fakeClient (updateDrupalVersion siteUpdating) clusterRollBackFails in
  (exists requeue err,
     (run fakeClient (didVersionRollOutSucceed siteUpdating) clusterRollBackFails).1.1
       = Some (requeue, Some err) /\ Temporary err = false) /\
  (exists d' v, out.1.1 = Some (d', v) /\
     ConditionTrue d' "CodeUpdateFailed" = false /\ notNil (vu_err v) = true) /\
  servingRelease out.1.2 siteUpdating = Some release0 /\
  Failsafe (Status_ReleaseID (Status siteUpdating)) = oldRelease /\
  release0 <> oldRelease /\
  omap persisted (run fakeClient (Reconcile req0) clusterRollBackFails).2 = [].
Proof.
  split; [eexists _, _; split; reflexivity |].
  split; [eexists _, _; split; [reflexivity | split; reflexivity] |].
  split; [reflexivity |]. split; [reflexivity |]. split; [discriminate |].
  vm_compute. reflexivity.
Qed.

(** C8, on a failing input.  The new release is rolled out and its pod
    runs, and the cache-reload command writes to stderr each time it is
    run.  The command is run twice; no condition is set and no roll-back is
    issued: the site is persisted as it was fetched; and the pass returns an
    empty Result with a nil error, which is not a requeue. *)
Lemma cacheReload_failure_ends_without_requeue :
  let out := run fakeClient (Reconcile req0) clusterReloadFails in
  omap executed out.2 =
    [(cacheReload, ("", "drush: cache rebuild failed", None));
     (cacheReload, ("", "drush: cache rebuild failed", None))] /\
  omap persisted out.2 = [siteUpdating] /\
  servingRelease out.1.2 siteUpdating = Some release0 /\
  out.1.1 = Some (mkResult false 0, None).
Proof.
  cbv zeta. split; [vm_compute; reflexivity |]. split; [vm_compute; reflexivity |].
  split; vm_compute; reflexivity.
Qed.

(** C4, on a failing input.  The site has [publish: false]; the cluster
    holds its route, its WebDAV route and its OIDC return URI.  A pass of
    ensureResources creates no ingress object and deletes the route, but it
    looks for the WebDAV route under the name of the route and for the
    return URI under an empty name: both stay in the cluster. *)
Lemma ensureResources_leaves_webdav_route :
  let out := run fakeClient (ensureResources sitePrivate) clusterPublished in
  Publish (Spec sitePrivate) = false /\
  omap ingressCall out.2 =
    [("get", KRoute, ("project", "site")); ("delete", KRoute, ("project", "site"));
     ("get", KRoute, ("project", "site")); ("get", KOidcReturnURI, ("", ""))] /\
  (("project", "site") ∉ c_routes out.1.2) /\
  (("project", "webdav-site") ∈ c_routes out.1.2) /\
  (("project", "site") ∈ c_oidcReturnURIs out.1.2).
Proof.
  cbv zeta. split; [reflexivity |]. split; [vm_compute; reflexivity |].
  split; [| split]; apply (bool_decide_unpack _); vm_compute; exact I.
Qed.

(** ** Rules for [safe] *)

Lemma safe_ret {A : Type} (P : Event -> Prop) (R : A -> Prop) (a : A) :
  R a -> safe P R (Ret a).
Proof. intros H. split; [constructor | exact H]. Qed.

Lemma safe_bind {A B : Type} (P : Event -> Prop) (R1 : A -> Prop) (R : B -> Prop)
    (m : Prog A) (f : A -> Prog B) :
  safe P R1 m -> (forall a, R1 a -> safe P R (f a)) -> safe P R (bind m f).
Proof.
  intros Hm Hf. apply wp_bind. eapply wp_mono; [| exact Hm].
  intros tr1 a [Htr1 Ha]. eapply wp_mono; [| exact (Hf a Ha)].
  intros tr2 b [Htr2 Hb]. split; [apply Forall_app; auto | exact Hb].
Qed.

Lemma safe_call {R : Type} (P : Event -> Prop) (Q : R -> Prop) (c : Call R) :
  (forall r, P (Ev c r) /\ Q r) -> safe P Q (call c).
Proof.
  intros H. apply wp_call. intros r. destruct (H r). split; [repeat constructor |]; auto.
Qed.

Lemma safe_mono {A : Type} (P P' : Event -> Prop) (R R' : A -> Prop) (p : Prog A) :
  (forall e, P e -> P' e) -> (forall a, R a -> R' a) -> safe P R p -> safe P' R' p.
Proof.
  intros HP HR. apply wp_mono. intros tr a [Htr Ha]. split; [| auto].
  eapply Forall_impl; eauto.
Qed.

Lemma safe_run {W A : Type} (h : Handler W) (P : Event -> Prop) (R : A -> Prop)
    (p : Prog A) (w : W) :
  safe P R p -> exists a, (run h p w).1.1 = Some a /\ Forall P (run h p w).2 /\ R a.
Proof.
  intros H. destruct (wp_run h p (fun tr a => Forall P tr /\ R a) w H) as (a & Ha & Htr & HR).
  exists a. auto.
Qed.

(** ** Frames of the status helpers *)

Lemma frame_refl (d : DrupalSite) : frame d d.
Proof. repeat split. Qed.

Lemma frame_trans (d1 d2 d3 : DrupalSite) : frame d1 d2 -> frame d2 d3 -> frame d1 d3.
Proof. unfold frame. intros (? & ? & ? & ?) (? & ? & ? & ?). repeat split; congruence. Qed.

Lemma frame_SetCondition (d : DrupalSite) (c : status.Condition) : frame d (SetCondition d c).2.
Proof.
  unfold SetCondition. destruct (status.SetCondition _ _). repeat split.
Qed.

Lemma frame_RemoveCondition (d : DrupalSite) (t : status.ConditionType) :
  frame d (RemoveCondition d t).2.
Proof.
  unfold RemoveCondition. destruct (status.RemoveCondition _ _). repeat split.
Qed.

Lemma set_Conditions_id (d : DrupalSite) : set_Conditions d (Conditions (Status d)) = d.
Proof. destruct d as [? ? ? ? ? ? ? []]. reflexivity. Qed.

Lemma SetCondition_false (d : DrupalSite) (c : status.Condition) :
  (SetCondition d c).1 = false -> (SetCondition d c).2 = d.
Proof.
  unfold SetCondition.
  pose proof (SetCondition_unchanged (Conditions (Status d)) c) as H.
  destruct (status.SetCondition _ _) as [ch cs]. simpl in *.
  intros Hch. rewrite (H Hch). apply set_Conditions_id.
Qed.

Lemma SetCondition_false_get (d : DrupalSite) (c : status.Condition) :
  (SetCondition d c).1 = false ->
  status.GetCondition (Conditions (Status d)) (status.Type_ c) = Some c.
Proof.
  unfold SetCondition.
  pose proof (SetCondition_unchanged_get (Conditions (Status d)) c) as H.
  destruct (status.SetCondition _ _) as [ch cs]. simpl in *. exact H.
Qed.

Lemma RemoveCondition_false (d : DrupalSite) (t : status.ConditionType) :
  (RemoveCondition d t).1 = false -> (RemoveCondition d t).2 = d.
Proof.
  unfold RemoveCondition.
  pose proof (RemoveCondition_unchanged (Conditions (Status d)) t) as H.
  destruct (status.RemoveCondition _ _) as [ch cs]. simpl in *.
  intros Hch. rewrite (H Hch). apply set_Conditions_id.
Qed.

Lemma ConditionTrue_RemoveCondition_ne (d : DrupalSite) (t t' : status.ConditionType) :
  t <> t' -> ConditionTrue (RemoveCondition d t').2 t = ConditionTrue d t.
Proof.
  intros Hne. unfold ConditionTrue, RemoveCondition.
  pose proof (GetCondition_RemoveCondition_ne (Conditions (Status d)) t t' Hne) as H.
  destruct (status.RemoveCondition _ _) as [ch cs]. simpl in *. rewrite H. reflexivity.
Qed.

Lemma frame_setUpdateInProgress (d : DrupalSite) : frame d (setUpdateInProgress d).2.
Proof. rewrite setUpdateInProgress_eq. repeat split. Qed.

Lemma frame_unsetUpdateInProgress (d : DrupalSite) : frame d (unsetUpdateInProgress d).2.
Proof. rewrite unsetUpdateInProgress_eq. repeat split. Qed.

Lemma unsetUpdateInProgress_false (d : DrupalSite) :
  (unsetUpdateInProgress d).1 = false -> (unsetUpdateInProgress d).2 = d.
Proof.
  rewrite unsetUpdateInProgress_eq. simpl.
  destruct (Annotations d !! "updateInProgress") eqn:H; [discriminate |].
  intros _. rewrite delete_id by exact H. apply set_Annotations_id.
Qed.

Lemma Conditions_unsetUpdateInProgress (d : DrupalSite) :
  Status (unsetUpdateInProgress d).2 = Status d.
Proof. rewrite unsetUpdateInProgress_eq. reflexivity. Qed.

Lemma Status_setUpdateInProgress (d : DrupalSite) :
  Status (setUpdateInProgress d).2 = Status d.
Proof. rewrite setUpdateInProgress_eq. reflexivity. Qed.

Lemma safe_vis {A R : Type} (P : Event -> Prop) (Q : A -> Prop) (c : Call R)
    (k : R -> Prog A) :
  (forall r, P (Ev c r)) -> (forall r, safe P Q (k r)) -> safe P Q (Vis c k).
Proof.
  intros HP Hk r. eapply wp_mono; [| exact (Hk r)].
  intros tr a [Htr Ha]. split; [constructor; auto | exact Ha].
Qed.

Lemma wp_bind_assoc {A B C : Type} (m : Prog A) (f : A -> Prog B) (g : B -> Prog C)
    (Q : list Event -> C -> Prop) :
  wp (bind m (fun x => bind (f x) g)) Q -> wp (bind (bind m f) g) Q.
Proof.
  revert Q. induction m as [a | | R c k IH]; simpl; intros Q H.
  - exact H.
  - exact H.
  - intros r. apply IH. apply H.
Qed.

Lemma safe_bind_assoc {A B C : Type} (P : Event -> Prop) (R : C -> Prop) (m : Prog A)
    (f : A -> Prog B) (g : B -> Prog C) :
  safe P R (bind m (fun x => bind (f x) g)) -> safe P R (bind (bind m f) g).
Proof. apply wp_bind_assoc. Qed.

(** ** Rules for [psafe] *)

Lemma psafe_ret {A : Type} (P : Event -> Prop) (R : A -> Prop) (a : A) :
  R a -> psafe P R (Ret a).
Proof. intros H. split; [constructor | exact H]. Qed.

Lemma psafe_panic {A : Type} (P : Event -> Prop) (R : A -> Prop) : psafe P R (@Panic A).
Proof. constructor. Qed.

Lemma psafe_bind {A B : Type} (P : Event -> Prop) (R1 : A -> Prop) (R : B -> Prop)
    (m : Prog A) (f : A -> Prog B) :
  psafe P R1 m -> (forall a, R1 a -> psafe P R (f a)) -> psafe P R (bind m f).
Proof.
  intros Hm Hf. apply wpp_bind. eapply wpp_mono; [| | exact Hm]; [| auto].
  intros tr1 a [Htr1 Ha]. eapply wpp_mono; [| | exact (Hf a Ha)].
  - intros tr2 b [Htr2 Hb]. split; [apply Forall_app; auto | exact Hb].
  - intros tr2 Htr2. apply Forall_app; auto.
Qed.

Lemma psafe_vis {A R : Type} (P : Event -> Prop) (Q : A -> Prop) (c : Call R)
    (k : R -> Prog A) :
  (forall r, P (Ev c r)) -> (forall r, psafe P Q (k r)) -> psafe P Q (Vis c k).
Proof.
  intros HP Hk r. eapply wpp_mono; [| | exact (Hk r)].
  - intros tr a [Htr Ha]. split; [constructor; auto | exact Ha].
  - intros tr Htr. constructor; auto.
Qed.

Lemma psafe_mono {A : Type} (P P' : Event -> Prop) (R R' : A -> Prop) (p : Prog A) :
  (forall e, P e -> P' e) -> (forall a, R a -> R' a) -> psafe P R p -> psafe P' R' p.
Proof.
  intros HP HR. apply wpp_mono.
  - intros tr a [Htr Ha]. split; [| auto]. eapply Forall_impl; eauto.
  - intros tr Htr. eapply Forall_impl; eauto.
Qed.

Lemma psafe_bind_assoc {A B C : Type} (P : Event -> Prop) (R : C -> Prop) (m : Prog A)
    (f : A -> Prog B) (g : B -> Prog C) :
  psafe P R (bind m (fun x => bind (f x) g)) -> psafe P R (bind (bind m f) g).
Proof. apply wpp_bind_assoc. Qed.

Lemma safe_psafe {A : Type} (P : Event -> Prop) (R : A -> Prop) (p : Prog A) :
  safe P R p -> psafe P R p.
Proof. apply wp_wpp. Qed.

Lemma psafe_run {W A : Type} (h : Handler W) (P : Event -> Prop) (R : A -> Prop)
    (p : Prog A) (w : W) :
  psafe P R p ->
  Forall P (run h p w).2 /\ forall a, (run h p w).1.1 = Some a -> R a.
Proof.
  intros H. pose proof (wpp_run h p _ _ w H) as Hrun.
  destruct (run h p w).1.1 as [a |].
  - destruct Hrun as [Htr HR]. split; [exact Htr |]. intros a' Ha. inversion Ha; subst. exact HR.
  - split; [exact Hrun | discriminate].
Qed.

Create HintDb quiet discriminated.

(** One step of symbolic execution under [safe]: a return, a call, a
    sequence whose first part has a lemma in the hint database, or a case
    analysis of the program. *)
Ltac safe_step :=
  lazymatch goal with
  | |- safe _ _ (Ret _) => apply safe_ret
  | |- safe _ _ (Vis _ _) => apply safe_vis; [intros ? | intros ?]
  | |- safe _ _ (bind (bind _ _) _) => apply safe_bind_assoc
  | |- safe _ _ (bind (match ?x with _ => _ end) _) =>
      eapply safe_bind with (R1 := fun _ => True); [destruct x eqn:? | intros ? _]
  | |- safe _ _ (bind _ _) => eapply safe_bind; [solve [eauto with quiet] | intros ? ?]
  | |- safe _ _ (match ?x with _ => _ end) => destruct x eqn:?
  | |- safe _ _ (let (_, _) := ?x in _) => destruct x eqn:?
  | |- safe _ _ _ => solve [eauto with quiet]
  end.

Ltac safe_go := cbn [bind call]; repeat (safe_step; cbn [bind call]).

(** The same under [psafe]; a part that does not panic is taken from its
    lemma for [safe]. *)
Ltac psafe_step :=
  lazymatch goal with
  | |- psafe _ _ (Ret _) => apply psafe_ret
  | |- psafe _ _ Panic => apply psafe_panic
  | |- psafe _ _ (call _) => unfold call
  | |- psafe _ _ (Vis _ _) => apply psafe_vis; [intros ? | intros ?]
  | |- psafe _ _ (bind (bind _ _) _) => apply psafe_bind_assoc
  | |- psafe _ _ (bind (match ?x with _ => _ end) _) =>
      eapply psafe_bind with (R1 := fun _ => True); [destruct x eqn:? | intros ? _]
  | |- psafe _ _ (bind (if ?x then _ else _) _) =>
      eapply psafe_bind with (R1 := fun _ => True); [destruct x eqn:? | intros ? _]
  | |- psafe _ _ (bind _ _) =>
      eapply psafe_bind;
      [first [solve [eauto with quiet] | apply safe_psafe; solve [eauto with quiet]]
      | intros ? ?]
  | |- psafe _ _ (match ?x with _ => _ end) => destruct x eqn:?
  | |- psafe _ _ (let (_, _) := ?x in _) => destruct x eqn:?
  | |- psafe _ _ _ =>
      first [solve [eauto with quiet] | apply safe_psafe; solve [eauto with quiet]]
  end.

Ltac psafe_go := cbn [bind call]; repeat (psafe_step; cbn [bind call]).

(** ** Steps that neither persist the site nor run a command *)

Section Quiet.

Context {E : Externals}.

Variable P : Event -> Prop.
Variable allowed : list string -> Prop.

Hypothesis Pquiet : forall e, persisted e = None -> executed e = None -> P e.
Hypothesis Pexec :
  forall containerName podName namespace command r,
    allowed command -> P (Ev (execToPodThroughAPI containerName podName namespace command) r).

Ltac quiet := try (apply Pquiet; reflexivity); try exact I; auto.

Lemma createOrUpdate_quiet k key f : safe P (fun _ => True) (createOrUpdate k key f).
Proof. unfold createOrUpdate. safe_go; quiet. Qed.

Lemma ensureNoObject_quiet k key : safe P (fun _ => True) (ensureNoObject k key).
Proof. unfold ensureNoObject. safe_go; quiet. Qed.

Lemma isDBODProvisioned_quiet d : safe P (fun _ => True) (isDBODProvisioned d).
Proof. unfold isDBODProvisioned. safe_go; quiet. Qed.

Lemma isDrupalSiteReady_quiet d : safe P (fun _ => True) (isDrupalSiteReady d).
Proof. unfold isDrupalSiteReady. safe_go; quiet. Qed.

Lemma isCloneJobCompleted_quiet d : safe P (fun _ => True) (isCloneJobCompleted d).
Proof. unfold isCloneJobCompleted. safe_go; quiet. Qed.

Hint Resolve createOrUpdate_quiet ensureNoObject_quiet isDBODProvisioned_quiet
  isDrupalSiteReady_quiet isCloneJobCompleted_quiet : quiet.

Lemma createOrUpdateWith_quiet k key f mutate :
  (forall isZero, psafe P (fun _ => True) (mutate isZero)) ->
  psafe P (fun _ => True) (createOrUpdateWith k key f mutate).
Proof. intros H. unfold createOrUpdateWith. psafe_go; quiet. Qed.

Lemma updateConfigMapForPHPFPM_quiet key isZero d :
  safe P (fun _ => True) (callback.updateConfigMapForPHPFPM key isZero d).
Proof. unfold callback.updateConfigMapForPHPFPM. cbv zeta. safe_go; quiet. Qed.

Lemma updateConfigMapForNginx_quiet key isZero d :
  safe P (fun _ => True) (callback.updateConfigMapForNginx key isZero d).
Proof. unfold callback.updateConfigMapForNginx. cbv zeta. safe_go; quiet. Qed.

Lemma updateConfigMapForSiteSettings_quiet key isZero d :
  safe P (fun _ => True) (callback.updateConfigMapForSiteSettings key isZero d).
Proof. unfold callback.updateConfigMapForSiteSettings. cbv zeta. safe_go; quiet. Qed.

Lemma persistentVolumeClaimForDrupalSite_quiet isZero d :
  psafe P (fun _ => True) (callback.persistentVolumeClaimForDrupalSite isZero d).
Proof. unfold callback.persistentVolumeClaimForDrupalSite. psafe_go; quiet. Qed.

Hint Resolve updateConfigMapForPHPFPM_quiet updateConfigMapForNginx_quiet
  updateConfigMapForSiteSettings_quiet persistentVolumeClaimForDrupalSite_quiet : quiet.

Lemma ensureResourceX_quiet d resType : psafe P (fun _ => True) (ensureResourceX d resType).
Proof.
  unfold ensureResourceX. cbv zeta.
  repeat (match goal with
          | |- psafe _ _ (if String.eqb resType ?s then _ else _) =>
              destruct (String.eqb resType s)
          end;
          [solve [psafe_go; quiet
                 | apply createOrUpdateWith_quiet; intros isZero;
                   first [solve [eauto with quiet] | apply safe_psafe; solve [eauto with quiet]]]
          |]).
  psafe_go; quiet.
Qed.

Lemma appendErr_quiet errs step msg :
  safe P (fun _ => True) step -> safe P (fun _ => True) (appendErr errs step msg).
Proof. intros H. unfold appendErr. safe_go; quiet. Qed.

Lemma appendErr_pquiet errs step msg :
  psafe P (fun _ => True) step -> psafe P (fun _ => True) (appendErr errs step msg).
Proof. intros H. unfold appendErr. psafe_go; quiet. Qed.

Hint Resolve ensureResourceX_quiet appendErr_quiet appendErr_pquiet : quiet.

Lemma ensureResources_quiet drp : psafe P (fun _ => True) (ensureResources drp).
Proof.
  unfold ensureResources, ensureNoRoute, ensureNoWebDAVRoute, ensureNoReturnURI.
  psafe_go; quiet; eauto with quiet.
Qed.

Lemma getPodForVersion_quiet d release : safe P (fun _ => True) (getPodForVersion d release).
Proof. unfold getPodForVersion. safe_go; quiet. Qed.

Lemma getRunningPodForVersion_quiet d release :
  safe P (fun _ => True) (getRunningPodForVersion d release).
Proof. unfold getRunningPodForVersion. safe_go; quiet. Qed.

Hint Resolve getPodForVersion_quiet getRunningPodForVersion_quiet : quiet.

Lemma execToServerPodErrOnStderr_safe d containerName command :
  allowed command ->
  safe P (fun _ => True) (execToServerPodErrOnStderr d containerName command).
Proof.
  intros Hc. unfold execToServerPodErrOnStderr, execToServerPod.
  eapply safe_bind with (R1 := fun _ => True).
  - eapply safe_bind; [apply getRunningPodForVersion_quiet |].
    intros [pod [err |]] _; [apply safe_ret; exact I |].
    apply safe_call. intros r. split; [apply Pexec; exact Hc | exact I].
  - intros [[sout serr] err] _. destruct (notNil err || negb (String.eqb serr ""));
      apply safe_ret; exact I.
Qed.

Lemma checkNewBackups_quiet d : safe P (fun _ => True) (checkNewBackups d).
Proof. unfold checkNewBackups. safe_go; quiet. Qed.

Lemma updateNeeded_quiet d : safe P (fun _ => True) (updateNeeded d).
Proof. unfold updateNeeded. safe_go; quiet. Qed.

Lemma didVersionRollOutSucceed_quiet d : safe P (fun _ => True) (didVersionRollOutSucceed d).
Proof. unfold didVersionRollOutSucceed. safe_go; quiet. Qed.

Lemma ensureUpdatedDeployment_quiet d : safe P (fun _ => True) (ensureUpdatedDeployment d).
Proof. unfold ensureUpdatedDeployment. safe_go; quiet. Qed.

Lemma rollBackCodeUpdate_quiet d : safe P (fun _ => True) (rollBackCodeUpdate d).
Proof. unfold rollBackCodeUpdate. safe_go; quiet. Qed.

Lemma generateWebDAVpassword_quiet : safe P (fun _ => True) generateWebDAVpassword.
Proof. unfold generateWebDAVpassword. safe_go; quiet. Qed.

End Quiet.

#[export] Hint Resolve createOrUpdate_quiet ensureNoObject_quiet isDBODProvisioned_quiet
  isDrupalSiteReady_quiet isCloneJobCompleted_quiet ensureResourceX_quiet appendErr_quiet
  appendErr_pquiet ensureResources_quiet getPodForVersion_quiet getRunningPodForVersion_quiet
  execToServerPodErrOnStderr_safe checkNewBackups_quiet updateNeeded_quiet
  didVersionRollOutSucceed_quiet ensureUpdatedDeployment_quiet rollBackCodeUpdate_quiet
  generateWebDAVpassword_quiet : quiet.

(** ** The workflows keep the release identifiers of the site *)

Lemma updateDBSchema_done_frame (d : DrupalSite) :
  frame d (updateDBSchema_done d).1 /\
  ((updateDBSchema_done d).2 = false -> (updateDBSchema_done d).1 = d).
Proof.
  unfold updateDBSchema_done.
  destruct (ConditionTrue d "DBUpdatesPending"); simpl; [| split; [apply frame_refl | auto]].
  pose proof (frame_RemoveCondition d "DBUpdatesPending") as H1.
  destruct (RemoveCondition d "DBUpdatesPending") as [r d1]. simpl in *.
  split; [| discriminate].
  destruct (ConditionTrue d1 "DBUpdatesFailed"); [| exact H1].
  eapply frame_trans; [exact H1 | apply frame_RemoveCondition].
Qed.

Lemma frame_setConditionStatus {E : Externals} (d : DrupalSite) t flag err unknown :
  frame d (setConditionStatus d t flag err unknown).2.
Proof. unfold setConditionStatus. apply frame_SetCondition. Qed.

Section Workflows.

Context {E : Externals}.

Variable P : Event -> Prop.
Variable allowed : list string -> Prop.

Hypothesis Pquiet : forall e, persisted e = None -> executed e = None -> P e.
Hypothesis Pexec :
  forall containerName podName namespace command r,
    allowed command -> P (Ev (execToPodThroughAPI containerName podName namespace command) r).

Ltac quiet := try (apply Pquiet; reflexivity); try exact I; auto.

Lemma exec_safe d containerName command :
  allowed command ->
  safe P (fun _ => True) (execToServerPodErrOnStderr d containerName command).
Proof.
  intros Hc. apply (execToServerPodErrOnStderr_safe P allowed); auto.
Qed.

Hint Resolve exec_safe : quiet.

Lemma isDrupalSiteInstalled_safe d :
  allowed checkIfSiteIsInstalled -> safe P (fun _ => True) (isDrupalSiteInstalled d).
Proof. intros Hc. unfold isDrupalSiteInstalled. safe_go; quiet. Qed.

Lemma rollBackDBUpdate_safe d f :
  allowed (restoreBackup f) -> safe P (fun _ => True) (rollBackDBUpdate d f).
Proof. intros Hc. unfold rollBackDBUpdate. safe_go; quiet. Qed.

Hint Resolve isDrupalSiteInstalled_safe rollBackDBUpdate_safe : quiet.

Lemma updateDrupalVersion_reload_safe d :
  allowed cacheReload ->
  safe P (fun r => frame d r.1 /\ (vu_update r.2 = false -> r.1 = d))
    (updateDrupalVersion_reload d).
Proof.
  intros Hc. unfold updateDrupalVersion_reload.
  eapply safe_bind; [apply exec_safe; exact Hc |]. intros [sout stderr] _.
  eapply safe_bind with (R1 := fun _ => True).
  { destruct (notNil stderr); [| apply safe_ret; exact I].
    eapply safe_bind; [apply exec_safe; exact Hc |]. intros [sout' stderr'] _.
    destruct (notNil stderr'); apply safe_ret; exact I. }
  intros [returned | sout'] _.
  - apply safe_ret. split; [apply frame_refl | reflexivity].
  - destruct (negb (String.eqb sout' "")).
    + eapply safe_bind; [eapply rollBackCodeUpdate_quiet; eauto |]. intros _ _.
      pose proof (frame_setConditionStatus d "CodeUpdateFailed" true
                    (Some (newApplicationError None (errorsNew "Error clearing cache"))) false).
      destruct (setConditionStatus _ _ _ _ _) as [ch d']. apply safe_ret.
      split; [assumption | discriminate].
    + destruct (ConditionTrue d "CodeUpdateFailed").
      * pose proof (frame_RemoveCondition d "CodeUpdateFailed").
        destruct (RemoveCondition _ _) as [ch d']. apply safe_ret.
        split; [assumption | discriminate].
      * apply safe_ret. split; [apply frame_refl | reflexivity].
Qed.

Lemma updateDrupalVersion_safe d :
  allowed cacheReload ->
  safe P (fun r => frame d r.1 /\ (vu_update r.2 = false -> r.1 = d)) (updateDrupalVersion d).
Proof.
  intros Hc. unfold updateDrupalVersion.
  eapply safe_bind; [eapply ensureUpdatedDeployment_quiet; eauto |].
  intros [result [err |]] _.
  { apply safe_ret. split; [apply frame_refl | reflexivity]. }
  destruct result as [[| |] |]; try (apply safe_ret; split; [apply frame_refl | reflexivity]).
  eapply safe_bind; [eapply didVersionRollOutSucceed_quiet; eauto |].
  intros [requeue [err |]] _.
  - destruct (Temporary err).
    + apply safe_ret. split; [apply frame_refl | reflexivity].
    + cbv zeta. eapply safe_bind; [eapply rollBackCodeUpdate_quiet; eauto |].
      intros [rollBackErr |] _.
      * apply safe_ret. split; [apply frame_refl | reflexivity].
      * pose proof (frame_setConditionStatus d "CodeUpdateFailed" true (Some err) false).
        destruct (setConditionStatus _ _ _ _ _) as [ch d']. apply safe_ret.
        split; [assumption | discriminate].
  - destruct requeue.
    + apply safe_ret. split; [apply frame_refl | reflexivity].
    + apply updateDrupalVersion_reload_safe. exact Hc.
Qed.

Lemma updateDBSchema_safe d :
  allowed checkUpdbStatus ->
  allowed (takeBackup "db_backup_update_rollback.sql") ->
  allowed runUpDBCommand ->
  allowed (restoreBackup "db_backup_update_rollback.sql") ->
  safe P (fun r => frame d r.1 /\ (r.2 = false -> r.1 = d)) (updateDBSchema d).
Proof.
  intros Hc1 Hc2 Hc3 Hc4. unfold updateDBSchema.
  eapply safe_bind; [apply exec_safe; exact Hc1 |]. intros [sout err] _.
  destruct (notNil err).
  { apply safe_ret. split; [apply frame_refl | discriminate]. }
  destruct (negb (String.eqb sout "")).
  2: { apply safe_ret. apply updateDBSchema_done_frame. }
  unfold setDBUpdatesPending.
  pose proof (frame_SetCondition d (status.mkCondition "DBUpdatesPending" "True" "" "")) as Hf.
  pose proof (SetCondition_false d (status.mkCondition "DBUpdatesPending" "True" "" "")) as Hs.
  destruct (SetCondition d _) as [changed d1]. simpl in *.
  destruct changed.
  { apply safe_ret. split; [exact Hf | discriminate]. }
  rewrite (Hs eq_refl) in *. clear Hs Hf.
  eapply safe_bind; [apply exec_safe; exact Hc2 |]. intros [sout1 [err1 |]] _; simpl.
  { pose proof (frame_setConditionStatus d "DBUpdatesFailed" true
                  (Some (newApplicationError (Some err1) (sentinel ErrPodExec))) false).
    destruct (setConditionStatus _ _ _ _ _) as [ch d']. apply safe_ret.
    split; [assumption | discriminate]. }
  eapply safe_bind; [apply exec_safe; exact Hc3 |]. intros [sout2 [err2 |]] _; simpl.
  2: { apply safe_ret. apply updateDBSchema_done_frame. }
  eapply safe_bind; [apply rollBackDBUpdate_safe; exact Hc4 |]. intros [err3 |] _.
  - pose proof (frame_setConditionStatus d "DBUpdatesFailed" true
                  (Some (newApplicationError (Some (asError err3)) (sentinel ErrDBUpdateFailed)))
                  false).
    destruct (setConditionStatus _ _ _ _ _) as [ch d']. apply safe_ret.
    split; [assumption | discriminate].
  - pose proof (frame_setConditionStatus d "DBUpdatesFailed" true
                  (Some (newApplicationError None (sentinel ErrDBUpdateFailed))) false).
    destruct (setConditionStatus _ _ _ _ _) as [ch d']. apply safe_ret.
    split; [assumption | discriminate].
Qed.

(** ensureSpecFinalizer completes the spec and the metadata; it leaves the
    status and the version alone. *)
Lemma ensureSpecFinalizer_safe d :
  safe P
    (fun r => Status r.1.1 = Status d /\ releaseID r.1.1 = releaseID d
              /\ Annotations r.1.1 = Annotations d)
    (ensureSpecFinalizer d).
Proof.
  unfold ensureSpecFinalizer.
  set (d1 := if negb (ContainsFinalizer d finalizerStr)
             then (AddFinalizer d finalizerStr, true) else (d, false)).
  assert (H1 : Status d1.1 = Status d /\ releaseID d1.1 = releaseID d
               /\ Annotations d1.1 = Annotations d).
  { subst d1. destruct (negb _); simpl; [| auto].
    unfold AddFinalizer. destruct (ContainsFinalizer d finalizerStr); auto. }
  destruct d1 as [d1 update]. simpl in H1. destruct H1 as (Hs1 & Hr1 & Ha1).
  set (d2 := if String.eqb (SiteURL (Spec d1)) "" then _ else d1).
  assert (H2 : Status d2 = Status d /\ releaseID d2 = releaseID d
               /\ Annotations d2 = Annotations d).
  { subst d2. destruct (String.eqb _ _); [destruct (MainSite _) |]; auto. }
  clearbody d2. clear Hs1 Hr1 Ha1 d1.
  eapply safe_bind with
    (R1 := fun d3 => Status d3 = Status d /\ releaseID d3 = releaseID d
                     /\ Annotations d3 = Annotations d).
  { destruct (String.eqb _ _); [| apply safe_ret; exact H2].
    eapply safe_bind; [eapply generateWebDAVpassword_quiet; eauto |].
    intros pw _. apply safe_ret. exact H2. }
  intros d3 H3. cbv zeta.
  set (d4 := if MainSite (Spec d3) && negb _ then _ else d3).
  assert (H4 : Status d4 = Status d /\ releaseID d4 = releaseID d
               /\ Annotations d4 = Annotations d).
  { subst d4. destruct (_ && _); auto. }
  clearbody d4.
  set (d5 := if negb (MainSite (Spec d4)) && _ then _ else d4).
  assert (H5 : Status d5 = Status d /\ releaseID d5 = releaseID d
               /\ Annotations d5 = Annotations d).
  { subst d5. destruct (_ && _); auto. }
  clearbody d5. clear H3 H4 H2.
  destruct (String.eqb _ _); [| apply safe_ret; exact H5].
  destruct (LabelSelectorAsSelector _); [apply safe_ret; exact H5 |].
  cbn [bind call]. apply safe_vis; [intros r; quiet |].
  intros [[| item0 items] | err]; [| destruct (_ && _) |]; apply safe_ret; exact H5.
Qed.

End Workflows.

(** ** The failsafe release *)

Lemma settled_frame (d0 d d' : DrupalSite) : settled d0 d -> frame d d' -> settled d0 d'.
Proof.
  unfold settled, keepsFailsafe, frame, releaseID.
  intros (H1 & H2 & H3 & H4) (F1 & F2 & _). rewrite F1, F2. auto.
Qed.

Lemma keepsFailsafe_frame (d0 d d' : DrupalSite) :
  keepsFailsafe d0 d -> frame d d' -> keepsFailsafe d0 d'.
Proof. unfold keepsFailsafe, frame. intros H (F1 & _). rewrite F1. exact H. Qed.

Section Failsafe.

Context {E : Externals}.

Variable d0 : DrupalSite.

Local Abbreviation P := (persistsBy (failsafeRule d0)).

Lemma failsafe_quiet e : persisted e = None -> executed e = None -> P e.
Proof. intros H _. unfold persistsBy. rewrite H. exact I. Qed.

Lemma failsafe_exec containerName podName namespace command r :
  (fun _ : list string => True) command ->
  P (Ev (execToPodThroughAPI containerName podName namespace command) r).
Proof. intros _. exact I. Qed.

Local Abbreviation anyCommand := (fun _ : list string => True).

Hint Resolve failsafe_quiet failsafe_exec : quiet.

Lemma updateCRStatus_failsafe d :
  failsafeRule d0 d -> safe P (fun _ => True) (updateCRStatusOrFailReconcile d).
Proof.
  intros H. unfold updateCRStatusOrFailReconcile. cbn [bind call].
  apply safe_vis; [intros r; exact H |].
  intros [err |]; [destruct (IsConflict err) |]; apply safe_ret; exact I.
Qed.

Lemma updateCR_failsafe d :
  failsafeRule d0 d -> safe P (fun _ => True) (updateCRorFailReconcile d).
Proof.
  intros H. unfold updateCRorFailReconcile. cbn [bind call].
  apply safe_vis; [intros r; exact H |].
  intros [err |]; [destruct (IsConflict err) |]; apply safe_ret; exact I.
Qed.

Lemma keeps_rule d : keepsFailsafe d0 d -> failsafeRule d0 d.
Proof. intros H. left. exact H. Qed.

Lemma handleTransientErr_failsafe err d transientErr fmt st :
  keepsFailsafe d0 d -> safe P (fun _ => True) (handleTransientErr err d transientErr fmt st).
Proof.
  intros H. unfold handleTransientErr. cbv zeta.
  eapply safe_bind with (R1 := fun _ => True).
  - apply updateCRStatus_failsafe, keeps_rule.
    destruct (String.eqb st "Ready"); [| exact H].
    eapply keepsFailsafe_frame; [exact H | apply frame_setConditionStatus].
  - intros _ _. destruct (Temporary transientErr); apply safe_ret; exact I.
Qed.

Lemma Reconcile_backups_failsafe d requeueFlag :
  keepsFailsafe d0 d -> safe P (fun _ => True) (Reconcile_backups d requeueFlag).
Proof.
  intros H. unfold Reconcile_backups.
  eapply safe_bind; [eapply checkNewBackups_quiet; eauto with quiet |].
  intros [backupList [err |]] _; [apply safe_ret; exact I |].
  destruct (negb _); [| apply safe_ret; exact I].
  destruct (backupListUpdateNeeded_iff backupList (AvailableBackups (Status d)))
    as (b & Hb & _).
  rewrite Hb. destruct b; [| apply safe_ret; exact I].
  apply updateCRStatus_failsafe, keeps_rule. exact H.
Qed.

Lemma Reconcile_failsafe_failsafe d requeueFlag :
  settled d0 d -> safe P (fun _ => True) (Reconcile_failsafe d requeueFlag).
Proof.
  intros (Hk & Hc & Hr & Hrel). unfold Reconcile_failsafe.
  eapply safe_bind; [eapply isDBODProvisioned_quiet; eauto with quiet |].
  intros dbodReady _. destruct dbodReady; cbn [negb].
  - destruct (negb (String.eqb _ _) && _ && _) eqn:Hguard.
    + apply andb_true_iff in Hguard as [Hguard Hcode].
      apply andb_true_iff in Hguard as [Hne Hdb].
      apply negb_true_iff in Hne, Hcode, Hdb. apply String.eqb_neq in Hne.
      cbv zeta. apply updateCRStatus_failsafe. right.
      unfold keepsFailsafe in Hk. simpl. rewrite Hrel.
      repeat split; try congruence; [exact Hcode | exact Hdb].
    + apply Reconcile_backups_failsafe. exact Hk.
  - pose proof (frame_setConditionStatus d "Ready" false
                  (Some (newApplicationError None (sentinel ErrDBOD))) false) as Hf.
    unfold setNotReady.
    destruct (setConditionStatus _ _ _ _ _) as [update d']. simpl in Hf.
    eapply safe_bind with (R1 := fun _ => True); [| intros _ _; apply safe_ret; exact I].
    destruct update; [| apply safe_ret; exact I].
    apply updateCRStatus_failsafe, keeps_rule.
    eapply keepsFailsafe_frame; eauto.
Qed.

Lemma Reconcile_update_failsafe err d isUpdateAnnotationSet requeueFlag :
  settled d0 d ->
  safe P (fun _ => True) (Reconcile_update err d isUpdateAnnotationSet requeueFlag).
Proof.
  intros Hs. unfold Reconcile_update.
  eapply safe_bind with
    (R1 := fun r => match r with
                    | inl returned => safe P (fun _ => True) returned
                    | inr d' => settled d0 d'
                    end).
  { destruct (_ && _ && _); [| apply safe_ret; exact Hs].
    eapply safe_bind; [eapply (updateDrupalVersion_safe P anyCommand); eauto with quiet; exact I |].
    intros [d' v] [Hf Hd]. simpl in Hf, Hd.
    pose proof (settled_frame _ _ _ Hs Hf) as Hs'.
    destruct (vu_err v) as [err' |].
    - destruct (Temporary err'); apply safe_ret.
      + apply safe_ret. exact I.
      + apply handleTransientErr_failsafe. apply Hs'.
    - destruct (vu_update v); [apply safe_ret; apply updateCRStatus_failsafe, keeps_rule, Hs' |].
      destruct (vu_requeue v); apply safe_ret; [apply safe_ret; exact I | exact Hs']. }
  intros [returned | d1] Hr; [exact Hr |].
  eapply safe_bind with (R1 := fun r => settled d0 r.1).
  { destruct (_ && _ && _); [| apply safe_ret; exact Hr].
    eapply safe_mono with (P := P);
      [auto | | eapply (updateDBSchema_safe P anyCommand); eauto with quiet; exact I].
    intros [d2 u] [Hf _]. eapply settled_frame; eauto. }
  intros [d2 update] Hs2. simpl in Hs2.
  destruct update; [apply updateCRStatus_failsafe, keeps_rule, Hs2 |].
  pose proof (frame_unsetUpdateInProgress d2) as Hf.
  destruct (unsetUpdateInProgress d2) as [unset d3]. simpl in Hf.
  pose proof (settled_frame _ _ _ Hs2 Hf) as Hs3.
  destruct unset; [apply updateCR_failsafe, keeps_rule, Hs3 |].
  apply Reconcile_failsafe_failsafe. exact Hs3.
Qed.

Lemma Reconcile_resources_failsafe err d isUpdateAnnotationSet requeueFlag :
  settled d0 d ->
  psafe P (fun _ => True) (Reconcile_resources err d isUpdateAnnotationSet requeueFlag).
Proof.
  intros Hs. unfold Reconcile_resources.
  eapply psafe_bind; [eapply ensureResources_quiet; eauto with quiet |].
  intros transientErrs _. apply safe_psafe. destruct (negb _).
  - cbv zeta. unfold setNotReady.
    pose proof (frame_setConditionStatus d "Ready" false (Some (concat transientErrs)) false)
      as Hf.
    destruct (setConditionStatus _ _ _ _ _) as [ch d']. simpl in Hf.
    apply handleTransientErr_failsafe. eapply keepsFailsafe_frame; [apply Hs | exact Hf].
  - apply Reconcile_update_failsafe. exact Hs.
Qed.

Lemma Reconcile_updateNeeded_failsafe err d :
  settled d0 d -> psafe P (fun _ => True) (Reconcile_updateNeeded err d).
Proof.
  intros Hs. unfold Reconcile_updateNeeded. cbv zeta.
  eapply psafe_bind; [apply safe_psafe; eapply updateNeeded_quiet; eauto with quiet |].
  intros [needed reconcileErr] _.
  destruct (_ && _ && _); [| apply Reconcile_resources_failsafe; exact Hs].
  destruct reconcileErr; [apply Reconcile_resources_failsafe; exact Hs |].
  destruct needed; [| apply Reconcile_resources_failsafe; exact Hs].
  pose proof (frame_setUpdateInProgress d) as Hf.
  destruct (setUpdateInProgress d) as [set d']. simpl in Hf.
  pose proof (settled_frame _ _ _ Hs Hf) as Hs'.
  destruct set; [apply safe_psafe, updateCR_failsafe, keeps_rule, Hs' |].
  apply Reconcile_resources_failsafe. exact Hs'.
Qed.

Lemma evaluating_frame d u d' u' :
  evaluating d0 (d, u) -> frame d d' -> (u' = false -> u = false) -> evaluating d0 (d', u').
Proof.
  unfold evaluating, keepsFailsafe, frame, releaseID. simpl.
  intros (H1 & H2 & H3) (F1 & F2 & _) Hu. rewrite F1, F2. auto.
Qed.

Lemma orb_false_r_inv (a b : bool) : a || b = false -> b = false.
Proof. destruct a, b; auto. Qed.

Lemma Reconcile_initialized_failsafe d update :
  evaluating d0 (d, update) -> safe P (evaluating d0) (Reconcile_initialized d update).
Proof.
  intros He. unfold Reconcile_initialized.
  destruct (negb _); [| apply safe_ret; exact He].
  eapply safe_bind; [eapply (isDrupalSiteInstalled_safe P anyCommand); eauto with quiet; exact I |].
  intros installed _.
  eapply safe_bind with (R1 := fun _ => True).
  { destruct installed; [apply safe_ret; exact I |].
    eapply isCloneJobCompleted_quiet; eauto with quiet. }
  intros done _. destruct done.
  - pose proof (frame_SetCondition d (status.mkCondition "Initialized" "True" "" "")) as Hf.
    unfold setInitialized. destruct (SetCondition d _) as [ch d']. simpl in Hf.
    apply safe_ret. eapply evaluating_frame; eauto. apply orb_false_r_inv.
  - pose proof (frame_SetCondition d (status.mkCondition "Initialized" "False" "" "")) as Hf.
    unfold setNotInitialized. destruct (SetCondition d _) as [ch d']. simpl in Hf.
    apply safe_ret. eapply evaluating_frame; eauto. apply orb_false_r_inv.
Qed.

Lemma Reconcile_clearFailures_failsafe d update :
  evaluating d0 (d, update) -> evaluating d0 (Reconcile_clearFailures d update).
Proof.
  intros He. unfold Reconcile_clearFailures.
  destruct (String.eqb _ _); [| exact He].
  assert (H1 : evaluating d0
            (if ConditionTrue d "CodeUpdateFailed"
             then let '(removed, drupalSite) := RemoveCondition d "CodeUpdateFailed" in
                  (drupalSite, removed || update)
             else (d, update))).
  { destruct (ConditionTrue d "CodeUpdateFailed"); [| exact He].
    pose proof (frame_RemoveCondition d "CodeUpdateFailed") as Hf.
    destruct (RemoveCondition d "CodeUpdateFailed") as [removed d1]. simpl in Hf.
    eapply evaluating_frame; eauto. apply orb_false_r_inv. }
  destruct (if ConditionTrue d "CodeUpdateFailed" then _ else _) as [d1 u1].
  destruct (ConditionTrue d1 "DBUpdatesFailed"); [| exact H1].
  pose proof (frame_RemoveCondition d1 "DBUpdatesFailed") as Hf.
  destruct (RemoveCondition d1 "DBUpdatesFailed") as [removed d2]. simpl in Hf.
  eapply evaluating_frame; eauto. apply orb_false_r_inv.
Qed.

Lemma Reconcile_conditions_failsafe err d :
  Status d = Status d0 -> releaseID d = releaseID d0 ->
  psafe P (fun _ => True) (Reconcile_conditions err d).
Proof.
  intros HS Hrel. unfold Reconcile_conditions. cbv zeta.
  assert (H1 : evaluating d0
            (if negb (String.eqb (Current (Status_ReleaseID (Status d))) (releaseID d))
             then (set_Current d (releaseID d), true || false) else (d, false))).
  { unfold evaluating, keepsFailsafe.
    destruct (String.eqb _ _) eqn:Hcur; simpl.
    - apply String.eqb_eq in Hcur. rewrite HS in *. repeat split; congruence.
    - rewrite HS. repeat split; [exact Hrel | discriminate | discriminate]. }
  destruct (if negb _ then _ else _) as [d1 u1].
  eapply psafe_bind; [apply safe_psafe; eapply isDrupalSiteReady_quiet; eauto with quiet |].
  intros siteReady _.
  assert (H2 : evaluating d0
            (if siteReady
             then let '(changed, drupalSite) := setReady d1 in (drupalSite, changed || u1)
             else let '(changed, drupalSite) := setNotReady d1 None in
                  (drupalSite, changed || u1))).
  { destruct siteReady.
    - pose proof (frame_SetCondition d1 (status.mkCondition "Ready" "True" "" "")) as Hf.
      unfold setReady. destruct (SetCondition d1 _) as [ch d']. simpl in Hf.
      eapply evaluating_frame; eauto. apply orb_false_r_inv.
    - pose proof (frame_setConditionStatus d1 "Ready" false None false) as Hf.
      unfold setNotReady. destruct (setConditionStatus _ _ _ _ _) as [ch d']. simpl in Hf.
      eapply evaluating_frame; eauto. apply orb_false_r_inv. }
  destruct (if siteReady then _ else _) as [d2 u2].
  eapply psafe_bind; [apply safe_psafe, Reconcile_initialized_failsafe; exact H2 |].
  intros [d3 u3] H3.
  eapply psafe_bind with
    (R1 := fun r => match r with
                    | inl returned => safe P (fun _ => True) returned
                    | inr r' => evaluating d0 r'
                    end).
  { apply safe_psafe. destruct (_ && _); [| apply safe_ret; exact H3].
    eapply safe_bind; [eapply (exec_safe P anyCommand); eauto with quiet; exact I |].
    intros [sout err'] _. destruct (notNil err').
    - apply safe_ret. apply updateCRStatus_failsafe, keeps_rule, H3.
    - destruct (String.eqb sout ""); [| apply safe_ret; exact H3].
      pose proof (frame_RemoveCondition d3 "DBUpdatesPending") as Hf.
      destruct (RemoveCondition d3 "DBUpdatesPending") as [removed d4]. simpl in Hf.
      apply safe_ret. eapply evaluating_frame; eauto. apply orb_false_r_inv. }
  intros [returned | [d4 u4]] H4; [apply safe_psafe; exact H4 |].
  apply Reconcile_clearFailures_failsafe in H4.
  destruct (Reconcile_clearFailures d4 u4) as [d5 u5].
  destruct u5.
  - apply safe_psafe, updateCRStatus_failsafe, keeps_rule, H4.
  - apply Reconcile_updateNeeded_failsafe.
    destruct H4 as (Hk & Hr & Hc). destruct (Hc eq_refl) as [Hc1 Hc2].
    repeat split; assumption.
Qed.

Lemma Reconcile_rest_failsafe d :
  Status d = Status d0 -> releaseID d = releaseID d0 ->
  psafe P (fun _ => True)
    (if notNil (DeletionTimestamp d) then
       if ContainsFinalizer d finalizerStr then cleanupDrupalSite d
       else Ret (emptyResult, None)
     else
       r <- ensureSpecFinalizer d ;;
       let '(drupalSite, update, specErr) := r in
       match specErr with
       | Some specErr =>
           let '(_, drupalSite) := setErrorCondition drupalSite specErr in
           updateCRStatusOrFailReconcile drupalSite
       | None =>
           if update then updateCRorFailReconcile drupalSite
           else
             match validateSpec (Spec drupalSite) with
             | Some specErr =>
                 let '(_, drupalSite) := setErrorCondition drupalSite specErr in
                 updateCRStatusOrFailReconcile drupalSite
             | None => Reconcile_conditions None drupalSite
             end
       end)%prog.
Proof.
  intros HS Hrel.
  assert (Hkeep : forall d', Status d' = Status d -> keepsFailsafe d0 d').
  { intros d' H. unfold keepsFailsafe. rewrite H, HS. reflexivity. }
  destruct (notNil _).
  - apply safe_psafe. destruct (ContainsFinalizer _ _); [| apply safe_ret; exact I].
    unfold cleanupDrupalSite, ensureNoSchedule. cbv zeta.
    eapply safe_bind; [eapply ensureNoObject_quiet; eauto with quiet |].
    intros [err |] _; [apply safe_ret; exact I |].
    apply updateCR_failsafe, keeps_rule, Hkeep. reflexivity.
  - eapply psafe_bind;
      [apply safe_psafe; eapply ensureSpecFinalizer_safe; eauto with quiet |].
    intros [[d1 update] specErr] (HS1 & Hrel1 & _). simpl in HS1, Hrel1.
    assert (Herr : forall e, psafe P (fun _ => True)
              (let '(_, drupalSite) := setErrorCondition d1 e in
               updateCRStatusOrFailReconcile drupalSite)).
    { intros e. unfold setErrorCondition.
      pose proof (frame_setConditionStatus d1 "Error" true (Some e) false) as Hf.
      destruct (setConditionStatus _ _ _ _ _) as [ch d2]. simpl in Hf.
      apply safe_psafe, updateCRStatus_failsafe, keeps_rule.
      eapply keepsFailsafe_frame; [apply Hkeep; exact HS1 | exact Hf]. }
    destruct specErr as [specErr |]; [apply Herr |].
    destruct update; [apply safe_psafe, updateCR_failsafe, keeps_rule, Hkeep; exact HS1 |].
    destruct (validateSpec (Spec d1)) as [specErr |]; [apply Herr |].
    apply Reconcile_conditions_failsafe; congruence.
Qed.

End Failsafe.

Lemma Reconcile_failsafe_wp {E : Externals} (req : NamespacedName) :
  wpp (Reconcile req)
    (fun tr _ => forall d0, fetchedFirst tr = Some d0 ->
                            Forall (persistsBy (failsafeRule d0)) tr)
    (fun tr => forall d0, fetchedFirst tr = Some d0 ->
                          Forall (persistsBy (failsafeRule d0)) tr).
Proof.
  unfold Reconcile. cbn [bind call]. intros [d | err].
  - cbv zeta. eapply wpp_mono; [| | apply (Reconcile_rest_failsafe d d); reflexivity].
    + intros tr a [Htr _] d0 Hd0. simpl in Hd0. inversion Hd0; subst d0.
      constructor; [exact I | exact Htr].
    + intros tr Htr d0 Hd0. simpl in Hd0. inversion Hd0; subst d0.
      constructor; [exact I | exact Htr].
  - destruct (IsNotFound err); simpl; intros d0 Hd0; discriminate.
Qed.

(** C1. In every pass, against every cluster: a site that the pass
    persists either carries the failsafe release that the pass fetched, or
    carries as failsafe its current release, which is the release derived
    from the spec and the current release fetched, differs from the
    failsafe fetched, and neither CodeUpdateFailed nor DBUpdatesFailed is
    true on it. *)
Theorem failsafe_assigned_by_rule {E : Externals} {W : Type} (h : Handler W) (w : W)
    (req : NamespacedName) (d0 : DrupalSite) :
  fetchedFirst (run h (Reconcile req) w).2 = Some d0 ->
  Forall (persistsBy (failsafeRule d0)) (run h (Reconcile req) w).2.
Proof.
  intros Hd0.
  pose proof (wpp_run h (Reconcile req) _ _ w (Reconcile_failsafe_wp req)) as H.
  destruct (run h (Reconcile req) w).1.1; apply H; exact Hd0.
Qed.

Lemma failsafe_assigned_by_rule_witness :
  Forall (persistsBy (failsafeRule siteServing))
    (run fakeClient (Reconcile req0) clusterServing).2.
Proof.
  apply (failsafe_assigned_by_rule (E := refExternals) fakeClient clusterServing req0
           siteServing).
  vm_compute. reflexivity.
Defined.

(** ** The database-schema update *)

Lemma pendingPersistedFirst_calm (tr : list Event) :
  Forall calm tr -> pendingPersistedFirst tr.
Proof.
  intros H. split.
  - eapply Forall_impl; [exact H |]. intros e [He _]. exact He.
  - intros pre e post Heq Hp. subst tr.
    apply Forall_app in H as [_ H]. inversion H as [| ? ? [_ He] _]; subst.
    congruence.
Qed.

Lemma pendingPersistedFirst_prefix (pre tr : list Event) :
  Forall calm pre -> pendingPersistedFirst tr -> pendingPersistedFirst (pre ++ tr).
Proof.
  intros Hpre [Hb Hp]. split.
  - apply Forall_app. split; [| exact Hb].
    eapply Forall_impl; [exact Hpre |]. intros e [He _]. exact He.
  - intros pre' e post Heq He.
    apply app_eq_app in Heq as [l [[H1 H2] | [H1 H2]]].
    + destruct l as [| x l]; simpl in H2.
      * rewrite app_nil_r in H1. subst pre'. apply (Hp [] e post); [exact (eq_sym H2) | exact He].
      * inversion H2; subst x post. subst pre.
        apply Forall_app in Hpre as [_ Hpre]. inversion Hpre as [| ? ? [_ Hc] _]; subst.
        congruence.
    + apply (Hp l e post); [exact H2 | exact He].
Qed.

Lemma wp_bind_pending {A B : Type} (R : A -> Prop) (m : Prog A) (f : A -> Prog B) :
  safe calm R m ->
  (forall a, R a -> wp (f a) (fun tr _ => pendingPersistedFirst tr)) ->
  wp (bind m f) (fun tr _ => pendingPersistedFirst tr).
Proof.
  intros Hm Hf. apply wp_bind. eapply wp_mono; [| exact Hm].
  intros tr1 a [Htr1 Ha]. eapply wp_mono; [| exact (Hf a Ha)].
  intros tr2 b H. apply pendingPersistedFirst_prefix; assumption.
Qed.

Lemma wp_pending_safe {A : Type} (R : A -> Prop) (p : Prog A) :
  safe calm R p -> wp p (fun tr _ => pendingPersistedFirst tr).
Proof.
  apply wp_mono. intros tr a [H _]. apply pendingPersistedFirst_calm. exact H.
Qed.

Lemma wpp_bind_pending {A B : Type} (R : A -> Prop) (m : Prog A) (f : A -> Prog B) :
  psafe calm R m ->
  (forall a, R a -> wpp (f a) (fun tr _ => pendingPersistedFirst tr) pendingPersistedFirst) ->
  wpp (bind m f) (fun tr _ => pendingPersistedFirst tr) pendingPersistedFirst.
Proof.
  intros Hm Hf. apply wpp_bind. eapply wpp_mono; [| | exact Hm].
  - intros tr1 a [Htr1 Ha]. eapply wpp_mono; [| | exact (Hf a Ha)].
    + intros tr2 b H. apply pendingPersistedFirst_prefix; assumption.
    + intros tr2 H. apply pendingPersistedFirst_prefix; assumption.
  - intros tr H. apply pendingPersistedFirst_calm. exact H.
Qed.

Lemma wpp_pending_safe {A : Type} (R : A -> Prop) (p : Prog A) :
  safe calm R p -> wpp p (fun tr _ => pendingPersistedFirst tr) pendingPersistedFirst.
Proof.
  intros H. apply wp_wpp. revert H.
  apply wp_mono. intros tr a [H _]. apply pendingPersistedFirst_calm. exact H.
Qed.

Lemma calm_quiet e : persisted e = None -> executed e = None -> calm e.
Proof.
  intros _ H. unfold calm, backupOrMigration, reportsPending. rewrite H. auto.
Qed.

Lemma calm_exec containerName podName namespace command r :
  calmCommand command ->
  calm (Ev (execToPodThroughAPI containerName podName namespace command) r).
Proof.
  intros [H1 H2]. unfold calm, backupOrMigration, reportsPending. simpl.
  split; [exact H1 |]. destruct r as [[stdout stderr] err].
  rewrite bool_decide_false by exact H2. reflexivity.
Qed.

Lemma calm_persist_status d r : calm (Ev (StatusUpdate d) r).
Proof. split; reflexivity. Qed.

Lemma calm_persist d r : calm (Ev (Update d) r).
Proof. split; reflexivity. Qed.

#[export] Hint Resolve calm_quiet calm_exec calm_persist_status calm_persist : quiet.

Lemma calmCommand_cacheReload : calmCommand cacheReload.
Proof. split; [reflexivity | discriminate]. Qed.

Lemma calmCommand_checkIfSiteIsInstalled : calmCommand checkIfSiteIsInstalled.
Proof. split; [reflexivity | discriminate]. Qed.

#[export] Hint Resolve calmCommand_cacheReload calmCommand_checkIfSiteIsInstalled : quiet.

Section SchemaUpdate.

Context {E : Externals}.

Lemma updateCRStatus_calm d : safe calm (fun _ => True) (updateCRStatusOrFailReconcile d).
Proof.
  unfold updateCRStatusOrFailReconcile. cbn [bind call].
  apply safe_vis; [intros r; apply calm_persist_status |].
  intros [err |]; [destruct (IsConflict err) |]; apply safe_ret; exact I.
Qed.

Lemma updateCR_calm d : safe calm (fun _ => True) (updateCRorFailReconcile d).
Proof.
  unfold updateCRorFailReconcile. cbn [bind call].
  apply safe_vis; [intros r; apply calm_persist |].
  intros [err |]; [destruct (IsConflict err) |]; apply safe_ret; exact I.
Qed.

Hint Resolve updateCRStatus_calm updateCR_calm : quiet.

Lemma handleTransientErr_calm err d transientErr fmt st :
  safe calm (fun _ => True) (handleTransientErr err d transientErr fmt st).
Proof. unfold handleTransientErr. safe_go; exact I. Qed.

Lemma Reconcile_backups_calm d requeueFlag :
  safe calm (fun _ => True) (Reconcile_backups d requeueFlag).
Proof.
  unfold Reconcile_backups.
  eapply safe_bind; [eapply checkNewBackups_quiet; eauto with quiet |].
  intros [backupList [err |]] _; [apply safe_ret; exact I |].
  destruct (negb _); [| apply safe_ret; exact I].
  destruct (backupListUpdateNeeded_iff backupList (AvailableBackups (Status d)))
    as (b & Hb & _).
  rewrite Hb. destruct b; [apply updateCRStatus_calm | apply safe_ret; exact I].
Qed.

Lemma Reconcile_failsafe_calm d requeueFlag :
  safe calm (fun _ => True) (Reconcile_failsafe d requeueFlag).
Proof.
  unfold Reconcile_failsafe.
  eapply safe_bind; [eapply isDBODProvisioned_quiet; eauto with quiet |].
  intros dbodReady _. destruct dbodReady; cbn [negb].
  - destruct (_ && _ && _); [apply updateCRStatus_calm | apply Reconcile_backups_calm].
  - destruct (setNotReady _ _) as [update d'].
    eapply safe_bind with (R1 := fun _ => True); [| intros _ _; apply safe_ret; exact I].
    destruct update; [apply updateCRStatus_calm | apply safe_ret; exact I].
Qed.

(** The schema check, as updateDBSchema sees it: an error, no pending
    migration, or a report of pending migrations made by the last call. *)
Lemma checkUpdbStatus_report d :
  wp (execToServerPodErrOnStderr d "php-fpm" checkUpdbStatus)
    (fun tr r =>
       if notNil r.2 || String.eqb r.1 "" then Forall calm tr
       else exists pre e, tr = (pre ++ [e])%list /\ Forall calm pre
                          /\ backupOrMigration e = false /\ reportsPending e = true).
Proof.
  unfold execToServerPodErrOnStderr, execToServerPod.
  apply wp_bind. apply wp_bind.
  eapply wp_mono;
    [| apply (getRunningPodForVersion_quiet calm calm_quiet d (releaseID d))].
  intros tr1 [pod [err |]] [Htr1 _]; simpl.
  - rewrite !app_nil_r. exact Htr1.
  - intros [[stdout stderr] [err |]]; simpl; rewrite ?app_nil_r.
    + apply Forall_app. split; [exact Htr1 |]. repeat constructor.
    + destruct (String.eqb stderr "") eqn:Hserr; simpl; rewrite ?app_nil_r.
      * destruct (String.eqb stdout "") eqn:Hsout; simpl; rewrite ?app_nil_r.
        -- apply Forall_app. split; [exact Htr1 |]. repeat constructor; simpl.
           unfold reportsPending. simpl. rewrite Hserr, Hsout. simpl.
           rewrite ?andb_false_r. reflexivity.
        -- eexists tr1, _. split; [reflexivity |].
           split; [exact Htr1 |]. split; [reflexivity |].
           unfold reportsPending. simpl. rewrite Hserr, Hsout. reflexivity.
      * apply Forall_app. split; [exact Htr1 |]. repeat constructor; simpl.
        unfold reportsPending. simpl. rewrite Hserr. simpl. rewrite ?andb_false_r. reflexivity.
Qed.

(** updateDBSchema on a site whose DBUpdatesPending condition is not true:
    either nothing was reported, or the report is the last call and the
    condition is set on the returned site, which is to be persisted. *)
Lemma updateDBSchema_pending d :
  ConditionTrue d "DBUpdatesPending" = false ->
  wp (updateDBSchema d)
    (fun tr r =>
       Forall calm tr \/
       (r.2 = true /\ ConditionTrue r.1 "DBUpdatesPending" = true /\
        exists pre e, tr = (pre ++ [e])%list /\ Forall calm pre
                      /\ backupOrMigration e = false /\ reportsPending e = true)).
Proof.
  intros Hnot. unfold updateDBSchema. apply wp_bind.
  eapply wp_mono; [| apply checkUpdbStatus_report].
  intros tr1 [sout err] H1. simpl in H1.
  destruct (notNil err); simpl in *.
  { left. rewrite app_nil_r. exact H1. }
  destruct (String.eqb sout "") eqn:Hsout; simpl in *.
  { left. rewrite app_nil_r. exact H1. }
  unfold setDBUpdatesPending.
  pose proof (SetCondition_false_get d (status.mkCondition "DBUpdatesPending" "True" "" ""))
    as Hget.
  pose proof (ConditionTrue_SetCondition d (status.mkCondition "DBUpdatesPending" "True" "" "")
                "DBUpdatesPending") as Htrue.
  destruct (SetCondition d _) as [changed d1]. simpl in *.
  destruct changed; simpl.
  - right. rewrite app_nil_r. split; [reflexivity |]. split; [exact Htrue | exact H1].
  - exfalso. unfold ConditionTrue in Hnot. rewrite (Hget eq_refl) in Hnot. discriminate.
Qed.

Lemma unsetUpdateInProgress_calm d requeueFlag :
  safe calm (fun _ => True)
    (let '(unset, drupalSite) := unsetUpdateInProgress d in
     if unset then updateCRorFailReconcile drupalSite
     else Reconcile_failsafe drupalSite requeueFlag).
Proof.
  destruct (unsetUpdateInProgress d) as [unset d'].
  destruct unset; [apply updateCR_calm | apply Reconcile_failsafe_calm].
Qed.

Lemma Reconcile_update_pending err d isUpdateAnnotationSet requeueFlag :
  ConditionTrue d "DBUpdatesPending" = false ->
  wp (Reconcile_update err d isUpdateAnnotationSet requeueFlag)
    (fun tr _ => pendingPersistedFirst tr).
Proof.
  intros Hnot. unfold Reconcile_update.
  eapply wp_bind_pending with
    (R := fun r => match r with
                   | inl returned => safe calm (fun _ => True) returned
                   | inr d' => d' = d
                   end).
  { destruct (_ && _ && _); [| apply safe_ret; reflexivity].
    eapply safe_bind;
      [eapply (updateDrupalVersion_safe calm calmCommand); eauto with quiet |].
    intros [d' v] [_ Hd]. simpl in Hd.
    destruct (vu_err v) as [err' |].
    - destruct (Temporary err'); apply safe_ret;
        [apply safe_ret; exact I | apply handleTransientErr_calm].
    - destruct (vu_update v); [apply safe_ret; apply updateCRStatus_calm |].
      destruct (vu_requeue v); apply safe_ret; [apply safe_ret; exact I | auto]. }
  intros [returned | d1] Hr; [eapply wp_pending_safe; exact Hr |]. subst d1.
  destruct (_ && _ && _).
  - apply wp_bind. eapply wp_mono; [| apply updateDBSchema_pending; exact Hnot].
    intros tr1 [d2 update] [Hcalm | (Hupd & Htrue & pre & e & Htr & Hpre & Hb & Hp)].
    + eapply wp_mono.
      2: { apply wp_pending_safe with (R := fun _ => True).
           destruct update; [apply updateCRStatus_calm | apply unsetUpdateInProgress_calm]. }
      intros tr2 a2 H2. apply pendingPersistedFirst_prefix; assumption.
    + simpl in Hupd, Htrue. subst update tr1.
      unfold updateCRStatusOrFailReconcile. cbn [bind call wp]. intros r.
      eapply wp_mono with (Q := fun tr _ => tr = []).
      2: { destruct r as [e' |]; [destruct (IsConflict e') |]; reflexivity. }
      intros tr2 a2 Htr2. cbv beta in Htr2. subst tr2. rewrite <- app_assoc. simpl.
      apply pendingPersistedFirst_prefix; [exact Hpre |]. split.
      * repeat constructor. exact Hb.
      * intros pre' x post Heq Hx.
        destruct pre' as [| y pre']; simpl in Heq; inversion Heq; subst.
        -- eexists _, d2. split; [reflexivity |]. split; [reflexivity | exact Htrue].
        -- destruct pre' as [| z pre']; simpl in *; inversion H1; subst.
           ++ discriminate.
           ++ destruct pre'; discriminate.
  - cbn [bind]. apply wp_pending_safe with (R := fun _ => True).
    apply unsetUpdateInProgress_calm.
Qed.

Lemma Reconcile_resources_pending err d isUpdateAnnotationSet requeueFlag :
  ConditionTrue d "DBUpdatesPending" = false ->
  wpp (Reconcile_resources err d isUpdateAnnotationSet requeueFlag)
    (fun tr _ => pendingPersistedFirst tr) pendingPersistedFirst.
Proof.
  intros Hnot. unfold Reconcile_resources.
  eapply wpp_bind_pending; [eapply ensureResources_quiet; eauto with quiet |].
  intros transientErrs _. destruct (negb _).
  - cbv zeta. destruct (setNotReady _ _) as [ch d'].
    eapply wpp_pending_safe. apply handleTransientErr_calm.
  - apply wp_wpp, Reconcile_update_pending. exact Hnot.
Qed.

Lemma Reconcile_updateNeeded_pending err d :
  ConditionTrue d "DBUpdatesPending" = false ->
  wpp (Reconcile_updateNeeded err d) (fun tr _ => pendingPersistedFirst tr)
    pendingPersistedFirst.
Proof.
  intros Hnot. unfold Reconcile_updateNeeded. cbv zeta.
  eapply wpp_bind_pending; [apply safe_psafe; eapply updateNeeded_quiet; eauto with quiet |].
  intros [needed reconcileErr] _.
  destruct (_ && _ && _); [| apply Reconcile_resources_pending; exact Hnot].
  destruct reconcileErr; [apply Reconcile_resources_pending; exact Hnot |].
  destruct needed; [| apply Reconcile_resources_pending; exact Hnot].
  pose proof (Status_setUpdateInProgress d) as HS.
  destruct (setUpdateInProgress d) as [set d']. simpl in HS.
  destruct set; [eapply wpp_pending_safe; apply updateCR_calm |].
  apply Reconcile_resources_pending. unfold ConditionTrue in *. rewrite HS. exact Hnot.
Qed.

Lemma notPending_SetCondition d c :
  String.eqb (status.Type_ c) "DBUpdatesPending" = false ->
  ConditionTrue d "DBUpdatesPending" = false ->
  ConditionTrue (SetCondition d c).2 "DBUpdatesPending" = false.
Proof. intros Ht H. rewrite ConditionTrue_SetCondition, Ht. exact H. Qed.

Lemma notPending_RemoveCondition d t :
  t <> "DBUpdatesPending" ->
  ConditionTrue d "DBUpdatesPending" = false ->
  ConditionTrue (RemoveCondition d t).2 "DBUpdatesPending" = false.
Proof. intros Ht H. rewrite ConditionTrue_RemoveCondition_ne by congruence. exact H. Qed.

Lemma Reconcile_initialized_pending d update :
  ConditionTrue d "DBUpdatesPending" = false ->
  safe calm (fun r => ConditionTrue r.1 "DBUpdatesPending" = false)
    (Reconcile_initialized d update).
Proof.
  intros Hnot. unfold Reconcile_initialized.
  destruct (negb _); [| apply safe_ret; exact Hnot].
  eapply safe_bind;
    [eapply (isDrupalSiteInstalled_safe calm calmCommand); eauto with quiet |].
  intros installed _.
  eapply safe_bind with (R1 := fun _ => True).
  { destruct installed; [apply safe_ret; exact I |].
    eapply isCloneJobCompleted_quiet; eauto with quiet. }
  intros done _. destruct done.
  - pose proof (notPending_SetCondition d (status.mkCondition "Initialized" "True" "" "")
                  eq_refl Hnot) as H.
    unfold setInitialized. destruct (SetCondition d _) as [ch d']. apply safe_ret. exact H.
  - pose proof (notPending_SetCondition d (status.mkCondition "Initialized" "False" "" "")
                  eq_refl Hnot) as H.
    unfold setNotInitialized. destruct (SetCondition d _) as [ch d']. apply safe_ret. exact H.
Qed.

Lemma Reconcile_clearFailures_pending d update :
  ConditionTrue d "DBUpdatesPending" = false ->
  ConditionTrue (Reconcile_clearFailures d update).1 "DBUpdatesPending" = false.
Proof.
  intros Hnot. unfold Reconcile_clearFailures.
  destruct (String.eqb _ _); [| exact Hnot].
  assert (H1 : ConditionTrue
            (if ConditionTrue d "CodeUpdateFailed"
             then let '(removed, drupalSite) := RemoveCondition d "CodeUpdateFailed" in
                  (drupalSite, removed || update)
             else (d, update)).1 "DBUpdatesPending" = false).
  { destruct (ConditionTrue d "CodeUpdateFailed"); [| exact Hnot].
    pose proof (notPending_RemoveCondition d "CodeUpdateFailed" ltac:(discriminate) Hnot) as H.
    destruct (RemoveCondition d "CodeUpdateFailed") as [removed d1]. exact H. }
  destruct (if ConditionTrue d "CodeUpdateFailed" then _ else _) as [d1 u1]. simpl in H1.
  destruct (ConditionTrue d1 "DBUpdatesFailed"); [| exact H1].
  pose proof (notPending_RemoveCondition d1 "DBUpdatesFailed" ltac:(discriminate) H1) as H.
  destruct (RemoveCondition d1 "DBUpdatesFailed") as [removed d2]. exact H.
Qed.

Lemma Reconcile_conditions_pending err d :
  ConditionTrue d "DBUpdatesPending" = false ->
  wpp (Reconcile_conditions err d) (fun tr _ => pendingPersistedFirst tr)
    pendingPersistedFirst.
Proof.
  intros Hnot. unfold Reconcile_conditions. cbv zeta.
  assert (H1 : ConditionTrue
            (if negb (String.eqb (Current (Status_ReleaseID (Status d))) (releaseID d))
             then (set_Current d (releaseID d), true || false) else (d, false)).1
            "DBUpdatesPending" = false).
  { destruct (negb _); exact Hnot. }
  destruct (if negb _ then _ else _) as [d1 u1]. simpl in H1.
  eapply wpp_bind_pending;
    [apply safe_psafe; eapply isDrupalSiteReady_quiet; eauto with quiet |].
  intros siteReady _.
  assert (H2 : ConditionTrue
            (if siteReady
             then let '(changed, drupalSite) := setReady d1 in (drupalSite, changed || u1)
             else let '(changed, drupalSite) := setNotReady d1 None in
                  (drupalSite, changed || u1)).1 "DBUpdatesPending" = false).
  { destruct siteReady.
    - pose proof (notPending_SetCondition d1 (status.mkCondition "Ready" "True" "" "")
                    eq_refl H1) as H.
      unfold setReady. destruct (SetCondition d1 _) as [ch d']. exact H.
    - pose proof (notPending_SetCondition d1 (status.mkCondition "Ready" "False" "" "")
                    eq_refl H1) as H.
      unfold setNotReady, setConditionStatus. simpl.
      destruct (SetCondition d1 _) as [ch d']. exact H. }
  destruct (if siteReady then _ else _) as [d2 u2]. simpl in H2.
  eapply wpp_bind_pending; [apply safe_psafe, Reconcile_initialized_pending; exact H2 |].
  intros [d3 u3] H3. simpl in H3. rewrite H3. cbn [andb bind].
  pose proof (Reconcile_clearFailures_pending d3 u3 H3) as H4.
  destruct (Reconcile_clearFailures d3 u3) as [d4 u4]. simpl in H4.
  destruct u4; [eapply wpp_pending_safe; apply updateCRStatus_calm |].
  apply Reconcile_updateNeeded_pending. exact H4.
Qed.

Lemma Reconcile_pending_wp (req : NamespacedName) :
  wpp (Reconcile req)
    (fun tr _ => forall d0, fetchedFirst tr = Some d0 ->
                            ConditionTrue d0 "DBUpdatesPending" = false ->
                            pendingPersistedFirst tr)
    (fun tr => forall d0, fetchedFirst tr = Some d0 ->
                          ConditionTrue d0 "DBUpdatesPending" = false ->
                          pendingPersistedFirst tr).
Proof.
  unfold Reconcile. cbn [bind call]. intros [d | err].
  2: { destruct (IsNotFound err); simpl; intros d0 Hd0; discriminate. }
  cbv zeta.
  apply wpp_mono with
    (Q := fun tr _ => ConditionTrue d "DBUpdatesPending" = false -> pendingPersistedFirst tr)
    (N := fun tr => ConditionTrue d "DBUpdatesPending" = false -> pendingPersistedFirst tr).
  { intros tr a H d0 Hd0 Hnot. simpl in Hd0. inversion Hd0; subst d0.
    apply (pendingPersistedFirst_prefix [_]); [| apply H; exact Hnot].
    repeat constructor. }
  { intros tr H d0 Hd0 Hnot. simpl in Hd0. inversion Hd0; subst d0.
    apply (pendingPersistedFirst_prefix [_]); [| apply H; exact Hnot].
    repeat constructor. }
  destruct (ConditionTrue d "DBUpdatesPending") eqn:Hnot.
  { eapply wpp_mono; [| | apply (Reconcile_rest_failsafe d d); reflexivity].
    - intros tr a _ Hc. discriminate.
    - intros tr _ Hc. discriminate. }
  eapply wpp_mono with (Q := fun tr _ => pendingPersistedFirst tr)
                       (N := pendingPersistedFirst); [auto | auto |].
  destruct (notNil _).
  - destruct (ContainsFinalizer _ _);
      [| apply (wpp_pending_safe (fun _ => True)); apply safe_ret; exact I].
    unfold cleanupDrupalSite, ensureNoSchedule. cbv zeta.
    eapply wpp_bind_pending; [apply safe_psafe; eapply ensureNoObject_quiet; eauto with quiet |].
    intros [err |] _;
      [apply (wpp_pending_safe (fun _ => True)); apply safe_ret; exact I |].
    eapply wpp_pending_safe. apply updateCR_calm.
  - eapply wpp_bind_pending;
      [apply safe_psafe; eapply ensureSpecFinalizer_safe; eauto with quiet |].
    intros [[d1 update] specErr] (HS1 & _ & _). simpl in HS1.
    destruct specErr as [specErr |].
    { destruct (setErrorCondition _ _). eapply wpp_pending_safe. apply updateCRStatus_calm. }
    destruct update; [eapply wpp_pending_safe; apply updateCR_calm |].
    destruct (validateSpec (Spec d1)) as [specErr |].
    { destruct (setErrorCondition _ _). eapply wpp_pending_safe. apply updateCRStatus_calm. }
    apply Reconcile_conditions_pending. unfold ConditionTrue in *. rewrite HS1. exact Hnot.
Qed.

End SchemaUpdate.


(** ** Write conflicts *)

Lemma conflictRequeues_nil failed a : conflictRequeues failed [] a.
Proof. intros pre e post Heq. destruct pre; discriminate. Qed.

Lemma conflictRequeues_last failed e a :
  (conflicted e = true -> a.2 = None /\ (failed = false -> Requeue a.1 = true)) ->
  conflictRequeues failed [e] a.
Proof.
  intros H pre x post Heq Hx.
  destruct pre as [| y pre]; simpl in Heq.
  - inversion Heq; subst. split; [reflexivity |]. intros Hc.
    destruct (H Hc) as [H1 H2]. split; [exact H1 |].
    simpl. rewrite orb_false_r. exact H2.
  - inversion Heq as [[Hy Hpre]]. destruct pre; discriminate.
Qed.

Lemma conflictRequeues_prefix failed tr1 tr2 a :
  Forall noPersist tr1 ->
  conflictRequeues (failed || existsb clientError tr1) tr2 a ->
  conflictRequeues failed (tr1 ++ tr2) a.
Proof.
  intros H1 H2 pre e post Heq He.
  apply app_eq_app in Heq as [l [[Hl1 Hl2] | [Hl1 Hl2]]].
  - destruct l as [| x l]; simpl in Hl2.
    + rewrite app_nil_r in Hl1. subst pre.
      destruct (H2 [] e post (eq_sym Hl2) He) as [Hpost Hc]. split; [exact Hpost |].
      intros Hconf. destruct (Hc Hconf) as [Ha Hr]. split; [exact Ha |].
      intros Hf. apply Hr. simpl. rewrite orb_false_r. exact Hf.
    + inversion Hl2; subst x post. subst tr1.
      apply Forall_app in H1 as [_ H1]. inversion H1 as [| ? ? Hn _]; subst.
      contradiction.
  - subst pre. destruct (H2 l e post Hl2 He) as [Hpost Hc]. split; [exact Hpost |].
    intros Hconf. destruct (Hc Hconf) as [Ha Hr]. split; [exact Ha |].
    intros Hf. apply Hr. rewrite existsb_app, orb_assoc in Hf. exact Hf.
Qed.

Lemma conflictRequeues_quiet failed tr a : Forall noPersist tr -> conflictRequeues failed tr a.
Proof.
  intros H. rewrite <- (app_nil_r tr). apply conflictRequeues_prefix; [exact H |].
  apply conflictRequeues_nil.
Qed.

Lemma noPersist_quiet e : persisted e = None -> executed e = None -> noPersist e.
Proof. intros H _. exact H. Qed.

Lemma noPersist_exec containerName podName namespace command r :
  True -> noPersist (Ev (execToPodThroughAPI containerName podName namespace command) r).
Proof. reflexivity. Qed.

#[export] Hint Resolve noPersist_quiet noPersist_exec : quiet.

(** *** Programs that do not write the site *)

Lemma tracked_ret {A : Type} failed (R : bool -> A -> Prop) (a : A) :
  R failed a -> tracked failed R (Ret a).
Proof. intros H. split; [constructor |]. simpl. rewrite orb_false_r. exact H. Qed.

Lemma tracked_mono {A : Type} failed (R R' : bool -> A -> Prop) (p : Prog A) :
  (forall b a, R b a -> R' b a) -> tracked failed R p -> tracked failed R' p.
Proof. intros HR. apply wp_mono. intros tr a [H1 H2]. split; auto. Qed.

Lemma tracked_bind {A B : Type} failed (R1 : bool -> A -> Prop) (R : bool -> B -> Prop)
    (m : Prog A) (f : A -> Prog B) :
  tracked failed R1 m -> (forall b a, R1 b a -> tracked b R (f a)) ->
  tracked failed R (bind m f).
Proof.
  intros Hm Hf. apply wp_bind. eapply wp_mono; [| exact Hm].
  intros tr1 a [Htr1 Ha]. eapply wp_mono; [| exact (Hf _ a Ha)].
  intros tr2 b [Htr2 Hb]. split; [apply Forall_app; auto |].
  rewrite existsb_app, orb_assoc. exact Hb.
Qed.

Lemma tracked_vis {A R : Type} failed (Q : bool -> A -> Prop) (c : Call R) (k : R -> Prog A) :
  (forall r, noPersist (Ev c r)) ->
  (forall r, tracked (failed || clientError (Ev c r)) Q (k r)) ->
  tracked failed Q (Vis c k).
Proof.
  intros Hc Hk r. eapply wp_mono; [| exact (Hk r)].
  intros tr a [Htr Ha]. split; [constructor; auto |].
  cbn [existsb]. rewrite orb_assoc. exact Ha.
Qed.

(** A program that does not write the site keeps what has been seen. *)
Lemma tracked_safe {A : Type} failed (R : A -> Prop) (p : Prog A) :
  safe noPersist R p -> tracked failed (fun b a => (failed = true -> b = true) /\ R a) p.
Proof.
  apply wp_mono. intros tr a [Htr Ha]. split; [exact Htr |]. split; [| exact Ha].
  intros ->. reflexivity.
Qed.

Lemma ptracked_ret {A : Type} failed (R : bool -> A -> Prop) (a : A) :
  R failed a -> ptracked failed R (Ret a).
Proof. intros H. split; [constructor |]. simpl. rewrite orb_false_r. exact H. Qed.

Lemma ptracked_panic {A : Type} failed (R : bool -> A -> Prop) : ptracked failed R (@Panic A).
Proof. constructor. Qed.

Lemma ptracked_bind {A B : Type} failed (R1 : bool -> A -> Prop) (R : bool -> B -> Prop)
    (m : Prog A) (f : A -> Prog B) :
  ptracked failed R1 m -> (forall b a, R1 b a -> ptracked b R (f a)) ->
  ptracked failed R (bind m f).
Proof.
  intros Hm Hf. apply wpp_bind. eapply wpp_mono; [| | exact Hm]; [| auto].
  intros tr1 a [Htr1 Ha]. eapply wpp_mono; [| | exact (Hf _ a Ha)].
  - intros tr2 b [Htr2 Hb]. split; [apply Forall_app; auto |].
    rewrite existsb_app, orb_assoc. exact Hb.
  - intros tr2 Htr2. apply Forall_app; auto.
Qed.

Lemma ptracked_vis {A R : Type} failed (Q : bool -> A -> Prop) (c : Call R)
    (k : R -> Prog A) :
  (forall r, noPersist (Ev c r)) ->
  (forall r, ptracked (failed || clientError (Ev c r)) Q (k r)) ->
  ptracked failed Q (Vis c k).
Proof.
  intros Hc Hk r. eapply wpp_mono; [| | exact (Hk r)].
  - intros tr a [Htr Ha]. split; [constructor; auto |].
    cbn [existsb]. rewrite orb_assoc. exact Ha.
  - intros tr Htr. constructor; auto.
Qed.

Lemma tracked_ptracked {A : Type} failed (R : bool -> A -> Prop) (p : Prog A) :
  tracked failed R p -> ptracked failed R p.
Proof. apply wp_wpp. Qed.

(** [b] records the client errors seen: it stays true, and it is true when
    the step returns an error. *)
Ltac blame :=
  split;
  [ intros ->; reflexivity
  | first [ congruence | intros _; rewrite ?orb_true_r; reflexivity ] ].

Ltac tracked_call :=
  cbn [bind call]; apply tracked_vis; [reflexivity |]; intros ?; cbn [clientError].

Section Conflicts.

Context {E : Externals}.

Lemma updateConfigMapForPHPFPM_tracked failed key isZero d :
  tracked failed (blamed failed (fun r => r <> None))
    (callback.updateConfigMapForPHPFPM key isZero d).
Proof.
  unfold callback.updateConfigMapForPHPFPM. cbv zeta.
  tracked_call. destruct r as [content | err]; [| apply tracked_ret; blame].
  destruct isZero; cbn [negb]; [apply tracked_ret; blame |].
  tracked_call. destruct r as [deploy | err]; [| apply tracked_ret; blame].
  tracked_call. destruct r as [res | err]; apply tracked_ret; blame.
Qed.

Lemma updateConfigMapForNginx_tracked failed key isZero d :
  tracked failed (blamed failed (fun r => r <> None))
    (callback.updateConfigMapForNginx key isZero d).
Proof.
  unfold callback.updateConfigMapForNginx. cbv zeta.
  tracked_call. destruct r as [content | err]; [| apply tracked_ret; blame].
  destruct isZero; cbn [negb]; [apply tracked_ret; blame |].
  tracked_call. destruct r as [deploy | err]; [| apply tracked_ret; blame].
  tracked_call. destruct r as [res | err]; apply tracked_ret; blame.
Qed.

Lemma updateConfigMapForSiteSettings_tracked failed key isZero d :
  tracked failed (blamed failed (fun r => r <> None))
    (callback.updateConfigMapForSiteSettings key isZero d).
Proof.
  unfold callback.updateConfigMapForSiteSettings. cbv zeta.
  tracked_call. destruct r as [content | err]; [| apply tracked_ret; blame].
  destruct isZero; cbn [negb]; [apply tracked_ret; blame |].
  tracked_call. destruct r as [deploy | err]; [| apply tracked_ret; blame].
  tracked_call. destruct r as [res | err]; apply tracked_ret; blame.
Qed.

Lemma persistentVolumeClaimForDrupalSite_tracked failed isZero d :
  ptracked failed (blamed failed (fun r => r <> None))
    (callback.persistentVolumeClaimForDrupalSite isZero d).
Proof.
  unfold callback.persistentVolumeClaimForDrupalSite.
  destruct isZero; [destruct (ParseQuantity _) |];
    first [apply ptracked_panic | apply ptracked_ret; blame].
Qed.

Lemma createOrUpdateWith_tracked failed k key f mutate :
  (forall b isZero, ptracked b (blamed b (fun r => r <> None)) (mutate isZero)) ->
  ptracked failed (blamed failed (fun r => r <> None)) (createOrUpdateWith k key f mutate).
Proof.
  intros Hmutate. unfold createOrUpdateWith.
  assert (Hrun : forall b isZero,
            (failed = true -> b = true) ->
            ptracked b (blamed failed (fun r : option reconcileError => r <> None))
              (r <- (err <- mutate isZero ;;
                     match err with
                     | Some err => Ret (inr (asError err))
                     | None => call (CreateOrUpdate k key f)
                     end) ;;
               match r with
               | inr err => Ret (Some (newApplicationError (Some err) (sentinel ErrClientK8s)))
               | inl _ => Ret None
               end)%prog).
  { intros b isZero Hb. apply wpp_bind_assoc.
    eapply ptracked_bind; [apply Hmutate |].
    intros b' [err |] [Hmono Hbad]; cbn [bind call].
    - apply ptracked_ret. split; [auto |]. intros _. apply Hbad. congruence.
    - apply ptracked_vis; [reflexivity |]. intros [res | err]; cbn [clientError bind];
        apply ptracked_ret; split; try congruence.
      + intros Hf. rewrite orb_false_r. auto.
      + intros Hf. rewrite (Hmono (Hb Hf)). reflexivity.
      + intros _. apply orb_true_r. }
  cbn [bind call]. apply ptracked_vis; [reflexivity |]. intros [err |]; cbn [clientError].
  - destruct (IsNotFound err); cbn [negb].
    + apply Hrun. intros ->. reflexivity.
    + cbn [bind]. apply ptracked_ret. blame.
  - apply Hrun. intros ->. reflexivity.
Qed.

Lemma createOrUpdate_tracked failed k key f :
  tracked failed (blamed failed (fun r => r <> None)) (createOrUpdate k key f).
Proof.
  unfold createOrUpdate. cbn [bind call].
  apply tracked_vis; [reflexivity |]. intros [res | err]; apply tracked_ret; split; simpl.
  - rewrite orb_false_r. auto.
  - congruence.
  - intros ->. reflexivity.
  - intros _. apply orb_true_r.
Qed.

Lemma ensureNoObject_tracked failed k key :
  tracked failed (blamed failed (fun r => r <> None)) (ensureNoObject k key).
Proof.
  unfold ensureNoObject. cbn [bind call].
  apply tracked_vis; [reflexivity |]. intros [err |].
  - simpl. destruct (IsNotFound err); apply tracked_ret; split; simpl.
    + rewrite orb_false_r. auto.
    + congruence.
    + intros ->. reflexivity.
    + intros _. apply orb_true_r.
  - apply tracked_vis; [reflexivity |]. intros [err |]; apply tracked_ret; split; simpl.
    + intros ->. reflexivity.
    + intros _. apply orb_true_r.
    + rewrite !orb_false_r. auto.
    + congruence.
Qed.

Lemma ensureResourceX_tracked failed d resType :
  existsb (String.eqb resType) knownResources = true ->
  ptracked failed (blamed failed (fun r => r <> None)) (ensureResourceX d resType).
Proof.
  intros H. apply existsb_exists in H as (x & H & Hx).
  apply String.eqb_eq in Hx. subst x.
  unfold knownResources in H. simpl in H.
  repeat (destruct H as [<- | H]); try contradiction;
    unfold ensureResourceX; cbv zeta; simpl (String.eqb _ _); cbv iota;
    try (apply tracked_ptracked, createOrUpdate_tracked);
    try (apply createOrUpdateWith_tracked; intros b isZero;
         first [ apply persistentVolumeClaimForDrupalSite_tracked
               | apply tracked_ptracked;
                 first [ apply updateConfigMapForPHPFPM_tracked
                       | apply updateConfigMapForNginx_tracked
                       | apply updateConfigMapForSiteSettings_tracked ] ]);
    apply tracked_ptracked.
  - (* deploy_drupal *)
    tracked_call.
    destruct (_ && _).
    + apply tracked_ret. blame.
    + destruct (negb _).
      * eapply tracked_mono; [| apply createOrUpdate_tracked].
        intros b a [Hmono Hbad]. split; [| exact Hbad].
        intros ->. apply Hmono. reflexivity.
      * apply tracked_ret. blame.
  - (* oidc_return_uri *)
    tracked_call. apply tracked_ret. blame.
Qed.

Lemma appendErr_tracked failed errs step msg :
  (errs <> [] -> failed = true) ->
  ptracked failed (blamed failed (fun r => r <> None)) step ->
  ptracked failed (fun b errs' => errs' <> [] -> b = true) (appendErr errs step msg).
Proof.
  intros Hinv Hstep. unfold appendErr.
  eapply ptracked_bind; [exact Hstep |].
  intros b [err |] [Hmono Hbad]; apply ptracked_ret.
  - intros _. apply Hbad. congruence.
  - intros Hne. auto.
Qed.

Ltac tracked_step :=
  lazymatch goal with
  | |- ptracked _ _ (ensureResourceX _ _) => apply ensureResourceX_tracked; reflexivity
  | |- ptracked _ _ (ensureNoObject _ _) => apply tracked_ptracked, ensureNoObject_tracked
  end.

Ltac tracked_chain :=
  lazymatch goal with
  | |- ptracked _ _ (bind (appendErr _ _ _) _) =>
      eapply ptracked_bind;
      [apply appendErr_tracked; [solve [auto | congruence] | tracked_step] | intros ? ? ?]
  | |- ptracked _ _ (appendErr _ _ _) =>
      apply appendErr_tracked; [solve [auto | congruence] | tracked_step]
  | |- ptracked _ _ (bind (isDBODProvisioned _) _) =>
      eapply ptracked_bind;
      [apply tracked_ptracked, tracked_safe with (R := fun _ => True);
       apply isDBODProvisioned_quiet; auto with quiet
      | intros ? ? [? _]]
  | |- ptracked _ _ (bind (if ?c then _ else _) _) =>
      eapply ptracked_bind with (R1 := fun b errs => errs <> [] -> b = true);
      [destruct c | intros ? ? ?]
  | |- ptracked _ _ (if ?c then _ else _) => destruct c
  | |- ptracked _ _ (Ret _) => apply ptracked_ret; solve [auto | congruence]
  end.

(** ensureResources returns errors only after a client error. *)
Lemma ensureResources_tracked failed d :
  ptracked failed (fun b errs => errs <> [] -> b = true) (ensureResources d).
Proof.
  unfold ensureResources, ensureNoRoute, ensureNoWebDAVRoute, ensureNoReturnURI. cbv zeta.
  repeat tracked_chain.
Qed.

Lemma updateDrupalVersion_reload_noerr d :
  safe noPersist (fun r => vu_err r.2 = None) (updateDrupalVersion_reload d).
Proof.
  unfold updateDrupalVersion_reload.
  eapply safe_bind;
    [apply (execToServerPodErrOnStderr_safe noPersist (fun _ => True));
     auto with quiet |].
  intros [sout stderr] _.
  eapply safe_bind with (R1 := fun r => match r with
                                        | inl returned => vu_err returned = None
                                        | inr _ => True
                                        end).
  { destruct (notNil stderr); [| apply safe_ret; exact I].
    eapply safe_bind;
      [apply (execToServerPodErrOnStderr_safe noPersist (fun _ => True));
       auto with quiet |].
    intros [sout' stderr'] _.
    destruct (notNil stderr'); apply safe_ret; [reflexivity | exact I]. }
  intros [returned | sout'] Hr; [apply safe_ret; exact Hr |].
  destruct (negb (String.eqb sout' "")).
  - eapply safe_bind; [eapply rollBackCodeUpdate_quiet; auto with quiet |]. intros _ _.
    destruct (setConditionStatus _ _ _ _ _) as [ch d']. apply safe_ret. reflexivity.
  - destruct (ConditionTrue d "CodeUpdateFailed").
    + destruct (RemoveCondition _ _) as [ch d']. apply safe_ret. reflexivity.
    + apply safe_ret. reflexivity.
Qed.

(** updateDrupalVersion returns a permanent error only after a client
    error. *)
Lemma updateDrupalVersion_tracked failed d :
  tracked failed
    (fun b r => forall e, vu_err r.2 = Some e -> Temporary e = false -> b = true)
    (updateDrupalVersion d).
Proof.
  unfold updateDrupalVersion, ensureUpdatedDeployment. cbv zeta.
  change (negb (String.length (databaseSecretName d) =? 0)%nat) with true. cbv iota.
  cbn [bind call]. apply tracked_vis; [reflexivity |].
  intros [result | err]; cbn [clientError bind].
  2: { apply tracked_ret. intros e _ _. apply orb_true_r. }
  rewrite orb_false_r.
  destruct result; try (apply tracked_ret; simpl; discriminate).
  eapply tracked_bind;
    [apply tracked_safe with (R := fun _ => True); eapply didVersionRollOutSucceed_quiet;
     auto with quiet |].
  intros b [requeue [err |]] [Hmono _].
  - destruct (Temporary err) eqn:HT.
    + apply tracked_ret. simpl. intros e [= <-]. congruence.
    + cbv zeta. unfold rollBackCodeUpdate. cbv zeta.
      change (negb (String.length (databaseSecretName d) =? 0)%nat) with true. cbv iota.
      cbn [bind call]. apply tracked_vis; [reflexivity |].
      intros [res | err']; cbn [clientError bind].
      * destruct (setConditionStatus _ _ _ _ _) as [ch d']. apply tracked_ret.
        simpl. discriminate.
      * apply tracked_ret. intros e _ _. apply orb_true_r.
  - destruct requeue; [apply tracked_ret; simpl; discriminate |].
    eapply tracked_mono; [| apply tracked_safe, updateDrupalVersion_reload_noerr].
    intros b' r [_ Hr] e He. congruence.
Qed.

(** *** The writes of the pass *)

Lemma wp_bind_conflict {A : Type} failed (R : bool -> A -> Prop) (m : Prog A)
    (f : A -> Prog (Result * option error)) :
  tracked failed R m ->
  (forall b a, R b a -> wp (f a) (conflictRequeues b)) ->
  wp (bind m f) (conflictRequeues failed).
Proof.
  intros Hm Hf. apply wp_bind. eapply wp_mono; [| exact Hm].
  intros tr1 a [Htr1 Ha]. eapply wp_mono; [| exact (Hf _ a Ha)].
  intros tr2 b H. apply conflictRequeues_prefix; assumption.
Qed.

(** The same, after a step of which only the result matters. *)
Lemma wp_bind_conflict_safe {A : Type} failed (R : A -> Prop) (m : Prog A)
    (f : A -> Prog (Result * option error)) :
  safe noPersist R m ->
  (forall b a, R a -> wp (f a) (conflictRequeues b)) ->
  wp (bind m f) (conflictRequeues failed).
Proof.
  intros Hm Hf. eapply wp_bind_conflict; [apply tracked_safe; exact Hm |].
  intros b a [_ Ha]. apply Hf. exact Ha.
Qed.

(** The same, for programs that may panic: no write precedes a panic. *)
Lemma wpp_bind_conflict {A : Type} failed (R : bool -> A -> Prop) (m : Prog A)
    (f : A -> Prog (Result * option error)) :
  ptracked failed R m ->
  (forall b a, R b a -> wpp (f a) (conflictRequeues b) (Forall noPersist)) ->
  wpp (bind m f) (conflictRequeues failed) (Forall noPersist).
Proof.
  intros Hm Hf. apply wpp_bind. eapply wpp_mono; [| | exact Hm]; [| auto].
  intros tr1 a [Htr1 Ha]. eapply wpp_mono; [| | exact (Hf _ a Ha)].
  - intros tr2 b H. apply conflictRequeues_prefix; assumption.
  - intros tr2 H. apply Forall_app; auto.
Qed.

Lemma wpp_bind_conflict_safe {A : Type} failed (R : A -> Prop) (m : Prog A)
    (f : A -> Prog (Result * option error)) :
  safe noPersist R m ->
  (forall b a, R a -> wpp (f a) (conflictRequeues b) (Forall noPersist)) ->
  wpp (bind m f) (conflictRequeues failed) (Forall noPersist).
Proof.
  intros Hm Hf. eapply wpp_bind_conflict; [apply tracked_ptracked, tracked_safe; exact Hm |].
  intros b a [_ Ha]. apply Hf. exact Ha.
Qed.

Lemma wp_conflict_ret failed (a : Result * option error) :
  wp (Ret a) (conflictRequeues failed).
Proof. apply conflictRequeues_nil. Qed.

(** The two helpers answer a conflict with a requeue and a nil error. *)
Lemma updateCR_conflict failed d : wp (updateCRorFailReconcile d) (conflictRequeues failed).
Proof.
  unfold updateCRorFailReconcile. cbn [bind call wp]. intros r.
  destruct r as [e |]; [destruct (IsConflict e) eqn:Hc |]; cbn [wp];
    apply conflictRequeues_last; unfold conflicted; simpl; rewrite ?Hc;
    intros H; try discriminate; split; reflexivity.
Qed.

Lemma updateCRStatus_conflict failed d :
  wp (updateCRStatusOrFailReconcile d) (conflictRequeues failed).
Proof.
  unfold updateCRStatusOrFailReconcile. cbn [bind call wp]. intros r.
  destruct r as [e |]; [destruct (IsConflict e) eqn:Hc |]; cbn [wp];
    apply conflictRequeues_last; unfold conflicted; simpl; rewrite ?Hc;
    intros H; try discriminate; split; reflexivity.
Qed.

(** handleTransientErr drops the answer of its write: no requeue, also on a
    conflict.  It runs after a client error only. *)
Lemma handleTransientErr_conflict d transientErr fmt st :
  wp (handleTransientErr None d transientErr fmt st) (conflictRequeues true).
Proof.
  unfold handleTransientErr, updateCRStatusOrFailReconcile. cbv zeta.
  cbn [bind call wp]. intros r.
  destruct r as [e |]; [destruct (IsConflict e) |]; cbn [bind wp];
    destruct (Temporary transientErr); cbn [wp];
    apply conflictRequeues_last; intros _; (split; [reflexivity | discriminate]).
Qed.

Lemma Reconcile_backups_conflict failed d requeueFlag :
  wp (Reconcile_backups d requeueFlag) (conflictRequeues failed).
Proof.
  unfold Reconcile_backups.
  eapply wp_bind_conflict_safe; [eapply checkNewBackups_quiet; auto with quiet |].
  intros b [backupList [err |]] _; [apply wp_conflict_ret |].
  destruct (negb _); [| apply wp_conflict_ret].
  destruct (backupListUpdateNeeded_iff backupList (AvailableBackups (Status d)))
    as (u & Hu & _).
  rewrite Hu. destruct u; [apply updateCRStatus_conflict | apply wp_conflict_ret].
Qed.

Lemma Reconcile_failsafe_conflict failed d requeueFlag :
  wp (Reconcile_failsafe d requeueFlag) (conflictRequeues failed).
Proof.
  unfold Reconcile_failsafe.
  eapply wp_bind_conflict_safe; [eapply isDBODProvisioned_quiet; auto with quiet |].
  intros b dbodReady _. destruct dbodReady; cbn [negb].
  - destruct (_ && _ && _); [apply updateCRStatus_conflict | apply Reconcile_backups_conflict].
  - destruct (setNotReady _ _) as [update d'].
    destruct update; [| apply wp_conflict_ret].
    unfold updateCRStatusOrFailReconcile. cbn [bind call wp]. intros r.
    destruct r as [e |]; [destruct (IsConflict e) |]; cbn [bind wp];
      apply conflictRequeues_last; intros _; split; reflexivity.
Qed.

Lemma Reconcile_update_conflict failed d isUpdateAnnotationSet requeueFlag :
  wp (Reconcile_update None d isUpdateAnnotationSet requeueFlag) (conflictRequeues failed).
Proof.
  unfold Reconcile_update.
  eapply wp_bind_conflict with
    (R := fun b r => match r with
                     | inl returned => wp returned (conflictRequeues b)
                     | inr _ => True
                     end).
  { destruct (_ && _ && _); [| apply tracked_ret; exact I].
    eapply tracked_bind; [apply updateDrupalVersion_tracked |].
    intros b [d' v] Hv. simpl in Hv.
    destruct (vu_err v) as [err' |].
    - destruct (Temporary err') eqn:HT; apply tracked_ret; [apply wp_conflict_ret |].
      rewrite (Hv err' eq_refl HT). apply handleTransientErr_conflict.
    - destruct (vu_update v); [apply tracked_ret; apply updateCRStatus_conflict |].
      destruct (vu_requeue v); apply tracked_ret; [apply wp_conflict_ret | exact I]. }
  intros b [returned | d1] Hr; [exact Hr |].
  eapply wp_bind_conflict_safe with (R := fun _ => True).
  { destruct (_ && _ && _); [| apply safe_ret; exact I].
    eapply safe_mono;
      [| | apply (updateDBSchema_safe noPersist (fun _ => True)); auto with quiet];
      auto. }
  intros b' [d2 update] _.
  destruct update; [apply updateCRStatus_conflict |].
  destruct (unsetUpdateInProgress d2) as [unset d3].
  destruct unset; [apply updateCR_conflict | apply Reconcile_failsafe_conflict].
Qed.

Lemma Reconcile_resources_conflict failed d isUpdateAnnotationSet requeueFlag :
  wpp (Reconcile_resources None d isUpdateAnnotationSet requeueFlag)
    (conflictRequeues failed) (Forall noPersist).
Proof.
  unfold Reconcile_resources.
  eapply wpp_bind_conflict; [apply ensureResources_tracked |].
  intros b errs Hb. apply wp_wpp. destruct errs as [| e errs]; cbn [length Nat.eqb negb].
  - apply Reconcile_update_conflict.
  - rewrite Hb by discriminate. cbv zeta.
    destruct (setNotReady _ _) as [ch d']. apply handleTransientErr_conflict.
Qed.

Lemma Reconcile_updateNeeded_conflict failed d :
  wpp (Reconcile_updateNeeded None d) (conflictRequeues failed) (Forall noPersist).
Proof.
  unfold Reconcile_updateNeeded. cbv zeta.
  eapply wpp_bind_conflict_safe; [eapply updateNeeded_quiet; auto with quiet |].
  intros b [needed reconcileErr] _.
  destruct (_ && _ && _); [| apply Reconcile_resources_conflict].
  destruct reconcileErr; [apply Reconcile_resources_conflict |].
  destruct needed; [| apply Reconcile_resources_conflict].
  destruct (setUpdateInProgress d) as [set d'].
  destruct set; [apply wp_wpp, updateCR_conflict | apply Reconcile_resources_conflict].
Qed.

Lemma Reconcile_initialized_noPersist d update :
  safe noPersist (fun _ => True) (Reconcile_initialized d update).
Proof.
  unfold Reconcile_initialized.
  destruct (negb _); [| apply safe_ret; exact I].
  eapply safe_bind;
    [eapply (isDrupalSiteInstalled_safe noPersist (fun _ => True)); auto with quiet |].
  intros installed _.
  eapply safe_bind with (R1 := fun _ => True).
  { destruct installed; [apply safe_ret; exact I |].
    eapply isCloneJobCompleted_quiet; auto with quiet. }
  intros done _. destruct done.
  - destruct (setInitialized d) as [ch d']. apply safe_ret. exact I.
  - destruct (setNotInitialized d) as [ch d']. apply safe_ret. exact I.
Qed.

Lemma Reconcile_conditions_conflict failed d :
  wpp (Reconcile_conditions None d) (conflictRequeues failed) (Forall noPersist).
Proof.
  unfold Reconcile_conditions. cbv zeta.
  destruct (if negb _ then _ else _) as [d1 u1].
  eapply wpp_bind_conflict_safe; [eapply isDrupalSiteReady_quiet; auto with quiet |].
  intros b siteReady _.
  destruct (if siteReady then _ else _) as [d2 u2].
  eapply wpp_bind_conflict_safe; [apply Reconcile_initialized_noPersist |].
  intros b1 [d3 u3] _.
  eapply wpp_bind_conflict with
    (R := fun b r => match r with
                     | inl returned => wp returned (conflictRequeues b)
                     | inr _ => True
                     end).
  { apply tracked_ptracked. destruct (_ && _); [| apply tracked_ret; exact I].
    eapply tracked_bind;
      [apply tracked_safe with (R := fun _ => True);
       apply (execToServerPodErrOnStderr_safe noPersist (fun _ => True));
       auto with quiet |].
    intros b2 [sout err'] _. destruct (notNil err').
    - apply tracked_ret. apply updateCRStatus_conflict.
    - destruct (String.eqb sout ""); [| apply tracked_ret; exact I].
      destruct (RemoveCondition d3 "DBUpdatesPending") as [removed d4].
      apply tracked_ret. exact I. }
  intros b2 [returned | [d4 u4]] H4; [apply wp_wpp; exact H4 |].
  destruct (Reconcile_clearFailures d4 u4) as [d5 u5].
  destruct u5;
    [apply wp_wpp, updateCRStatus_conflict | apply Reconcile_updateNeeded_conflict].
Qed.

Lemma Reconcile_conflict_wp (req : NamespacedName) :
  wpp (Reconcile req) (conflictRequeues false) (Forall noPersist).
Proof.
  unfold Reconcile.
  eapply wpp_bind_conflict with (R := fun _ _ => True).
  { apply wpp_call. intros r. split; [repeat constructor | exact I]. }
  intros b [d | err] _.
  2: { apply wp_wpp. destruct (IsNotFound err); apply wp_conflict_ret. }
  cbv zeta. destruct (notNil _).
  - apply wp_wpp. destruct (ContainsFinalizer _ _); [| apply wp_conflict_ret].
    unfold cleanupDrupalSite, ensureNoSchedule. cbv zeta.
    eapply wp_bind_conflict_safe; [eapply ensureNoObject_quiet; auto with quiet |].
    intros b1 [err |] _; [apply wp_conflict_ret | apply updateCR_conflict].
  - eapply wpp_bind_conflict_safe; [eapply ensureSpecFinalizer_safe; auto with quiet |].
    intros b1 [[d1 update] specErr] _.
    destruct specErr as [specErr |].
    { destruct (setErrorCondition _ _). apply wp_wpp, updateCRStatus_conflict. }
    destruct update; [apply wp_wpp, updateCR_conflict |].
    destruct (validateSpec (Spec d1)) as [specErr |].
    { destruct (setErrorCondition _ _). apply wp_wpp, updateCRStatus_conflict. }
    apply Reconcile_conditions_conflict.
Qed.

(** What [Reconcile_conflict_wp] gives of a run that writes the site: the
    pass has returned. *)
Lemma Reconcile_conflict_run {W : Type} (h : Handler W) (w : W) (req : NamespacedName)
    (pre : list Event) (e : Event) (post : list Event) :
  (run h (Reconcile req) w).2 = (pre ++ e :: post)%list ->
  persisted e <> None ->
  exists a, (run h (Reconcile req) w).1.1 = Some a /\
            conflictRequeues false (run h (Reconcile req) w).2 a.
Proof.
  intros Htr He.
  pose proof (wpp_run h (Reconcile req) _ _ w (Reconcile_conflict_wp req)) as H.
  destruct (run h (Reconcile req) w).1.1 as [a |]; [exists a; auto |].
  exfalso. rewrite Htr in H. apply Forall_app in H as [_ H].
  inversion H as [| ? ? Hn _]; subst. contradiction.
Qed.

End Conflicts.

Lemma conflicted_persisted e : conflicted e = true -> persisted e <> None.
Proof.
  destruct e as [R c r]. unfold conflicted. destruct c; simpl; discriminate.
Qed.




(** ** Ingress objects *)

Section Ingress.

Context {E : Externals}.

Local Abbreviation noIngress := (fun e : Event => ingressCreated e = false).

Lemma ensureResourceX_noIngress d resType :
  existsb (String.eqb resType) nonIngressResources = true ->
  psafe noIngress (fun _ => True) (ensureResourceX d resType).
Proof.
  intros H. apply existsb_exists in H as (x & H & Hx).
  apply String.eqb_eq in Hx. subst x.
  unfold nonIngressResources in H. simpl in H.
  repeat (destruct H as [<- | H]); try contradiction;
    unfold ensureResourceX, createOrUpdate, createOrUpdateWith,
      callback.updateConfigMapForPHPFPM, callback.updateConfigMapForNginx,
      callback.updateConfigMapForSiteSettings, callback.persistentVolumeClaimForDrupalSite;
    cbv zeta; simpl (String.eqb _ _); cbv iota;
    cbn [bind call];
    repeat first
      [ apply psafe_ret; exact I
      | apply psafe_panic
      | apply psafe_vis; [intros ?; reflexivity | intros ?]
      | progress unfold call
      | match goal with
        | |- psafe _ _ (bind (bind (match ?x with _ => _ end) _) _) => destruct x
        | |- psafe _ _ (bind (match ?x with _ => _ end) _) => destruct x
        | |- psafe _ _ (match ?x with _ => _ end) => destruct x
        end; cbn [bind call negb] ].
Qed.

Lemma ensureNoObject_noIngress k key : safe noIngress (fun _ => True) (ensureNoObject k key).
Proof.
  unfold ensureNoObject. cbn [bind call].
  repeat first
    [ apply safe_ret; exact I
    | apply safe_vis; [intros ?; reflexivity | intros ?]
    | match goal with
      | |- safe _ _ (match ?x with _ => _ end) => destruct x
      end ].
Qed.

Lemma isDBODProvisioned_noIngress d : safe noIngress (fun _ => True) (isDBODProvisioned d).
Proof.
  unfold isDBODProvisioned. cbn [bind call].
  apply safe_vis; [intros ?; reflexivity |]. intros [database | err]; apply safe_ret; exact I.
Qed.

Lemma appendErr_noIngress errs step msg :
  psafe noIngress (fun _ => True) step ->
  psafe noIngress (fun _ => True) (appendErr errs step msg).
Proof.
  intros H. unfold appendErr. eapply psafe_bind; [exact H |].
  intros [err |] _; apply psafe_ret; exact I.
Qed.

Ltac noIngress_chain :=
  lazymatch goal with
  | |- psafe _ _ (bind _ _) =>
      eapply psafe_bind with (R1 := fun _ => True); [| intros ? _]
  | |- psafe _ _ (appendErr _ _ _) => apply appendErr_noIngress
  | |- psafe _ _ (ensureResourceX _ _) => apply ensureResourceX_noIngress; reflexivity
  | |- psafe _ _ (ensureNoObject _ _) => apply safe_psafe, ensureNoObject_noIngress
  | |- psafe _ _ (isDBODProvisioned _) => apply safe_psafe, isDBODProvisioned_noIngress
  | |- psafe _ _ (if ?c then _ else _) => destruct c
  | |- psafe _ _ (Ret _) => apply psafe_ret; exact I
  end.

(** The part of C4 on creation: unless the site is initialized and
    published, ensureResources issues no create-or-update of a route, of a
    WebDAV route or of an OIDC return URI, whatever the cluster answers,
    also when it panics on the size of the volume claim. *)
Lemma ensureResources_creates_no_ingress d :
  ConditionTrue d "Initialized" && Publish (Spec d) = false ->
  psafe noIngress (fun _ => True) (ensureResources d).
Proof.
  intros Hguard.
  unfold ensureResources, ensureNoRoute, ensureNoWebDAVRoute, ensureNoReturnURI. cbv zeta.
  rewrite Hguard. repeat noIngress_chain.
Qed.

End Ingress.

(** * Further properties of the controller *)

(** ** The writes of a pass *)

(** X1. A pass writes the site at most once, and then as its last call: every
    path of Reconcile that reaches updateCRorFailReconcile or
    updateCRStatusOrFailReconcile ends there. *)
Theorem Reconcile_writes_once_last {E : Externals} {W : Type} (h : Handler W) (w : W)
    (req : NamespacedName) (pre : list Event) (e : Event) (post : list Event) :
  (run h (Reconcile req) w).2 = (pre ++ e :: post)%list ->
  persisted e <> None ->
  post = [] /\ Forall (fun e' => persisted e' = None) pre.
Proof.
  intros Htr He.
  destruct (Reconcile_conflict_run h w req pre e post Htr He) as (a & _ & H).
  split; [exact (proj1 (H pre e post Htr He)) |].
  apply Forall_forall. intros e' Hin.
  destruct (persisted e') eqn:Hp; [| reflexivity]. exfalso.
  apply list_elem_of_split in Hin as (p1 & p2 & ->).
  rewrite <- app_assoc in Htr. simpl in Htr.
  destruct (H p1 e' (p2 ++ e :: post)%list Htr) as [Hnil _]; [congruence |].
  destruct p2; discriminate.
Qed.

Lemma Reconcile_writes_once_last_witness :
  @nil Event = [] /\
  Forall (fun e' => persisted e' = None)
    (List.removelast (run fakeClient (Reconcile req0) clusterServing).2).
Proof.
  apply (Reconcile_writes_once_last (E := refExternals) fakeClient clusterServing req0
           (List.removelast (run fakeClient (Reconcile req0) clusterServing).2)
           (lastCall (run fakeClient (Reconcile req0) clusterServing).2) []).
  - vm_compute. reflexivity.
  - vm_compute. discriminate.
Defined.

(** ** Deletion *)

Lemma ContainsFinalizer_RemoveFinalizer (d : DrupalSite) (finalizer : string) :
  ContainsFinalizer (RemoveFinalizer d finalizer) finalizer = false.
Proof.
  unfold ContainsFinalizer, RemoveFinalizer. simpl.
  induction (Finalizers d) as [| x l IH]; simpl; [reflexivity |].
  destruct (String.eqb x finalizer) eqn:Hx; simpl; [exact IH |].
  rewrite String.eqb_sym, Hx. exact IH.
Qed.

Lemma cleanupDrupalSite_wp {E : Externals} (d : DrupalSite) :
  wp (cleanupDrupalSite d)
    (fun tr a =>
       Forall readOrWrite tr /\
       (forall e d', In e tr -> persisted e = Some d' ->
          d' = RemoveFinalizer d finalizerStr /\ existsb clientError tr = false) /\
       (existsb clientError tr = true -> exists err, a.2 = Some err)).
Proof.
  unfold cleanupDrupalSite, ensureNoSchedule, ensureNoObject, updateCRorFailReconcile.
  cbv zeta. cbn [bind call wp]. intros [e1 |].
  - destruct (IsNotFound e1) eqn:Hnf; cbn [bind call wp].
    + intros r.
      assert (Hq : forall a : Result * option error,
                 Forall readOrWrite
                   [Ev (GetObject KSchedule
                          (mkNamespacedName veleroNamespace
                             (Name (RemoveFinalizer d finalizerStr)))) (Some e1);
                    Ev (Update (RemoveFinalizer d finalizerStr)) r] /\
                 (forall e d',
                    In e [Ev (GetObject KSchedule
                                (mkNamespacedName veleroNamespace
                                   (Name (RemoveFinalizer d finalizerStr)))) (Some e1);
                          Ev (Update (RemoveFinalizer d finalizerStr)) r] ->
                    persisted e = Some d' ->
                    d' = RemoveFinalizer d finalizerStr /\
                    existsb clientError
                      [Ev (GetObject KSchedule
                             (mkNamespacedName veleroNamespace
                                (Name (RemoveFinalizer d finalizerStr)))) (Some e1);
                       Ev (Update (RemoveFinalizer d finalizerStr)) r] = false) /\
                 (existsb clientError
                    [Ev (GetObject KSchedule
                           (mkNamespacedName veleroNamespace
                              (Name (RemoveFinalizer d finalizerStr)))) (Some e1);
                     Ev (Update (RemoveFinalizer d finalizerStr)) r] = true ->
                  exists err, a.2 = Some err)).
      { intros a. split; [repeat constructor |]. split.
        - intros e d' Hin; simpl in Hin; destruct Hin as [<- | [<- | []]]; simpl;
            [discriminate |].
          intros [= <-]. rewrite Hnf. split; reflexivity.
        - simpl. rewrite Hnf. discriminate. }
      destruct r as [eu |]; [destruct (IsConflict eu) |]; apply Hq.
    + split; [repeat constructor |]. split.
      * intros e d' Hin; simpl in Hin; destruct Hin as [<- | []]. simpl. discriminate.
      * intros _. eexists. reflexivity.
  - intros [e2 |]; cbn [bind call wp].
    + split; [repeat constructor |]. split.
      * intros e d' Hin; simpl in Hin; destruct Hin as [<- | [<- | []]]; simpl; discriminate.
      * intros _. eexists. reflexivity.
    + intros r.
      assert (Hq : forall a : Result * option error,
                 let tr :=
                   [Ev (GetObject KSchedule
                          (mkNamespacedName veleroNamespace
                             (Name (RemoveFinalizer d finalizerStr)))) None;
                    Ev (Delete KSchedule
                          (mkNamespacedName veleroNamespace
                             (Name (RemoveFinalizer d finalizerStr)))) None;
                    Ev (Update (RemoveFinalizer d finalizerStr)) r] in
                 Forall readOrWrite tr /\
                 (forall e d', In e tr -> persisted e = Some d' ->
                    d' = RemoveFinalizer d finalizerStr /\ existsb clientError tr = false) /\
                 (existsb clientError tr = true -> exists err, a.2 = Some err)).
      { intros a. cbv zeta. split; [repeat constructor |]. split.
        - intros e d' Hin; simpl in Hin; destruct Hin as [<- | [<- | [<- | []]]]; simpl;
            try discriminate.
          intros [= <-]. split; reflexivity.
        - simpl. discriminate. }
      destruct r as [eu |]; [destruct (IsConflict eu) |]; apply Hq.
Qed.

(** X2. A site that is being deleted.  The pass creates or updates no object
    and runs no command.  Without the finalizer it makes no call after the
    fetch.  With it, the site is written only without the finalizer and
    only when no call on the backup schedule failed; when one failed, the
    pass returns an error and the finalizer stays. *)
Theorem Reconcile_deletion {E : Externals} {W : Type} (h : Handler W) (w w1 : W)
    (req : NamespacedName) (d : DrupalSite) :
  h _ (GetDrupalSite req) w = (inl d, w1) ->
  notNil (DeletionTimestamp d) = true ->
  let out := run h (Reconcile req) w in
  Forall readOrWrite out.2 /\
  (ContainsFinalizer d finalizerStr = false ->
   out = (Some (emptyResult, None), w1, [Ev (GetDrupalSite req) (inl d)])) /\
  (forall e d', In e out.2 -> persisted e = Some d' ->
     d' = RemoveFinalizer d finalizerStr /\ ContainsFinalizer d' finalizerStr = false /\
     existsb clientError out.2 = false) /\
  (existsb clientError out.2 = true -> exists res err, out.1.1 = Some (res, Some err)).
Proof.
  intros Hget Hdel. cbv zeta. unfold Reconcile. rewrite run_bind, run_call, Hget.
  cbn [fst snd]. cbv zeta. rewrite Hdel.
  destruct (ContainsFinalizer d finalizerStr) eqn:Hfin.
  - destruct (wp_run h _ _ w1 (cleanupDrupalSite_wp d)) as ([res err] & Hrun & Hq & Hp & Herr).
    destruct (run h (cleanupDrupalSite d) w1) as [[a w2] tr]. simpl in *. subst a.
    split; [constructor; [split; reflexivity | exact Hq] |].
    split; [discriminate |]. split.
    + intros e d' Hin; simpl in Hin; destruct Hin as [<- | Hin]; [discriminate |]. intros He.
      destruct (Hp e d' Hin He) as [-> Hc].
      split; [reflexivity |]. split; [apply ContainsFinalizer_RemoveFinalizer | exact Hc].
    + intros Hc. destruct (Herr Hc) as [err' ->]. eexists _, _. reflexivity.
  - simpl. split; [repeat constructor |]. split; [reflexivity |]. split.
    + intros e d' Hin; simpl in Hin; destruct Hin as [<- | []]. discriminate.
    + discriminate.
Qed.

Lemma Reconcile_deletion_witness :
  let out := run fakeClient (Reconcile req0) clusterDeleting in
  Forall readOrWrite out.2 /\
  (ContainsFinalizer siteDeleting finalizerStr = false ->
   out = (Some (emptyResult, None), clusterDeleting, [Ev (GetDrupalSite req0) (inl siteDeleting)])) /\
  (forall e d', In e out.2 -> persisted e = Some d' ->
     d' = RemoveFinalizer siteDeleting finalizerStr /\
     ContainsFinalizer d' finalizerStr = false /\
     existsb clientError out.2 = false) /\
  (existsb clientError out.2 = true -> exists res err, out.1.1 = Some (res, Some err)).
Proof.
  apply (Reconcile_deletion (E := refExternals) fakeClient clusterDeleting clusterDeleting req0
           siteDeleting).
  - vm_compute. reflexivity.
  - reflexivity.
Defined.

(** ** Defaults of the spec *)

Lemma ContainsFinalizer_AddFinalizer (d : DrupalSite) (finalizer : string) :
  ContainsFinalizer (AddFinalizer d finalizer) finalizer = true.
Proof.
  unfold AddFinalizer. destruct (ContainsFinalizer d finalizer) eqn:H; [exact H |].
  unfold ContainsFinalizer. simpl. rewrite existsb_app. simpl.
  rewrite String.eqb_refl. rewrite orb_true_r. reflexivity.
Qed.

Lemma ensureSpecFinalizer_wp {E : Externals} (d : DrupalSite) :
  wp (ensureSpecFinalizer d)
    (fun tr r =>
       r.1.2 = match r.2 with
               | Some _ => false
               | None => negb (ContainsFinalizer d finalizerStr)
               end /\
       ContainsFinalizer r.1.1 finalizerStr = true /\
       notNil (Labels r.1.1 !! "production") = MainSite (Spec d) /\
       (SiteURL (Spec d) <> "" -> SiteURL (Spec r.1.1) = SiteURL (Spec d)) /\
       (WebDAVPassword (Spec_Configuration (Spec d)) <> "" ->
        WebDAVPassword (Spec_Configuration (Spec r.1.1)) =
          WebDAVPassword (Spec_Configuration (Spec d))) /\
       (CloneFrom (Spec_Configuration (Spec d)) <> "" ->
        CloneFrom (Spec_Configuration (Spec r.1.1)) = CloneFrom (Spec_Configuration (Spec d))
        /\ r.2 = None) /\
       Forall (fun e => persisted e = None /\ readOrWrite e) tr).
Proof.
  unfold ensureSpecFinalizer. cbv zeta.
  set (r1 := if negb (ContainsFinalizer d finalizerStr)
             then (AddFinalizer d finalizerStr, true) else (d, false)).
  assert (H1 : ContainsFinalizer r1.1 finalizerStr = true /\
               r1.2 = negb (ContainsFinalizer d finalizerStr) /\
               Spec r1.1 = Spec d /\ Labels r1.1 = Labels d).
  { unfold r1. destruct (ContainsFinalizer d finalizerStr) eqn:Hc; simpl.
    - auto.
    - split; [apply ContainsFinalizer_AddFinalizer |].
      unfold AddFinalizer. rewrite Hc. auto. }
  destruct r1 as [d1 u1]. simpl in H1. destruct H1 as (Hf1 & Hu1 & Hs1 & Hl1).
  set (d2 := if String.eqb (SiteURL (Spec d1)) "" then _ else d1).
  assert (H2 : ContainsFinalizer d2 finalizerStr = true /\ Labels d2 = Labels d /\
               MainSite (Spec d2) = MainSite (Spec d) /\
               Spec_Configuration (Spec d2) = Spec_Configuration (Spec d) /\
               (SiteURL (Spec d) <> "" -> SiteURL (Spec d2) = SiteURL (Spec d))).
  { unfold d2. rewrite Hs1. destruct (String.eqb (SiteURL (Spec d)) "") eqn:Hu.
    - apply String.eqb_eq in Hu.
      destruct (MainSite (Spec d)) eqn:Hm; simpl; rewrite ?Hs1, ?Hm; repeat split; auto;
        intros; contradiction.
    - rewrite Hs1. repeat split; auto. }
  clearbody d2. clear Hf1 Hs1 Hl1 d1. destruct H2 as (Hf2 & Hl2 & Hm2 & Hc2 & Hu2).
  apply wp_bind.
  apply wp_mono with
    (Q := fun tr d3 =>
            Forall (fun e => persisted e = None /\ readOrWrite e) tr /\
            ContainsFinalizer d3 finalizerStr = true /\ Labels d3 = Labels d /\
            MainSite (Spec d3) = MainSite (Spec d) /\
            CloneFrom (Spec_Configuration (Spec d3)) = CloneFrom (Spec_Configuration (Spec d)) /\
            SiteURL (Spec d3) = SiteURL (Spec d2) /\
            Namespace d3 = Namespace d2 /\
            (WebDAVPassword (Spec_Configuration (Spec d)) <> "" ->
             WebDAVPassword (Spec_Configuration (Spec d3)) =
               WebDAVPassword (Spec_Configuration (Spec d)))).
  2: { rewrite Hc2. destruct (String.eqb (WebDAVPassword (Spec_Configuration (Spec d))) "") eqn:Hp.
       - apply String.eqb_eq in Hp. unfold generateWebDAVpassword. cbn [bind call wp].
         intros now. simpl. rewrite Hc2. repeat split; auto.
         + repeat constructor.
         + intros; contradiction.
       - simpl. rewrite Hc2. repeat split; auto. }
  intros tr1 d3 (Htr1 & Hf3 & Hl3 & Hm3 & Hc3 & Hu3 & Hn3 & Hp3).
  set (d4 := if MainSite (Spec d3) && negb (notNil (Labels d3 !! "production")) then _ else d3).
  set (d5 := if negb (MainSite (Spec d4)) && notNil (Labels d3 !! "production") then _ else d4).
  assert (H5 : ContainsFinalizer d5 finalizerStr = true /\
               notNil (Labels d5 !! "production") = MainSite (Spec d) /\
               Spec d5 = Spec d3 /\ Namespace d5 = Namespace d3).
  { unfold d5, d4. rewrite Hm3, Hl3.
    destruct (MainSite (Spec d)) eqn:Hm, (Labels d !! "production") eqn:Hlab; simpl;
      rewrite ?Hm3, ?Hm, ?Hl3; simpl; repeat split; auto.
    all: try (destruct (size (Labels d) =? 0)%nat; simpl).
    all: rewrite ?Hl3, ?Hlab, ?lookup_insert_eq, ?lookup_delete_eq; try reflexivity; auto. }
  clearbody d5. clear d4. destruct H5 as (Hf5 & Hlab5 & Hs5 & Hn5).
  rewrite Hs5, Hc3.
  assert (Hfinal : forall (tr2 : list Event) (d6 : DrupalSite) (u : bool)
                     (err : option reconcileError),
             Forall (fun e => persisted e = None /\ readOrWrite e) tr2 ->
             u = match err with Some _ => false | None => u1 end ->
             ContainsFinalizer d6 finalizerStr = true ->
             Labels d6 = Labels d5 ->
             SiteURL (Spec d6) = SiteURL (Spec d5) ->
             WebDAVPassword (Spec_Configuration (Spec d6)) =
               WebDAVPassword (Spec_Configuration (Spec d5)) ->
             (CloneFrom (Spec_Configuration (Spec d)) <> "" ->
              CloneFrom (Spec_Configuration (Spec d6)) = CloneFrom (Spec_Configuration (Spec d))
              /\ err = None) ->
             (fun tr r =>
                r.1.2 = match r.2 with
                        | Some _ => false
                        | None => negb (ContainsFinalizer d finalizerStr)
                        end /\
                ContainsFinalizer r.1.1 finalizerStr = true /\
                notNil (Labels r.1.1 !! "production") = MainSite (Spec d) /\
                (SiteURL (Spec d) <> "" -> SiteURL (Spec r.1.1) = SiteURL (Spec d)) /\
                (WebDAVPassword (Spec_Configuration (Spec d)) <> "" ->
                 WebDAVPassword (Spec_Configuration (Spec r.1.1)) =
                   WebDAVPassword (Spec_Configuration (Spec d))) /\
                (CloneFrom (Spec_Configuration (Spec d)) <> "" ->
                 CloneFrom (Spec_Configuration (Spec r.1.1)) =
                   CloneFrom (Spec_Configuration (Spec d)) /\ r.2 = None) /\
                Forall (fun e => persisted e = None /\ readOrWrite e) tr)
               (tr1 ++ tr2)%list (d6, u, err)).
  { intros tr2 d6 u err Htr2 Hu Hf6 Hl6 Hu6 Hp6 Hc6. simpl.
    split; [rewrite Hu, Hu1; reflexivity |]. split; [exact Hf6 |].
    split; [rewrite Hl6; exact Hlab5 |].
    split; [intros H; rewrite Hu6, Hs5, Hu3; auto |].
    split; [intros H; rewrite Hp6, Hs5; auto |].
    split; [exact Hc6 |]. apply Forall_app. auto. }
  destruct (String.eqb (CloneFrom (Spec_Configuration (Spec d))) "") eqn:Hclone.
  - apply String.eqb_eq in Hclone.
    destruct (LabelSelectorAsSelector _).
    + apply Hfinal; auto. intros; contradiction.
    + cbn [bind call wp]. intros [[| item0 items] | err].
      * apply Hfinal; auto; [repeat constructor | intros; contradiction].
      * destruct (_ && _); apply Hfinal; auto;
          try (repeat constructor); intros; contradiction.
      * apply Hfinal; auto; [repeat constructor | intros; contradiction].
  - apply Hfinal; auto. intros _. rewrite Hs5, Hc3. split; reflexivity.
Qed.

(** X3. ensureSpecFinalizer, against every cluster.  The site it returns
    carries the finalizer and has the label "production" exactly when it is
    the main site.  A change is reported only when the finalizer was
    missing and no error is returned: the defaults filled in for SiteURL,
    WebDAVPassword and CloneFrom are never reported.  A SiteURL, a
    password or a CloneFrom that is set is left alone, and with a CloneFrom
    set no error is possible.  Nothing is written to the cluster. *)
Theorem ensureSpecFinalizer_spec {E : Externals} {W : Type} (h : Handler W) (w : W)
    (d : DrupalSite) :
  exists d' update err,
    (run h (ensureSpecFinalizer d) w).1.1 = Some (d', update, err) /\
    update = match err with
             | Some _ => false
             | None => negb (ContainsFinalizer d finalizerStr)
             end /\
    ContainsFinalizer d' finalizerStr = true /\
    notNil (Labels d' !! "production") = MainSite (Spec d) /\
    (SiteURL (Spec d) <> "" -> SiteURL (Spec d') = SiteURL (Spec d)) /\
    (WebDAVPassword (Spec_Configuration (Spec d)) <> "" ->
     WebDAVPassword (Spec_Configuration (Spec d')) =
       WebDAVPassword (Spec_Configuration (Spec d))) /\
    (CloneFrom (Spec_Configuration (Spec d)) <> "" ->
     CloneFrom (Spec_Configuration (Spec d')) = CloneFrom (Spec_Configuration (Spec d))
     /\ err = None) /\
    Forall (fun e => persisted e = None /\ readOrWrite e) (run h (ensureSpecFinalizer d) w).2.
Proof.
  destruct (wp_run h _ _ w (ensureSpecFinalizer_wp d)) as ([[d' update] err] & Hrun & H).
  exists d', update, err. split; [exact Hrun | exact H].
Qed.

(** ** The pod that runs the commands *)

Lemma getRunningPodForVersion_loop_find {E : Externals} (items : list Pod) (release : string) :
  getRunningPodForVersion_loop items release =
  match List.find (carriesRelease release) items with
  | Some v =>
      match Pod_Phase v with
      | PodRunning => (v, None)
      | _ => (v, Some (newApplicationError None (sentinel ErrPodNotRunning)))
      end
  | None => (emptyPod, Some (newApplicationError None (sentinel ErrClientK8s)))
  end.
Proof.
  induction items as [| v items IH]; simpl; [reflexivity |].
  unfold carriesRelease at 1. destruct (String.eqb _ release); [reflexivity | exact IH].
Qed.

(** X4. execToServerPod sends the command to the first listed pod that carries
    the release of the site, in the namespace of the site, and only if that
    pod is running: when it is not, no command is sent, also when a later
    pod of the same release is running. *)
Theorem execToServerPod_target {E : Externals} {W : Type} (h : Handler W) (w w1 : W)
    (d : DrupalSite) (containerName : string) (command : list string) (items : list Pod) :
  LabelSelectorAsSelector (podLabels d) = None ->
  h _ (ListPods (Namespace d) (podLabels d)) w = (inl items, w1) ->
  let out := run h (execToServerPod d containerName command) w in
  let listed := Ev (ListPods (Namespace d) (podLabels d)) (inl items) in
  match List.find (carriesRelease (releaseID d)) items with
  | Some v =>
      match Pod_Phase v with
      | PodRunning =>
          let target := execToPodThroughAPI containerName (Pod_Name v) (Namespace d) command in
          out = (Some (h _ target w1).1, (h _ target w1).2,
                 [listed; Ev target (h _ target w1).1])
      | _ => commands out.2 = [] /\ exists err, out.1.1 = Some ("", "", Some err)
      end
  | None => commands out.2 = [] /\ exists err, out.1.1 = Some ("", "", Some err)
  end.
Proof.
  intros Hsel Hlist. cbv zeta.
  unfold execToServerPod, getRunningPodForVersion. rewrite Hsel.
  rewrite !run_bind, run_call, Hlist. cbn [fst snd].
  destruct items as [| v0 items0]; [simpl; split; [reflexivity | eexists; reflexivity] |].
  change (length (v0 :: items0) =? 0)%nat with false. cbv iota.
  rewrite getRunningPodForVersion_loop_find.
  destruct (List.find _ (v0 :: items0)) as [v |].
  - destruct (Pod_Phase v) eqn:Hphase; simpl;
      try (split; [reflexivity | eexists; reflexivity]).
    destruct (h _ _ w1) as [r w2]. reflexivity.
  - simpl. split; [reflexivity | eexists; reflexivity].
Qed.

Lemma execToServerPod_target_witness :
  let out := run fakeClient (execToServerPod siteServing "php-fpm" cacheReload) clusterTwoPods in
  commands out.2 = [] /\ exists err, out.1.1 = Some ("", "", Some err).
Proof.
  pose proof (execToServerPod_target (E := refExternals) fakeClient clusterTwoPods
                clusterTwoPods siteServing "php-fpm" cacheReload
                [mkPod "site-2" {["releaseID" := release0]} PodPending 0; runningPod]
                eq_refl eq_refl) as H.
  cbv zeta in H.
  assert (Hfind : List.find (carriesRelease (releaseID siteServing))
                    [mkPod "site-2" {["releaseID" := release0]} PodPending 0; runningPod]
                  = Some (mkPod "site-2" {["releaseID" := release0]} PodPending 0)).
  { vm_compute. reflexivity. }
  rewrite Hfind in H. exact H.
Defined.

(** ** The roll-out check without a pod *)

(** X5. didVersionRollOutSucceed tests only whether the error of
    getPodForVersion is temporary.  A permanent error is dropped: the pod
    it comes with is the empty one, no phase matches, and the check
    answers that the roll-out succeeded (no requeue, no error) without any
    further call. *)
Theorem didVersionRollOutSucceed_permanent_error_dropped {E : Externals} {W : Type}
    (h : Handler W) (w w1 : W) (d : DrupalSite) (pod : Pod) (e : reconcileError)
    (tr : list Event) :
  run h (getPodForVersion d (releaseID d)) w = (Some (pod, Some e), w1, tr) ->
  Temporary e = false ->
  run h (didVersionRollOutSucceed d) w = (Some (false, None), w1, tr).
Proof.
  intros Hrun Htemp. unfold didVersionRollOutSucceed. rewrite run_bind, Hrun.
  rewrite (getPodForVersion_err h w w1 d (releaseID d) pod e tr Hrun).
  cbv beta iota. rewrite Htemp. simpl. rewrite app_nil_r. reflexivity.
Qed.

Lemma didVersionRollOutSucceed_permanent_error_dropped_witness :
  run fakeClient (didVersionRollOutSucceed (E := selectorRefused) siteServing) clusterServing =
    (Some (false, None), clusterServing, []).
Proof.
  apply (didVersionRollOutSucceed_permanent_error_dropped (E := selectorRefused) fakeClient
           clusterServing clusterServing siteServing emptyPod
           (mkApplicationError (Some (errorsNew "invalid label selector"))
              (Sentinel ErrFunctionDomain) [])).
  - reflexivity.
  - reflexivity.
Defined.

(** ** The database-schema update, command by command *)

Lemma commands_app (tr1 tr2 : list Event) :
  commands (tr1 ++ tr2) = (commands tr1 ++ commands tr2)%list.
Proof. apply omap_app. Qed.

(** What the caller of execToServerPodErrOnStderr sees, against what was
    run. *)
Lemma execToServerPodErrOnStderr_attempt {E : Externals} (d : DrupalSite)
    (containerName : string) (command : list string) :
  wp (execToServerPodErrOnStderr d containerName command)
    (fun tr r =>
       exists ok, attempt command (commands tr) ok /\
         notNil r.2 = negb ok /\
         (ok = true -> exists a, commands tr = [(command, a)] /\ r.1 = a.1.1)).
Proof.
  unfold execToServerPodErrOnStderr, execToServerPod. apply wp_bind. apply wp_bind.
  eapply wp_mono;
    [| apply (getRunningPodForVersion_quiet (fun e => executed e = None)
                (fun e _ H => H) d (releaseID d))].
  intros tr1 [pod [err |]] [Htr1 _].
  - simpl. rewrite !app_nil_r. exists false.
    assert (Hc : commands tr1 = []).
    { clear -Htr1. induction Htr1 as [| e tr He _ IH]; [reflexivity |].
      unfold commands in *. simpl. rewrite He. exact IH. }
    rewrite Hc. split; [left; auto |]. split; [reflexivity | discriminate].
  - cbn [call wp]. intros [[stdout stderr] err]. cbn [wp].
    assert (Hc : commands tr1 = []).
    { clear -Htr1. induction Htr1 as [| e tr He _ IH]; [reflexivity |].
      unfold commands in *. simpl. rewrite He. exact IH. }
    assert (Hcs : commands ((tr1 ++ [Ev (execToPodThroughAPI containerName (Pod_Name pod)
                                           (Namespace d) command) (stdout, stderr, err)]) ++ [])
                  = [(command, (stdout, stderr, err))]).
    { rewrite app_nil_r, commands_app, Hc. reflexivity. }
    destruct (notNil err) eqn:He, (String.eqb stderr "") eqn:Hs; cbn [orb negb wp fst snd];
      rewrite Hcs; exists (succeeded (stdout, stderr, err)); unfold succeeded; cbn [fst snd];
      rewrite He, Hs; simpl;
      (split; [right; eexists; split; [reflexivity |]; unfold succeeded; simpl;
               rewrite He, Hs; reflexivity |]);
      (split; [reflexivity |]); try discriminate.
    intros _. eexists. split; reflexivity.
Qed.

Lemma updateDBSchema_outcome {E : Externals} (d : DrupalSite) :
  wp (updateDBSchema d) (fun tr r => schemaUpdateOutcome d (commands tr) r).
Proof.
  unfold updateDBSchema. apply wp_bind.
  eapply wp_mono; [| apply execToServerPodErrOnStderr_attempt].
  intros tr0 [sout err] (ok0 & Hat0 & Herr0 & Hok0). cbn [fst snd] in *.
  destruct ok0; simpl in Herr0; rewrite Herr0; cbv iota.
  2: { cbn [wp]. rewrite app_nil_r. exists (commands tr0), false.
       split; [exact Hat0 |]. left. auto. }
  destruct (Hok0 eq_refl) as (a0 & Hc0 & Hsout). subst sout.
  assert (Hs0 : succeeded a0 = true).
  { destruct Hat0 as [[H _] | (a & H & Hs)]; [rewrite Hc0 in H; discriminate |].
    rewrite Hc0 in H. inversion H. subst a. auto. }
  destruct (String.eqb a0.1.1 "") eqn:Hout; cbn [negb]; cbv iota.
  { cbn [wp]. rewrite app_nil_r. apply String.eqb_eq in Hout.
    exists (commands tr0), true. split; [exact Hat0 |]. right.
    exists a0. split; [exact Hc0 |]. split; [exact Hs0 |]. left. auto. }
  assert (Hne : a0.1.1 <> "") by (intros H; rewrite H in Hout; discriminate).
  pose proof (SetCondition_false d (status.mkCondition "DBUpdatesPending" "True" "" "")) as Hsame.
  change (SetCondition d (status.mkCondition "DBUpdatesPending" "True" "" ""))
    with (setDBUpdatesPending d) in Hsame.
  destruct (setDBUpdatesPending d) as [changed d1] eqn:Hset.
  cbn [fst snd] in Hsame. destruct changed.
  { cbn [wp]. rewrite app_nil_r.
    exists (commands tr0), true. split; [exact Hat0 |]. right.
    exists a0. split; [exact Hc0 |]. split; [exact Hs0 |]. right. left.
    rewrite Hset. auto. }
  rewrite (Hsame eq_refl) in *. clear Hsame.
  assert (Hpending : forall cs r,
            (exists l1 ok1, attempt (takeBackup backupFileName) l1 ok1 /\
               ((ok1 = false /\ cs = (commands tr0 ++ l1)%list /\ dbUpdateFailed d r) \/
                (ok1 = true /\
                 exists l2 ok2, attempt runUpDBCommand l2 ok2 /\
                   ((ok2 = true /\ cs = (commands tr0 ++ l1 ++ l2)%list /\
                     r = updateDBSchema_done d) \/
                    (ok2 = false /\
                     exists l3 ok3, attempt (restoreBackup backupFileName) l3 ok3 /\
                       cs = (commands tr0 ++ l1 ++ l2 ++ l3)%list /\ dbUpdateFailed d r))))) ->
            schemaUpdateOutcome d cs r).
  { intros cs r H. exists (commands tr0), true. split; [exact Hat0 |]. right.
    exists a0. split; [exact Hc0 |]. split; [exact Hs0 |]. right. right.
    rewrite Hset. auto. }
  cbv zeta. apply wp_bind.
  eapply wp_mono; [| apply execToServerPodErrOnStderr_attempt].
  intros tr1 [sout1 err1] (ok1 & Hat1 & Herr1 & Hok1). cbn [fst snd] in *.
  destruct err1 as [err1 |]; destruct ok1; try discriminate.
  { destruct (setConditionStatus d "DBUpdatesFailed" true _ false) as [ch d2] eqn:Hd2.
    cbn [wp]. rewrite ?app_nil_r, ?commands_app, <- ?app_assoc. apply Hpending.
    exists (commands tr1), false. split; [exact Hat1 |]. left.
    split; [reflexivity |]. split; [reflexivity |].
    eexists. rewrite Hd2. reflexivity. }
  apply wp_bind.
  eapply wp_mono; [| apply execToServerPodErrOnStderr_attempt].
  intros tr2 [sout2 err2] (ok2 & Hat2 & Herr2 & Hok2). cbn [fst snd] in *.
  destruct err2 as [err2 |]; destruct ok2; try discriminate.
  2: { cbn [wp]. rewrite ?app_nil_r, ?commands_app, <- ?app_assoc. apply Hpending.
       exists (commands tr1), true. split; [exact Hat1 |]. right.
       split; [reflexivity |]. exists (commands tr2), true. split; [exact Hat2 |]. left.
       auto. }
  unfold rollBackDBUpdate. apply wp_bind. apply wp_bind.
  eapply wp_mono; [| apply execToServerPodErrOnStderr_attempt].
  intros tr3 [sout3 err3] (ok3 & Hat3 & Herr3 & Hok3). cbn [fst snd] in *.
  assert (Hdone : forall r, dbUpdateFailed d r ->
            schemaUpdateOutcome d
              (commands tr0 ++ commands tr1 ++ commands tr2 ++ commands tr3) r).
  { intros r Hr. apply Hpending.
    exists (commands tr1), true. split; [exact Hat1 |]. right.
    split; [reflexivity |]. exists (commands tr2), false. split; [exact Hat2 |]. right.
    split; [reflexivity |]. exists (commands tr3), ok3. auto. }
  destruct err3 as [err3 |]; cbn [wp].
  - destruct (setConditionStatus d "DBUpdatesFailed" true _ false) as [ch d2] eqn:Hd2.
    cbn [wp]. rewrite ?app_nil_r, ?commands_app, <- ?app_assoc.
    apply Hdone. eexists. rewrite Hd2. reflexivity.
  - destruct (setConditionStatus d "DBUpdatesFailed" true _ false) as [ch d2] eqn:Hd2.
    cbn [wp]. rewrite ?app_nil_r, ?commands_app, <- ?app_assoc.
    apply Hdone. eexists. rewrite Hd2. reflexivity.
Qed.

(** X6. updateDBSchema runs its commands in a fixed order, against every
    cluster.  The backup is taken only right after a schema check that
    reported pending migrations without error, on a site that already
    carried DBUpdatesPending = True (no reason, no message).  The migration
    is run only right after a backup that succeeded.  The restore is run
    only as the last command, after a backup that succeeded and a
    migration that failed or that could not be started. *)
Theorem updateDBSchema_command_order {E : Externals} {W : Type} (h : Handler W) (w : W)
    (d : DrupalSite) (p q : list (list string * (string * string * option error)))
    (c : list string) (a : string * string * option error) :
  commands (run h (updateDBSchema d) w).2 = (p ++ (c, a) :: q)%list ->
  (c = takeBackup backupFileName ->
   (setDBUpdatesPending d).1 = false /\
   exists a0, p = [(checkUpdbStatus, a0)] /\ succeeded a0 = true /\ a0.1.1 <> "") /\
  (c = runUpDBCommand ->
   exists a0 a1,
     p = [(checkUpdbStatus, a0); (takeBackup backupFileName, a1)] /\ succeeded a1 = true) /\
  (c = restoreBackup backupFileName ->
   q = [] /\
   exists a0 a1 rest,
     p = (checkUpdbStatus, a0) :: (takeBackup backupFileName, a1) :: rest /\
     succeeded a1 = true /\
     (rest = [] \/ exists a2, rest = [(runUpDBCommand, a2)] /\ succeeded a2 = false)).
Proof.
  intros Hcs.
  destruct (wp_run h _ _ w (updateDBSchema_outcome d)) as (r & _ & Hout).
  rewrite Hcs in Hout. clear Hcs.
  destruct Hout as (l0 & ok0 & Hat0 & Hout).
  destruct Hout as [(-> & Hcs & _) | (a0 & -> & Hs0 & Hout)].
  { destruct Hat0 as [[-> _] | (a0 & -> & _)].
    - destruct p; discriminate.
    - destruct p as [| x p]; simpl in Hcs; [| destruct p; discriminate].
      injection Hcs as Hc Ha Hq. subst.
      split; [discriminate |]. split; discriminate. }
  destruct Hout as [(_ & Hcs & _) | [(_ & _ & Hcs & _) | (Hne & Hset & l1 & ok1 & Hat1 & Hout)]].
  1, 2: destruct p as [| x p]; simpl in Hcs; [| destruct p; discriminate];
    injection Hcs as Hc Ha Hq; subst; (split; [discriminate |]); split; discriminate.
  destruct Hout as [(-> & Hcs & _) | (-> & l2 & ok2 & Hat2 & Hout)].
  { destruct Hat1 as [[-> _] | (a1 & -> & _)]; simpl in Hcs.
    - destruct p as [| x p]; simpl in Hcs; [| destruct p; discriminate].
      injection Hcs as Hc Ha Hq. subst. split; [discriminate |]. split; discriminate.
    - destruct p as [| x [| y p]]; simpl in Hcs; try (destruct p; discriminate).
      + injection Hcs as Hc Ha Hq. subst. split; [discriminate |]. split; discriminate.
      + injection Hcs as Hx Hc Ha Hq. subst.
        split; [intros _; split; [exact Hset |]; eauto |]. split; discriminate. }
  destruct Hat1 as [[_ Hf] | (a1 & -> & Hs1)]; [discriminate |]. symmetry in Hs1.
  destruct Hout as [(-> & Hcs & _) | (-> & l3 & ok3 & Hat3 & Hcs & _)].
  { destruct Hat2 as [[_ Hf] | (a2 & -> & Hs2)]; [discriminate |]. simpl in Hcs.
    destruct p as [| x [| y [| z p]]]; simpl in Hcs; try (destruct p; discriminate).
    - injection Hcs as Hc Ha Hq. subst. split; [discriminate |]. split; discriminate.
    - injection Hcs as Hx Hc Ha Hq. subst.
      split; [intros _; split; [exact Hset |]; eauto |]. split; discriminate.
    - injection Hcs as Hx Hy Hc Ha Hq. subst.
      split; [discriminate |]. split; [intros _; eauto | discriminate]. }
  destruct Hat2 as [[-> _] | (a2 & -> & Hs2)], Hat3 as [[-> _] | (a3 & -> & _)];
    simpl in Hcs.
  - destruct p as [| x [| y p]]; simpl in Hcs; try (destruct p; discriminate).
    + injection Hcs as Hc Ha Hq. subst. split; [discriminate |]. split; discriminate.
    + injection Hcs as Hx Hc Ha Hq. subst.
      split; [intros _; split; [exact Hset |]; eauto |]. split; discriminate.
  - destruct p as [| x [| y [| z p]]]; simpl in Hcs; try (destruct p; discriminate).
    + injection Hcs as Hc Ha Hq. subst. split; [discriminate |]. split; discriminate.
    + injection Hcs as Hx Hc Ha Hq. subst.
      split; [intros _; split; [exact Hset |]; eauto |]. split; discriminate.
    + injection Hcs as Hx Hy Hc Ha Hq. subst.
      split; [discriminate |]. split; [discriminate |].
      intros _. split; [reflexivity |]. eexists _, _, _. split; [reflexivity |]. auto.
  - destruct p as [| x [| y [| z p]]]; simpl in Hcs; try (destruct p; discriminate).
    + injection Hcs as Hc Ha Hq. subst. split; [discriminate |]. split; discriminate.
    + injection Hcs as Hx Hc Ha Hq. subst.
      split; [intros _; split; [exact Hset |]; eauto |]. split; discriminate.
    + injection Hcs as Hx Hy Hc Ha Hq. subst.
      split; [discriminate |]. split; [intros _; eauto | discriminate].
  - destruct p as [| x [| y [| z [| u p]]]]; simpl in Hcs; try (destruct p; discriminate).
    + injection Hcs as Hc Ha Hq. subst. split; [discriminate |]. split; discriminate.
    + injection Hcs as Hx Hc Ha Hq. subst.
      split; [intros _; split; [exact Hset |]; eauto |]. split; discriminate.
    + injection Hcs as Hx Hy Hc Ha Hq. subst.
      split; [discriminate |]. split; [intros _; eauto | discriminate].
    + injection Hcs as Hx Hy Hz Hc Ha Hq. subst.
      split; [discriminate |]. split; [discriminate |].
      intros _. split; [reflexivity |]. eexists _, _, _. split; [reflexivity |].
      split; [exact Hs1 |]. right. eauto.
Qed.

Lemma updateDBSchema_command_order_witness :
  let p := [(checkUpdbStatus, ("2 pending updates", "", None));
            (takeBackup backupFileName, ("", "", None));
            (runUpDBCommand, ("", "updb: failed", None))] in
  let c := restoreBackup backupFileName in
  let q : list (list string * (string * string * option error)) := [] in
  (c = takeBackup backupFileName ->
   (setDBUpdatesPending siteMigrating).1 = false /\
   exists a0, p = [(checkUpdbStatus, a0)] /\ succeeded a0 = true /\ a0.1.1 <> "") /\
  (c = runUpDBCommand ->
   exists a0 a1,
     p = [(checkUpdbStatus, a0); (takeBackup backupFileName, a1)] /\ succeeded a1 = true) /\
  (c = restoreBackup backupFileName ->
   q = [] /\
   exists a0 a1 rest,
     p = (checkUpdbStatus, a0) :: (takeBackup backupFileName, a1) :: rest /\
     succeeded a1 = true /\
     (rest = [] \/ exists a2, rest = [(runUpDBCommand, a2)] /\ succeeded a2 = false)).
Proof.
  cbv zeta.
  apply (updateDBSchema_command_order (E := refExternals) fakeClient clusterMigrationFails
           siteMigrating _ [] _ ("", "", None)).
  vm_compute. reflexivity.
Defined.

Lemma ConditionTrue_dbUpdateFailed {E : Externals} (d : DrupalSite) (r : DrupalSite * bool) :
  dbUpdateFailed d r ->
  r.2 = true /\ ConditionTrue r.1 "DBUpdatesFailed" = true /\
  ConditionTrue r.1 "DBUpdatesPending" = ConditionTrue d "DBUpdatesPending".
Proof.
  intros [e ->]. unfold setConditionStatus. cbn [fst snd].
  rewrite !ConditionTrue_SetCondition. simpl. auto.
Qed.

(** X7. updateDBSchema on a site that carries DBUpdatesPending = True, once the
    schema check has reported pending migrations: a write of the status is
    always asked for; and unless the backup and the migration have both
    been run with success, the site returned has DBUpdatesFailed = True
    and keeps DBUpdatesPending = True. *)
Theorem updateDBSchema_failure_recorded {E : Externals} {W : Type} (h : Handler W) (w : W)
    (d : DrupalSite) (a0 : string * string * option error)
    (rest : list (list string * (string * string * option error))) :
  (setDBUpdatesPending d).1 = false ->
  commands (run h (updateDBSchema d) w).2 = (checkUpdbStatus, a0) :: rest ->
  succeeded a0 = true ->
  a0.1.1 <> "" ->
  exists d',
    (run h (updateDBSchema d) w).1.1 = Some (d', true) /\
    ((exists a1 a2,
        rest = [(takeBackup backupFileName, a1); (runUpDBCommand, a2)] /\
        succeeded a1 = true /\ succeeded a2 = true /\ (d', true) = updateDBSchema_done d) \/
     (ConditionTrue d' "DBUpdatesFailed" = true /\ ConditionTrue d' "DBUpdatesPending" = true)).
Proof.
  intros Hset Hcs Hs0 Hne.
  assert (Hpend : ConditionTrue d "DBUpdatesPending" = true).
  { unfold ConditionTrue. unfold setDBUpdatesPending in Hset.
    pose proof (SetCondition_false_get d _ Hset) as Hget. simpl in Hget.
    rewrite Hget. reflexivity. }
  assert (Hfail : forall r, dbUpdateFailed d r ->
            exists d', Some r = Some (d', true) /\
              ((exists a1 a2,
                  rest = [(takeBackup backupFileName, a1); (runUpDBCommand, a2)] /\
                  succeeded a1 = true /\ succeeded a2 = true /\
                  (d', true) = updateDBSchema_done d) \/
               (ConditionTrue d' "DBUpdatesFailed" = true /\
                ConditionTrue d' "DBUpdatesPending" = true))).
  { intros [d' u] Hr. apply ConditionTrue_dbUpdateFailed in Hr as (Hu & Hf & Hp).
    simpl in *. subst u. exists d'. split; [reflexivity |]. right.
    split; [exact Hf | congruence]. }
  destruct (wp_run h _ _ w (updateDBSchema_outcome d)) as (r & Hrun & Hout).
  rewrite Hrun, Hcs in *. clear Hrun Hcs.
  destruct Hout as (l0 & ok0 & Hat0 & Hout).
  destruct Hout as [(-> & Hcs & _) | (b0 & -> & Hb0 & Hout)].
  { destruct Hat0 as [[-> _] | (b0 & -> & Hb0)]; [discriminate |].
    injection Hcs as Ha Hr. subst. congruence. }
  destruct Hout as [(He & Hcs & _) | [(_ & Hch & _) | (_ & _ & l1 & ok1 & Hat1 & Hout)]].
  { injection Hcs as Ha Hr. subst. contradiction. }
  { congruence. }
  destruct Hout as [(-> & Hcs & Hr) | (-> & l2 & ok2 & Hat2 & Hout)]; [auto |].
  destruct Hat1 as [[_ Hf] | (a1 & -> & Hs1)]; [discriminate |]. symmetry in Hs1.
  destruct Hout as [(-> & Hcs & ->) | (-> & l3 & ok3 & Hat3 & Hcs & Hr)]; [| auto].
  destruct Hat2 as [[_ Hf] | (a2 & -> & Hs2)]; [discriminate |]. symmetry in Hs2.
  simpl in Hcs. injection Hcs as Ha Hrest. subst.
  unfold updateDBSchema_done at 1. rewrite Hpend.
  destruct (RemoveCondition d "DBUpdatesPending") as [removed d1] eqn:Hrm.
  eexists. split; [reflexivity |]. left. exists a1, a2.
  split; [reflexivity |]. split; [exact Hs1 |]. split; [exact Hs2 |].
  unfold updateDBSchema_done. rewrite Hpend, Hrm. reflexivity.
Qed.

Lemma updateDBSchema_failure_recorded_witness :
  exists d',
    (run fakeClient (updateDBSchema siteMigrating) clusterMigrationFails).1.1 = Some (d', true) /\
    ((exists a1 a2,
        [(takeBackup backupFileName, ("", "", None : option error));
         (runUpDBCommand, ("", "updb: failed", None));
         (restoreBackup backupFileName, ("", "", None))]
        = [(takeBackup backupFileName, a1); (runUpDBCommand, a2)] /\
        succeeded a1 = true /\ succeeded a2 = true /\
        (d', true) = updateDBSchema_done siteMigrating) \/
     (ConditionTrue d' "DBUpdatesFailed" = true /\ ConditionTrue d' "DBUpdatesPending" = true)).
Proof.
  apply (updateDBSchema_failure_recorded (E := refExternals) fakeClient clusterMigrationFails
           siteMigrating ("2 pending updates", "", None)).
  - vm_compute. reflexivity.
  - vm_compute. reflexivity.
  - reflexivity.
  - discriminate.
Defined.

(** ** Calls and what came before them *)

Lemma justified_nil J hist : justified J hist [].
Proof. intros pre e post H. destruct pre; discriminate. Qed.

Lemma justified_cons (J : list Event -> Event -> Prop) hist e tr :
  J hist e -> justified J (hist ++ [e]) tr -> justified J hist (e :: tr).
Proof.
  intros He Htr pre x post Heq. destruct pre as [| y pre]; simpl in Heq.
  - inversion Heq; subst. rewrite app_nil_r. exact He.
  - inversion Heq; subst. specialize (Htr pre x post eq_refl).
    rewrite <- app_assoc in Htr. exact Htr.
Qed.

Lemma justified_app (J : list Event -> Event -> Prop) hist tr1 tr2 :
  justified J hist tr1 -> justified J (hist ++ tr1) tr2 -> justified J hist (tr1 ++ tr2).
Proof.
  intros H1 H2 pre e post Heq.
  apply app_eq_app in Heq as [l [[Hl1 Hl2] | [Hl1 Hl2]]].
  - destruct l as [| x l]; simpl in Hl2.
    + rewrite app_nil_r in Hl1. subst pre.
      pose proof (H2 [] e post (eq_sym Hl2)) as H. rewrite app_nil_r in H. exact H.
    + inversion Hl2; subst x post. apply (H1 pre e l). exact Hl1.
  - subst pre. rewrite app_assoc. apply (H2 l e post). exact Hl2.
Qed.

Lemma justified_Forall (J : list Event -> Event -> Prop) (P : Event -> Prop) hist tr :
  (forall hist' e, P e -> J hist' e) -> Forall P tr -> justified J hist tr.
Proof.
  intros HP Htr pre e post ->. apply HP.
  apply Forall_app in Htr as [_ Htr]. inversion Htr; assumption.
Qed.

Lemma hwp_ret {A : Type} J hist (R : list Event -> A -> Prop) (a : A) :
  R hist a -> hwp J hist (Ret a) R.
Proof. intros H. split; [apply justified_nil | rewrite app_nil_r; exact H]. Qed.

Lemma hwp_mono {A : Type} J hist (R R' : list Event -> A -> Prop) (p : Prog A) :
  (forall hist' a, R hist' a -> R' hist' a) -> hwp J hist p R -> hwp J hist p R'.
Proof. intros HR. apply wp_mono. intros tr a [H1 H2]. auto. Qed.

Lemma hwp_bind {A B : Type} J hist (R1 : list Event -> A -> Prop)
    (R : list Event -> B -> Prop) (m : Prog A) (f : A -> Prog B) :
  hwp J hist m R1 -> (forall hist' a, R1 hist' a -> hwp J hist' (f a) R) ->
  hwp J hist (bind m f) R.
Proof.
  intros Hm Hf. apply wp_bind. eapply wp_mono; [| exact Hm].
  intros tr1 a [Hj1 Ha]. eapply wp_mono; [| exact (Hf _ a Ha)].
  intros tr2 b [Hj2 Hb]. split; [apply justified_app; assumption |].
  rewrite app_assoc. exact Hb.
Qed.

Lemma hwp_vis {A X : Type} (J : list Event -> Event -> Prop) hist
    (R : list Event -> A -> Prop) (c : Call X) (k : X -> Prog A) :
  (forall r, J hist (Ev c r)) ->
  (forall r, hwp J (hist ++ [Ev c r]) (k r) R) ->
  hwp J hist (Vis c k) R.
Proof.
  intros Hc Hk r. eapply wp_mono; [| exact (Hk r)].
  intros tr a [Hj Ha]. split; [apply justified_cons; auto |].
  rewrite <- app_assoc in Ha. exact Ha.
Qed.

Lemma hwp_safe {A : Type} (J : list Event -> Event -> Prop) (P : Event -> Prop) hist
    (R : A -> Prop) (p : Prog A) :
  (forall hist' e, P e -> J hist' e) -> safe P R p -> hwp J hist p (fun _ a => R a).
Proof.
  intros HP. apply wp_mono. intros tr a [Htr Ha].
  split; [eapply justified_Forall; eauto | exact Ha].
Qed.

Lemma hwp_run {W A : Type} (h : Handler W) J (p : Prog A) (R : list Event -> A -> Prop)
    (w : W) :
  hwp J [] p R ->
  exists a, (run h p w).1.1 = Some a /\ justified J [] (run h p w).2 /\ R (run h p w).2 a.
Proof.
  intros H. destruct (wp_run h p _ w H) as (a & Ha & Hj & HR). exists a. auto.
Qed.

(** ** The resources that wait for the database *)

Lemma otherKind_databaseFirst d hist e : otherKind e -> databaseFirst d hist e.
Proof.
  unfold otherKind, databaseFirst. destruct (converged e) as [[[k key] f] |]; [| auto].
  destruct k; auto; contradiction.
Qed.

Ltac otherKind_go :=
  cbn [bind call];
  repeat first
    [ apply psafe_ret; exact I
    | apply psafe_panic
    | apply psafe_vis; [intros ?; exact I | intros ?]
    | progress unfold call
    | match goal with
      | |- psafe _ _ (bind (bind (match ?x with _ => _ end) _) _) => destruct x
      | |- psafe _ _ (bind (match ?x with _ => _ end) _) => destruct x
      | |- psafe _ _ (match ?x with _ => _ end) => destruct x
      end; cbn [bind call negb] ].

Lemma ensureResourceX_plain {E : Externals} d resType :
  existsb (String.eqb resType) plainResources = true ->
  psafe otherKind (fun _ => True) (ensureResourceX d resType).
Proof.
  intros H. apply existsb_exists in H as (x & H & Hx).
  apply String.eqb_eq in Hx. subst x.
  unfold plainResources in H. simpl in H.
  repeat (destruct H as [<- | H]); try contradiction;
    unfold ensureResourceX, createOrUpdate, createOrUpdateWith,
      callback.persistentVolumeClaimForDrupalSite;
    cbv zeta; simpl (String.eqb _ _); cbv iota;
    otherKind_go.
Qed.

Lemma ensureNoObject_otherKind {E : Externals} k key :
  psafe otherKind (fun _ => True) (ensureNoObject k key).
Proof. unfold ensureNoObject. otherKind_go. Qed.

(** *** Rules for [phwp] *)

Lemma phwp_ret {A : Type} J hist (R : list Event -> A -> Prop) (N : list Event -> Prop)
    (a : A) :
  R hist a -> phwp J hist (Ret a) R N.
Proof. intros H. split; [apply justified_nil | rewrite app_nil_r; exact H]. Qed.

Lemma phwp_panic {A : Type} J hist (R : list Event -> A -> Prop) (N : list Event -> Prop) :
  N hist -> phwp J hist (@Panic A) R N.
Proof. intros H. split; [apply justified_nil | rewrite app_nil_r; exact H]. Qed.

Lemma phwp_mono {A : Type} J hist (R R' : list Event -> A -> Prop)
    (N N' : list Event -> Prop) (p : Prog A) :
  (forall hist' a, R hist' a -> R' hist' a) -> (forall hist', N hist' -> N' hist') ->
  phwp J hist p R N -> phwp J hist p R' N'.
Proof.
  intros HR HN. apply wpp_mono.
  - intros tr a [H1 H2]. auto.
  - intros tr [H1 H2]. auto.
Qed.

Lemma phwp_bind {A B : Type} J hist (R1 : list Event -> A -> Prop)
    (R : list Event -> B -> Prop) (N : list Event -> Prop) (m : Prog A) (f : A -> Prog B) :
  phwp J hist m R1 N -> (forall hist' a, R1 hist' a -> phwp J hist' (f a) R N) ->
  phwp J hist (bind m f) R N.
Proof.
  intros Hm Hf. apply wpp_bind. eapply wpp_mono; [| | exact Hm]; [| auto].
  intros tr1 a [Hj1 Ha]. eapply wpp_mono; [| | exact (Hf _ a Ha)].
  - intros tr2 b [Hj2 Hb]. split; [apply justified_app; assumption |].
    rewrite app_assoc. exact Hb.
  - intros tr2 [Hj2 Hn]. split; [apply justified_app; assumption |].
    rewrite app_assoc. exact Hn.
Qed.

Lemma phwp_vis {A X : Type} (J : list Event -> Event -> Prop) hist
    (R : list Event -> A -> Prop) (N : list Event -> Prop) (c : Call X) (k : X -> Prog A) :
  (forall r, J hist (Ev c r)) ->
  (forall r, phwp J (hist ++ [Ev c r]) (k r) R N) ->
  phwp J hist (Vis c k) R N.
Proof.
  intros Hc Hk r. eapply wpp_mono; [| | exact (Hk r)].
  - intros tr a [Hj Ha]. split; [apply justified_cons; auto |].
    rewrite <- app_assoc in Ha. exact Ha.
  - intros tr [Hj Hn]. split; [apply justified_cons; auto |].
    rewrite <- app_assoc in Hn. exact Hn.
Qed.

Lemma phwp_bind_assoc {A B C : Type} J hist (R : list Event -> C -> Prop)
    (N : list Event -> Prop) (m : Prog A) (f : A -> Prog B) (g : B -> Prog C) :
  phwp J hist (bind m (fun x => bind (f x) g)) R N -> phwp J hist (bind (bind m f) g) R N.
Proof. apply wpp_bind_assoc. Qed.

Lemma hwp_phwp {A : Type} J hist (R : list Event -> A -> Prop) (N : list Event -> Prop)
    (p : Prog A) :
  hwp J hist p R -> phwp J hist p R N.
Proof. apply wp_wpp. Qed.

Lemma phwp_psafe {A : Type} (J : list Event -> Event -> Prop) (P : Event -> Prop) hist
    (R : A -> Prop) (p : Prog A) :
  (forall hist' e, P e -> J hist' e) -> psafe P R p ->
  phwp J hist p (fun _ a => R a) (fun _ => True).
Proof.
  intros HP. apply wpp_mono.
  - intros tr a [Htr Ha]. split; [eapply justified_Forall; eauto | exact Ha].
  - intros tr Htr. split; [eapply justified_Forall; eauto | exact I].
Qed.

Lemma phwp_run {W A : Type} (h : Handler W) J (p : Prog A) (R : list Event -> A -> Prop)
    (N : list Event -> Prop) (w : W) :
  phwp J [] p R N ->
  justified J [] (run h p w).2 /\
  match (run h p w).1.1 with
  | Some a => R (run h p w).2 a
  | None => N (run h p w).2
  end.
Proof.
  intros H. pose proof (wpp_run h p _ _ w H) as Hrun.
  destruct (run h p w).1.1; destruct Hrun; auto.
Qed.

Lemma appendErr_hwp {E : Externals} J hist errs step msg
    (R : list Event -> option reconcileError -> Prop) :
  phwp J hist step R (fun _ => True) ->
  phwp J hist (appendErr errs step msg) (fun _ _ => True) (fun _ => True).
Proof.
  intros H. unfold appendErr. eapply phwp_bind; [exact H |].
  intros hist' [err |] _; apply phwp_ret; exact I.
Qed.

Lemma isDBODProvisioned_databaseFirst {E : Externals} d hist :
  hwp (databaseFirst d) hist (isDBODProvisioned d)
    (fun hist' provisioned =>
       provisioned = true ->
       exists db, hist' = (hist ++ [provisionedAnswer d db])%list /\
                  (0 <? String.length (DbodInstance db))%nat = true).
Proof.
  unfold isDBODProvisioned. cbn [bind call].
  apply hwp_vis; [intros r; exact I |].
  intros [db | err]; apply hwp_ret.
  - intros H. exists db. split; [reflexivity | exact H].
  - discriminate.
Qed.

Lemma deployment_databaseFirst {E : Externals} d hist db :
  (0 <? String.length (DbodInstance db))%nat = true ->
  hwp (databaseFirst d) (hist ++ [provisionedAnswer d db]) (ensureResourceX d "deploy_drupal")
    (fun _ _ => True).
Proof.
  intros Hdb. unfold ensureResourceX. cbv zeta. simpl (String.eqb _ _). cbv iota.
  cbn [bind call]. apply hwp_vis; [intros r; exact I |]. intros r.
  fold (frozen d).
  destruct (match r with inl _ => true | inr _ => false end && frozen d) eqn:Hskip;
    [apply hwp_ret; exact I |].
  change (negb (String.length (databaseSecretName d) =? 0)%nat) with true. cbv iota.
  unfold createOrUpdate. cbn [bind call]. apply hwp_vis.
  - intros r'. unfold databaseFirst. simpl. split; [reflexivity |]. exists hist, db, r.
    split; [rewrite <- app_assoc; reflexivity |]. split; [exact Hdb |].
    intros Hf. rewrite Hf, andb_true_r in Hskip. destruct r; [discriminate | eauto].
  - intros [res | err]; apply hwp_ret; exact I.
Qed.

Lemma job_databaseFirst {E : Externals} d hist db resType :
  (0 <? String.length (DbodInstance db))%nat = true ->
  resType = "site_install_job" \/ resType = "clone_job" ->
  hwp (databaseFirst d) (hist ++ [provisionedAnswer d db]) (ensureResourceX d resType)
    (fun _ _ => True).
Proof.
  intros Hdb [-> | ->]; unfold ensureResourceX; cbv zeta; simpl (String.eqb _ _); cbv iota.
  - change (String.length (databaseSecretName d) =? 0)%nat with false. cbv iota.
    unfold createOrUpdate. cbn [bind call]. apply hwp_vis.
    + intros r'. unfold databaseFirst. simpl. exists hist, db. auto.
    + intros [res | err]; apply hwp_ret; exact I.
  - change (negb (String.length (databaseSecretName d) =? 0)%nat) with true. cbv iota.
    unfold createOrUpdate. cbn [bind call]. apply hwp_vis.
    + intros r'. unfold databaseFirst. simpl. exists hist, db. auto.
    + intros [res | err]; apply hwp_ret; exact I.
Qed.

(** The calls of a config-map step, one after the other. *)
Ltac rollOut_go :=
  cbn [bind call negb];
  repeat first
    [ apply hwp_ret; exact I
    | apply hwp_vis;
      [ intros ?;
        first [ exact I
              | unfold databaseFirst; cbn [converged];
                rewrite <- !app_assoc; cbn [app];
                eexists _, _; split; [reflexivity | eexists _, _, _; reflexivity] ]
      | intros ? ]
    | progress unfold call
    | match goal with
      | |- hwp _ _ (bind (bind (match ?x with _ => _ end) _) _) _ => destruct x
      | |- hwp _ _ (bind (match ?x with _ => _ end) _) _ => destruct x
      | |- hwp _ _ (match ?x with _ => _ end) _ => destruct x
      end; cbn [bind call negb] ].

Lemma configMap_databaseFirst {E : Externals} d hist resType :
  existsb (String.eqb resType) configMapResources = true ->
  hwp (databaseFirst d) hist (ensureResourceX d resType) (fun _ _ => True).
Proof.
  intros H. apply existsb_exists in H as (x & H & Hx).
  apply String.eqb_eq in Hx. subst x.
  unfold configMapResources in H. simpl in H.
  repeat (destruct H as [<- | H]); try contradiction;
    unfold ensureResourceX, createOrUpdateWith, callback.updateConfigMapForPHPFPM,
      callback.updateConfigMapForNginx, callback.updateConfigMapForSiteSettings;
    cbv zeta; simpl (String.eqb _ _); cbv iota;
    rollOut_go.
Qed.

Ltac databaseFirst_chain :=
  lazymatch goal with
  | |- phwp _ _ (bind (isDBODProvisioned _) _) _ _ =>
      eapply phwp_bind;
      [apply hwp_phwp, isDBODProvisioned_databaseFirst | intros ? [|] ?]
  | |- phwp _ _ (bind _ _) _ _ =>
      eapply phwp_bind with (R1 := fun _ _ => True); [| intros ? ? _]
  | |- phwp _ _ (appendErr _ (ensureResourceX _ "deploy_drupal") _) _ _ =>
      match goal with
      | H : true = true -> _ |- _ =>
          destruct (H eq_refl) as (? & -> & ?); eapply appendErr_hwp;
          apply hwp_phwp, deployment_databaseFirst; assumption
      end
  | |- phwp _ _ (appendErr _ (ensureResourceX _ "site_install_job") _) _ _ =>
      match goal with
      | H : true = true -> _ |- _ =>
          destruct (H eq_refl) as (? & -> & ?); eapply appendErr_hwp;
          apply hwp_phwp, job_databaseFirst; [assumption | left; reflexivity]
      end
  | |- phwp _ _ (appendErr _ (ensureResourceX _ "clone_job") _) _ _ =>
      match goal with
      | H : true = true -> _ |- _ =>
          destruct (H eq_refl) as (? & -> & ?); eapply appendErr_hwp;
          apply hwp_phwp, job_databaseFirst; [assumption | right; reflexivity]
      end
  | |- phwp _ _ (appendErr _ (ensureResourceX _ _) _) _ _ =>
      eapply appendErr_hwp;
      first
        [ apply hwp_phwp, configMap_databaseFirst; reflexivity
        | apply (phwp_psafe _ otherKind);
          [intros; apply otherKind_databaseFirst; assumption |];
          apply ensureResourceX_plain; reflexivity ]
  | |- phwp _ _ (appendErr _ (ensureNoObject _ _) _) _ _ =>
      eapply appendErr_hwp;
      apply (phwp_psafe _ otherKind); [intros; apply otherKind_databaseFirst; assumption |];
      apply ensureNoObject_otherKind
  | |- phwp _ _ (if ?c then _ else _) _ _ => destruct c
  | |- phwp _ _ (Ret _) _ _ => apply phwp_ret; exact I
  end.

Lemma ensureResources_databaseFirst {E : Externals} d hist :
  phwp (databaseFirst d) hist (ensureResources d) (fun _ _ => True) (fun _ => True).
Proof.
  unfold ensureResources, ensureNoRoute, ensureNoWebDAVRoute, ensureNoReturnURI. cbv zeta.
  repeat databaseFirst_chain.
Qed.





(** ** One error for each failed step *)

Lemma collectedFrom_snoc prev tr e :
  collectedFrom prev (tr ++ [e]) =
  (collectedFrom prev tr +
   (if collected (match last tr with Some x => Some x | None => prev end) e
    then 1 else 0))%nat.
Proof.
  revert prev. induction tr as [| x tr IH]; intros prev; simpl.
  - lia.
  - rewrite IH. destruct tr as [| y tr]; simpl; [lia |].
    change (last (x :: y :: tr)) with (last (y :: tr)).
    destruct (last (y :: tr)) eqn:Hl; [lia |].
    apply last_None in Hl. discriminate.
Qed.

Lemma collectedCount_snoc tr e :
  collectedCount (tr ++ [e]) =
  (collectedCount tr + (if collected (last tr) e then 1 else 0))%nat.
Proof.
  unfold collectedCount. rewrite collectedFrom_snoc. destruct (last tr); reflexivity.
Qed.

Local Abbreviation anyCall := (fun (_ : list Event) (_ : Event) => True).

Ltac count_ret :=
  unfold reportsFailure; rewrite ?collectedCount_snoc, ?last_snoc;
  cbn [collected afterRead notNil];
  repeat match goal with H : _ = _ |- _ => rewrite H end;
  cbn [negb]; lia.

Ltac count_go :=
  cbn [bind call negb];
  repeat first
    [ apply hwp_ret; count_ret
    | apply hwp_vis; [intros ?; exact I | intros ?]
    | progress unfold call
    | match goal with
      | |- hwp _ _ (bind (bind (match ?x with _ => _ end) _) _) _ => destruct x eqn:?
      | |- hwp _ _ (bind (match ?x with _ => _ end) _) _ => destruct x eqn:?
      | |- hwp _ _ (match ?x with _ => _ end) _ => destruct x eqn:?
      end; cbn [bind call negb] ].

(** The resource types of which every failed call counts, wherever it is
    made. *)
Lemma ensureResourceX_count {E : Externals} d hist resType :
  existsb (String.eqb resType)
    ["is_s2i"; "bc_s2i"; "webdav_secret"; "svc_nginx"; "route"; "oidc_return_uri";
     "webdav_route"; "site_install_job"; "clone_job"; "cm_php"; "cm_nginx"; "cm_settings";
     "dbod_cr"; "backup_schedule"] = true ->
  hwp anyCall hist (ensureResourceX d resType) (reportsFailure hist).
Proof.
  intros H. apply existsb_exists in H as (x & H & Hx).
  apply String.eqb_eq in Hx. subst x. simpl in H.
  repeat (destruct H as [<- | H]); try contradiction;
    unfold ensureResourceX, createOrUpdate, createOrUpdateWith,
      callback.updateConfigMapForPHPFPM, callback.updateConfigMapForNginx,
      callback.updateConfigMapForSiteSettings;
    cbv zeta; simpl (String.eqb _ _); cbv iota;
    count_go.
Qed.

(** The look-up of the deployment that precedes deploymentForDrupalSite is
    not one of a config-map callback: its failure is no error. *)
Lemma deployment_count {E : Externals} d hist :
  afterRead (last hist) = false ->
  hwp anyCall hist (ensureResourceX d "deploy_drupal") (reportsFailure hist).
Proof.
  intros Hlast. unfold ensureResourceX, createOrUpdate. cbv zeta.
  simpl (String.eqb _ _). cbv iota. cbn [bind call].
  apply hwp_vis; [intros ?; exact I |]. intros [deployment | err]; count_go.
Qed.

(** The volume claim: the step that may panic. *)
Lemma claim_count {E : Externals} d hist :
  phwp anyCall hist (ensureResourceX d "pvc_drupal") (reportsFailure hist) (pvcPanic d).
Proof.
  unfold ensureResourceX, createOrUpdateWith, callback.persistentVolumeClaimForDrupalSite.
  cbv zeta. simpl (String.eqb _ _). cbv iota. cbn [bind call].
  apply phwp_vis; [intros ?; exact I |]. intros [err |].
  - destruct (IsNotFound err) eqn:Hnf.
    + destruct (ParseQuantity _) as [q | e] eqn:Hq; cbn [bind call].
      * apply hwp_phwp. count_go.
      * apply phwp_panic. exists hist, err, e. auto.
    + apply hwp_phwp. count_go.
  - apply hwp_phwp. count_go.
Qed.

Lemma ensureNoObject_count {E : Externals} k key hist :
  hwp anyCall hist (ensureNoObject k key) (reportsFailure hist).
Proof. unfold ensureNoObject. count_go. Qed.

Lemma isDBODProvisioned_count {E : Externals} d hist :
  hwp anyCall hist (isDBODProvisioned d)
    (fun hist' _ => collectedCount hist' = collectedCount hist /\
                    afterRead (last hist') = false).
Proof.
  unfold isDBODProvisioned. cbn [bind call].
  apply hwp_vis; [intros ?; exact I |].
  intros [db | err]; apply hwp_ret; rewrite collectedCount_snoc, last_snoc; simpl;
    (split; [lia | reflexivity]).
Qed.

Lemma appendErr_count {E : Externals} hist errs step msg N :
  length errs = collectedCount hist ->
  phwp anyCall hist step (reportsFailure hist) N ->
  phwp anyCall hist (appendErr errs step msg)
    (fun hist' errs' => length errs' = collectedCount hist') N.
Proof.
  intros Hinv Hstep. unfold appendErr. eapply phwp_bind; [exact Hstep |].
  intros hist' [err |] Hr; apply phwp_ret; unfold reportsFailure in Hr.
  - rewrite length_app. simpl. lia.
  - lia.
Qed.

Ltac count_chain :=
  lazymatch goal with
  | |- phwp _ _ (bind (isDBODProvisioned _) _) _ _ =>
      eapply phwp_bind; [apply hwp_phwp, isDBODProvisioned_count | intros ? ? [? ?]]
  | |- phwp _ _ (bind _ _) _ _ =>
      eapply phwp_bind with (R1 := fun hist' errs' => length errs' = collectedCount hist');
      [| intros ? ? ?]
  | |- phwp _ _ (appendErr _ (ensureResourceX _ "pvc_drupal") _) _ _ =>
      apply appendErr_count; [lia | apply claim_count]
  | |- phwp _ _ (appendErr _ (ensureResourceX _ "deploy_drupal") _) _ _ =>
      apply appendErr_count; [lia | apply hwp_phwp, deployment_count; assumption]
  | |- phwp _ _ (appendErr _ (ensureResourceX _ _) _) _ _ =>
      apply appendErr_count; [lia | apply hwp_phwp, ensureResourceX_count; reflexivity]
  | |- phwp _ _ (appendErr _ (ensureNoObject _ _) _) _ _ =>
      apply appendErr_count; [lia | apply hwp_phwp, ensureNoObject_count]
  | |- phwp _ _ (if ?c then _ else _) _ _ => destruct c
  | |- phwp _ _ (Ret _) _ _ => apply phwp_ret; lia
  end.

Lemma ensureResources_count {E : Externals} d :
  phwp anyCall [] (ensureResources d)
    (fun hist' errs => length errs = collectedCount hist') (pvcPanic d).
Proof.
  unfold ensureResources, ensureNoRoute, ensureNoWebDAVRoute, ensureNoReturnURI. cbv zeta.
  assert (H0 : length (@nil reconcileError) = collectedCount []) by reflexivity.
  revert H0. generalize (@nil Event) as hist. generalize (@nil reconcileError) as errs.
  intros errs hist H0. repeat count_chain.
Qed.


(** The panic is there: on a new site whose disk size is empty,
    ensureResources stops at the look-up of the volume claim. *)
Lemma ensureResources_panics_on_disk_size :
  run fakeClient (ensureResources siteBadSize) cluster0 =
    (None, cluster0,
     [Ev (GetObject KPersistentVolumeClaim (mkNamespacedName "project" "pv-claim-site"))
         (Some notFound)]).
Proof. vm_compute. reflexivity. Qed.

(** ** The condition setters *)

Lemma SetCondition_twice (cs : status.Conditions) (c : status.Condition) :
  status.SetCondition (status.SetCondition cs c).2 c = (false, (status.SetCondition cs c).2).
Proof.
  induction cs as [| x cs IH]; simpl.
  - rewrite !String.eqb_refl. reflexivity.
  - destruct (String.eqb (status.Type_ x) (status.Type_ c)) eqn:Hx; simpl.
    + rewrite !String.eqb_refl. reflexivity.
    + destruct (status.SetCondition cs c) as [ch cs'] eqn:Hset. simpl in *.
      rewrite Hx, IH. reflexivity.
Qed.

(** X11. setConditionStatus, the setter behind setNotReady and
    setErrorCondition.  Afterwards the condition of the type reads the
    status asked for, Unknown winning over the flag, with an empty reason
    and message when no error is given; every other type reads as before;
    the same call made again reports no change and changes nothing; and a
    call that reports no change has changed nothing. *)
Theorem setConditionStatus_spec {E : Externals} (d : DrupalSite) (t : status.ConditionType)
    (statusFlag : bool) (err : option reconcileError) (statusUnknown : bool) :
  let r := setConditionStatus d t statusFlag err statusUnknown in
  let statusStr :=
    if statusUnknown then "Unknown" else if statusFlag then "True" else "False" in
  (exists reason message,
     status.GetCondition (Conditions (Status r.2)) t =
       Some (status.mkCondition t statusStr reason message) /\
     (err = None -> reason = "" /\ message = "")) /\
  ConditionTrue r.2 t = negb statusUnknown && statusFlag /\
  (forall t', t' <> t ->
     status.GetCondition (Conditions (Status r.2)) t' =
       status.GetCondition (Conditions (Status d)) t') /\
  setConditionStatus r.2 t statusFlag err statusUnknown = (false, r.2) /\
  (r.1 = false -> r.2 = d).
Proof.
  cbv zeta. unfold setConditionStatus. cbv zeta.
  set (c := match err with
            | Some e => status.mkCondition t _ (errorString (Unwrap e)) (Error e)
            | None => status.mkCondition t _ "" ""
            end).
  assert (Ht : status.Type_ c = t) by (unfold c; destruct err; reflexivity).
  assert (Hs : status.Status c =
               if statusUnknown then "Unknown" else if statusFlag then "True" else "False").
  { unfold c. destruct err, statusUnknown, statusFlag; reflexivity. }
  split; [| split; [| split; [| split]]].
  - exists (status.Reason c), (status.Message c).
    rewrite GetCondition_SetCondition_site, Ht, String.eqb_refl.
    split; [| intros ->; auto].
    f_equal. destruct c as [ct cs cr cm]. simpl in *. subst. reflexivity.
  - rewrite ConditionTrue_SetCondition, Ht, String.eqb_refl, Hs.
    destruct statusUnknown, statusFlag; reflexivity.
  - intros t' Hne. rewrite GetCondition_SetCondition_site, Ht.
    destruct (String.eqb t t') eqn:Heq; [| reflexivity].
    apply String.eqb_eq in Heq. congruence.
  - unfold SetCondition.
    pose proof (SetCondition_twice (Conditions (Status d)) c) as H2.
    destruct (status.SetCondition (Conditions (Status d)) c) as [ch cs']. simpl in *.
    rewrite H2. reflexivity.
  - apply SetCondition_false.
Qed.

(** ** Build status *)

(** X12. checkBuildstatusForUpdate.  Without an extra configuration repository
    nothing is listed and no error is returned.  With one, and a label
    selector that is accepted, the builds of the site's S2i build config
    are listed once, and no error is returned exactly when the list call
    succeeds, the list is not empty and its last build is Complete: the
    builds before the last one have no say. *)
Theorem checkBuildstatusForUpdate_spec {E : Externals} {W : Type}
    (listBuilds : string -> list (string * string) -> W -> (list Build + error) * W)
    (d : DrupalSite) (w : W) :
  let labels :=
    [("openshift.io/build-config.name", "sitebuilder-s2i-" +:+ nameVersionHash d)] in
  let out := checkBuildstatusForUpdate listBuilds d w in
  (ExtraConfigurationRepo (Spec_Configuration (Spec d)) = "" -> out = (None, w)) /\
  (ExtraConfigurationRepo (Spec_Configuration (Spec d)) <> "" ->
   LabelSelectorAsSelector labels = None ->
   out.2 = (listBuilds (Namespace d) labels w).2 /\
   (out.1 = None <->
    exists items b,
      (listBuilds (Namespace d) labels w).1 = inl (items ++ [b])%list /\
      Build_Phase b = BuildPhaseComplete)).
Proof.
  cbv zeta. unfold checkBuildstatusForUpdate, getBuildStatus. split.
  - intros ->. reflexivity.
  - intros Hrepo Hsel.
    destruct (ExtraConfigurationRepo (Spec_Configuration (Spec d))) as [| a s] eqn:Hx;
      [congruence |].
    simpl (0 <? _)%nat. cbv iota. rewrite Hsel.
    destruct (listBuilds (Namespace d) _ w) as [[items | err] w'] eqn:Hl; simpl fst; simpl snd.
    + destruct items as [| x items] using rev_ind.
      * simpl. split; [reflexivity |]. split; [discriminate |].
        intros (items & b & Heq & _). destruct items; discriminate.
      * clear IHitems. rewrite length_app. simpl length.
        replace (0 <? length items + 1)%nat with true by (symmetry; apply Nat.ltb_lt; lia).
        replace (length items + 1 - 1)%nat with (length items) by lia.
        rewrite nth_middle.
        destruct (String.eqb (Build_Phase x) BuildPhaseFailed) eqn:Hf;
          [| destruct (String.eqb (Build_Phase x) BuildPhaseError) eqn:He;
             [| destruct (String.eqb (Build_Phase x) BuildPhaseComplete) eqn:Hc]];
          simpl; (split; [reflexivity |]).
        -- apply String.eqb_eq in Hf. split; [discriminate |].
           intros (i & b & Heq & Hb). injection Heq as Heq.
           apply app_inj_tail in Heq as [_ ->]. rewrite Hf in Hb. discriminate.
        -- apply String.eqb_eq in He. split; [discriminate |].
           intros (i & b & Heq & Hb). injection Heq as Heq.
           apply app_inj_tail in Heq as [_ ->]. rewrite He in Hb. discriminate.
        -- apply String.eqb_eq in Hc. split; [| reflexivity].
           intros _. exists items, x. auto.
        -- apply String.eqb_neq in Hc. split; [discriminate |].
           intros (i & b & Heq & Hb). injection Heq as Heq.
           apply app_inj_tail in Heq as [_ ->]. contradiction.
    + simpl. split; [reflexivity |]. split; [discriminate |].
      intros (items & b & Heq & _). discriminate.
Qed.

(** The site with an extra configuration repository whose last build has
    failed after an earlier one completed. *)
Lemma checkBuildstatusForUpdate_spec_witness :
  let d := set_Spec site0
             (mkDrupalSiteSpec true false "" (Spec_Version (Spec site0))
                (mkConfiguration "" "" "https://gitlab.cern.ch/site/config" "" "" "")) in
  let listBuilds := fun (_ : string) (_ : list (string * string)) (w : nat) =>
    (inl [mkBuild "b-1" "Complete"; mkBuild "b-2" "Failed"] : list Build + error, S w) in
  (checkBuildstatusForUpdate (E := refExternals) listBuilds d 0%nat).2 = 1%nat /\
  (checkBuildstatusForUpdate (E := refExternals) listBuilds d 0%nat).1 <> None.
Proof.
  cbv zeta.
  pose proof (checkBuildstatusForUpdate_spec (E := refExternals)
                (fun (_ : string) (_ : list (string * string)) (w : nat) =>
                   (inl [mkBuild "b-1" "Complete"; mkBuild "b-2" "Failed"] : list Build + error,
                    S w))
                (set_Spec site0
                   (mkDrupalSiteSpec true false "" (Spec_Version (Spec site0))
                      (mkConfiguration "" "" "https://gitlab.cern.ch/site/config" "" "" "")))
                0%nat) as [_ H].
  destruct H as [Hw Hiff]; [discriminate | reflexivity |].
  split; [exact Hw |].
  intros Hnone. apply Hiff in Hnone as (items & b & Heq & Hb).
  simpl in Heq. injection Heq as Heq.
  change [mkBuild "b-1" "Complete"; mkBuild "b-2" "Failed"]
    with ([mkBuild "b-1" "Complete"] ++ [mkBuild "b-2" "Failed"])%list in Heq.
  apply app_inj_tail in Heq as [_ <-]. discriminate.
Defined.

(** ** The object-shaping functions *)

Lemma copy_union (ls old : gmap string string) :
  map_fold (fun k v acc => <[k:=v]> acc) old ls = ls ∪ old.
Proof.
  induction ls as [| k v ls Hk Hfold IH] using map_first_key_ind.
  - rewrite map_fold_empty, (left_id_L ∅ (∪)). reflexivity.
  - rewrite map_fold_insert_first_key by assumption.
    rewrite IH, insert_union_l. reflexivity.
Qed.

Lemma copyLabels_spec (m : shape.ObjectMeta) (name key value : string) :
  key <> "drupalSite" ->
  shape.copyLabels (shape.initLabels m) (<[key := value]> (shape.labelsForDrupalSite name)) =
  shape.set_Meta_Labels m
    (Some (<["drupalSite" := name]> (<[key := value]> (default ∅ (shape.Meta_Labels m))))).
Proof.
  intros Hkey. unfold shape.copyLabels, shape.initLabels, shape.labelsForDrupalSite.
  assert (Hu : forall old : gmap string string,
             map_fold (fun k v acc => <[k:=v]> acc) old
               (<[key := value]> ({["drupalSite" := name]} : gmap string string)) =
             <["drupalSite" := name]> (<[key := value]> old)).
  { intros old. rewrite copy_union. apply map_eq. intros k.
    destruct (decide (k = "drupalSite")) as [-> | Hd].
    - rewrite lookup_insert_eq.
      rewrite lookup_union_l'; rewrite lookup_insert_ne by congruence;
        rewrite lookup_singleton_eq; eauto.
    - rewrite (lookup_insert_ne _ "drupalSite") by congruence.
      destruct (decide (k = key)) as [-> | Ha].
      + rewrite lookup_insert_eq. rewrite lookup_union_l'; rewrite lookup_insert_eq; eauto.
      + rewrite lookup_insert_ne by congruence.
        rewrite lookup_union_r; [reflexivity |].
        rewrite lookup_insert_ne by congruence. apply lookup_singleton_ne. congruence. }
  destruct m as [ct ow [l |] an]; simpl; rewrite Hu; reflexivity.
Qed.

Lemma labels_twice (name key value : string) (old : gmap string string) :
  <["drupalSite" := name]> (<[key := value]>
    (<["drupalSite" := name]> (<[key := value]> old))) =
  <["drupalSite" := name]> (<[key := value]> old).
Proof.
  apply map_eq. intros k.
  destruct (decide (k = "drupalSite")) as [-> | Hd]; [rewrite !lookup_insert_eq; reflexivity |].
  rewrite !(lookup_insert_ne _ "drupalSite") by congruence.
  destruct (decide (k = key)) as [-> | Ha]; [rewrite !lookup_insert_eq; reflexivity |].
  repeat (rewrite lookup_insert_ne by congruence). reflexivity.
Qed.

Lemma index_lookup (m : gmap string string) (k v : string) :
  m !! k = Some v -> index m k = v.
Proof. unfold index. intros ->. reflexivity. Qed.

Ltac meta_norm :=
  repeat progress
    (cbn [shape.CreationTimestamp shape.Meta_Annotations shape.Meta_Labels shape.IsZero
          shape.OwnerReferences shape.meta shape.body fst snd
          shape.set_Meta_Labels shape.set_Meta_Annotations shape.set_OwnerReferences
          shape.addOwnerRefToObject shape.initAnnotations];
     rewrite ?copyLabels_spec by discriminate).

Ltac route_eq d cur :=
  destruct cur as [[ct ow lb an] sp];
  unfold shape.routeForDrupalSite, shape.routeForWebDAV, shapedRoute, freshRouteSpec;
  destruct ct as [t |], an as [an |], (Annotations d !! shape.whitelist) as [v |] eqn:Hw;
  meta_norm; cbv zeta; meta_norm; rewrite ?Hw, ?(index_lookup _ _ _ Hw); meta_norm;
  reflexivity.

Lemma routeForDrupalSite_eq (d : DrupalSite) (cur : shape.Route) :
  shape.routeForDrupalSite cur d = (shapedRoute d (SiteURL (Spec d)) 8080 cur, None).
Proof. route_eq d cur. Qed.

Lemma routeForWebDAV_eq (d : DrupalSite) (cur : shape.Route) :
  shape.routeForWebDAV cur d = (shapedRoute d ("webdav-" +:+ SiteURL (Spec d)) 8081 cur, None).
Proof. route_eq d cur. Qed.

Lemma shapedRoute_spec (f : shape.Route -> DrupalSite -> shape.Route * option error)
    (d : DrupalSite) (host : string) (port : Z) :
  (forall cur, f cur d = (shapedRoute d host port cur, None)) ->
  forall cur, shape.routeShaped f host port d cur.
Proof.
  intros Hf cur. unfold shape.routeShaped. cbv zeta. rewrite !Hf. cbn [fst snd].
  destruct cur as [[ct ow lb an] sp]. unfold shapedRoute, freshRouteSpec. cbv zeta.
  cbn [shape.meta shape.body shape.CreationTimestamp shape.OwnerReferences shape.Meta_Labels
       shape.Meta_Annotations].
  repeat split; try reflexivity.
  - destruct ct; [| congruence]. reflexivity.
  - destruct ct; [| congruence]. reflexivity.
  - destruct ct as [t |]; [| congruence].
    cbn [shape.IsZero default]. unfold id, shape.set_Host. rewrite labels_twice.
    destruct (Annotations d !! shape.whitelist); rewrite ?insert_insert_eq; reflexivity.
  - destruct ct; [congruence |]. reflexivity.
  - destruct ct; [congruence |]. reflexivity.
Qed.

(** X13. routeForDrupalSite and routeForWebDAV.  Neither fails.  The route
    gets the site's URL as host (with "webdav-" in front for the WebDAV
    route), the labels drupalSite and app over the ones it had, and the
    site's IP whitelist annotation when the site has one; a whitelist the
    route already carries stays when the site has none.  A route that
    exists keeps its owners and the rest of its spec, and shaping it again
    changes nothing; a new route gets the site as owner and an edge
    terminated spec pointing at the site's service, port 8080 or 8081. *)
Theorem route_shaping (d : DrupalSite) (cur : shape.Route) :
  shape.routeShaped shape.routeForDrupalSite (SiteURL (Spec d)) 8080 d cur /\
  shape.routeShaped shape.routeForWebDAV ("webdav-" +:+ SiteURL (Spec d)) 8081 d cur.
Proof.
  split; apply shapedRoute_spec; intros c.
  - apply routeForDrupalSite_eq.
  - apply routeForWebDAV_eq.
Qed.

Lemma scheduledBackups_eq {E : Externals} (d : DrupalSite) (cur : shape.Schedule) :
  shape.scheduledBackupsForDrupalSite cur d =
  (shape.mkObject
     (shape.mkObjectMeta (shape.CreationTimestamp (shape.meta cur))
        (shape.OwnerReferences (shape.meta cur))
        (Some (<["drupalSite" := Name d]>
                 (<[shape.siteLabel := md5Hex (Namespace d +:+ "/" +:+ Name d)]>
                    (default ∅ (shape.Meta_Labels (shape.meta cur))))))
        (Some (<[shape.siteLabel := Namespace d +:+ "/" +:+ Name d]>
                 (default ∅ (shape.Meta_Annotations (shape.meta cur))))))
     (shape.mkScheduleSpec "* 3 * * *"
        (shape.mkBackupSpec [Namespace d] [] ["pods"]
           (Some (<["app" := "drupal"]> {["drupalSite" := Name d]}))
           (168 * shape.Hour))
        (Some true)), None).
Proof.
  destruct cur as [[ct ow lb an] sp]. unfold shape.scheduledBackupsForDrupalSite.
  destruct an as [an |]; meta_norm; cbv zeta; meta_norm; reflexivity.
Qed.

(** X14. scheduledBackupsForDrupalSite against checkNewBackups.  The schedule
    is given every label by which checkNewBackups selects the backups of
    the site, and the annotation naming the site; its other labels and
    annotations stay.  It gets no owner; its spec is written anew on every
    pass, backing up the pods of the site in the site's namespace, so that
    shaping a shaped schedule changes nothing. *)
Theorem scheduledBackups_shaping {E : Externals} (d : DrupalSite) (cur : shape.Schedule) :
  let r := shape.scheduledBackupsForDrupalSite cur d in
  r.2 = None /\
  Forall (fun kv => default ∅ (shape.Meta_Labels (shape.meta r.1)) !! kv.1 = Some kv.2)
    (backupLabels d) /\
  default ∅ (shape.Meta_Annotations (shape.meta r.1)) !! shape.siteLabel =
    Some (Namespace d +:+ "/" +:+ Name d) /\
  (forall k, k <> shape.siteLabel -> k <> "drupalSite" ->
     default ∅ (shape.Meta_Labels (shape.meta r.1)) !! k =
       default ∅ (shape.Meta_Labels (shape.meta cur)) !! k) /\
  (forall k, k <> shape.siteLabel ->
     default ∅ (shape.Meta_Annotations (shape.meta r.1)) !! k =
       default ∅ (shape.Meta_Annotations (shape.meta cur)) !! k) /\
  shape.OwnerReferences (shape.meta r.1) = shape.OwnerReferences (shape.meta cur) /\
  shape.IncludedNamespaces (shape.Template (shape.body r.1)) = [Namespace d] /\
  shape.LabelSelector (shape.Template (shape.body r.1)) =
    Some (list_to_map (podLabels d)) /\
  shape.scheduledBackupsForDrupalSite r.1 d = r.
Proof.
  cbv zeta. rewrite scheduledBackups_eq. cbn [fst snd]. rewrite scheduledBackups_eq.
  cbn [shape.meta shape.body shape.CreationTimestamp shape.OwnerReferences shape.Meta_Labels
       shape.Meta_Annotations shape.Template shape.IncludedNamespaces shape.LabelSelector
       default].
  unfold id.
  split; [reflexivity |]. split; [| split; [| split; [| split; [| split; [| split; [| split]]]]]].
  - unfold backupLabels. constructor; [| constructor]. cbn [fst snd].
    rewrite lookup_insert_ne by discriminate. apply lookup_insert_eq.
  - apply lookup_insert_eq.
  - intros k Hk Hd'. repeat (rewrite lookup_insert_ne by congruence). reflexivity.
  - intros k Hk. repeat (rewrite lookup_insert_ne by congruence). reflexivity.
  - reflexivity.
  - reflexivity.
  - reflexivity.
  - rewrite labels_twice, insert_insert_eq. reflexivity.
Qed.

Lemma relabelled_twice {B : Type} (app : string) (d : DrupalSite) (cur : shape.Object B) :
  shape.relabelled app d (shape.relabelled app d cur) = shape.relabelled app d cur.
Proof.
  destruct cur as [[ct ow lb an] b]. unfold shape.relabelled.
  cbn [shape.meta shape.body shape.set_Meta_Labels shape.Meta_Labels shape.CreationTimestamp
       shape.OwnerReferences shape.Meta_Annotations default].
  unfold id. rewrite labels_twice. reflexivity.
Qed.

Lemma keepsExisting_intro {B : Type}
    (f : shape.Object B -> DrupalSite -> shape.Object B * option error) (app : string) :
  (forall d t ow lb an b,
     f (shape.mkObject (shape.mkObjectMeta (Some t) ow lb an) b) d =
     (shape.relabelled app d (shape.mkObject (shape.mkObjectMeta (Some t) ow lb an) b),
      None)) ->
  shape.keepsExisting f app.
Proof.
  intros Hf d [[[t |] ow lb an] b] Hex; [| cbn in Hex; congruence].
  split; [apply Hf |].
  set (cur := shape.mkObject (shape.mkObjectMeta (Some t) ow lb an) b).
  pose proof (Hf d t ow (shape.Meta_Labels (shape.meta (shape.relabelled app d cur))) an b)
    as H2.
  change (shape.mkObject (shape.mkObjectMeta (Some t) ow _ an) b)
    with (shape.relabelled app d cur) in H2.
  rewrite relabelled_twice in H2. exact H2.
Qed.

Ltac existing_go :=
  apply keepsExisting_intro; intros d t ow lb an b;
  unfold shape.imageStreamForDrupalSiteBuilderS2I, shape.buildConfigForDrupalSiteBuilderS2I,
    shape.dbodForDrupalSite, shape.secretForWebDAV, shape.serviceForDrupalSite,
    shape.relabelled;
  meta_norm; cbv zeta; meta_norm; reflexivity.

(** X15. Objects that exist keep what they have.  Handed an image stream, a
    build config, a database, a WebDAV secret, a volume claim or a service
    that has a creation time, the function for it returns no error, lays
    the labels drupalSite and app over the labels of the object and
    changes nothing else: not the owners, not the annotations, not the
    spec or the data, whatever they have drifted to and whatever the site
    now asks for.  Doing it again changes nothing. *)
Theorem existing_objects_keep_their_spec {E : Externals} {Resources Quantity : Type}
    (BuildResources : Resources) (openssl : string -> string + error)
    (Errorf : string -> error -> error) (ParseQuantity : string -> Quantity + error) :
  shape.keepsExisting shape.imageStreamForDrupalSiteBuilderS2I "sitebuilder" /\
  shape.keepsExisting (shape.buildConfigForDrupalSiteBuilderS2I BuildResources)
    "sitebuilder" /\
  shape.keepsExisting shape.dbodForDrupalSite "dbod" /\
  shape.keepsExisting (shape.secretForWebDAV openssl Errorf) "drupal" /\
  shape.keepsExisting shape.serviceForDrupalSite "drupal" /\
  (forall d cur,
     shape.CreationTimestamp (shape.meta cur) <> None ->
     shape.persistentVolumeClaimForDrupalSite ParseQuantity cur d =
       Ret (shape.relabelled "drupal" d cur, None) /\
     shape.persistentVolumeClaimForDrupalSite ParseQuantity
       (shape.relabelled "drupal" d cur) d = Ret (shape.relabelled "drupal" d cur, None)).
Proof.
  split; [existing_go |]. split; [existing_go |]. split; [existing_go |].
  split; [existing_go |]. split; [existing_go |].
  assert (Hf : forall d t ow lb an b,
             shape.persistentVolumeClaimForDrupalSite ParseQuantity
               (shape.mkObject (shape.mkObjectMeta (Some t) ow lb an) b) d =
             Ret (shape.relabelled "drupal" d
                    (shape.mkObject (shape.mkObjectMeta (Some t) ow lb an) b), None)).
  { intros d t ow lb an b.
    unfold shape.persistentVolumeClaimForDrupalSite, shape.relabelled.
    meta_norm. cbn [bind]. meta_norm. reflexivity. }
  intros d [[[t |] ow lb an] b] Hex; [| cbn in Hex; congruence].
  split; [apply Hf |].
  set (cur := shape.mkObject (shape.mkObjectMeta (Some t) ow lb an) b).
  pose proof (Hf d t ow (shape.Meta_Labels (shape.meta (shape.relabelled "drupal" d cur)))
                an b) as H2.
  change (shape.mkObject (shape.mkObjectMeta (Some t) ow _ an) b)
    with (shape.relabelled "drupal" d cur) in H2.
  rewrite relabelled_twice in H2. exact H2.
Qed.

(** X16. Where shaping fails.  persistentVolumeClaimForDrupalSite panics
    exactly when the claim is new and the site's disk size does not parse
    as a quantity.  secretForWebDAV returns an error exactly when the
    secret is new and the password cannot be encrypted; the secret it
    leaves then has its type and owner set, but neither the password nor
    the labels. *)
Theorem shaping_failures {E : Externals} {Quantity : Type}
    (openssl : string -> string + error) (Errorf : string -> error -> error)
    (ParseQuantity : string -> Quantity + error) (d : DrupalSite) :
  (forall cur,
     shape.persistentVolumeClaimForDrupalSite ParseQuantity cur d = Panic <->
     shape.CreationTimestamp (shape.meta cur) = None /\
     exists e, ParseQuantity (DiskSize (Spec_Configuration (Spec d))) = inr e) /\
  (forall cur,
     (shape.secretForWebDAV openssl Errorf cur d).2 <> None <->
     shape.CreationTimestamp (shape.meta cur) = None /\
     exists e, openssl (WebDAVPassword (Spec_Configuration (Spec d))) = inr e) /\
  (forall cur,
     (shape.secretForWebDAV openssl Errorf cur d).2 <> None ->
     let s := (shape.secretForWebDAV openssl Errorf cur d).1 in
     shape.Meta_Labels (shape.meta s) = shape.Meta_Labels (shape.meta cur) /\
     shape.StringData (shape.body s) = shape.StringData (shape.body cur) /\
     shape.Secret_Type (shape.body s) = "kubernetes.io/basic-auth" /\
     shape.OwnerReferences (shape.meta s) =
       (shape.OwnerReferences (shape.meta cur) ++ [shape.asOwner d])%list).
Proof.
  split; [| split].
  - intros [[[t |] ow lb an] b]; unfold shape.persistentVolumeClaimForDrupalSite;
      cbn [shape.meta shape.CreationTimestamp shape.IsZero].
    + cbn [bind]. split; [discriminate | intros [? _]; discriminate].
    + destruct (ParseQuantity _) as [q | e]; cbn [bind].
      * split; [discriminate | intros [_ [e He]]; discriminate].
      * split; [eauto | reflexivity].
  - intros [[[t |] ow lb an] b]; unfold shape.secretForWebDAV, shape.encryptBasicAuthPassword;
      cbn [shape.meta shape.CreationTimestamp shape.IsZero].
    + cbn [snd]. split; [congruence | intros [? _]; discriminate].
    + destruct (openssl _) as [p | e]; cbn [snd].
      * split; [congruence | intros [_ [e He]]; discriminate].
      * split; [eauto | discriminate].
  - intros [[[t |] ow lb an] b]; unfold shape.secretForWebDAV, shape.encryptBasicAuthPassword;
      cbn [shape.meta shape.CreationTimestamp shape.IsZero].
    + cbn [snd]. congruence.
    + destruct (openssl _) as [p | e]; cbn [snd]; [congruence |].
      intros _. cbv zeta. cbn [fst]. meta_norm. cbn [shape.StringData shape.Secret_Type].
      auto.
Qed.

(** ** The start of an update *)

Lemma wp_conj {A : Type} (p : Prog A) (Q1 Q2 : list Event -> A -> Prop) :
  wp p Q1 -> wp p Q2 -> wp p (fun tr a => Q1 tr a /\ Q2 tr a).
Proof.
  revert Q1 Q2. induction p as [a | | R c k IH]; simpl; intros Q1 Q2 H1 H2.
  - auto.
  - exact H1.
  - intros r. apply IH; auto.
Qed.

Lemma safe_conj {A : Type} (P1 P2 : Event -> Prop) (R1 R2 : A -> Prop) (p : Prog A) :
  safe P1 R1 p -> safe P2 R2 p -> safe (fun e => P1 e /\ P2 e) (fun a => R1 a /\ R2 a) p.
Proof.
  intros H1 H2. eapply wp_mono; [| exact (wp_conj _ _ _ H1 H2)].
  intros tr a [[Ht1 Ha1] [Ht2 Ha2]]. split; [| auto].
  apply Forall_forall. intros e He. split; eapply Forall_forall; eauto.
Qed.

(** A step whose calls satisfy [P] is justified when [P] justifies, and
    keeps a history of calls that satisfy [P]. *)
Lemma hwp_kept {A : Type} (J : list Event -> Event -> Prop) (P : Event -> Prop) hist
    (R : A -> Prop) (p : Prog A) :
  (forall hist' e, P e -> J hist' e) -> Forall P hist -> safe P R p ->
  hwp J hist p (fun hist' a => Forall P hist' /\ R a).
Proof.
  intros HP Hh. apply wp_mono. intros tr a [Htr Ha].
  split; [eapply justified_Forall; eauto |].
  split; [apply Forall_app; auto | exact Ha].
Qed.

Section Inspecting.

Context {E : Externals}.

Lemma getRunningPodForVersion_inspecting d release :
  safe inspecting (fun _ => True) (getRunningPodForVersion d release).
Proof. unfold getRunningPodForVersion. safe_go; exact I. Qed.

Lemma exec_inspecting d containerName command :
  command = checkUpdbStatus \/ command = checkIfSiteIsInstalled ->
  safe inspecting (fun _ => True) (execToServerPodErrOnStderr d containerName command).
Proof.
  intros Hc. unfold execToServerPodErrOnStderr, execToServerPod.
  eapply safe_bind with (R1 := fun _ => True).
  - eapply safe_bind; [apply getRunningPodForVersion_inspecting |].
    intros [pod [err |]] _; [apply safe_ret; exact I |].
    apply safe_call. intros r. split; [exact Hc | exact I].
  - intros [[sout serr] err] _. destruct (notNil err || negb (String.eqb serr ""));
      apply safe_ret; exact I.
Qed.

Lemma isDrupalSiteReady_inspecting d :
  safe inspecting (fun _ => True) (isDrupalSiteReady d).
Proof. unfold isDrupalSiteReady. safe_go; exact I. Qed.

Lemma isCloneJobCompleted_inspecting d :
  safe inspecting (fun _ => True) (isCloneJobCompleted d).
Proof. unfold isCloneJobCompleted. safe_go; exact I. Qed.

Lemma isDrupalSiteInstalled_inspecting d :
  safe inspecting (fun _ => True) (isDrupalSiteInstalled d).
Proof.
  unfold isDrupalSiteInstalled.
  eapply safe_bind; [apply isDrupalSiteReady_inspecting |].
  intros [|] _; [| apply safe_ret; exact I].
  eapply safe_bind; [apply exec_inspecting; auto |].
  intros [sout [err |]] _; apply safe_ret; exact I.
Qed.

Lemma generateWebDAVpassword_inspecting :
  safe inspecting (fun _ => True) generateWebDAVpassword.
Proof. unfold generateWebDAVpassword. safe_go; exact I. Qed.

Lemma ensureSpecFinalizer_inspecting d :
  safe inspecting (fun _ => True) (ensureSpecFinalizer d).
Proof.
  unfold ensureSpecFinalizer. cbv zeta.
  destruct (if negb (ContainsFinalizer d finalizerStr) then _ else _) as [d1 update].
  eapply safe_bind with (R1 := fun _ => True).
  { destruct (String.eqb _ _); [| apply safe_ret; exact I].
    eapply safe_bind; [apply generateWebDAVpassword_inspecting |].
    intros pw _. apply safe_ret. exact I. }
  intros d3 _. cbv zeta.
  destruct (String.eqb _ _); [| apply safe_ret; exact I].
  destruct (LabelSelectorAsSelector _); [apply safe_ret; exact I |].
  cbn [bind call]. apply safe_vis; [intros r; exact I |].
  intros [[| item0 items] | err]; [| destruct (_ && _) |]; apply safe_ret; exact I.
Qed.

End Inspecting.

Lemma Annotations_SetCondition (d : DrupalSite) (c : status.Condition) :
  Annotations (SetCondition d c).2 = Annotations d.
Proof. unfold SetCondition. destruct (status.SetCondition _ _). reflexivity. Qed.

Lemma Annotations_RemoveCondition (d : DrupalSite) (t : status.ConditionType) :
  Annotations (RemoveCondition d t).2 = Annotations d.
Proof. unfold RemoveCondition. destruct (status.RemoveCondition _ _). reflexivity. Qed.

Lemma Annotations_setConditionStatus {E : Externals} (d : DrupalSite) t flag err unknown :
  Annotations (setConditionStatus d t flag err unknown).2 = Annotations d.
Proof. unfold setConditionStatus. apply Annotations_SetCondition. Qed.

Lemma unmarked_same (d d' : DrupalSite) :
  unmarked d -> Annotations d' = Annotations d -> unmarked d'.
Proof. unfold unmarked. intros H ->. exact H. Qed.

Lemma unsetUpdateInProgress_unmarked (d : DrupalSite) :
  unmarked d -> unsetUpdateInProgress d = (false, d).
Proof.
  intros H. pose proof (unsetUpdateInProgress_false d) as Hf.
  rewrite unsetUpdateInProgress_eq in *. unfold unmarked in H. rewrite H in *. simpl in *.
  rewrite Hf; reflexivity.
Qed.

(** *** Without the annotation no step after the check for an update sets it *)

Section Unmarked.

Context {E : Externals}.

Local Abbreviation P := (persistsBy unmarked).
Local Abbreviation anyCommand := (fun _ : list string => True).

Lemma unmarked_quiet e : persisted e = None -> executed e = None -> P e.
Proof. intros H _. unfold persistsBy. rewrite H. exact I. Qed.

Lemma unmarked_exec containerName podName namespace command r :
  anyCommand command ->
  P (Ev (execToPodThroughAPI containerName podName namespace command) r).
Proof. intros _. exact I. Qed.

Hint Resolve unmarked_quiet unmarked_exec : quiet.

Lemma updateCRStatus_unmarked d :
  unmarked d -> safe P (fun _ => True) (updateCRStatusOrFailReconcile d).
Proof.
  intros H. unfold updateCRStatusOrFailReconcile. cbn [bind call].
  apply safe_vis; [intros r; exact H |].
  intros [err |]; [destruct (IsConflict err) |]; apply safe_ret; exact I.
Qed.

Lemma updateCR_unmarked d :
  unmarked d -> safe P (fun _ => True) (updateCRorFailReconcile d).
Proof.
  intros H. unfold updateCRorFailReconcile. cbn [bind call].
  apply safe_vis; [intros r; exact H |].
  intros [err |]; [destruct (IsConflict err) |]; apply safe_ret; exact I.
Qed.

Lemma handleTransientErr_unmarked err d transientErr fmt st :
  unmarked d -> safe P (fun _ => True) (handleTransientErr err d transientErr fmt st).
Proof.
  intros H. unfold handleTransientErr. cbv zeta.
  eapply safe_bind with (R1 := fun _ => True).
  - apply updateCRStatus_unmarked.
    destruct (String.eqb st "Ready"); [| exact H].
    eapply unmarked_same; [exact H | apply Annotations_setConditionStatus].
  - intros _ _. destruct (Temporary transientErr); apply safe_ret; exact I.
Qed.

Lemma Reconcile_backups_unmarked d requeueFlag :
  unmarked d -> safe P (fun _ => True) (Reconcile_backups d requeueFlag).
Proof.
  intros H. unfold Reconcile_backups.
  eapply safe_bind; [eapply checkNewBackups_quiet; eauto with quiet |].
  intros [backupList [err |]] _; [apply safe_ret; exact I |].
  destruct (negb _); [| apply safe_ret; exact I].
  destruct (backupListUpdateNeeded_iff backupList (AvailableBackups (Status d)))
    as (b & Hb & _).
  rewrite Hb. destruct b; [| apply safe_ret; exact I].
  apply updateCRStatus_unmarked. exact H.
Qed.

Lemma Reconcile_failsafe_unmarked d requeueFlag :
  unmarked d -> safe P (fun _ => True) (Reconcile_failsafe d requeueFlag).
Proof.
  intros H. unfold Reconcile_failsafe.
  eapply safe_bind; [eapply isDBODProvisioned_quiet; eauto with quiet |].
  intros dbodReady _. destruct dbodReady; cbn [negb].
  - destruct (negb (String.eqb _ _) && _ && _).
    + cbv zeta. apply updateCRStatus_unmarked. exact H.
    + apply Reconcile_backups_unmarked. exact H.
  - pose proof (Annotations_setConditionStatus d "Ready" false
                  (Some (newApplicationError None (sentinel ErrDBOD))) false) as Hf.
    unfold setNotReady.
    destruct (setConditionStatus _ _ _ _ _) as [update d']. simpl in Hf.
    eapply safe_bind with (R1 := fun _ => True); [| intros _ _; apply safe_ret; exact I].
    destruct update; [| apply safe_ret; exact I].
    apply updateCRStatus_unmarked. eapply unmarked_same; eauto.
Qed.

Lemma Reconcile_update_unmarked err d requeueFlag :
  unmarked d -> safe P (fun _ => True) (Reconcile_update err d false requeueFlag).
Proof.
  intros H. unfold Reconcile_update. cbn [andb bind].
  rewrite (unsetUpdateInProgress_unmarked d H).
  apply Reconcile_failsafe_unmarked. exact H.
Qed.

Lemma Reconcile_resources_unmarked err d requeueFlag :
  unmarked d -> psafe P (fun _ => True) (Reconcile_resources err d false requeueFlag).
Proof.
  intros H. unfold Reconcile_resources.
  eapply psafe_bind; [eapply ensureResources_quiet; eauto with quiet |].
  intros transientErrs _. apply safe_psafe. destruct (negb _).
  - cbv zeta. unfold setNotReady.
    pose proof (Annotations_setConditionStatus d "Ready" false
                  (Some (concat transientErrs)) false) as Hf.
    destruct (setConditionStatus _ _ _ _ _) as [ch d']. simpl in Hf.
    apply handleTransientErr_unmarked. eapply unmarked_same; eauto.
  - apply Reconcile_update_unmarked. exact H.
Qed.

Lemma cleanupDrupalSite_unmarked d :
  unmarked d -> safe P (fun _ => True) (cleanupDrupalSite d).
Proof.
  intros H. unfold cleanupDrupalSite. cbv zeta.
  eapply safe_bind with (R1 := fun _ => True).
  - unfold ensureNoSchedule. eapply ensureNoObject_quiet; eauto with quiet.
  - intros [err |] _; [apply safe_ret; exact I |].
    apply updateCR_unmarked. exact H.
Qed.

End Unmarked.

(** *** Up to the check for an update the cluster is only inspected *)

Lemma inspecting_updateStart hist e : inspecting e -> updateStart hist e.
Proof.
  destruct e as [R c r]. unfold updateStart, inspecting.
  destruct c; simpl; intros H; try exact I; contradiction.
Qed.

Lemma unmarked_updateStart hist e : persistsBy unmarked e -> updateStart hist e.
Proof.
  unfold persistsBy, updateStart. destruct (persisted e); [| auto].
  intros H Hn. contradiction.
Qed.

Section Start.

Context {E : Externals}.

Local Abbreviation J := updateStart.

Lemma hwp_inspecting {A : Type} hist (R : A -> Prop) (p : Prog A) :
  Forall inspecting hist -> safe inspecting R p ->
  hwp J hist p (fun hist' a => Forall inspecting hist' /\ R a).
Proof. apply hwp_kept. intros. apply inspecting_updateStart. assumption. Qed.

Lemma hwp_unmarked {A : Type} hist (p : Prog A) :
  safe (persistsBy unmarked) (fun _ => True) p -> hwp J hist p (fun _ _ => True).
Proof.
  intros H. eapply hwp_safe; [| exact H].
  intros. apply unmarked_updateStart. assumption.
Qed.

Lemma phwp_unmarked {A : Type} hist (p : Prog A) :
  psafe (persistsBy unmarked) (fun _ => True) p ->
  phwp J hist p (fun _ _ => True) (fun _ => True).
Proof.
  intros H. eapply phwp_psafe; [| exact H].
  intros. apply unmarked_updateStart. assumption.
Qed.

Lemma Reconcile_initialized_inspecting d update :
  unmarked d ->
  safe inspecting (fun r => unmarked r.1) (Reconcile_initialized d update).
Proof.
  intros H. unfold Reconcile_initialized.
  destruct (negb _); [| apply safe_ret; exact H].
  eapply safe_bind; [apply isDrupalSiteInstalled_inspecting |].
  intros installed _.
  eapply safe_bind with (R1 := fun _ => True).
  { destruct installed; [apply safe_ret; exact I | apply isCloneJobCompleted_inspecting]. }
  intros done _. destruct done.
  - pose proof (Annotations_SetCondition d (status.mkCondition "Initialized" "True" "" ""))
      as Ha.
    unfold setInitialized. destruct (SetCondition _ _) as [ch d']. apply safe_ret.
    eapply unmarked_same; eauto.
  - pose proof (Annotations_SetCondition d (status.mkCondition "Initialized" "False" "" ""))
      as Ha.
    unfold setNotInitialized. destruct (SetCondition _ _) as [ch d']. apply safe_ret.
    eapply unmarked_same; eauto.
Qed.

Lemma Reconcile_clearFailures_unmarked d update :
  unmarked d -> unmarked (Reconcile_clearFailures d update).1.
Proof.
  intros H. unfold Reconcile_clearFailures.
  destruct (String.eqb _ _); [| exact H].
  destruct (ConditionTrue d "CodeUpdateFailed").
  - pose proof (Annotations_RemoveCondition d "CodeUpdateFailed") as H1.
    destruct (RemoveCondition d "CodeUpdateFailed") as [r1 d1]. simpl in H1.
    destruct (ConditionTrue d1 "DBUpdatesFailed"); [| eapply unmarked_same; eauto].
    pose proof (Annotations_RemoveCondition d1 "DBUpdatesFailed") as H2.
    destruct (RemoveCondition d1 "DBUpdatesFailed") as [r2 d2]. simpl in *.
    eapply unmarked_same; [exact H | congruence].
  - destruct (ConditionTrue d "DBUpdatesFailed"); [| exact H].
    pose proof (Annotations_RemoveCondition d "DBUpdatesFailed") as H2.
    destruct (RemoveCondition d "DBUpdatesFailed") as [r2 d2]. simpl in *.
    eapply unmarked_same; eauto.
Qed.

Lemma updateNeeded_start d hist :
  Forall inspecting hist ->
  hwp J hist (updateNeeded d)
    (fun hist' r =>
       Forall inspecting hist' /\
       (r.1 = true ->
        ConditionTrue d "Ready" = true /\ ConditionTrue d "Initialized" = true /\
        exists hist0 deployment,
          hist' = (hist0 ++ [Ev (GetDeployment (siteKey d)) (inl deployment)])%list /\
          index (Template_Annotations deployment) "releaseID" <> releaseID d)).
Proof.
  intros Hh. unfold updateNeeded.
  destruct (ConditionTrue d "Ready") eqn:Hr, (ConditionTrue d "Initialized") eqn:Hi;
    cbn [andb]; try (apply hwp_ret; split; [exact Hh | discriminate]).
  cbn [bind call]. apply hwp_vis; [intros r; apply inspecting_updateStart; exact I |].
  intros [deployment | err].
  - assert (Hh' : Forall inspecting
                    (hist ++ [Ev (GetDeployment (siteKey d)) (inl deployment)])).
    { apply Forall_app. split; [exact Hh | repeat constructor]. }
    destruct (String.eqb _ _) eqn:Heq; cbn [negb andb]; apply hwp_ret;
      (split; [exact Hh' |]); [discriminate |].
    intros _. repeat split. exists hist, deployment. split; [reflexivity |].
    apply String.eqb_neq. exact Heq.
  - apply hwp_ret. split; [| discriminate].
    apply Forall_app. split; [exact Hh | repeat constructor].
Qed.

Lemma Reconcile_updateNeeded_start err d hist :
  unmarked d -> Forall inspecting hist ->
  phwp J hist (Reconcile_updateNeeded err d) (fun _ _ => True) (fun _ => True).
Proof.
  intros Hu Hh. unfold Reconcile_updateNeeded. cbv zeta.
  eapply phwp_bind; [apply hwp_phwp, updateNeeded_start; exact Hh |].
  intros hist' [needed reconcileErr] [Hh' Hn]. cbn [fst snd] in Hn.
  assert (Hrest : forall rf, phwp J hist' (Reconcile_resources err d false rf)
                                (fun _ _ => True) (fun _ => True)).
  { intros rf. apply phwp_unmarked, Reconcile_resources_unmarked. exact Hu. }
  assert (Hset : notNil (Annotations d !! "updateInProgress") = false).
  { unfold unmarked in Hu. rewrite Hu. reflexivity. }
  rewrite Hset. cbn [negb andb].
  destruct (negb (ConditionTrue d "CodeUpdateFailed") && _); [| apply Hrest].
  destruct reconcileErr; [apply Hrest |].
  destruct needed; [| apply Hrest].
  destruct (Hn eq_refl) as (Hr & Hi & hist0 & deployment & Hhist & Hrel).
  rewrite setUpdateInProgress_eq.
  assert (Hidx : index (Annotations d) "updateInProgress" = "").
  { unfold index. unfold unmarked in Hu. rewrite Hu. reflexivity. }
  rewrite Hidx. cbn [String.eqb negb]. apply hwp_phwp.
  unfold updateCRorFailReconcile. cbn [bind call].
  apply hwp_vis.
  - intros r. unfold updateStart. cbn [persisted]. intros _.
    split; [exists r; reflexivity |].
    split; [exact Hr |]. split; [exact Hi |].
    split; [| exact Hh'].
    exists hist0, deployment. split; [exact Hhist | exact Hrel].
  - intros [e |]; [destruct (IsConflict e) |]; apply hwp_ret; exact I.
Qed.

Lemma updateCRStatus_start d hist :
  unmarked d -> hwp J hist (updateCRStatusOrFailReconcile d) (fun _ _ => True).
Proof. intros H. apply hwp_unmarked, updateCRStatus_unmarked. exact H. Qed.

Lemma Reconcile_conditions_start err d hist :
  unmarked d -> Forall inspecting hist ->
  phwp J hist (Reconcile_conditions err d) (fun _ _ => True) (fun _ => True).
Proof.
  intros Hu Hh. unfold Reconcile_conditions. cbv zeta.
  set (d1 := if negb (String.eqb _ _) then _ else _).
  assert (Hu1 : unmarked d1.1) by (subst d1; destruct (negb _); exact Hu).
  destruct d1 as [d1 update1]. cbn [fst] in Hu1.
  eapply phwp_bind;
    [apply hwp_phwp, hwp_inspecting; [exact Hh | apply isDrupalSiteReady_inspecting] |].
  intros hist1 siteReady [Hh1 _].
  set (d2 := if siteReady then _ else _).
  assert (Hu2 : unmarked d2.1).
  { subst d2. destruct siteReady.
    - pose proof (Annotations_SetCondition d1 (status.mkCondition "Ready" "True" "" "")) as Ha.
      unfold setReady. destruct (SetCondition _ _) as [ch d']. eapply unmarked_same; eauto.
    - pose proof (Annotations_setConditionStatus d1 "Ready" false None false) as Ha.
      unfold setNotReady. destruct (setConditionStatus _ _ _ _ _) as [ch d'].
      eapply unmarked_same; eauto. }
  destruct d2 as [d2 update2]. cbn [fst] in Hu2.
  eapply phwp_bind;
    [apply hwp_phwp, hwp_inspecting;
     [exact Hh1 | apply Reconcile_initialized_inspecting; exact Hu2] |].
  intros hist2 [d3 update3] [Hh2 Hu3]. cbn [fst] in Hu3.
  eapply phwp_bind with
    (R1 := fun hist' r =>
             match r with
             | inl returned => hwp J hist' returned (fun _ _ => True)
             | inr (d', _) => unmarked d' /\ Forall inspecting hist'
             end).
  { apply hwp_phwp. destruct (_ && _); [| apply hwp_ret; auto].
    eapply hwp_bind; [apply hwp_inspecting; [exact Hh2 | apply exec_inspecting; auto] |].
    intros hist3 [sout err'] [Hh3 _].
    destruct (notNil err'); [apply hwp_ret; apply updateCRStatus_start; exact Hu3 |].
    destruct (String.eqb sout ""); [| apply hwp_ret; auto].
    pose proof (Annotations_RemoveCondition d3 "DBUpdatesPending") as Ha.
    destruct (RemoveCondition d3 "DBUpdatesPending") as [removed d']. apply hwp_ret.
    split; [eapply unmarked_same; eauto | exact Hh3]. }
  intros hist3 [returned | [d4 update4]] Hr; [apply hwp_phwp; exact Hr |].
  destruct Hr as [Hu4 Hh3].
  pose proof (Reconcile_clearFailures_unmarked d4 update4 Hu4) as Hu5.
  destruct (Reconcile_clearFailures d4 update4) as [d5 update5]. cbn [fst] in Hu5.
  destruct update5; [apply hwp_phwp, updateCRStatus_start; exact Hu5 |].
  apply Reconcile_updateNeeded_start; assumption.
Qed.

Lemma Reconcile_rest_start req d :
  unmarked d ->
  phwp J [Ev (GetDrupalSite req) (inl d)]
    (let err : option error := None in
     if notNil (DeletionTimestamp d) then
       if ContainsFinalizer d finalizerStr then cleanupDrupalSite d
       else Ret (emptyResult, None)
     else
       r <- ensureSpecFinalizer d ;;
       let '(drupalSite, update, specErr) := r in
       match specErr with
       | Some specErr =>
           let '(_, drupalSite) := setErrorCondition drupalSite specErr in
           updateCRStatusOrFailReconcile drupalSite
       | None =>
           if update then updateCRorFailReconcile drupalSite
           else
             match validateSpec (Spec drupalSite) with
             | Some specErr =>
                 let '(_, drupalSite) := setErrorCondition drupalSite specErr in
                 updateCRStatusOrFailReconcile drupalSite
             | None => Reconcile_conditions err drupalSite
             end
       end)%prog
    (fun _ _ => True) (fun _ => True).
Proof.
  intros Hu. cbv zeta.
  assert (Hh : Forall inspecting [Ev (GetDrupalSite req) (inl d)]) by (repeat constructor).
  destruct (notNil (DeletionTimestamp d)).
  { apply hwp_phwp. destruct (ContainsFinalizer d finalizerStr); [| apply hwp_ret; exact I].
    apply hwp_unmarked, cleanupDrupalSite_unmarked. exact Hu. }
  eapply phwp_bind.
  { apply hwp_phwp, hwp_inspecting; [exact Hh |].
    eapply safe_mono;
      [| | exact (safe_conj _ _ _ _ _
                    (ensureSpecFinalizer_safe (fun _ => True) (fun _ _ _ => I) d)
                    (ensureSpecFinalizer_inspecting d))].
    - intros e [_ He]. exact He.
    - intros a [Ha _]. exact Ha. }
  intros hist1 [[d1 update] specErr] [Hh1 (_ & _ & Ha)]. cbn [fst] in Ha.
  assert (Hu1 : unmarked d1) by (eapply unmarked_same; eauto).
  assert (Herr : forall specErr,
             hwp J hist1
               (let '(_, drupalSite) := setErrorCondition d1 specErr in
                updateCRStatusOrFailReconcile drupalSite) (fun _ _ => True)).
  { intros e. pose proof (Annotations_setConditionStatus d1 "Error" true (Some e) false) as Hs.
    unfold setErrorCondition. destruct (setConditionStatus _ _ _ _ _) as [ch d'].
    apply updateCRStatus_start. eapply unmarked_same; eauto. }
  destruct specErr as [specErr |]; [apply hwp_phwp, Herr |].
  destruct update; [apply hwp_phwp, hwp_unmarked, updateCR_unmarked; exact Hu1 |].
  destruct (validateSpec (Spec d1)); [apply hwp_phwp, Herr |].
  apply Reconcile_conditions_start; assumption.
Qed.

End Start.

(** X17. The start of an update.  When the site is fetched without the
    "updateInProgress" annotation and the pass persists it with the
    annotation, that call is an update of the resource, not of the status;
    the site is ready and initialized; the call just before it fetched the
    deployment of the site and found another release than the spec's on
    its pod template; and every call before only inspected the cluster: no
    object was created, updated or deleted, and no command but the two
    that report was run. *)
Theorem Reconcile_update_start {E : Externals} {W : Type} (h : Handler W) (w w1 : W)
    (req : NamespacedName) (d : DrupalSite) :
  h _ (GetDrupalSite req) w = (inl d, w1) ->
  unmarked d ->
  forall pre e post d',
    (run h (Reconcile req) w).2 = (pre ++ e :: post)%list ->
    persisted e = Some d' ->
    ~ unmarked d' ->
    (exists r, e = Ev (Update d') r) /\
    ConditionTrue d' "Ready" = true /\
    ConditionTrue d' "Initialized" = true /\
    (exists pre0 deployment,
       pre = (pre0 ++ [Ev (GetDeployment (siteKey d')) (inl deployment)])%list /\
       index (Template_Annotations deployment) "releaseID" <> releaseID d') /\
    Forall inspecting pre.
Proof.
  intros Hget Hu pre e post d' Htr He Hm.
  unfold Reconcile in Htr. rewrite run_bind, run_call, Hget in Htr.
  cbn [fst snd] in Htr.
  pose proof (wpp_run h _ _ _ w1 (Reconcile_rest_start req d Hu)) as Hrest.
  cbv zeta in Hrest.
  match type of Hrest with
  | match (run h ?p w1).1.1 with _ => _ end =>
      destruct (run h p w1) as [[a' w2] tr] eqn:Hrun
  end.
  cbn [fst snd] in Htr, Hrest.
  assert (Hj : justified updateStart [Ev (GetDrupalSite req) (inl d)] tr)
    by (destruct a'; apply Hrest).
  destruct pre as [| e0 pre]; simpl in Htr.
  - injection Htr as <- _. discriminate.
  - injection Htr as <- Htr.
    pose proof (Hj pre e post Htr) as H. unfold updateStart in H.
    rewrite He in H. exact (H Hm).
Qed.

Lemma Reconcile_update_start_witness :
  let tr := (run fakeClient (Reconcile req0) clusterOutdated).2 in
  (exists r, List.last tr (Ev timeNow 0) = Ev (Update siteMarked) r) /\
  ConditionTrue siteMarked "Ready" = true /\
  ConditionTrue siteMarked "Initialized" = true /\
  (exists pre0 deployment,
     List.removelast tr =
       (pre0 ++ [Ev (GetDeployment (siteKey siteMarked)) (inl deployment)])%list /\
     index (Template_Annotations deployment) "releaseID" <> releaseID siteMarked) /\
  Forall inspecting (List.removelast tr).
Proof.
  cbv zeta.
  apply (Reconcile_update_start (E := refExternals) fakeClient clusterOutdated clusterOutdated
           req0 siteServing eq_refl eq_refl
           (List.removelast (run fakeClient (Reconcile req0) clusterOutdated).2)
           (List.last (run fakeClient (Reconcile req0) clusterOutdated).2 (Ev timeNow 0))
           [] siteMarked).
  - vm_compute. reflexivity.
  - vm_compute. reflexivity.
  - unfold unmarked. vm_compute. discriminate.
Defined.

(** ** The first pass over a site *)

Lemma ContainsFinalizer_same (d d' : DrupalSite) (f : string) :
  Finalizers d' = Finalizers d -> ContainsFinalizer d' f = ContainsFinalizer d f.
Proof. unfold ContainsFinalizer. intros ->. reflexivity. Qed.

Lemma Finalizers_setConditionStatus {E : Externals} (d : DrupalSite) t flag err unknown :
  Finalizers (setConditionStatus d t flag err unknown).2 = Finalizers d.
Proof.
  unfold setConditionStatus, SetCondition. destruct (status.SetCondition _ _). reflexivity.
Qed.

Lemma ConditionTrue_setErrorCondition {E : Externals} (d : DrupalSite)
    (err : reconcileError) :
  ConditionTrue (setErrorCondition d err).2 "Error" = true.
Proof.
  unfold setErrorCondition, setConditionStatus. cbv zeta.
  rewrite ConditionTrue_SetCondition. reflexivity.
Qed.

Lemma Reconcile_first_pass_wp {E : Externals} (d : DrupalSite) :
  ContainsFinalizer d finalizerStr = false ->
  wp (r <- ensureSpecFinalizer d ;;
      let '(drupalSite, update, specErr) := r in
      match specErr with
      | Some specErr =>
          let '(_, drupalSite) := setErrorCondition drupalSite specErr in
          updateCRStatusOrFailReconcile drupalSite
      | None =>
          if update then updateCRorFailReconcile drupalSite
          else
            match validateSpec (Spec drupalSite) with
            | Some specErr =>
                let '(_, drupalSite) := setErrorCondition drupalSite specErr in
                updateCRStatusOrFailReconcile drupalSite
            | None => Reconcile_conditions None drupalSite
            end
      end)%prog
    (fun tr _ =>
       exists pre e d',
         tr = (pre ++ [e])%list /\ Forall inspecting pre /\
         ContainsFinalizer d' finalizerStr = true /\
         ((exists r, e = Ev (Update d') r) \/
          (exists r, e = Ev (StatusUpdate d') r) /\ ConditionTrue d' "Error" = true)).
Proof.
  intros Hfin. apply wp_bind.
  eapply wp_mono;
    [| exact (wp_conj _ _ _ (ensureSpecFinalizer_wp d) (ensureSpecFinalizer_inspecting d))].
  intros tr1 [[d1 update] specErr] [(Hup & Hf1 & _) [Hins _]]. cbn [fst snd] in Hup, Hf1.
  destruct specErr as [specErr |].
  - pose proof (Finalizers_setConditionStatus d1 "Error" true (Some specErr) false) as Hfs.
    pose proof (ConditionTrue_setErrorCondition d1 specErr) as Hct.
    unfold setErrorCondition in *.
    destruct (setConditionStatus d1 "Error" true (Some specErr) false) as [ch d2].
    cbn [fst snd] in Hfs, Hct.
    unfold updateCRStatusOrFailReconcile. cbn [bind call wp]. intros r.
    assert (Hq : exists pre e d',
               (tr1 ++ [Ev (StatusUpdate d2) r])%list = (pre ++ [e])%list /\
               Forall inspecting pre /\ ContainsFinalizer d' finalizerStr = true /\
               ((exists r, e = Ev (Update d') r) \/
                (exists r, e = Ev (StatusUpdate d') r) /\ ConditionTrue d' "Error" = true)).
    { exists tr1, (Ev (StatusUpdate d2) r), d2. split; [reflexivity |]. split; [exact Hins |].
      split; [rewrite (ContainsFinalizer_same d1 d2 _ Hfs); exact Hf1 |].
      right. split; [eauto | exact Hct]. }
    destruct r as [e |]; [destruct (IsConflict e) |]; cbn [wp]; rewrite ?app_nil_r; exact Hq.
  - rewrite Hfin in Hup. cbn [negb] in Hup. subst update.
    unfold updateCRorFailReconcile. cbn [bind call wp]. intros r.
    assert (Hq : exists pre e d',
               (tr1 ++ [Ev (Update d1) r])%list = (pre ++ [e])%list /\
               Forall inspecting pre /\ ContainsFinalizer d' finalizerStr = true /\
               ((exists r, e = Ev (Update d') r) \/
                (exists r, e = Ev (StatusUpdate d') r) /\ ConditionTrue d' "Error" = true)).
    { exists tr1, (Ev (Update d1) r), d1. split; [reflexivity |]. split; [exact Hins |].
      split; [exact Hf1 |]. left. eauto. }
    destruct r as [e |]; [destruct (IsConflict e) |]; cbn [wp]; rewrite ?app_nil_r; exact Hq.
Qed.



(** ** The list of backups in the status *)

Lemma Reconcile_backups_wp {E : Externals} (d : DrupalSite) (requeueFlag : option error) :
  LabelSelectorAsSelector (backupLabels d) = None ->
  wp (Reconcile_backups d requeueFlag)
    (fun tr r =>
       exists answer rest,
         tr = Ev (ListBackups veleroNamespace (backupLabels d)) answer :: rest /\
         backupsSynced d requeueFlag answer rest r).
Proof.
  intros Hsel. unfold Reconcile_backups, checkNewBackups. rewrite Hsel.
  cbn [bind call wp]. intros [items | err].
  - assert (Hfilter : (length items =? 0)%nat = true -> List.filter isCompleted items = []).
    { intros H. apply Nat.eqb_eq in H. destruct items; [reflexivity | discriminate]. }
    set (completed := List.filter isCompleted items).
    assert (Hprog :
      wp (if negb (length completed =? 0)%nat then
            match backupListUpdateNeeded completed (AvailableBackups (Status d)) with
            | None => Panic
            | Some true =>
                updateCRStatusOrFailReconcile
                  (set_AvailableBackups d (updateBackupListStatus completed))
            | Some false => Ret (emptyResult, requeueFlag)
            end
          else Ret (emptyResult, requeueFlag))
        (fun tr r =>
           exists answer rest,
             Ev (ListBackups veleroNamespace (backupLabels d)) (inl items) :: tr =
               Ev (ListBackups veleroNamespace (backupLabels d)) answer :: rest /\
             backupsSynced d requeueFlag answer rest r)).
    { destruct (length completed =? 0)%nat eqn:Hlen; cbn [negb].
      - apply Nat.eqb_eq in Hlen. cbn [wp]. exists (inl items), []. split; [reflexivity |].
        unfold backupsSynced. cbv zeta. fold completed.
        split; [auto |]. split; [auto |]. intros e [].
      - apply Nat.eqb_neq in Hlen.
        assert (Hne : completed <> []) by (intros H; rewrite H in Hlen; apply Hlen; reflexivity).
        destruct (backupListUpdateNeeded_iff completed (AvailableBackups (Status d)))
          as (b & Hb & _).
        rewrite Hb. destruct b.
        + unfold updateCRStatusOrFailReconcile. cbn [bind call wp]. intros x.
          assert (Hq : exists answer rest,
                     [Ev (ListBackups veleroNamespace (backupLabels d)) (inl items);
                      Ev (StatusUpdate
                            (set_AvailableBackups d (updateBackupListStatus completed))) x] =
                     Ev (ListBackups veleroNamespace (backupLabels d)) answer :: rest /\
                     forall r, backupsSynced d requeueFlag answer rest r).
          { eexists (inl items), [_]. split; [reflexivity |].
            intros r. unfold backupsSynced. cbv zeta. fold completed.
            split; [intros H; contradiction |]. split; [rewrite Hb; discriminate |].
            intros e [<- | []]. split; [exact Hne |]. split; [exact Hb | eauto]. }
          destruct Hq as (answer & rest & Heq & Hq).
          destruct x as [e |]; [destruct (IsConflict e) |]; cbn [wp];
            exists answer, rest; (split; [exact Heq | apply Hq]).
        + cbn [wp]. exists (inl items), []. split; [reflexivity |].
          unfold backupsSynced. cbv zeta. fold completed.
          split; [auto |]. split; [auto |]. intros e []. }
    destruct (length items =? 0)%nat eqn:Hlen; cbn [wp bind].
    + specialize (Hfilter eq_refl). subst completed. rewrite Hfilter in Hprog.
      exact Hprog.
    + exact Hprog.
  - cbn [wp]. exists (inr err), []. split; [reflexivity |].
    split; [reflexivity | eauto].
Qed.

(** X19. The backups in the status.  Reconcile_backups lists the backups of the
    site once.  It writes the status only when some listed backup is
    completed and the completed ones differ from the status in number or in
    a name, and then with exactly the completed backups.  When no listed
    backup is completed it writes nothing, so the backups that the status
    lists stay listed after the last of them is gone. *)
Theorem Reconcile_backups_sync {E : Externals} {W : Type} (h : Handler W) (w : W)
    (d : DrupalSite) (requeueFlag : option error) :
  LabelSelectorAsSelector (backupLabels d) = None ->
  let out := run h (Reconcile_backups d requeueFlag) w in
  exists answer rest r,
    out.1.1 = Some r /\
    out.2 = Ev (ListBackups veleroNamespace (backupLabels d)) answer :: rest /\
    backupsSynced d requeueFlag answer rest r.
Proof.
  intros Hsel. cbv zeta.
  destruct (wp_run h _ _ w (Reconcile_backups_wp d requeueFlag Hsel))
    as (r & Hr & answer & rest & Htr & Hq).
  exists answer, rest, r. auto.
Qed.

Lemma Reconcile_backups_sync_witness :
  let out := run fakeClient (Reconcile_backups (E := refExternals) siteServing None)
               clusterBackingUp in
  exists answer rest r,
    out.1.1 = Some r /\
    out.2 = Ev (ListBackups veleroNamespace (backupLabels siteServing)) answer :: rest /\
    backupsSynced siteServing None answer rest r.
Proof.
  apply (Reconcile_backups_sync (E := refExternals) fakeClient clusterBackingUp siteServing None).
  reflexivity.
Defined.

(** ** Environment of a container *)

(** X20. checkIfEnvVarExists answers true exactly when some variable of the
    array has the name, and checkIfEnvFromSourceExists exactly when some
    source of the array refers to a secret of the name: a source that
    refers to a config map of that name, or to nothing, does not count. *)
Theorem checkIfEnv_spec (envVarName : string) :
  (forall envVarArray,
     checkIfEnvVarExists envVarArray envVarName = true <->
     exists item, In item envVarArray /\ Env_Name item = envVarName) /\
  (forall envFromSourceArray,
     checkIfEnvFromSourceExists envFromSourceArray envVarName = true <->
     exists item ref,
       In item envFromSourceArray /\ SecretRef item = Some ref /\
       SecretRef_Name ref = envVarName).
Proof.
  split.
  - induction envVarArray as [| item rest IH]; simpl.
    + split; [discriminate | intros (? & [] & _)].
    + destruct (String.eqb (Env_Name item) envVarName) eqn:Heq.
      * apply String.eqb_eq in Heq. split; [eauto | reflexivity].
      * apply String.eqb_neq in Heq. rewrite IH. split.
        -- intros (x & Hin & Hx). eauto.
        -- intros (x & [<- | Hin] & Hx); [contradiction | eauto].
  - induction envFromSourceArray as [| item rest IH]; simpl.
    + split; [discriminate | intros (? & ? & [] & _)].
    + destruct (SecretRef item) as [ref |] eqn:Href.
      * destruct (String.eqb (SecretRef_Name ref) envVarName) eqn:Heq.
        -- apply String.eqb_eq in Heq. split; [eauto 6 | reflexivity].
        -- apply String.eqb_neq in Heq. rewrite IH. split.
           ++ intros (x & r & Hin & Hx). eauto 6.
           ++ intros (x & r & [<- | Hin] & Hr & Hx); [congruence | eauto].
      * rewrite IH. split.
        -- intros (x & r & Hin & Hx). eauto 6.
        -- intros (x & r & [<- | Hin] & Hr & Hx); [congruence | eauto].
Qed.
